(** * The peer manager of the overlay network

    A shallow embedding of [ironfish/src/network/peers/peerManager.ts] and
    the properties of its handshake, relay, gossip and disposal logic.

    JavaScript objects are references: peers and connections live in two
    heaps of the [World] and are named by their index; the manager's
    [peers] array holds peer references and its [identifiedPeers] map is a
    JavaScript [Map], kept in insertion order.  Numbers are integers ([Z]).
    Everything a handler makes observable (events fired on the manager's
    public buses, frames handed to a peer or to a connection) is appended
    to the [events] of the world. *)

From Stdlib Require Import String ZArith List Bool Arith Lia DecimalString.
Import ListNotations.
Open Scope Z_scope.

(** ** JavaScript maps with string keys

    A [Map] iterates in insertion order; [set] on a present key keeps its
    position. *)
Module JsMap.
Section Ops.
Context {V : Type}.
Definition t := list (string * V).

Fixpoint get (k : string) (m : t) : option V :=
  match m with
  | [] => None
  | (k', v) :: m' => if String.eqb k k' then Some v else get k m'
  end.

Definition has (k : string) (m : t) : bool :=
  match get k m with Some _ => true | None => false end.

Fixpoint set (k : string) (v : V) (m : t) : t :=
  match m with
  | [] => [(k, v)]
  | (k', v') :: m' =>
      if String.eqb k k' then (k', v) :: m' else (k', v') :: set k v m'
  end.

Fixpoint delete (k : string) (m : t) : t :=
  match m with
  | [] => []
  | (k', v') :: m' =>
      if String.eqb k k' then delete k m' else (k', v') :: delete k m'
  end.

Definition values (m : t) : list V := map snd m.
Definition keys (m : t) : list string := map fst m.
End Ops.
Arguments t : clear implicits.
End JsMap.

(** ** Identities, versions and messages *)

Definition Identity := string.
Definition PeerId := nat.
Definition ConnId := nat.

(** Modelled from the spec: [canInitiateWebRTC] of network/identity.ts, which
    is not among the sources.  Spec 4.A: true iff the first identity is
    lexicographically smaller than the second. *)
Definition canInitiateWebRTC (source dest : Identity) : bool :=
  String.ltb source dest.

(** Modelled from the spec: [canKeepDuplicateConnection] of
    network/identity.ts.  Spec 4.A: true iff the owner of the connection to
    keep is smaller than the other side. *)
Definition canKeepDuplicateConnection (source dest : Identity) : bool :=
  String.ltb source dest.

(** Modelled from the spec: the version tuple of network/version.ts and its
    compatibility test (spec 3: equal [protocolVersion]). *)
Record Version := mkVersion {
  agent : string;
  protocolVersion : Z;
  client : string
}.

Definition versionsAreCompatible (a b : Version) : bool :=
  protocolVersion a =? protocolVersion b.

(** Modelled from the spec: the reasons of a Disconnecting frame (spec 6).
    Their encoding is in network/messages.ts, which is not among the
    sources; where the handshake writes [reason || Congested] every reason
    is taken to be truthy. *)
Inductive DisconnectingReason :=
  ShuttingDown | Congested | BadHandshake | Unknown.

(** Modelled from the spec: an entry of a peer list (spec 6), with the
    fields the manager reads and writes. *)
Record PeerListEntry := mkEntry {
  entry_identity : Identity;
  entry_name : option string;
  entry_address : option string;
  entry_port : option Z
}.

(** Modelled from the spec: the frames of network/messages.ts (spec 6),
    which is not among the sources; one constructor per type guard
    ([isIdentify], [isSignalRequest], [isSignal], [isPeerList],
    [isDisconnectingMessage]); [Other] is any other frame. *)
Inductive Message :=
| Identify (identity : string) (version : string) (port : option Z)
           (name : option string) (isWorker : option bool)
| SignalRequest (sourceIdentity destinationIdentity : Identity)
| Signal (sourceIdentity destinationIdentity : Identity) (nonce signal : string)
| PeerList (connectedPeers : list PeerListEntry)
| Disconnecting (sourceIdentity : Identity) (destinationIdentity : option Identity)
                (reason : DisconnectingReason) (disconnectUntil : Z)
| Other (type : string) (payload : string).

(** JavaScript truthiness of a nullable string and of a nullable number. *)
Definition truthy (o : option string) : bool :=
  match o with
  | Some s => negb (String.eqb s EmptyString)
  | None => false
  end.

Definition truthyZ (o : option Z) : bool :=
  match o with
  | Some n => negb (n =? 0)
  | None => false
  end.

(** [x || null] and [x || undefined]. *)
Definition orNull (o : option string) : option string :=
  if truthy o then o else None.

Definition orNullZ (o : option Z) : option Z :=
  if truthyZ o then o else None.

(** ** Connections *)

Inductive ConnectionType := WebSocket | WebRtc.
Inductive ConnectionDirection := Inbound | Outbound.

Module CState.
Inductive t :=
| CONNECTING
| WAITING_FOR_IDENTITY
| REQUEST_SIGNALING
| SIGNALING
| CONNECTED (identity : Identity)
| DISCONNECTED.

Definition isConnected (s : t) : bool :=
  match s with CONNECTED _ => true | _ => false end.

Definition isDisconnected (s : t) : bool :=
  match s with DISCONNECTED => true | _ => false end.

(** Modelled from the spec: the transition table of section 3. *)
Definition validTransition (from to : t) : bool :=
  match from, to with
  | CONNECTING, (WAITING_FOR_IDENTITY | SIGNALING | REQUEST_SIGNALING | DISCONNECTED) => true
  | REQUEST_SIGNALING, (SIGNALING | DISCONNECTED) => true
  | SIGNALING, (WAITING_FOR_IDENTITY | DISCONNECTED) => true
  | WAITING_FOR_IDENTITY, (CONNECTED _ | DISCONNECTED) => true
  | CONNECTED _, DISCONNECTED => true
  | _, _ => false
  end.
End CState.

Module PState.
Inductive t := DISCONNECTED | CONNECTING | CONNECTED.

Definition eqb (a b : t) : bool :=
  match a, b with
  | DISCONNECTED, DISCONNECTED | CONNECTING, CONNECTING | CONNECTED, CONNECTED => true
  | _, _ => false
  end.
End PState.

Inductive CloseError :=
| NetworkError (message : string)
| Error (message : string).

Definition ConnectionType_eqb (a b : ConnectionType) : bool :=
  match a, b with
  | WebSocket, WebSocket | WebRtc, WebRtc => true
  | _, _ => false
  end.

Definition ConnectionDirection_eqb (a b : ConnectionDirection) : bool :=
  match a, b with
  | Inbound, Inbound | Outbound, Outbound => true
  | _, _ => false
  end.

Definition renderType (t : ConnectionType) : string :=
  match t with WebSocket => "WebSocket" | WebRtc => "WebRtc" end.

Definition renderDirection (d : ConnectionDirection) : string :=
  match d with Inbound => "Inbound" | Outbound => "Outbound" end.

(** Modelled from the spec: a connection object of peers/connections (spec
    3, 4.B and 9).  [c_boundTo] is the peer whose handlers listen to the
    connection, [c_identifyPending] the one-shot handler that
    [initConnectionHandlers] leaves on it, [c_broker]/[c_target] the peers
    captured by the [onSignal] handler of [initWebRtcConnection]. *)
Record Connection := mkConnection {
  c_type : ConnectionType;
  c_direction : ConnectionDirection;
  c_state : CState.t;
  c_error : option CloseError;
  c_hostname : option string;
  c_port : option Z;
  c_initiator : bool;
  c_boundTo : option PeerId;
  c_identifyPending : bool;
  c_broker : option PeerId;
  c_target : option PeerId
}.

Definition c_with_state (s : CState.t) (c : Connection) : Connection :=
  mkConnection (c_type c) (c_direction c) s (c_error c) (c_hostname c) (c_port c)
    (c_initiator c) (c_boundTo c) (c_identifyPending c) (c_broker c) (c_target c).

Definition c_with_error (e : option CloseError) (c : Connection) : Connection :=
  mkConnection (c_type c) (c_direction c) (c_state c) e (c_hostname c) (c_port c)
    (c_initiator c) (c_boundTo c) (c_identifyPending c) (c_broker c) (c_target c).

Definition c_with_port (p : option Z) (c : Connection) : Connection :=
  mkConnection (c_type c) (c_direction c) (c_state c) (c_error c) (c_hostname c) p
    (c_initiator c) (c_boundTo c) (c_identifyPending c) (c_broker c) (c_target c).

Definition c_with_boundTo (b : option PeerId) (c : Connection) : Connection :=
  mkConnection (c_type c) (c_direction c) (c_state c) (c_error c) (c_hostname c) (c_port c)
    (c_initiator c) b (c_identifyPending c) (c_broker c) (c_target c).

Definition c_with_identifyPending (b : bool) (c : Connection) : Connection :=
  mkConnection (c_type c) (c_direction c) (c_state c) (c_error c) (c_hostname c) (c_port c)
    (c_initiator c) (c_boundTo c) b (c_broker c) (c_target c).

Definition c_with_signalling (broker target : option PeerId) (c : Connection) : Connection :=
  mkConnection (c_type c) (c_direction c) (c_state c) (c_error c) (c_hostname c) (c_port c)
    (c_initiator c) (c_boundTo c) (c_identifyPending c) broker target.

(** ** Retry policy *)

(** Modelled from the spec: the retry state of peers/connectionRetry (spec 3
    and 4.C).  The spec leaves the back-off schedule open ("exponential,
    capped at a ceiling"); it is the parameter [backoff]. *)
Record ConnectionRetry := mkRetry {
  neverRetry : bool;
  cooldownUntil : Z;
  consecutiveFailures : nat
}.

Definition newRetry : ConnectionRetry := mkRetry false 0 O.

Definition canConnect (now : Z) (r : ConnectionRetry) : bool :=
  negb (neverRetry r) && (cooldownUntil r <=? now).

Definition willNeverRetryConnecting (r : ConnectionRetry) : bool := neverRetry r.

Definition neverRetryConnecting (r : ConnectionRetry) : ConnectionRetry :=
  mkRetry true (cooldownUntil r) (consecutiveFailures r).

Definition failedConnection (backoff : nat -> Z) (now : Z) (isWhitelisted : bool)
    (r : ConnectionRetry) : ConnectionRetry :=
  if isWhitelisted then mkRetry (neverRetry r) now (consecutiveFailures r)
  else mkRetry (neverRetry r)
               (now + backoff (S (consecutiveFailures r)))
               (S (consecutiveFailures r)).

(** One retry state per transport and direction; a peer may lack one (the
    manager reads them with [?.]). *)
Record RetryTable := mkRetries {
  r_ws_in : option ConnectionRetry;
  r_ws_out : option ConnectionRetry;
  r_rtc_in : option ConnectionRetry;
  r_rtc_out : option ConnectionRetry
}.

Definition retryOf (t : ConnectionType) (d : ConnectionDirection) (rs : RetryTable)
    : option ConnectionRetry :=
  match t, d with
  | WebSocket, Inbound => r_ws_in rs
  | WebSocket, Outbound => r_ws_out rs
  | WebRtc, Inbound => r_rtc_in rs
  | WebRtc, Outbound => r_rtc_out rs
  end.

Definition updateRetry (t : ConnectionType) (d : ConnectionDirection)
    (f : ConnectionRetry -> ConnectionRetry) (rs : RetryTable) : RetryTable :=
  match t, d with
  | WebSocket, Inbound => mkRetries (option_map f (r_ws_in rs)) (r_ws_out rs) (r_rtc_in rs) (r_rtc_out rs)
  | WebSocket, Outbound => mkRetries (r_ws_in rs) (option_map f (r_ws_out rs)) (r_rtc_in rs) (r_rtc_out rs)
  | WebRtc, Inbound => mkRetries (r_ws_in rs) (r_ws_out rs) (option_map f (r_rtc_in rs)) (r_rtc_out rs)
  | WebRtc, Outbound => mkRetries (r_ws_in rs) (r_ws_out rs) (r_rtc_in rs) (option_map f (r_rtc_out rs))
  end.

(** ** Peers *)

(** [peer.state]: its type, the identity and the two connection slots. *)
Record PeerState := mkPeerState {
  type : PState.t;
  identity : option Identity;
  webSocket : option ConnId;
  webRtc : option ConnId
}.

(** Modelled from the spec: a peer record of peers/peer (spec 3 and 4.D).
    [knownPeers] maps an identity to a peer reference as in the source.
    [subscribed] tells whether the handlers the manager attaches in
    [getOrCreatePeer] are still in place ([dispose] releases them);
    [identifyHandler] is the one-shot handler of an unidentified peer. *)
Record Peer := mkPeer {
  state : PeerState;
  name : option string;
  address : option string;
  port : option Z;
  version : option Version;
  isWorker : bool;
  isWhitelisted : bool;
  localRequestedDisconnectUntil : option Z;
  localRequestedDisconnectReason : option DisconnectingReason;
  peerRequestedDisconnectUntil : option Z;
  peerRequestedDisconnectReason : option DisconnectingReason;
  knownPeers : JsMap.t PeerId;
  connectionRetries : RetryTable;
  subscribed : bool;
  identifyHandler : bool
}.

Definition with_state (v : PeerState) (p : Peer) : Peer :=
  mkPeer v (name p) (address p) (port p) (version p) (isWorker p) (isWhitelisted p)
    (localRequestedDisconnectUntil p) (localRequestedDisconnectReason p)
    (peerRequestedDisconnectUntil p) (peerRequestedDisconnectReason p)
    (knownPeers p) (connectionRetries p) (subscribed p) (identifyHandler p).

Definition with_name (v : option string) (p : Peer) : Peer :=
  mkPeer (state p) v (address p) (port p) (version p) (isWorker p) (isWhitelisted p)
    (localRequestedDisconnectUntil p) (localRequestedDisconnectReason p)
    (peerRequestedDisconnectUntil p) (peerRequestedDisconnectReason p)
    (knownPeers p) (connectionRetries p) (subscribed p) (identifyHandler p).

Definition with_address (a : option string) (n : option Z) (p : Peer) : Peer :=
  mkPeer (state p) (name p) a n (version p) (isWorker p) (isWhitelisted p)
    (localRequestedDisconnectUntil p) (localRequestedDisconnectReason p)
    (peerRequestedDisconnectUntil p) (peerRequestedDisconnectReason p)
    (knownPeers p) (connectionRetries p) (subscribed p) (identifyHandler p).

Definition with_version (v : option Version) (p : Peer) : Peer :=
  mkPeer (state p) (name p) (address p) (port p) v (isWorker p) (isWhitelisted p)
    (localRequestedDisconnectUntil p) (localRequestedDisconnectReason p)
    (peerRequestedDisconnectUntil p) (peerRequestedDisconnectReason p)
    (knownPeers p) (connectionRetries p) (subscribed p) (identifyHandler p).

Definition with_isWorker (v : bool) (p : Peer) : Peer :=
  mkPeer (state p) (name p) (address p) (port p) (version p) v (isWhitelisted p)
    (localRequestedDisconnectUntil p) (localRequestedDisconnectReason p)
    (peerRequestedDisconnectUntil p) (peerRequestedDisconnectReason p)
    (knownPeers p) (connectionRetries p) (subscribed p) (identifyHandler p).

Definition with_isWhitelisted (v : bool) (p : Peer) : Peer :=
  mkPeer (state p) (name p) (address p) (port p) (version p) (isWorker p) v
    (localRequestedDisconnectUntil p) (localRequestedDisconnectReason p)
    (peerRequestedDisconnectUntil p) (peerRequestedDisconnectReason p)
    (knownPeers p) (connectionRetries p) (subscribed p) (identifyHandler p).

Definition with_localRequestedDisconnect (u : option Z) (r : option DisconnectingReason)
    (p : Peer) : Peer :=
  mkPeer (state p) (name p) (address p) (port p) (version p) (isWorker p) (isWhitelisted p)
    u r (peerRequestedDisconnectUntil p) (peerRequestedDisconnectReason p)
    (knownPeers p) (connectionRetries p) (subscribed p) (identifyHandler p).

Definition with_peerRequestedDisconnect (u : option Z) (r : option DisconnectingReason)
    (p : Peer) : Peer :=
  mkPeer (state p) (name p) (address p) (port p) (version p) (isWorker p) (isWhitelisted p)
    (localRequestedDisconnectUntil p) (localRequestedDisconnectReason p) u r
    (knownPeers p) (connectionRetries p) (subscribed p) (identifyHandler p).

Definition with_knownPeers (k : JsMap.t PeerId) (p : Peer) : Peer :=
  mkPeer (state p) (name p) (address p) (port p) (version p) (isWorker p) (isWhitelisted p)
    (localRequestedDisconnectUntil p) (localRequestedDisconnectReason p)
    (peerRequestedDisconnectUntil p) (peerRequestedDisconnectReason p)
    k (connectionRetries p) (subscribed p) (identifyHandler p).

Definition with_connectionRetries (r : RetryTable) (p : Peer) : Peer :=
  mkPeer (state p) (name p) (address p) (port p) (version p) (isWorker p) (isWhitelisted p)
    (localRequestedDisconnectUntil p) (localRequestedDisconnectReason p)
    (peerRequestedDisconnectUntil p) (peerRequestedDisconnectReason p)
    (knownPeers p) r (subscribed p) (identifyHandler p).

Definition with_handlers (s i : bool) (p : Peer) : Peer :=
  mkPeer (state p) (name p) (address p) (port p) (version p) (isWorker p) (isWhitelisted p)
    (localRequestedDisconnectUntil p) (localRequestedDisconnectReason p)
    (peerRequestedDisconnectUntil p) (peerRequestedDisconnectReason p)
    (knownPeers p) (connectionRetries p) s i.

(** [new Peer(identity)]: disconnected, nothing known, a fresh retry state
    for each transport and direction (spec 3), no handler attached yet. *)
Definition newPeer (i : option Identity) : Peer :=
  mkPeer (mkPeerState PState.DISCONNECTED i None None)
    None None None None false false None None None None []
    (mkRetries (Some newRetry) (Some newRetry) (Some newRetry) (Some newRetry))
    false false.

(** ** The world: both heaps, the manager's fields, what was observed *)

Inductive Event :=
| OnConnect (p : PeerId)
| OnDisconnect (p : PeerId)
| OnMessage (p : PeerId) (peerIdentity : Identity) (m : Message)
| OnKnownPeersChanged (p : PeerId)
| OnConnectedPeersChanged
| PeerSend (p : PeerId) (m : Message) (via : option ConnId)
| ConnectionSend (c : ConnId) (m : Message) (accepted : bool)
| ConnectionSignal (c : ConnId) (data : string)
| FatalTransition (c : ConnId).

Record World := mkWorld {
  connections : ConnId -> Connection;
  nextConnection : ConnId;
  peerHeap : PeerId -> Peer;
  nextPeer : PeerId;
  peers : list PeerId;
  identifiedPeers : JsMap.t PeerId;
  broadcastPeerListHandle : option Z;
  disposePeersHandle : option Z;
  events : list Event
}.

Definition w_connections (f : ConnId -> Connection) (n : ConnId) (w : World) : World :=
  mkWorld f n (peerHeap w) (nextPeer w) (peers w) (identifiedPeers w)
    (broadcastPeerListHandle w) (disposePeersHandle w) (events w).

Definition w_peerHeap (f : PeerId -> Peer) (n : PeerId) (w : World) : World :=
  mkWorld (connections w) (nextConnection w) f n (peers w) (identifiedPeers w)
    (broadcastPeerListHandle w) (disposePeersHandle w) (events w).

Definition w_peers (l : list PeerId) (w : World) : World :=
  mkWorld (connections w) (nextConnection w) (peerHeap w) (nextPeer w) l (identifiedPeers w)
    (broadcastPeerListHandle w) (disposePeersHandle w) (events w).

Definition w_identifiedPeers (m : JsMap.t PeerId) (w : World) : World :=
  mkWorld (connections w) (nextConnection w) (peerHeap w) (nextPeer w) (peers w) m
    (broadcastPeerListHandle w) (disposePeersHandle w) (events w).

Definition w_handles (b d : option Z) (w : World) : World :=
  mkWorld (connections w) (nextConnection w) (peerHeap w) (nextPeer w) (peers w)
    (identifiedPeers w) b d (events w).

(** Events are kept most recent first. *)
Definition emit (e : Event) (w : World) : World :=
  mkWorld (connections w) (nextConnection w) (peerHeap w) (nextPeer w) (peers w)
    (identifiedPeers w) (broadcastPeerListHandle w) (disposePeersHandle w) (e :: events w).

Definition updPeer (p : PeerId) (f : Peer -> Peer) (w : World) : World :=
  w_peerHeap (fun q => if Nat.eqb q p then f (peerHeap w q) else peerHeap w q) (nextPeer w) w.

Definition updConn (c : ConnId) (f : Connection -> Connection) (w : World) : World :=
  w_connections (fun d => if Nat.eqb d c then f (connections w d) else connections w d)
    (nextConnection w) w.

Definition peerState (w : World) (p : PeerId) : PeerState := state (peerHeap w p).
Definition connState (w : World) (c : ConnId) : CState.t := c_state (connections w c).

Definition eqSlot (slot : option ConnId) (c : ConnId) : bool :=
  match slot with Some d => Nat.eqb d c | None => false end.

Definition slotConnected (w : World) (slot : option ConnId) : bool :=
  match slot with
  | Some c => CState.isConnected (connState w c)
  | None => false
  end.

(** ** The methods of connections and peers

    Modelled from the spec: peers/peer and peers/connections are not among
    the sources; the methods below follow spec 3, 4.B and 4.D.  Events are
    synchronous: a connection that changes state calls the handlers of the
    peer it is bound to, and a peer whose state is recomputed calls its
    subscribers, here the parameter [notify] (the handlers that
    [getOrCreatePeer] attaches, defined further down). *)
Section Objects.
Variable notify : PeerId -> PState.t -> World -> World.
Variable identifyMessage : Message.

(** [send] is accepted iff the connection waits for the identity or is
    connected (spec 4.B). *)
Definition canSend (s : CState.t) : bool :=
  match s with
  | CState.WAITING_FOR_IDENTITY | CState.CONNECTED _ => true
  | _ => false
  end.

Definition Connection_send (c : ConnId) (m : Message) (w : World) : World :=
  emit (ConnectionSend c m (canSend (connState w c))) w.

(** The slots of a peer as the manager reads them: [state.connections]
    exists only when the state is not DISCONNECTED. *)
Definition wsSlot (s : PeerState) : option ConnId :=
  match type s with PState.DISCONNECTED => None | _ => webSocket s end.

Definition rtcSlot (s : PeerState) : option ConnId :=
  match type s with PState.DISCONNECTED => None | _ => webRtc s end.

(** Spec 3: a peer is DISCONNECTED without a connection, CONNECTED when
    one of its connections is, CONNECTING otherwise; a connected
    connection gives the peer its identity. *)
Definition computeType (w : World) (ws rtc : option ConnId) : PState.t :=
  match ws, rtc with
  | None, None => PState.DISCONNECTED
  | _, _ =>
      if slotConnected w ws || slotConnected w rtc
      then PState.CONNECTED else PState.CONNECTING
  end.

Definition connectedIdentity (w : World) (slot : option ConnId) : option Identity :=
  match slot with
  | Some c => match connState w c with CState.CONNECTED i => Some i | _ => None end
  | None => None
  end.

Definition computeIdentity (w : World) (prev : option Identity)
    (ws rtc : option ConnId) : option Identity :=
  match connectedIdentity w ws with
  | Some i => Some i
  | None => match connectedIdentity w rtc with Some i => Some i | None => prev end
  end.

Definition Peer_setState (p : PeerId) (ws rtc : option ConnId) (w : World) : World :=
  let prev := type (peerState w p) in
  let next := mkPeerState (computeType w ws rtc)
                (computeIdentity w (identity (peerState w p)) ws rtc) ws rtc in
  let w := updPeer p (with_state next) w in
  if subscribed (peerHeap w p) then notify p prev w else w.

Definition unbind (p : PeerId) (k : Connection) : Connection :=
  if eqSlot (c_boundTo k) p then c_with_boundTo None k else k.

Definition Peer_removeConnection (p : PeerId) (c : ConnId) (w : World) : World :=
  let w := updConn c (unbind p) w in
  let s := peerState w p in
  match type s with
  | PState.DISCONNECTED => w
  | _ =>
      Peer_setState p
        (if eqSlot (webSocket s) c then None else webSocket s)
        (if eqSlot (webRtc s) c then None else webRtc s) w
  end.

(** [close] is idempotent; the first call moves the connection to
    DISCONNECTED and the peer it is bound to drops it. *)
Definition Connection_close (c : ConnId) (err : option CloseError) (w : World) : World :=
  if CState.isDisconnected (connState w c) then w
  else
    let w := updConn c (fun k =>
               c_with_state CState.DISCONNECTED
                 (match err with Some _ => c_with_error err k | None => k end)) w in
    match c_boundTo (connections w c) with
    | Some p => Peer_removeConnection p c w
    | None => w
    end.

(** The handler that [initConnectionHandlers] leaves on a connection that
    does not yet wait for the identity: it sends our Identify frame once
    the connection does, then removes itself. *)
Definition identifyWhenWaiting (c : ConnId) (w : World) : World :=
  if c_identifyPending (connections w c) then
    match connState w c with
    | CState.WAITING_FOR_IDENTITY =>
        updConn c (c_with_identifyPending false) (Connection_send c identifyMessage w)
    | _ => w
    end
  else w.

(** [setState] enforces the transition table; an illegal transition is a
    fatal error, recorded and without effect. *)
Definition Connection_setState (c : ConnId) (s : CState.t) (w : World) : World :=
  if CState.validTransition (connState w c) s then
    let w := updConn c (c_with_state s) w in
    let w := identifyWhenWaiting c w in
    match c_boundTo (connections w c) with
    | Some p =>
        match s with
        | CState.DISCONNECTED => Peer_removeConnection p c w
        | CState.CONNECTED _ =>
            Peer_setState p (webSocket (peerState w p)) (webRtc (peerState w p)) w
        | _ => w
        end
    | None => w
    end
  else emit (FatalTransition c) w.

(** Installing a connection in a slot closes the one that was there. *)
Definition Peer_setWebSocketConnection (p : PeerId) (c : ConnId) (w : World) : World :=
  let w := match wsSlot (peerState w p) with
           | Some old => if Nat.eqb old c then w else Connection_close old None w
           | None => w
           end in
  let w := updConn c (c_with_boundTo (Some p)) w in
  Peer_setState p (Some c) (rtcSlot (peerState w p)) w.

Definition Peer_setWebRtcConnection (p : PeerId) (c : ConnId) (w : World) : World :=
  let w := match rtcSlot (peerState w p) with
           | Some old => if Nat.eqb old c then w else Connection_close old None w
           | None => w
           end in
  let w := updConn c (c_with_boundTo (Some p)) w in
  Peer_setState p (wsSlot (peerState w p)) (Some c) w.

(** [close] detaches and closes every connection of the peer. *)
Definition Peer_close (p : PeerId) (err : option CloseError) (w : World) : World :=
  let w := match rtcSlot (peerState w p) with
           | Some c => Connection_close c err (Peer_removeConnection p c w)
           | None => w
           end in
  match wsSlot (peerState w p) with
  | Some c => Connection_close c err (Peer_removeConnection p c w)
  | None => w
  end.

(** [send] hands the frame to a connected connection of the peer, the
    WebRTC one first, and drops it when there is none; the call is
    recorded with the connection that took the frame. *)
Definition Peer_send (p : PeerId) (m : Message) (w : World) : World :=
  let s := peerState w p in
  let via :=
    if slotConnected w (rtcSlot s) then rtcSlot s
    else if slotConnected w (wsSlot s) then wsSlot s
    else None in
  emit (PeerSend p m via) w.
End Objects.

(** [dispose] clears the neighbour edges and releases every subscription. *)
Definition Peer_dispose (p : PeerId) (w : World) : World :=
  updPeer p (fun r => with_handlers false false (with_knownPeers [] r)) w.

Definition Peer_setWebSocketAddress (p : PeerId) (a : option string) (n : option Z)
    (w : World) : World :=
  updPeer p (with_address a n) w.

Definition renderPort (n : option Z) : string :=
  match n with
  | Some z => NilZero.string_of_int (Z.to_int z)
  | None => "null"
  end.

Definition Peer_getWebSocketAddress (r : Peer) : option string :=
  match address r with
  | Some a => Some ("ws://" ++ a ++ ":" ++ renderPort (port r))%string
  | None => None
  end.

(** Spec 4.D: [name@identity[0..7]], or [address:port] without identity. *)
Definition displayName (r : Peer) : string :=
  match identity (state r) with
  | Some i =>
      (match name r with Some n => n | None => EmptyString end ++ "@" ++ String.substring 0 7 i)%string
  | None =>
      (match address r with Some a => a | None => "null" end ++ ":" ++ renderPort (port r))%string
  end.

Definition Peer_getConnectionRetry (r : Peer) (t : ConnectionType) (d : ConnectionDirection)
    : option ConnectionRetry :=
  retryOf t d (connectionRetries r).

Definition Peer_updateRetry (p : PeerId) (t : ConnectionType) (d : ConnectionDirection)
    (f : ConnectionRetry -> ConnectionRetry) (w : World) : World :=
  updPeer p (fun r => with_connectionRetries (updateRetry t d f (connectionRetries r)) r) w.

(** ** The manager: disposal, the identity map and the peer subscribers *)

Definition hasAConnectedPeer (w : World) (peer : PeerId) : bool :=
  existsb (fun p => PState.eqb (type (peerState w p)) PState.CONNECTED)
    (JsMap.values (knownPeers (peerHeap w peer))).

(** The condition of [tryDisposePeer]; a missing retry state makes
    [?.willNeverRetryConnecting] undefined, hence false. *)
Definition canDispose (w : World) (peer : PeerId) : bool :=
  PState.eqb (type (peerState w peer)) PState.DISCONNECTED
  && negb (hasAConnectedPeer w peer)
  && match Peer_getConnectionRetry (peerHeap w peer) WebSocket Outbound with
     | Some r => willNeverRetryConnecting r
     | None => false
     end.

Definition isPeer (peer : PeerId) (o : option PeerId) : bool :=
  match o with Some q => Nat.eqb q peer | None => false end.

(** The entry of [identifiedPeers] goes when it is this very peer's. *)
Definition forgetIdentity (peer : PeerId) (w : World) : World :=
  match identity (peerState w peer) with
  | Some i =>
      if truthy (Some i) && isPeer peer (JsMap.get i (identifiedPeers w))
      then w_identifiedPeers (JsMap.delete i (identifiedPeers w)) w
      else w
  | None => w
  end.

Definition tryDisposePeer (peer : PeerId) (w : World) : bool * World :=
  if canDispose w peer then
    let w := forgetIdentity peer (Peer_dispose peer w) in
    (true, w_peers (filter (fun p => negb (Nat.eqb p peer)) (peers w)) w)
  else (false, w).

Section IdentifiedPeerMap.
Variable notify : PeerId -> PState.t -> World -> World.

(** One transport of the merge in [updateIdentifiedPeerMap]: the
    connected connection of [peer] replaces the one of [existingPeer].
    The source reads [peer.state.connections] again at each use; a slot
    found empty there ends the step. *)
Definition mergeWebRtc (peer existingPeer : PeerId) (w : World) : World :=
  if slotConnected w (rtcSlot (peerState w peer)) then
    let w :=
      match rtcSlot (peerState w existingPeer) with
      | Some old =>
          Connection_close notify old
            (Some (NetworkError ("Replacing duplicate WebRTC connection on "
                                 ++ displayName (peerHeap w existingPeer))))
            (Peer_removeConnection notify existingPeer old w)
      | None => w
      end in
    let w := match rtcSlot (peerState w peer) with
             | Some c => Peer_setWebRtcConnection notify existingPeer c w
             | None => w
             end in
    match rtcSlot (peerState w peer) with
    | Some c => Peer_removeConnection notify peer c w
    | None => w
    end
  else w.

Definition mergeWebSocket (peer existingPeer : PeerId) (w : World) : World :=
  if slotConnected w (wsSlot (peerState w peer)) then
    let w :=
      match wsSlot (peerState w existingPeer) with
      | Some old =>
          Connection_close notify old
            (Some (NetworkError ("Replacing duplicate WebSocket connection on "
                                 ++ displayName (peerHeap w existingPeer))))
            (Peer_removeConnection notify existingPeer old w)
      | None => w
      end in
    let w := match wsSlot (peerState w peer) with
             | Some c => Peer_setWebSocketConnection notify existingPeer c w
             | None => w
             end in
    match wsSlot (peerState w peer) with
    | Some c => Peer_removeConnection notify peer c w
    | None => w
    end
  else w.

Definition updateIdentifiedPeerMap (peer : PeerId) (w : World) : World :=
  match identity (peerState w peer) with
  | None => w
  | Some i =>
      match JsMap.get i (identifiedPeers w) with
      | None => w_identifiedPeers (JsMap.set i peer (identifiedPeers w)) w
      | Some existingPeer =>
          if Nat.eqb peer existingPeer
          then w_identifiedPeers (JsMap.set i peer (identifiedPeers w)) w
          else
            match type (peerState w peer) with
            | PState.DISCONNECTED =>
                snd (tryDisposePeer peer (Peer_close notify peer None w))
            | _ =>
                let w := mergeWebRtc peer existingPeer w in
                let w := mergeWebSocket peer existingPeer w in
                let w := Peer_updateRetry peer WebSocket Outbound neverRetryConnecting w in
                snd (tryDisposePeer peer w)
            end
      end
  end.
End IdentifiedPeerMap.

(** The two handlers that [getOrCreatePeer] puts on [peer.onStateChanged],
    in the order of their registration: the one-shot handler of a peer
    created without identity, then the one that fires [onConnect] and
    [onDisconnect].  Handlers run inside the call that changes the state
    and may change states themselves; [depth] bounds this nesting. *)
Fixpoint peerStateChanged (depth : nat) (peer : PeerId) (prevState : PState.t)
    (w : World) : World :=
  match depth with
  | O => w
  | S d =>
      let w :=
        if identifyHandler (peerHeap w peer) then
          match type (peerState w peer) with
          | PState.CONNECTED =>
              updPeer peer (fun r => with_handlers (subscribed r) false r)
                (updateIdentifiedPeerMap (peerStateChanged d) peer w)
          | _ => w
          end
        else w in
      match type (peerState w peer) with
      | PState.CONNECTED =>
          if PState.eqb prevState PState.CONNECTED then w
          else emit OnConnectedPeersChanged (emit (OnConnect peer) w)
      | _ =>
          if PState.eqb prevState PState.CONNECTED
          then snd (tryDisposePeer peer
                      (emit OnConnectedPeersChanged (emit (OnDisconnect peer) w)))
          else w
      end
  end.

(** [peer.onKnownPeersChanged.emit()], forwarded by the manager. *)
Definition Peer_emitKnownPeersChanged (p : PeerId) (w : World) : World :=
  if subscribed (peerHeap w p) then emit (OnKnownPeersChanged p) w else w.

(** ** The local peer and what the manager is given *)

(** Modelled from the spec: what [parseUrl] of network/utils returns, as
    far as the manager reads it. *)
Record Url := mkUrl {
  protocol : option string;
  hostname : option string;
  url_port : option Z
}.

(** Modelled from the spec: the local peer of peers/localPeer, with the
    fields and the cryptography interface (spec 6) that the manager uses. *)
Record LocalPeer := mkLocalPeer {
  publicIdentity : Identity;
  lp_version : Version;
  lp_isWorker : bool;
  broadcastWorkers : bool;
  getIdentifyMessage : Message;
  boxMessage : string -> Identity -> string * string;
  unboxMessage : string -> string -> Identity -> option string
}.

Definition renderZ (z : Z) : string := NilZero.string_of_int (Z.to_int z).

(** ** The manager's operations

    [Env] gathers what the manager is given from outside the sources: the
    local peer, the two limits of the constructor, the clock ([Date.now]),
    the back-off schedule, the parsers of network/utils, network/identity
    and network/version, [JSON.parse], and the bound on the nesting of
    handlers. *)
Record Env := mkEnv {
  localPeer : LocalPeer;
  maxPeers : Z;
  targetPeers : Z;
  now : Z;
  backoff : nat -> Z;
  isIdentity : string -> bool;
  parseVersion : string -> Version;
  renderVersion : Version -> string;
  parseUrl : string -> Url;
  parseJson : string -> option string;
  depth : nat
}.

Section Manager.
Variable env : Env.

Local Abbreviation notify := (peerStateChanged (depth env)).
Local Abbreviation identifyMessage := (getIdentifyMessage (localPeer env)).

Definition getPeersWithConnection (w : World) : list PeerId :=
  filter (fun p => negb (PState.eqb (type (peerState w p)) PState.DISCONNECTED))
    (peers w).

Definition getConnectedPeers (w : World) : list PeerId :=
  filter (fun p => PState.eqb (type (peerState w p)) PState.CONNECTED)
    (JsMap.values (identifiedPeers w)).

Definition shouldRejectDisconnectedPeers (w : World) : bool :=
  (maxPeers env) <=? Z.of_nat (length (getPeersWithConnection w)).

Definition getPeer (i : Identity) (w : World) : option PeerId :=
  JsMap.get i (identifiedPeers w).

Definition getOrCreatePeer (i : option Identity) (w : World) : PeerId * World :=
  match match i with Some k => JsMap.get k (identifiedPeers w) | None => None end with
  | Some identifiedPeer => (identifiedPeer, w)
  | None =>
      let peer := nextPeer w in
      let w := w_peerHeap
                 (fun q => if Nat.eqb q peer then newPeer i else peerHeap w q)
                 (S peer) w in
      let w := w_peers (peers w ++ [peer]) w in
      let w :=
        match i with
        | None => updPeer peer (with_handlers false true) w
        | Some _ => updateIdentifiedPeerMap notify peer w
        end in
      (peer, updPeer peer (fun r => with_handlers true (identifyHandler r) r) w)
  end.

Definition sendTo (peer : PeerId) (m : Message) (w : World) : World :=
  Peer_send peer m w.

Definition broadcast (m : Message) (w : World) : World :=
  fold_left
    (fun w peer =>
       match type (peerState w peer) with
       | PState.CONNECTED => Peer_send peer m w
       | _ => w
       end)
    (JsMap.values (identifiedPeers w)) w.

(** [start] arms the two timers; a handle is kept as its period in
    milliseconds. *)
Definition start (w : World) : World := w_handles (Some 5000) (Some 2000) w.

Definition identityOf (w : World) (p : PeerId) : Identity :=
  match identity (peerState w p) with Some i => i | None => EmptyString end.

Definition connectedPeersPayload (w : World) : list PeerListEntry :=
  flat_map
    (fun p =>
       match type (peerState w p) with
       | PState.CONNECTED =>
           if isWorker (peerHeap w p) && negb (broadcastWorkers (localPeer env)) then []
           else [mkEntry (identityOf w p) (orNull (name (peerHeap w p)))
                   (address (peerHeap w p)) (port (peerHeap w p))]
       | _ => []
       end)
    (JsMap.values (identifiedPeers w)).

Definition broadcastPeerList (w : World) : World :=
  broadcast (PeerList (connectedPeersPayload w)) w.

Definition disposePeers (w : World) : World :=
  fold_left (fun w p => snd (tryDisposePeer p w)) (peers w) w.

(** What the timers armed by [start] run when [elapsed] milliseconds have
    passed since: each callback whose period divides the time. *)
Definition due (handle : option Z) (elapsed : Z) : bool :=
  match handle with
  | Some period => (0 <? elapsed) && (elapsed mod period =? 0)
  | None => false
  end.

Definition timers (elapsed : Z) (w : World) : World :=
  let w := if due (broadcastPeerListHandle w) elapsed then broadcastPeerList w else w in
  if due (disposePeersHandle w) elapsed then disposePeers w else w.

Definition disconnect (peer : PeerId) (reason : DisconnectingReason) (until : Z)
    (w : World) : World :=
  let w := updPeer peer (with_localRequestedDisconnect (Some until) (Some reason)) w in
  match type (peerState w peer) with
  | PState.DISCONNECTED => w
  | _ =>
      let message :=
        Disconnecting (publicIdentity (localPeer env)) (identity (peerState w peer))
          reason until in
      let w := match webRtc (peerState w peer) with
               | Some c => if canSend (connState w c) then Connection_send c message w else w
               | None => w
               end in
      let w := match webSocket (peerState w peer) with
               | Some c => if canSend (connState w c) then Connection_send c message w else w
               | None => w
               end in
      Peer_close notify peer None w
  end.

Definition stop (w : World) : World :=
  let w := w_handles None None w in
  fold_left (fun w peer => disconnect peer ShuttingDown 0 w) (peers w) w.

(** *** Opening connections *)

Definition allocConnection (k : Connection) (w : World) : ConnId * World :=
  let c := nextConnection w in
  (c, w_connections (fun d => if Nat.eqb d c then k else connections w d) (S c) w).

Definition initConnectionHandlers (connection : ConnId) (w : World) : World :=
  match connState w connection with
  | CState.WAITING_FOR_IDENTITY => Connection_send connection identifyMessage w
  | _ => updConn connection (c_with_identifyPending true) w
  end.

(** A dialled socket starts CONNECTING; an accepted one is already open
    and waits for the identity (spec 3). *)
Definition initWebSocketConnection (peer : PeerId) (direction : ConnectionDirection)
    (host : option string) (n : option Z) (w : World) : ConnId * World :=
  let '(connection, w) :=
    allocConnection
      (mkConnection WebSocket direction
         (match direction with
          | Outbound => CState.CONNECTING
          | Inbound => CState.WAITING_FOR_IDENTITY
          end)
         None (orNull host) (orNullZ n) false None false None None) w in
  let w := initConnectionHandlers connection w in
  (connection, Peer_setWebSocketConnection notify peer connection w).

(** The handler of [connection.onSignal] captures [brokeringPeer] and
    [peer]; they are kept on the connection.  The initiator's connection
    counts as outbound. *)
Definition initWebRtcConnection (brokeringPeer peer : PeerId) (initiator : bool)
    (w : World) : ConnId * World :=
  let '(connection, w) :=
    allocConnection
      (mkConnection WebRtc (if initiator then Outbound else Inbound)
         CState.CONNECTING None None None initiator None false
         (Some brokeringPeer) (Some peer)) w in
  let w := initConnectionHandlers connection w in
  (connection, Peer_setWebRtcConnection notify peer connection w).

(** The [onSignal] handler installed by [initWebRtcConnection]. *)
Definition onSignal (connection : ConnId) (data : string) (w : World) : World :=
  match c_broker (connections w connection), c_target (connections w connection) with
  | Some brokeringPeer, Some peer =>
      match identity (peerState w peer) with
      | None =>
          Connection_close notify connection
            (Some (NetworkError
               "Cannot establish a WebRTC connection without a peer identity")) w
      | Some i =>
          let '(nonce, boxedMessage) := boxMessage (localPeer env) data i in
          Peer_send brokeringPeer
            (Signal (publicIdentity (localPeer env)) i nonce boxedMessage) w
      end
  | _, _ => w
  end.

Definition retryCanConnect (r : Peer) (t : ConnectionType) : bool :=
  match Peer_getConnectionRetry r t Outbound with
  | Some x => canConnect (now env) x
  | None => false
  end.

Definition isNone {A} (o : option A) : bool :=
  match o with None => true | Some _ => false end.

Definition canConnectToWebSocket (peer : PeerId) (w : World) : bool :=
  let r := peerHeap w peer in
  let disconnected := PState.eqb (type (state r)) PState.DISCONNECTED in
  let canEstablishNewConnection :=
    negb disconnected
    || (Z.of_nat (length (getPeersWithConnection w)) <? (targetPeers env)) in
  let disconnectOk :=
    match peerRequestedDisconnectUntil r with
    | None => true
    | Some t => t <=? (now env)
    end in
  let hasNoConnection := disconnected || isNone (webSocket (state r)) in
  canEstablishNewConnection && disconnectOk && hasNoConnection
  && retryCanConnect r WebSocket && negb (isNone (address r)).

Definition connectToWebSocket (peer : PeerId) (w : World) : bool * World :=
  if negb (canConnectToWebSocket peer w) then (false, w)
  else
    let w := updPeer peer (fun r =>
               with_peerRequestedDisconnect None None
                 (with_localRequestedDisconnect None None r)) w in
    if negb (truthy (Peer_getWebSocketAddress (peerHeap w peer))) then
      (false,
       Peer_updateRetry peer WebSocket Outbound
         (failedConnection (backoff env) (now env) (isWhitelisted (peerHeap w peer))) w)
    else
      (true,
       snd (initWebSocketConnection peer Outbound
              (address (peerHeap w peer)) (port (peerHeap w peer)) w)).

(** [connectToWebSocketAddress] throws when the hostname is missing: the
    result is the error, or the new peer. *)
Definition connectToWebSocketAddress (uri : string) (whitelisted : bool) (w : World)
    : (string + PeerId) * World :=
  let url := (parseUrl env) uri in
  if negb (truthy (hostname url)) then
    (inl ("Could not connect to " ++ uri ++ " because hostname was not parseable")%string, w)
  else
    let '(peer, w) := getOrCreatePeer None w in
    let w := Peer_setWebSocketAddress peer (hostname url) (url_port url) w in
    let w := updPeer peer (with_isWhitelisted whitelisted) w in
    (inr peer, snd (connectToWebSocket peer w)).

Definition createPeerFromInboundWebSocketConnection (addr : option string) (w : World)
    : PeerId * World :=
  let '(peer, w) := getOrCreatePeer None w in
  let '(host, n) :=
    if truthy addr then
      let url := (parseUrl env) (match addr with Some a => a | None => EmptyString end) in
      if truthy (hostname url) then (hostname url, url_port url) else (None, None)
    else (None, None) in
  (peer, snd (initWebSocketConnection peer Inbound host n w)).

(** *** Known peers *)

Definition addEdge (peer addTo : PeerId) (emitKnownPeersChanged : bool) (w : World)
    : World :=
  match identity (peerState w peer) with
  | Some i =>
      if JsMap.has i (knownPeers (peerHeap w addTo)) then w
      else
        let w := updPeer addTo (fun r => with_knownPeers (JsMap.set i peer (knownPeers r)) r) w in
        if emitKnownPeersChanged then Peer_emitKnownPeersChanged addTo w else w
  | None => w
  end.

(** [addKnownPeerTo] calls itself with the peers exchanged; [n] bounds
    the calls ([addKnownPeerTo_calls] shows that two are all there are). *)
Fixpoint addKnownPeerTo_rec (n : nat) (peer addTo : PeerId)
    (emitKnownPeersChanged : bool) (w : World) : World :=
  match n with
  | O => w
  | S n' =>
      let pi := identity (peerState w peer) in
      let ai := identity (peerState w addTo) in
      if negb (truthy pi) || negb (truthy ai) then w
      else if String.eqb (identityOf w peer) (identityOf w addTo) then w
      else
        let w := addEdge peer addTo emitKnownPeersChanged w in
        if JsMap.has (identityOf w addTo) (knownPeers (peerHeap w peer)) then w
        else addKnownPeerTo_rec n' addTo peer true w
  end.

Definition addKnownPeerTo (peer addTo : PeerId) (emitKnownPeersChanged : bool)
    (w : World) : World :=
  addKnownPeerTo_rec 2 peer addTo emitKnownPeersChanged w.

(** *** Relayed frames *)

Definition forward (messageSender : PeerId) (source destination : Identity)
    (m : Message) (w : World) : World :=
  if negb (match identity (peerState w messageSender) with
           | Some i => String.eqb source i
           | None => false
           end)
  then w
  else
    match getPeer destination w with
    | None => w
    | Some destinationPeer => sendTo destinationPeer m w
    end.

Definition handleDisconnectingMessage (messageSender : PeerId)
    (source : Identity) (destination : option Identity)
    (reason : DisconnectingReason) (until : Z) (w : World) : World :=
  match destination with
  | Some d =>
      if negb (String.eqb d (publicIdentity (localPeer env)))
      then forward messageSender source d (Disconnecting source destination reason until) w
      else
        Peer_close notify messageSender None
          (updPeer messageSender (with_peerRequestedDisconnect (Some until) (Some reason)) w)
  | None =>
      Peer_close notify messageSender None
        (updPeer messageSender (with_peerRequestedDisconnect (Some until) (Some reason)) w)
  end.

(** The reply of a congested node: [1000 * 60 * 5] is sent as it is. *)
Definition congestedReply (source : Identity) : Message :=
  Disconnecting (publicIdentity (localPeer env)) (Some source) Congested (1000 * 60 * 5).

(** The test made by both signalling handlers once [shouldRejectDisconnectedPeers]
    holds: the source has no CONNECTED peer. *)
Definition notConnected (source : Identity) (w : World) : bool :=
  match getPeer source w with
  | None => true
  | Some peer => negb (PState.eqb (type (peerState w peer)) PState.CONNECTED)
  end.

Definition handleSignalRequestMessage (messageSender : PeerId)
    (source destination : Identity) (w : World) : World :=
  if canInitiateWebRTC source destination then w
  else if negb (String.eqb destination (publicIdentity (localPeer env)))
  then forward messageSender source destination (SignalRequest source destination) w
  else if shouldRejectDisconnectedPeers w && notConnected source w
  then Peer_send messageSender (congestedReply source) w
  else
    let '(targetPeer, w) := getOrCreatePeer (Some source) w in
    let w := addKnownPeerTo targetPeer messageSender true w in
    match rtcSlot (peerState w targetPeer) with
    | Some _ => w
    | None => snd (initWebRtcConnection messageSender targetPeer true w)
    end.

(** The end of [handleSignalMessage]: unbox, parse, feed the connection. *)
Definition feedSignal (signalingPeer : PeerId) (connection : ConnId)
    (source : Identity) (nonce signal : string) (w : World) : World :=
  match unboxMessage (localPeer env) signal nonce source with
  | None =>
      Connection_close notify connection
        (Some (NetworkError ("Failed to decrypt signaling data from "
                             ++ displayName (peerHeap w signalingPeer)))) w
  | Some result =>
      match (parseJson env) result with
      | None =>
          Connection_close notify connection
            (Some (NetworkError ("Failed to decode signaling data from "
                                 ++ displayName (peerHeap w signalingPeer)))) w
      | Some signalData => emit (ConnectionSignal connection signalData) w
      end
  end.

Definition handleSignalMessage (messageSender : PeerId)
    (source destination : Identity) (nonce signal : string) (w : World) : World :=
  if negb (String.eqb destination (publicIdentity (localPeer env)))
  then forward messageSender source destination (Signal source destination nonce signal) w
  else if shouldRejectDisconnectedPeers w && notConnected source w
  then Peer_send messageSender (congestedReply source) w
  else
    let '(signalingPeer, w) := getOrCreatePeer (Some source) w in
    let w := addKnownPeerTo signalingPeer messageSender true w in
    match rtcSlot (peerState w signalingPeer) with
    | None =>
        match identity (peerState w signalingPeer) with
        | None => w
        | Some i =>
            if negb (canInitiateWebRTC i destination) then w
            else
              let '(connection, w) :=
                initWebRtcConnection messageSender signalingPeer false w in
              feedSignal signalingPeer connection source nonce signal w
        end
    | Some connection => feedSignal signalingPeer connection source nonce signal w
    end.

(** *** Gossip *)

Definition newPeerSet (connectedPeers : list PeerListEntry) : JsMap.t PeerListEntry :=
  JsMap.delete (publicIdentity (localPeer env))
    (fold_left (fun memo e => JsMap.set (entry_identity e) e memo) connectedPeers []).

(** One turn of the loop over [peer.knownPeers]; the loop runs over the
    live map, so an entry deleted before its turn is skipped. *)
Definition removeEdge (set : JsMap.t PeerListEntry) (peer : PeerId)
    (acc : bool * World) (entry : Identity * PeerId) : bool * World :=
  let '(changed, w) := acc in
  let '(otherIdentity, otherPeer) := entry in
  if JsMap.has otherIdentity (knownPeers (peerHeap w peer))
     && negb (JsMap.has otherIdentity set)
  then
    let w := updPeer peer (fun r => with_knownPeers (JsMap.delete otherIdentity (knownPeers r)) r) w in
    let w := match identity (peerState w peer) with
             | Some i => updPeer otherPeer (fun r => with_knownPeers (JsMap.delete i (knownPeers r)) r) w
             | None => w
             end in
    let w := snd (tryDisposePeer peer w) in
    let w := snd (tryDisposePeer otherPeer w) in
    (true, w)
  else (changed, w).

Definition addNewPeer (peer : PeerId) (acc : bool * World) (newPeer : PeerListEntry)
    : bool * World :=
  let '(changed, w) := acc in
  if JsMap.has (entry_identity newPeer) (knownPeers (peerHeap w peer)) then (changed, w)
  else
    let '(knownPeer, w) := getOrCreatePeer (Some (entry_identity newPeer)) w in
    let w := Peer_setWebSocketAddress knownPeer (entry_address newPeer) (entry_port newPeer) w in
    let w := updPeer knownPeer (with_name (orNull (entry_name newPeer))) w in
    (true, addKnownPeerTo knownPeer peer false w).

Definition handlePeerListMessage (connectedPeers : list PeerListEntry) (peer : PeerId)
    (w : World) : World :=
  match type (peerState w peer) with
  | PState.CONNECTED =>
      if lp_isWorker (localPeer env) then w
      else
        let set := newPeerSet connectedPeers in
        let acc := fold_left (removeEdge set peer) (knownPeers (peerHeap w peer)) (false, w) in
        let '(changed, w) := fold_left (addNewPeer peer) (JsMap.values set) acc in
        if changed then Peer_emitKnownPeersChanged peer w else w
  | _ => w
  end.

(** *** The handshake *)

(** The three rejections of a malformed Identify frame share their
    effect: a failed connection on the retry state, then [peer.close]. *)
Definition rejectIdentify (peer : PeerId) (connection : ConnId) (message : string)
    (w : World) : World :=
  let k := connections w connection in
  Peer_close notify peer (Some (Error message))
    (Peer_updateRetry peer (c_type k) (c_direction k)
       (failedConnection (backoff env) (now env) (isWhitelisted (peerHeap w peer))) w).

(** A frame carrying our own identity. *)
Definition closeOwnIdentity (peer : PeerId) (connection : ConnId) (w : World) : World :=
  let k := connections w connection in
  let w := Peer_removeConnection notify peer connection w in
  let w := Peer_updateRetry peer (c_type k) (c_direction k) neverRetryConnecting w in
  let w := match c_type k, c_direction k with
           | WebSocket, Outbound => Peer_setWebSocketAddress peer None None w
           | _, _ => w
           end in
  let w := Connection_close notify connection
             (Some (NetworkError ("Closing " ++ renderType (c_type k)
                                  ++ " connection from our own identity"))) w in
  snd (tryDisposePeer peer w).

(** A peer that already has another identity: the connection moves to
    the peer of the identity it announced. *)
Definition moveConnection (peer : PeerId) (connection : ConnId) (i : Identity)
    (w : World) : PeerId * World :=
  match identity (peerState w peer) with
  | None => (peer, w)
  | Some known =>
      if String.eqb known i then (peer, w)
      else
        let k := connections w connection in
        let w := Peer_removeConnection notify peer connection w in
        let w := Peer_updateRetry peer (c_type k) (c_direction k) neverRetryConnecting w in
        let originalPeer := peer in
        let '(peer, w) := getOrCreatePeer (Some i) w in
        match c_type k with
        | WebRtc => (peer, Peer_setWebRtcConnection notify peer connection w)
        | WebSocket =>
            let w :=
              match c_direction k, address (peerHeap w originalPeer) with
              | Outbound, Some a =>
                  Peer_setWebSocketAddress originalPeer None None
                    (Peer_setWebSocketAddress peer (Some a)
                       (port (peerHeap w originalPeer)) w)
              | _, _ => w
              end in
            (peer, Peer_setWebSocketConnection notify peer connection w)
        end
  end.

(** The choice between two WebSocket connections of one identity. *)
Definition connectionToClose (i : Identity) (connection existingConnection : ConnId)
    (w : World) : ConnId :=
  let direction c := c_direction (connections w c) in
  let toClose := connection in
  let toClose :=
    if canKeepDuplicateConnection i (publicIdentity (localPeer env)) then
      match direction connection, direction existingConnection with
      | Outbound, _ => connection
      | _, Outbound => existingConnection
      | _, _ => toClose
      end
    else toClose in
  if canKeepDuplicateConnection (publicIdentity (localPeer env)) i then
    match direction connection, direction existingConnection with
    | Inbound, _ => connection
    | _, Inbound => existingConnection
    | _, _ => toClose
    end
  else toClose.

(** The connection the arbitration finds in the way, if any: the
    WebSocket slot of a CONNECTED peer of that identity, for a WebSocket
    connection. *)
Definition duplicateOf (existingPeer : option PeerId) (connection : ConnId) (w : World)
    : option ConnId :=
  match existingPeer with
  | Some e =>
      match type (peerState w e), webSocket (peerState w e), c_type (connections w connection) with
      | PState.CONNECTED, Some existingConnection, WebSocket => Some existingConnection
      | _, _, _ => None
      end
  | None => None
  end.

Definition closeDuplicate (toClose : ConnId) (w : World) : World :=
  let k := connections w toClose in
  Connection_close notify toClose
    (Some (NetworkError ("Closing duplicate " ++ renderType (c_type k)
                         ++ " connection with direction "
                         ++ renderDirection (c_direction k)))) w.

(** The handshake after the arbitration: port, name, version, then the
    repeated disconnect or the CONNECTED state. *)
Definition completeIdentify (peer : PeerId) (connection : ConnId)
    (existingPeer : option PeerId) (i : Identity) (v : Version) (n : option Z)
    (nm : option string) (worker : option bool) (w : World) : World :=
  let k := connections w connection in
  let w := match c_type k, c_direction k with
           | WebSocket, Inbound => updConn connection (c_with_port (orNullZ n)) w
           | _, _ => w
           end in
  let w := updPeer peer (fun r =>
             with_version (Some v)
               (with_isWorker (match worker with Some b => b | None => false end)
                  (with_name nm r))) w in
  let stay :=
    match existingPeer with
    | Some e =>
        match localRequestedDisconnectUntil (peerHeap w e) with
        | Some until => if (now env) <? until then Some (e, until) else None
        | None => None
        end
    | None => None
    end in
  match stay with
  | Some (e, until) =>
      let disconnectMessage :=
        Disconnecting (publicIdentity (localPeer env)) (Some i)
          (match localRequestedDisconnectReason (peerHeap w e) with
           | Some r => r
           | None => Congested
           end) until in
      let w := Connection_send connection disconnectMessage w in
      Connection_close notify connection
        (Some (NetworkError ("Closing connection from " ++ displayName (peerHeap w e)
                             ++ " because they connected at " ++ renderZ (now env)
                             ++ ", but we told them to disconnect until "
                             ++ renderZ until))) w
  | None =>
      Connection_setState notify identifyMessage connection (CState.CONNECTED i) w
  end.

Definition handleWaitingForIdentityMessage (peer : PeerId) (connection : ConnId)
    (message : Message) (w : World) : World :=
  match message with
  | Identify i versionText n nm worker =>
      let v := (parseVersion env) versionText in
      let nm := orNull nm in
      if negb ((isIdentity env) i) then
        rejectIdentify peer connection
          ("Identity " ++ i ++ " does not match expected format") w
      else if negb (versionsAreCompatible (lp_version (localPeer env)) v) then
        rejectIdentify peer connection
          ("Peer version " ++ versionText ++ " is not compatible to ours: "
           ++ (renderVersion env) (lp_version (localPeer env))) w
      else if match nm with
              | Some s => (32 <? String.length s)%nat
              | None => false
              end then
        rejectIdentify peer connection
          ("Peer name length exceeds 32: "
           ++ renderZ (Z.of_nat (String.length (match nm with Some s => s | None => EmptyString end)))
           ++ "}") w
      else if String.eqb i (publicIdentity (localPeer env)) then
        closeOwnIdentity peer connection w
      else
        let '(peer, w) := moveConnection peer connection i w in
        let existingPeer := getPeer i w in
        match duplicateOf existingPeer connection w with
        | Some existingConnection =>
            let toClose := connectionToClose i connection existingConnection w in
            let w := closeDuplicate toClose w in
            if Nat.eqb toClose connection then w
            else completeIdentify peer connection existingPeer i v n nm worker w
        | None => completeIdentify peer connection existingPeer i v n nm worker w
        end
  | _ => Peer_close notify peer None w
  end.

(** *** Dispatch *)

Definition handleMessage (peer : PeerId) (connection : ConnId) (message : Message)
    (w : World) : World :=
  match message with
  | Disconnecting source destination reason until =>
      handleDisconnectingMessage peer source destination reason until w
  | _ =>
      match connState w connection with
      | CState.WAITING_FOR_IDENTITY =>
          handleWaitingForIdentityMessage peer connection message w
      | _ =>
          match message with
          | Identify _ _ _ _ _ => w
          | SignalRequest source destination =>
              handleSignalRequestMessage peer source destination w
          | Signal source destination nonce signal =>
              handleSignalMessage peer source destination nonce signal w
          | PeerList connectedPeers => handlePeerListMessage connectedPeers peer w
          | _ =>
              match identity (peerState w peer) with
              | None => Peer_close notify peer None w
              | Some i => emit (OnMessage peer i message) w
              end
          end
      end
  end.
End Manager.

(** ** Sample node and worlds

    A node with identity [ZZZZ] whose collaborators are as simple as can
    be, and worlds reached from the empty one through the manager's own
    operations.  They serve as concrete inputs below. *)

Section Samples.
Local Open Scope string_scope.

Definition sampleVersion : Version := mkVersion "ironfish" 1 "cli".

Definition sampleLocalPeer : LocalPeer :=
  mkLocalPeer "ZZZZ" sampleVersion false false
    (Identify "ZZZZ" "ironfish/1/cli" (Some 9033) None None)
    (fun message _ => ("nonce", message))
    (fun boxed _ _ => Some boxed).

Definition sampleParseUrl (uri : string) : Url :=
  mkUrl (Some "ws")
        (if String.eqb uri EmptyString then None else Some uri)
        (Some 9033).

Definition sampleEnv (limit : Z) : Env :=
  mkEnv sampleLocalPeer limit 50 1000 (fun n => 1000 * Z.of_nat n)
    (fun s => Nat.eqb (String.length s) 4)
    (fun _ => sampleVersion) (fun _ => "ironfish/1/cli")
    sampleParseUrl Some 8.

(** The same collaborators with another bound on the nesting of handlers. *)
Definition atDepth (d : nat) (env : Env) : Env :=
  mkEnv (localPeer env) (maxPeers env) (targetPeers env) (now env) (backoff env)
    (isIdentity env) (parseVersion env) (renderVersion env) (parseUrl env)
    (parseJson env) d.

Definition emptyWorld : World :=
  mkWorld
    (fun _ => mkConnection WebSocket Inbound CState.DISCONNECTED None None None
                false None false None None)
    O (fun _ => newPeer None) O [] [] None None [].

Definition sampleIdentify (i : Identity) : Message :=
  Identify i "ironfish/1/cli" (Some 9033) None None.

(** A remote node dials us and completes the handshake as [i]. *)
Definition accept (env : Env) (i : Identity) (w : World) : World :=
  let connection := nextConnection w in
  let '(peer, w) := createPeerFromInboundWebSocketConnection env None w in
  handleMessage env peer connection (sampleIdentify i) w.

(** One connected peer, [BBBB], peer 0 on connection 0. *)
Definition onePeer (env : Env) : World := accept env "BBBB" emptyWorld.

(** A peer list in which a node names itself. *)
Definition selfList : list PeerListEntry := [mkEntry "BBBB" None None None].

(** Two connected peers: [BBBB] is peer 0 on connection 0, [CCCC] is peer
    1 on connection 1. *)
Definition twoPeers (env : Env) : World :=
  accept env "CCCC" (accept env "BBBB" emptyWorld).

(** We dial [host], the socket opens: peer 0 holds connection 0, which
    waits for the identity. *)
Definition dialled (env : Env) : World :=
  Connection_setState (peerStateChanged (depth env)) (getIdentifyMessage (localPeer env))
    O CState.WAITING_FOR_IDENTITY
    (snd (connectToWebSocketAddress env "host" false emptyWorld)).

(** Spec 8, scenario 2: our dialled connection to [AAAA] is CONNECTED
    (peer 0, connection 0) when [AAAA] dials us (peer 1, connection 1). *)
Definition racing (env : Env) : World :=
  snd (createPeerFromInboundWebSocketConnection env (Some "host2")
         (handleMessage env O O (sampleIdentify "AAAA") (dialled env))).

(** [BBBB] (peer 0) gossips [CCCC] at [host3]; [CCCC] (peer 1) then signals
    us through [BBBB] and its WebRTC connection (connection 1) comes to
    wait for the identity. *)
Definition signalled (env : Env) : World :=
  let notify := peerStateChanged (depth env) in
  let hello := getIdentifyMessage (localPeer env) in
  let w := accept env "BBBB" emptyWorld in
  let w := handleMessage env O O
             (PeerList [mkEntry "CCCC" None (Some "host3") (Some 9033)]) w in
  let w := handleMessage env O O (Signal "CCCC" "ZZZZ" "nonce" "offer") w in
  let w := Connection_setState notify hello 1%nat CState.SIGNALING w in
  Connection_setState notify hello 1%nat CState.WAITING_FOR_IDENTITY w.

(** A dialled peer whose connection failed for good: disconnected, never
    to be retried, still in the list. *)
Definition abandoned (env : Env) : World :=
  Peer_updateRetry O WebSocket Outbound neverRetryConnecting
    (Peer_close (peerStateChanged (depth env)) O None (dialled env)).
End Samples.

(** ** Vocabulary of the statements *)

(** *** What the subscribers of a peer can and cannot do

    The handlers run while a connection closes or a peer changes state.
    Whatever their nesting, they leave closed connections closed, fire only
    life-cycle events, allocate nothing, keep the addresses of the peers,
    and do not touch a connection that no peer holds. *)

Definition lifecycle (e : Event) : bool :=
  match e with
  | OnConnect _ | OnDisconnect _ | OnConnectedPeersChanged => true
  | _ => false
  end.

Definition observed (w : World) : list Event :=
  filter (fun e => negb (lifecycle e)) (events w).

Definition detached (c : ConnId) (w : World) : Prop :=
  c_boundTo (connections w c) = None
  /\ forall p, webSocket (peerState w p) <> Some c /\ webRtc (peerState w p) <> Some c.

(** What holds of every nesting of handlers, whatever the world. *)
Record frame (w w' : World) : Prop := mkFrame {
  frame_closed :
    forall c, connState w c = CState.DISCONNECTED -> connState w' c = CState.DISCONNECTED;
  frame_observed : observed w' = observed w;
  frame_address :
    forall p, address (peerHeap w' p) = address (peerHeap w p)
              /\ port (peerHeap w' p) = port (peerHeap w p);
  frame_next : nextConnection w' = nextConnection w /\ nextPeer w' = nextPeer w;
  frame_kind :
    forall c, c_type (connections w' c) = c_type (connections w c)
              /\ c_direction (connections w' c) = c_direction (connections w c)
              /\ c_initiator (connections w' c) = c_initiator (connections w c)
}.

(** A connection that stays detached and is left as it was. *)
Definition keeps (c0 : ConnId) (w w' : World) : Prop :=
  detached c0 w' /\ connections w' c0 = connections w c0.


(** The three conditions under which a peer may be disposed of. *)
Definition disposable (w : World) (peer : PeerId) : Prop :=
  type (peerState w peer) = PState.DISCONNECTED
  /\ (forall q, In q (JsMap.values (knownPeers (peerHeap w peer))) ->
                type (peerState w q) <> PState.CONNECTED)
  /\ exists r, Peer_getConnectionRetry (peerHeap w peer) WebSocket Outbound = Some r
               /\ neverRetry r = true.

(** The reply of a congested node to [source], through [sender], with
    nothing else done: no peer record, no connection, no other event. *)
Definition repliesCongested (env : Env) (sender : PeerId) (source : Identity)
    (w w' : World) : Prop :=
  (exists via,
     events w' =
       PeerSend sender
         (Disconnecting (publicIdentity (localPeer env)) (Some source) Congested 300000)
         via :: events w)
  /\ peers w' = peers w
  /\ identifiedPeers w' = identifiedPeers w
  /\ nextPeer w' = nextPeer w
  /\ nextConnection w' = nextConnection w.

(** The statement examined for the congested SignalRequest: whenever the
    node is at [maxPeers] and the source is not a CONNECTED peer, a request
    addressed to us is answered with the Congested notice. *)
Definition answersWhenCongested (env : Env) (sender : PeerId) (source : Identity)
    (w : World) : Prop :=
  shouldRejectDisconnectedPeers env w = true ->
  notConnected source w = true ->
  repliesCongested env sender source w
    (handleSignalRequestMessage env sender source (publicIdentity (localPeer env)) w).

(** Relaying.  The condition of the relay rule, what forwarding is (the
    frame is handed unchanged to the peer of the destination) and what
    dropping is (nothing but life-cycle events is fired). *)
Definition relayCondition (w : World) (sender : PeerId) (source destination : Identity)
    : Prop :=
  identity (peerState w sender) = Some source
  /\ exists p, JsMap.get destination (identifiedPeers w) = Some p.

Definition forwarded (m : Message) (destination : Identity) (w w' : World) : Prop :=
  exists p via,
    JsMap.get destination (identifiedPeers w) = Some p
    /\ events w' = PeerSend p m via :: events w.

Definition nothingSent (w w' : World) : Prop := observed w' = observed w.

Definition relayRule (m : Message) (sender : PeerId) (source destination : Identity)
    (w w' : World) : Prop :=
  (relayCondition w sender source destination -> forwarded m destination w w')
  /\ (~ relayCondition w sender source destination -> nothingSent w w').

(** The statement examined for the three relayed frames. *)
Definition relaysWhenNotForUs (env : Env) (sender : PeerId) (m : Message) (w : World)
    : Prop :=
  match m with
  | Signal s d nonce signal =>
      d <> publicIdentity (localPeer env) ->
      relayRule m sender s d w (handleSignalMessage env sender s d nonce signal w)
  | SignalRequest s d =>
      d <> publicIdentity (localPeer env) ->
      relayRule m sender s d w (handleSignalRequestMessage env sender s d w)
  | Disconnecting s (Some d) reason until =>
      d <> publicIdentity (localPeer env) ->
      relayRule m sender s d w
        (handleDisconnectingMessage env sender s (Some d) reason until w)
  | Disconnecting s None reason until =>
      nothingSent w (handleDisconnectingMessage env sender s None reason until w)
  | _ => True
  end.

(** Gossip.  The entry of a peer in a peer list, who may be listed, and
    the list made of the connected peers that [keep] retains. *)
Definition entryOf (w : World) (q : PeerId) : PeerListEntry :=
  mkEntry (identityOf w q) (orNull (name (peerHeap w q)))
    (address (peerHeap w q)) (port (peerHeap w q)).

Definition listable (env : Env) (w : World) (q : PeerId) : bool :=
  negb (isWorker (peerHeap w q) && negb (broadcastWorkers (localPeer env))).

Definition peerListOf (env : Env) (keep : PeerId -> bool) (w : World) : Message :=
  PeerList (map (entryOf w)
              (filter (fun q => listable env w q && keep q) (getConnectedPeers w))).

(** The statement examined for the broadcast: [k] periods of five seconds
    after [start], each connected peer is sent the list of the others. *)
Definition receivesTheOthers (env : Env) (w : World) (k : Z) : Prop :=
  0 < k ->
  forall p, In p (getConnectedPeers w) ->
  exists via,
    In (PeerSend p (peerListOf env (fun q => negb (Nat.eqb q p)) w) via)
       (events (timers env (5000 * k) (start w))).

(** What the code does instead: everyone is sent the same list. *)
Definition receivesTheList (env : Env) (w : World) (k : Z) : Prop :=
  0 < k ->
  forall p, In p (getConnectedPeers w) ->
  exists via,
    In (PeerSend p (peerListOf env (fun _ => true) w) via)
       (events (timers env (5000 * k) (start w))).

(** What recording a neighbour changes: neither connections nor the state
    of any peer, and the only event is [onKnownPeersChanged]. *)
Definition isKnownPeersChanged (e : Event) : bool :=
  match e with OnKnownPeersChanged _ => true | _ => false end.

Record sameNetwork (w w' : World) : Prop := mkSameNetwork {
  same_connections : connections w' = connections w;
  same_nextConnection : nextConnection w' = nextConnection w;
  same_states : forall q, state (peerHeap w' q) = state (peerHeap w q);
  same_events :
    forall e, In e (events w') -> In e (events w) \/ isKnownPeersChanged e = true
}.

(** The frames handed to peers, most recent first. *)
Definition sentFrames (w : World) : list (PeerId * Message) :=
  flat_map (fun e => match e with PeerSend p m _ => [(p, m)] | _ => [] end) (events w).

(** The handshake with our own identity.  What is done to the connection
    and to the peer whatever the connection, and the two fates of the
    address of the peer. *)
Definition tornDown (peer : PeerId) (connection : ConnId) (w w' : World) : Prop :=
  let k := connections w connection in
  connState w' connection = CState.DISCONNECTED
  /\ c_error (connections w' connection)
     = Some (NetworkError ("Closing " ++ renderType (c_type k)
                           ++ " connection from our own identity"))
  /\ webSocket (peerState w' peer) <> Some connection
  /\ webRtc (peerState w' peer) <> Some connection
  /\ (forall r, Peer_getConnectionRetry (peerHeap w' peer) (c_type k) (c_direction k) = Some r ->
                neverRetry r = true)
  /\ (In peer (peers w') -> canDispose w' peer = false).

Definition addressCleared (peer : PeerId) (w' : World) : Prop :=
  address (peerHeap w' peer) = None /\ port (peerHeap w' peer) = None.

Definition addressKept (peer : PeerId) (w w' : World) : Prop :=
  address (peerHeap w' peer) = address (peerHeap w peer)
  /\ port (peerHeap w' peer) = port (peerHeap w peer).

Definition isOutboundWebSocket (k : Connection) : bool :=
  ConnectionType_eqb (c_type k) WebSocket && ConnectionDirection_eqb (c_direction k) Outbound.

(** The statement examined: whatever the connection, an Identify frame
    with our own identity tears the connection down and clears the
    address of the peer. *)
Definition ownIdentityClearsAddress (env : Env) (peer : PeerId) (connection : ConnId)
    (m : Message) (w : World) : Prop :=
  let w' := handleWaitingForIdentityMessage env peer connection m w in
  tornDown peer connection w w' /\ addressCleared peer w'.

(** What the code does: the address goes only with an outbound WebSocket
    connection. *)
Definition ownIdentityClearsDialled (env : Env) (peer : PeerId) (connection : ConnId)
    (m : Message) (w : World) : Prop :=
  let w' := handleWaitingForIdentityMessage env peer connection m w in
  tornDown peer connection w w'
  /\ if isOutboundWebSocket (connections w connection)
     then addressCleared peer w' else addressKept peer w w'.

(** The frame passes the checks made before the identity is looked at. *)
Definition wellFormedIdentify (env : Env) (i versionText : string) (nm : option string)
    : Prop :=
  isIdentity env i = true
  /\ versionsAreCompatible (lp_version (localPeer env)) (parseVersion env versionText) = true
  /\ match orNull nm with
     | Some s => (32 <? String.length s)%nat
     | None => false
     end = false.

(** The connection belongs to the peer it arrived on, and to no other. *)
Definition ownedBy (peer : PeerId) (connection : ConnId) (w : World) : Prop :=
  c_boundTo (connections w connection) = Some peer
  /\ (forall q, webSocket (peerState w q) = Some connection
                \/ webRtc (peerState w q) = Some connection -> q = peer)
  /\ type (peerState w peer) <> PState.DISCONNECTED.

(** Closing [x] wakes no merge: the peer it is bound to, if any, either
    was identified long ago (its one-shot handler is gone) or holds [x] as
    its WebSocket connection and no connected WebRTC connection. *)
Definition closesQuietly (w : World) (x : ConnId) : Prop :=
  forall p, c_boundTo (connections w x) = Some p ->
    identifyHandler (peerHeap w p) = false
    \/ (webSocket (peerState w p) = Some x
        /\ slotConnected w (webRtc (peerState w p)) = false).

(** The statement examined for a repeated peer list: handling [list] from
    [peer] a second time changes no edge, makes no peer record and fires
    nothing. *)
Definition secondPeerListIsSilent (env : Env) (list : list PeerListEntry) (peer : PeerId)
    (w : World) : Prop :=
  let w1 := handlePeerListMessage env list peer w in
  let w2 := handlePeerListMessage env list peer w1 in
  (forall q, (q < nextPeer w1)%nat -> knownPeers (peerHeap w2 q) = knownPeers (peerHeap w1 q))
  /\ nextPeer w2 = nextPeer w1
  /\ peers w2 = peers w1
  /\ events w2 = events w1.

(** *** The lists for which a second handling is silent *)

(** Every entry of [identifiedPeers] is a record of the heap that carries
    the identity it is filed under. *)
Definition registered (w : World) : Prop :=
  forall i q, JsMap.get i (identifiedPeers w) = Some q ->
              (q < nextPeer w)%nat /\ identity (peerState w q) = Some i.

(** The list names neither its sender nor the empty identity. *)
Definition namesNeither (sender : Identity) (list : list PeerListEntry) : Prop :=
  forall e, In e list -> entry_identity e <> sender /\ entry_identity e <> EmptyString.

(** The sender of a list, as the handler needs it. *)
Definition listening (peer : PeerId) (sender : Identity) (w : World) : Prop :=
  registered w /\ (peer < nextPeer w)%nat /\ identity (peerState w peer) = Some sender.

(** What the removal of edges leaves in place: no record is made, no state
    changes, and edges and entries of [identifiedPeers] only go. *)
Record shrinks (w w' : World) : Prop := mkShrinks {
  shrinks_next : nextPeer w' = nextPeer w;
  shrinks_states : forall q, peerState w' q = peerState w q;
  shrinks_known :
    forall q k, JsMap.has k (knownPeers (peerHeap w' q)) = true ->
                JsMap.has k (knownPeers (peerHeap w q)) = true;
  shrinks_identified :
    forall i q, JsMap.get i (identifiedPeers w') = Some q ->
                JsMap.get i (identifiedPeers w) = Some q
}.

(** The edges of [peer] are those of the list: nothing to remove, nothing
    to add. *)
Definition settled (env : Env) (list : list PeerListEntry) (peer : PeerId) (w : World)
    : Prop :=
  (forall k q, In (k, q) (knownPeers (peerHeap w peer)) ->
               JsMap.has k (newPeerSet env list) = true)
  /\ (forall e, In e (JsMap.values (newPeerSet env list)) ->
                JsMap.has (entry_identity e) (knownPeers (peerHeap w peer)) = true).

(** ** The rest of the manager

    The operations of the manager that the statements above do not reach:
    the lookup that throws, the admission to a WebRTC dial, the choice of a
    broker and the WebRTC dial itself. *)

Section Dialling.
Variable env : Env.

(** [getPeerOrThrow]: the peer, or the error thrown. *)
Definition getPeerOrThrow (i : Identity) (w : World) : string + PeerId :=
  match JsMap.get i (identifiedPeers w) with
  | Some peer => inr peer
  | None => inl ("No peer found with identity " ++ i)%string
  end.

Definition canConnectToWebRTC (peer : PeerId) (w : World) : bool :=
  let r := peerHeap w peer in
  let disconnected := PState.eqb (type (state r)) PState.DISCONNECTED in
  let canEstablishNewConnection :=
    negb disconnected
    || (Z.of_nat (length (getPeersWithConnection w)) <? (targetPeers env)) in
  let disconnectOk :=
    match peerRequestedDisconnectUntil r with
    | None => true
    | Some t => t <=? (now env)
    end in
  let hasNoConnection := disconnected || isNone (webRtc (state r)) in
  canEstablishNewConnection && disconnectOk && hasNoConnection
  && retryCanConnect env r WebRtc && negb (isNone (identity (state r))).

(** The peers that may broker a connection to [peer], whose identity is
    [i]: the neighbours of [peer] that are CONNECTED to us and know it. *)
Definition brokeringCandidates (peer : PeerId) (i : Identity) (w : World) : list PeerId :=
  filter (fun candidate =>
            PState.eqb (type (peerState w candidate)) PState.CONNECTED
            && JsMap.has i (knownPeers (peerHeap w candidate)))
    (JsMap.values (knownPeers (peerHeap w peer))).

(** [getBrokeringPeer]; [sample] stands for [ArrayUtils.sampleOrThrow] of
    utils, which is not among the sources and draws one element of a
    non-empty array at random. *)
Definition getBrokeringPeer (sample : list PeerId -> PeerId) (peer : PeerId) (w : World)
    : option PeerId :=
  match type (peerState w peer) with
  | PState.CONNECTED => Some peer
  | _ =>
      match identity (peerState w peer) with
      | None => None
      | Some i =>
          match brokeringCandidates peer i w with
          | [] => None
          | candidates => Some (sample candidates)
          end
      end
  end.

(** [connectToWebRTC].  The retry state for (WebRTC, outbound) is read
    without [?.]; it is there whenever [canConnectToWebRTC] holds. *)
Definition connectToWebRTC (sample : list PeerId -> PeerId) (peer : PeerId) (w : World)
    : bool * World :=
  if negb (canConnectToWebRTC peer w) then (false, w)
  else
    let w := updPeer peer (fun r =>
               with_peerRequestedDisconnect None None
                 (with_localRequestedDisconnect None None r)) w in
    let failed :=
      Peer_updateRetry peer WebRtc Outbound
        (failedConnection (backoff env) (now env) (isWhitelisted (peerHeap w peer))) w in
    match identity (peerState w peer) with
    | None => (false, failed)
    | Some i =>
        match getBrokeringPeer sample peer w with
        | None => (false, snd (tryDisposePeer peer failed))
        | Some brokeringPeer =>
            if canInitiateWebRTC (publicIdentity (localPeer env)) i then
              (true, snd (initWebRtcConnection env brokeringPeer peer true w))
            else
              let signal := SignalRequest (publicIdentity (localPeer env)) i in
              let '(connection, w) := initWebRtcConnection env brokeringPeer peer false w in
              let w := Connection_setState (peerStateChanged (depth env))
                         (getIdentifyMessage (localPeer env)) connection
                         CState.REQUEST_SIGNALING w in
              (true, Peer_send brokeringPeer signal w)
        end
    end.
End Dialling.

(** ** Vocabulary of the further properties *)

(** The part of a retry state that counts failures. *)
Definition counters (r : ConnectionRetry) : Z * nat :=
  (cooldownUntil r, consecutiveFailures r).

Definition retryCounters (rs : RetryTable) :=
  (option_map counters (r_ws_in rs), option_map counters (r_ws_out rs),
   option_map counters (r_rtc_in rs), option_map counters (r_rtc_out rs)).

(** What a handler never changes on a peer, and on a connection. *)
Definition profile (r : Peer) :=
  (name r, address r, port r, version r, isWorker r, isWhitelisted r,
   (localRequestedDisconnectUntil r, localRequestedDisconnectReason r),
   (peerRequestedDisconnectUntil r, peerRequestedDisconnectReason r),
   retryCounters (connectionRetries r)).

Definition wiring (k : Connection) :=
  (c_type k, c_direction k, c_initiator k, c_hostname k, c_port k,
   c_identifyPending k, (c_broker k, c_target k)).

(** Connections keep their state or close. *)
Definition closing (w w' : World) : Prop :=
  forall c, connState w' c = connState w c \/ connState w' c = CState.DISCONNECTED.

(** No connection comes to be CONNECTED. *)
Definition connectsNothing (w w' : World) : Prop :=
  forall c i, connState w' c = CState.CONNECTED i -> connState w c = CState.CONNECTED i.

(** What the handlers of a state change leave as it was, at every nesting:
    connections only close and keep their wiring, peers keep their
    profile, no record and no connection is made, the timers stay as they
    are and the list of peers only shrinks. *)
Record calm (w w' : World) : Prop := mkCalm {
  calm_closing : closing w w';
  calm_wiring : forall c, wiring (connections w' c) = wiring (connections w c);
  calm_profile : forall p, profile (peerHeap w' p) = profile (peerHeap w p);
  calm_handles :
    broadcastPeerListHandle w' = broadcastPeerListHandle w
    /\ disposePeersHandle w' = disposePeersHandle w;
  calm_next : nextConnection w' = nextConnection w /\ nextPeer w' = nextPeer w;
  calm_peers : forall q, In q (peers w') -> In q (peers w)
}.

(** A frame that the handshake turns down: any frame other than
    Disconnecting and Identify, and an Identify frame that fails one of the
    checks made before the identity is looked at. *)
Definition rejected (env : Env) (m : Message) : Prop :=
  match m with
  | Disconnecting _ _ _ _ => False
  | Identify i versionText _ nm _ => ~ wellFormedIdentify env i versionText nm
  | _ => True
  end.

(** The retry state of a peer for the transport and direction of a
    connection. *)
Definition retryFor (w : World) (peer : PeerId) (k : Connection) : option ConnectionRetry :=
  Peer_getConnectionRetry (peerHeap w peer) (c_type k) (c_direction k).



(** [BBBB] (peer 0, connected) has told us of [CCCC] at [host3]: peer 1,
    disconnected, a neighbour of [BBBB]. *)
Definition gossiped (env : Env) : World :=
  handleMessage env O O
    (PeerList [mkEntry "CCCC"%string None (Some "host3"%string) (Some 9033)]) (onePeer env).

(** [BBBB] (peer 0) has gone, its record is kept; a new socket comes in:
    peer 1 on connection 1, which waits for the identity. *)
Definition returning (env : Env) : World :=
  snd (createPeerFromInboundWebSocketConnection env None
         (Peer_close (peerStateChanged (depth env)) O None (onePeer env))).

(** A node like the sample one, with another identity. *)
Definition nodeEnv (i : Identity) : Env :=
  mkEnv
    (mkLocalPeer i sampleVersion false false
       (Identify i "ironfish/1/cli"%string (Some 9033) None None)
       (fun message _ => ("nonce"%string, message))
       (fun boxed _ _ => Some boxed))
    10000 50 1000 (fun n => 1000 * Z.of_nat n)
    (fun s => Nat.eqb (String.length s) 4)
    (fun _ => sampleVersion) (fun _ => "ironfish/1/cli"%string)
    sampleParseUrl Some 8.

(** What a peer is known as: the record filed under an identity carries
    this address, port and name. *)
Definition knownAs (w : World) (k : Identity) (e : PeerListEntry) : Prop :=
  exists q, getPeer k w = Some q
            /\ address (peerHeap w q) = entry_address e
            /\ port (peerHeap w q) = entry_port e
            /\ name (peerHeap w q) = orNull (entry_name e).
(** * Properties *)

(** ** Maps and identities *)

Lemma JsMap_get_set_eq {V} (k : string) (v : V) (m : JsMap.t V) :
  JsMap.get k (JsMap.set k v m) = Some v.
Proof.
  induction m as [|[k' v'] m IH]; simpl.
  - now rewrite String.eqb_refl.
  - destruct (String.eqb k k') eqn:E; simpl; rewrite E; auto.
Qed.

Lemma JsMap_get_set_ne {V} (k k' : string) (v : V) (m : JsMap.t V) :
  k <> k' -> JsMap.get k' (JsMap.set k v m) = JsMap.get k' m.
Proof.
  intros Hne. induction m as [|[k0 v0] m IH]; simpl.
  - destruct (String.eqb_spec k' k); congruence.
  - destruct (String.eqb_spec k k0); simpl.
    + subst k0. destruct (String.eqb_spec k' k); congruence.
    + now rewrite IH.
Qed.

Lemma JsMap_has_set {V} (k : string) (v : V) (m : JsMap.t V) :
  JsMap.has k (JsMap.set k v m) = true.
Proof. unfold JsMap.has. now rewrite JsMap_get_set_eq. Qed.

Lemma JsMap_get_delete_eq {V} (k : string) (m : JsMap.t V) :
  JsMap.get k (JsMap.delete k m) = None.
Proof.
  induction m as [|[k' v'] m IH]; simpl; auto.
  destruct (String.eqb k k') eqn:E; simpl; auto. now rewrite E.
Qed.

Lemma JsMap_get_delete_ne {V} (k k' : string) (m : JsMap.t V) :
  k <> k' -> JsMap.get k' (JsMap.delete k m) = JsMap.get k' m.
Proof.
  intros Hne. induction m as [|[k0 v0] m IH]; simpl; auto.
  destruct (String.eqb_spec k k0); simpl.
  - subst k0. rewrite IH. destruct (String.eqb_spec k' k); congruence.
  - now rewrite IH.
Qed.

Lemma JsMap_get_In {V} (k : string) (v : V) (m : JsMap.t V) :
  JsMap.get k m = Some v -> In v (JsMap.values m).
Proof.
  induction m as [|[k' v'] m IH]; simpl; [discriminate|].
  destruct (String.eqb k k'); intros H; [left; congruence | right; auto].
Qed.

(** The order on identities is strict: of two identities at most one can
    initiate towards the other, and exactly one when they differ. *)
Lemma canInitiateWebRTC_asym (a b : Identity) :
  canInitiateWebRTC a b = true -> canInitiateWebRTC b a = false.
Proof.
  unfold canInitiateWebRTC, String.ltb. rewrite (String.compare_antisym a b).
  destruct (String.compare b a); simpl; congruence.
Qed.

Lemma canInitiateWebRTC_total (a b : Identity) :
  a <> b -> canInitiateWebRTC a b = true \/ canInitiateWebRTC b a = true.
Proof.
  intros Hne. unfold canInitiateWebRTC, String.ltb.
  rewrite (String.compare_antisym a b).
  destruct (String.compare b a) eqn:E; simpl; auto.
  apply String.compare_eq_iff in E. congruence.
Qed.

Lemma canKeepDuplicateConnection_asym (a b : Identity) :
  canKeepDuplicateConnection a b = true -> canKeepDuplicateConnection b a = false.
Proof. apply canInitiateWebRTC_asym. Qed.

(** ** What the subscribers of a peer can and cannot do *)

Lemma frame_refl w : frame w w.
Proof. constructor; auto. Qed.

Lemma frame_trans w1 w2 w3 : frame w1 w2 -> frame w2 w3 -> frame w1 w3.
Proof.
  intros [A1 B1 C1 [D1 D1'] E1] [A2 B2 C2 [D2 D2'] E2]. constructor.
  - auto.
  - congruence.
  - intros p. destruct (C1 p), (C2 p). split; congruence.
  - split; congruence.
  - intros c. destruct (E1 c) as (? & ? & ?), (E2 c) as (? & ? & ?).
    repeat split; congruence.
Qed.

Lemma keeps_refl c0 w : detached c0 w -> keeps c0 w w.
Proof. now split. Qed.

Lemma keeps_trans c0 w1 w2 w3 : keeps c0 w1 w2 -> keeps c0 w2 w3 -> keeps c0 w1 w3.
Proof. intros [A B] [C D]. split; [auto | congruence]. Qed.

Lemma frame_emit e w : lifecycle e = true -> frame w (emit e w).
Proof.
  intros He. constructor; auto.
  unfold observed. simpl. now rewrite He.
Qed.

Lemma frame_emitted e w w' : lifecycle e = true -> frame w w' -> frame w (emit e w').
Proof. intros He H. eapply frame_trans; [exact H | now apply frame_emit]. Qed.

Lemma keeps_emit c0 e w : detached c0 w -> keeps c0 w (emit e w).
Proof. now split. Qed.

Lemma frame_w_peers l w : frame w (w_peers l w).
Proof. constructor; auto. Qed.

Lemma frame_w_identifiedPeers m w : frame w (w_identifiedPeers m w).
Proof. constructor; auto. Qed.

Lemma frame_updPeer p f w :
  (forall r, address (f r) = address r /\ port (f r) = port r) ->
  frame w (updPeer p f w).
Proof.
  intros Hf. constructor; auto.
  intros q. simpl. destruct (Nat.eqb q p); auto.
Qed.

Lemma keeps_updPeer c0 p f w :
  detached c0 w ->
  webSocket (state (f (peerHeap w p))) <> Some c0 ->
  webRtc (state (f (peerHeap w p))) <> Some c0 ->
  keeps c0 w (updPeer p f w).
Proof.
  intros [Hb Hp] Hws Hrtc. split; [|reflexivity]. split; [exact Hb|].
  intros q. unfold peerState. simpl. destruct (Nat.eqb_spec q p).
  - subst q. now split.
  - apply Hp.
Qed.

Lemma frame_updConn x f w :
  (connState w x = CState.DISCONNECTED -> c_state (f (connections w x)) = CState.DISCONNECTED) ->
  (forall k, c_type (f k) = c_type k /\ c_direction (f k) = c_direction k
             /\ c_initiator (f k) = c_initiator k) ->
  frame w (updConn x f w).
Proof.
  intros Hc Hk. constructor; auto.
  - intros c. unfold connState. simpl. destruct (Nat.eqb_spec c x); [subst; auto | auto].
  - intros c. simpl. destruct (Nat.eqb c x); auto.
Qed.

Lemma keeps_updConn c0 x f w :
  detached c0 w -> (x = c0 -> f (connections w x) = connections w x) ->
  keeps c0 w (updConn x f w).
Proof.
  intros [Hb Hp] Hf.
  assert (Heq : connections (updConn x f w) c0 = connections w c0).
  { simpl. destruct (Nat.eqb_spec c0 x); [subst; auto | auto]. }
  split; [|exact Heq]. split; [now rewrite Heq | exact Hp].
Qed.

Lemma wsSlot_attached s : wsSlot s = None \/ wsSlot s = webSocket s.
Proof. unfold wsSlot. destruct (type s); auto. Qed.

Lemma rtcSlot_attached s : rtcSlot s = None \/ rtcSlot s = webRtc s.
Proof. unfold rtcSlot. destruct (type s); auto. Qed.

Lemma wsSlot_ne c0 w p : detached c0 w -> wsSlot (peerState w p) <> Some c0.
Proof.
  intros [_ Hp] H. destruct (wsSlot_attached (peerState w p)) as [E|E]; [congruence|].
  rewrite E in H. destruct (Hp p); congruence.
Qed.

Lemma rtcSlot_ne c0 w p : detached c0 w -> rtcSlot (peerState w p) <> Some c0.
Proof.
  intros [_ Hp] H. destruct (rtcSlot_attached (peerState w p)) as [E|E]; [congruence|].
  rewrite E in H. destruct (Hp p); congruence.
Qed.

Lemma removed_slot c0 (slot : option ConnId) (c : ConnId) :
  slot <> Some c0 -> (if eqSlot slot c then None else slot) <> Some c0.
Proof. destruct (eqSlot slot c); congruence. Qed.

Section FrameOfObjects.
Variable notify : PeerId -> PState.t -> World -> World.
Hypothesis notify_frame : forall p prev w, frame w (notify p prev w).

Lemma Peer_setState_frame p ws rtc w : frame w (Peer_setState notify p ws rtc w).
Proof.
  unfold Peer_setState.
  match goal with |- context [updPeer p ?f w] => set (w1 := updPeer p f w) end.
  assert (H1 : frame w w1) by (apply frame_updPeer; intros r; split; reflexivity).
  destruct (subscribed (peerHeap w1 p)); [|exact H1].
  eapply frame_trans; [exact H1 | apply notify_frame].
Qed.

Lemma unbind_frame p c w : frame w (updConn c (unbind p) w).
Proof.
  apply frame_updConn.
  - intros H. unfold unbind. destruct (eqSlot _ p); simpl; exact H.
  - intros k. unfold unbind. destruct (eqSlot _ p); repeat split.
Qed.

Lemma Peer_removeConnection_frame p c w : frame w (Peer_removeConnection notify p c w).
Proof.
  unfold Peer_removeConnection.
  set (w1 := updConn c (unbind p) w).
  assert (H1 : frame w w1) by apply unbind_frame.
  destruct (type (peerState w1 p)); [exact H1 | |];
    (eapply frame_trans; [exact H1 | apply Peer_setState_frame]).
Qed.

Lemma Connection_close_frame c err w : frame w (Connection_close notify c err w).
Proof.
  unfold Connection_close.
  destruct (CState.isDisconnected (connState w c)); [apply frame_refl|].
  match goal with |- context [updConn c ?f w] => set (w1 := updConn c f w) end.
  assert (H1 : frame w w1).
  { apply frame_updConn; [reflexivity|]. intros k. destruct err; repeat split. }
  destruct (c_boundTo (connections w1 c)); [|exact H1].
  eapply frame_trans; [exact H1 | apply Peer_removeConnection_frame].
Qed.

Lemma Peer_setWebSocketConnection_frame p c w :
  frame w (Peer_setWebSocketConnection notify p c w).
Proof.
  unfold Peer_setWebSocketConnection.
  match goal with |- context [updConn c _ ?w1'] => set (w1 := w1') end.
  assert (H1 : frame w w1).
  { subst w1. destruct (wsSlot (peerState w p)) as [old|]; [|apply frame_refl].
    destruct (Nat.eqb old c); [apply frame_refl | apply Connection_close_frame]. }
  eapply frame_trans; [exact H1|].
  eapply frame_trans; [|apply Peer_setState_frame].
  apply frame_updConn; [intros H; exact H | intros k; repeat split].
Qed.

Lemma Peer_setWebRtcConnection_frame p c w :
  frame w (Peer_setWebRtcConnection notify p c w).
Proof.
  unfold Peer_setWebRtcConnection.
  match goal with |- context [updConn c _ ?w1'] => set (w1 := w1') end.
  assert (H1 : frame w w1).
  { subst w1. destruct (rtcSlot (peerState w p)) as [old|]; [|apply frame_refl].
    destruct (Nat.eqb old c); [apply frame_refl | apply Connection_close_frame]. }
  eapply frame_trans; [exact H1|].
  eapply frame_trans; [|apply Peer_setState_frame].
  apply frame_updConn; [intros H; exact H | intros k; repeat split].
Qed.

Lemma Peer_close_frame p err w : frame w (Peer_close notify p err w).
Proof.
  unfold Peer_close.
  match goal with |- frame w (match wsSlot (peerState ?w1' p) with _ => _ end) =>
    set (w1 := w1') end.
  assert (H1 : frame w w1).
  { subst w1. destruct (rtcSlot (peerState w p)); [|apply frame_refl].
    eapply frame_trans; [apply Peer_removeConnection_frame | apply Connection_close_frame]. }
  destruct (wsSlot (peerState w1 p)); [|exact H1].
  eapply frame_trans; [exact H1|].
  eapply frame_trans; [apply Peer_removeConnection_frame | apply Connection_close_frame].
Qed.
End FrameOfObjects.

Section KeepsOfObjects.
Variable c0 : ConnId.
Variable notify : PeerId -> PState.t -> World -> World.
Hypothesis notify_keeps : forall p prev w, detached c0 w -> keeps c0 w (notify p prev w).

Lemma Peer_setState_keeps p ws rtc w :
  detached c0 w -> ws <> Some c0 -> rtc <> Some c0 ->
  keeps c0 w (Peer_setState notify p ws rtc w).
Proof.
  intros Hd Hws Hrtc. unfold Peer_setState.
  match goal with |- context [updPeer p ?f w] => set (w1 := updPeer p f w) end.
  assert (H1 : keeps c0 w w1) by (apply keeps_updPeer; assumption).
  destruct (subscribed (peerHeap w1 p)); [|exact H1].
  eapply keeps_trans; [exact H1 | apply notify_keeps, H1].
Qed.

Lemma unbind_keeps p c w : detached c0 w -> keeps c0 w (updConn c (unbind p) w).
Proof.
  intros Hd. apply keeps_updConn; [exact Hd|].
  intros ->. unfold unbind. destruct Hd as [Hb _]. now rewrite Hb.
Qed.

Lemma Peer_removeConnection_keeps p c w :
  detached c0 w -> keeps c0 w (Peer_removeConnection notify p c w).
Proof.
  intros Hd. unfold Peer_removeConnection.
  set (w1 := updConn c (unbind p) w).
  assert (H1 : keeps c0 w w1) by now apply unbind_keeps.
  assert (H2 : keeps c0 w1
                 (Peer_setState notify p
                    (if eqSlot (webSocket (peerState w1 p)) c then None
                     else webSocket (peerState w1 p))
                    (if eqSlot (webRtc (peerState w1 p)) c then None
                     else webRtc (peerState w1 p)) w1)).
  { destruct H1 as [[Hb Hp] _].
    apply Peer_setState_keeps; [now split | |]; apply removed_slot; apply Hp. }
  destruct (type (peerState w1 p)); [exact H1 | |];
    (eapply keeps_trans; [exact H1 | exact H2]).
Qed.

Lemma Connection_close_keeps c err w :
  detached c0 w -> c <> c0 -> keeps c0 w (Connection_close notify c err w).
Proof.
  intros Hd Hne. unfold Connection_close.
  destruct (CState.isDisconnected (connState w c)); [now apply keeps_refl|].
  match goal with |- context [updConn c ?f w] => set (w1 := updConn c f w) end.
  assert (H1 : keeps c0 w w1) by (apply keeps_updConn; [exact Hd | congruence]).
  destruct (c_boundTo (connections w1 c)); [|exact H1].
  eapply keeps_trans; [exact H1 | apply Peer_removeConnection_keeps, H1].
Qed.

Lemma close_slot_keeps (slot : option ConnId) c w :
  detached c0 w -> slot <> Some c0 ->
  keeps c0 w (match slot with
              | Some old => if Nat.eqb old c then w else Connection_close notify old None w
              | None => w
              end).
Proof.
  intros Hd Hs. destruct slot as [old|]; [|now apply keeps_refl].
  destruct (Nat.eqb old c); [now apply keeps_refl|].
  apply Connection_close_keeps; congruence.
Qed.

Lemma Peer_setWebSocketConnection_keeps p c w :
  detached c0 w -> c <> c0 -> keeps c0 w (Peer_setWebSocketConnection notify p c w).
Proof.
  intros Hd Hne. unfold Peer_setWebSocketConnection.
  match goal with |- context [updConn c _ ?w1'] => set (w1 := w1') end.
  assert (H1 : keeps c0 w w1) by (apply close_slot_keeps; [exact Hd | now apply wsSlot_ne]).
  set (w2 := updConn c (c_with_boundTo (Some p)) w1).
  assert (H2 : keeps c0 w1 w2) by (apply keeps_updConn; [apply H1 | congruence]).
  eapply keeps_trans; [exact H1|]. eapply keeps_trans; [exact H2|].
  apply Peer_setState_keeps; [apply H2 | congruence | apply rtcSlot_ne, H2].
Qed.

Lemma Peer_setWebRtcConnection_keeps p c w :
  detached c0 w -> c <> c0 -> keeps c0 w (Peer_setWebRtcConnection notify p c w).
Proof.
  intros Hd Hne. unfold Peer_setWebRtcConnection.
  match goal with |- context [updConn c _ ?w1'] => set (w1 := w1') end.
  assert (H1 : keeps c0 w w1) by (apply close_slot_keeps; [exact Hd | now apply rtcSlot_ne]).
  set (w2 := updConn c (c_with_boundTo (Some p)) w1).
  assert (H2 : keeps c0 w1 w2) by (apply keeps_updConn; [apply H1 | congruence]).
  eapply keeps_trans; [exact H1|]. eapply keeps_trans; [exact H2|].
  apply Peer_setState_keeps; [apply H2 | apply wsSlot_ne, H2 | congruence].
Qed.

Lemma removeAndClose_keeps p c err w :
  detached c0 w -> c <> c0 ->
  keeps c0 w (Connection_close notify c err (Peer_removeConnection notify p c w)).
Proof.
  intros Hd Hne.
  assert (H1 := Peer_removeConnection_keeps p c w Hd).
  eapply keeps_trans; [exact H1 | apply Connection_close_keeps; [apply H1 | exact Hne]].
Qed.

Lemma Peer_close_keeps p err w :
  detached c0 w -> keeps c0 w (Peer_close notify p err w).
Proof.
  intros Hd. unfold Peer_close.
  match goal with |- keeps c0 w (match wsSlot (peerState ?w1' p) with _ => _ end) =>
    set (w1 := w1') end.
  assert (H1 : keeps c0 w w1).
  { subst w1. destruct (rtcSlot (peerState w p)) as [c|] eqn:E; [|now apply keeps_refl].
    apply removeAndClose_keeps; [exact Hd|].
    intros ->. now apply (rtcSlot_ne c0 w p). }
  destruct (wsSlot (peerState w1 p)) as [c|] eqn:E; [|exact H1].
  eapply keeps_trans; [exact H1|].
  apply removeAndClose_keeps; [apply H1|].
  intros ->. now apply (wsSlot_ne c0 w1 p); [apply H1|].
Qed.
End KeepsOfObjects.

(** Disposal changes neither connections nor slots. *)
Lemma Peer_dispose_frame p w : frame w (Peer_dispose p w).
Proof. apply frame_updPeer. intros r. split; reflexivity. Qed.

Lemma forgetIdentity_heaps p w :
  peerHeap (forgetIdentity p w) = peerHeap w
  /\ connections (forgetIdentity p w) = connections w
  /\ peers (forgetIdentity p w) = peers w
  /\ events (forgetIdentity p w) = events w
  /\ nextConnection (forgetIdentity p w) = nextConnection w
  /\ nextPeer (forgetIdentity p w) = nextPeer w.
Proof.
  unfold forgetIdentity. destruct (identity (peerState w p)); [|repeat split].
  destruct (_ && _); repeat split.
Qed.

Lemma forgetIdentity_frame p w : frame w (forgetIdentity p w).
Proof.
  unfold forgetIdentity. destruct (identity (peerState w p)); [|apply frame_refl].
  destruct (_ && _); [apply frame_w_identifiedPeers | apply frame_refl].
Qed.

Lemma forgetIdentity_keeps c0 p w : detached c0 w -> keeps c0 w (forgetIdentity p w).
Proof.
  intros Hd. unfold forgetIdentity. destruct (identity (peerState w p)); [|now apply keeps_refl].
  destruct (_ && _); [now split | now apply keeps_refl].
Qed.

Lemma tryDisposePeer_frame p w : frame w (snd (tryDisposePeer p w)).
Proof.
  unfold tryDisposePeer. destruct (canDispose w p); [|apply frame_refl]. simpl.
  eapply frame_trans; [apply Peer_dispose_frame|].
  eapply frame_trans; [apply forgetIdentity_frame | apply frame_w_peers].
Qed.

Lemma tryDisposePeer_keeps c0 p w : detached c0 w -> keeps c0 w (snd (tryDisposePeer p w)).
Proof.
  intros Hd. unfold tryDisposePeer. destruct (canDispose w p); [|now apply keeps_refl].
  simpl.
  assert (H1 : keeps c0 w (Peer_dispose p w)).
  { apply keeps_updPeer; [exact Hd | |]; simpl; apply Hd. }
  assert (H2 := forgetIdentity_keeps c0 p _ (proj1 H1)).
  eapply keeps_trans; [exact H1|]. eapply keeps_trans; [exact H2|].
  split; [apply H2 | reflexivity].
Qed.

Lemma Peer_updateRetry_frame p t d f w : frame w (Peer_updateRetry p t d f w).
Proof. apply frame_updPeer. intros r. split; reflexivity. Qed.

Lemma Peer_updateRetry_keeps c0 p t d f w :
  detached c0 w -> keeps c0 w (Peer_updateRetry p t d f w).
Proof. intros Hd. apply keeps_updPeer; [exact Hd | |]; simpl; apply Hd. Qed.

Section FrameOfIdentifiedPeerMap.
Variable notify : PeerId -> PState.t -> World -> World.
Hypothesis notify_frame : forall p prev w, frame w (notify p prev w).

Lemma mergeWebRtc_frame peer existingPeer w :
  frame w (mergeWebRtc notify peer existingPeer w).
Proof.
  unfold mergeWebRtc.
  destruct (slotConnected w (rtcSlot (peerState w peer))); [|apply frame_refl].
  match goal with |- frame w (match rtcSlot (peerState ?a peer) with _ => _ end) =>
    set (w2 := a) end.
  assert (H2 : frame w w2).
  { subst w2.
    match goal with |- frame w (match rtcSlot (peerState ?a peer) with _ => _ end) =>
      set (w1 := a) end.
    assert (H1 : frame w w1).
    { subst w1. destruct (rtcSlot (peerState w existingPeer)); [|apply frame_refl].
      eapply frame_trans;
        [now apply Peer_removeConnection_frame | now apply Connection_close_frame]. }
    destruct (rtcSlot (peerState w1 peer)); [|exact H1].
    eapply frame_trans; [exact H1 | now apply Peer_setWebRtcConnection_frame]. }
  destruct (rtcSlot (peerState w2 peer)); [|exact H2].
  eapply frame_trans; [exact H2 | now apply Peer_removeConnection_frame].
Qed.

Lemma mergeWebSocket_frame peer existingPeer w :
  frame w (mergeWebSocket notify peer existingPeer w).
Proof.
  unfold mergeWebSocket.
  destruct (slotConnected w (wsSlot (peerState w peer))); [|apply frame_refl].
  match goal with |- frame w (match wsSlot (peerState ?a peer) with _ => _ end) =>
    set (w2 := a) end.
  assert (H2 : frame w w2).
  { subst w2.
    match goal with |- frame w (match wsSlot (peerState ?a peer) with _ => _ end) =>
      set (w1 := a) end.
    assert (H1 : frame w w1).
    { subst w1. destruct (wsSlot (peerState w existingPeer)); [|apply frame_refl].
      eapply frame_trans;
        [now apply Peer_removeConnection_frame | now apply Connection_close_frame]. }
    destruct (wsSlot (peerState w1 peer)); [|exact H1].
    eapply frame_trans; [exact H1 | now apply Peer_setWebSocketConnection_frame]. }
  destruct (wsSlot (peerState w2 peer)); [|exact H2].
  eapply frame_trans; [exact H2 | now apply Peer_removeConnection_frame].
Qed.

Lemma updateIdentifiedPeerMap_frame peer w :
  frame w (updateIdentifiedPeerMap notify peer w).
Proof.
  unfold updateIdentifiedPeerMap.
  destruct (identity (peerState w peer)) as [i|]; [|apply frame_refl].
  destruct (JsMap.get i (identifiedPeers w)) as [existingPeer|];
    [|apply frame_w_identifiedPeers].
  destruct (Nat.eqb peer existingPeer); [apply frame_w_identifiedPeers|].
  assert (Hclose : frame w (snd (tryDisposePeer peer (Peer_close notify peer None w)))).
  { eapply frame_trans; [now apply Peer_close_frame | apply tryDisposePeer_frame]. }
  assert (Hmerge :
    frame w (snd (tryDisposePeer peer
               (Peer_updateRetry peer WebSocket Outbound neverRetryConnecting
                  (mergeWebSocket notify peer existingPeer
                     (mergeWebRtc notify peer existingPeer w)))))).
  { eapply frame_trans; [apply mergeWebRtc_frame|].
    eapply frame_trans; [apply mergeWebSocket_frame|].
    eapply frame_trans; [apply Peer_updateRetry_frame | apply tryDisposePeer_frame]. }
  destruct (type (peerState w peer)); assumption.
Qed.
End FrameOfIdentifiedPeerMap.

Section KeepsOfIdentifiedPeerMap.
Variable c0 : ConnId.
Variable notify : PeerId -> PState.t -> World -> World.
Hypothesis notify_keeps : forall p prev w, detached c0 w -> keeps c0 w (notify p prev w).

Lemma mergeWebRtc_keeps peer existingPeer w :
  detached c0 w -> keeps c0 w (mergeWebRtc notify peer existingPeer w).
Proof.
  intros Hd. unfold mergeWebRtc.
  destruct (slotConnected w (rtcSlot (peerState w peer))); [|now apply keeps_refl].
  match goal with |- keeps c0 w (match rtcSlot (peerState ?a peer) with _ => _ end) =>
    set (w2 := a) end.
  assert (H2 : keeps c0 w w2).
  { subst w2.
    match goal with |- keeps c0 w (match rtcSlot (peerState ?a peer) with _ => _ end) =>
      set (w1 := a) end.
    assert (H1 : keeps c0 w w1).
    { subst w1. destruct (rtcSlot (peerState w existingPeer)) as [old|] eqn:E;
        [|now apply keeps_refl].
      apply removeAndClose_keeps; [exact notify_keeps | exact Hd |].
      intros ->. now apply (rtcSlot_ne c0 w existingPeer). }
    destruct (rtcSlot (peerState w1 peer)) as [c|] eqn:E; [|exact H1].
    eapply keeps_trans; [exact H1|].
    apply Peer_setWebRtcConnection_keeps; [exact notify_keeps | apply H1 |].
    intros ->. now apply (rtcSlot_ne c0 w1 peer); [apply H1|]. }
  destruct (rtcSlot (peerState w2 peer)); [|exact H2].
  eapply keeps_trans; [exact H2|].
  apply Peer_removeConnection_keeps; [exact notify_keeps | apply H2].
Qed.

Lemma mergeWebSocket_keeps peer existingPeer w :
  detached c0 w -> keeps c0 w (mergeWebSocket notify peer existingPeer w).
Proof.
  intros Hd. unfold mergeWebSocket.
  destruct (slotConnected w (wsSlot (peerState w peer))); [|now apply keeps_refl].
  match goal with |- keeps c0 w (match wsSlot (peerState ?a peer) with _ => _ end) =>
    set (w2 := a) end.
  assert (H2 : keeps c0 w w2).
  { subst w2.
    match goal with |- keeps c0 w (match wsSlot (peerState ?a peer) with _ => _ end) =>
      set (w1 := a) end.
    assert (H1 : keeps c0 w w1).
    { subst w1. destruct (wsSlot (peerState w existingPeer)) as [old|] eqn:E;
        [|now apply keeps_refl].
      apply removeAndClose_keeps; [exact notify_keeps | exact Hd |].
      intros ->. now apply (wsSlot_ne c0 w existingPeer). }
    destruct (wsSlot (peerState w1 peer)) as [c|] eqn:E; [|exact H1].
    eapply keeps_trans; [exact H1|].
    apply Peer_setWebSocketConnection_keeps; [exact notify_keeps | apply H1 |].
    intros ->. now apply (wsSlot_ne c0 w1 peer); [apply H1|]. }
  destruct (wsSlot (peerState w2 peer)); [|exact H2].
  eapply keeps_trans; [exact H2|].
  apply Peer_removeConnection_keeps; [exact notify_keeps | apply H2].
Qed.

Lemma updateIdentifiedPeerMap_keeps peer w :
  detached c0 w -> keeps c0 w (updateIdentifiedPeerMap notify peer w).
Proof.
  intros Hd. unfold updateIdentifiedPeerMap.
  destruct (identity (peerState w peer)) as [i|]; [|now apply keeps_refl].
  destruct (JsMap.get i (identifiedPeers w)) as [existingPeer|]; [|now split].
  destruct (Nat.eqb peer existingPeer); [now split|].
  assert (Hclose : keeps c0 w (snd (tryDisposePeer peer (Peer_close notify peer None w)))).
  { assert (H1 := Peer_close_keeps c0 notify notify_keeps peer None w Hd).
    eapply keeps_trans; [exact H1 | apply tryDisposePeer_keeps, H1]. }
  assert (Hmerge :
    keeps c0 w (snd (tryDisposePeer peer
               (Peer_updateRetry peer WebSocket Outbound neverRetryConnecting
                  (mergeWebSocket notify peer existingPeer
                     (mergeWebRtc notify peer existingPeer w)))))).
  { assert (H1 := mergeWebRtc_keeps peer existingPeer w Hd).
    assert (H2 := mergeWebSocket_keeps peer existingPeer _ (proj1 H1)).
    assert (H3 := Peer_updateRetry_keeps c0 peer WebSocket Outbound neverRetryConnecting
                    _ (proj1 H2)).
    assert (H4 := tryDisposePeer_keeps c0 peer _ (proj1 H3)).
    eapply keeps_trans; [exact H1|]. eapply keeps_trans; [exact H2|].
    eapply keeps_trans; [exact H3 | exact H4]. }
  destruct (type (peerState w peer)); assumption.
Qed.
End KeepsOfIdentifiedPeerMap.

(** The subscribers themselves, at every depth. *)
Lemma peerStateChanged_frame depth peer prevState w :
  frame w (peerStateChanged depth peer prevState w).
Proof.
  revert peer prevState w. induction depth as [|d IH]; intros peer prevState w;
    [apply frame_refl|].
  cbn [peerStateChanged].
  match goal with |- frame w (match type (peerState ?a peer) with _ => _ end) =>
    set (w1 := a) end.
  assert (H1 : frame w w1).
  { subst w1. destruct (identifyHandler (peerHeap w peer)); [|apply frame_refl].
    destruct (type (peerState w peer)); try apply frame_refl.
    eapply frame_trans; [apply updateIdentifiedPeerMap_frame, IH|].
    apply frame_updPeer. intros r. split; reflexivity. }
  assert (H2 : frame w (emit OnConnectedPeersChanged (emit (OnDisconnect peer) w1))).
  { apply frame_emitted; [reflexivity|]. apply frame_emitted; [reflexivity | exact H1]. }
  destruct (type (peerState w1 peer)), (PState.eqb prevState PState.CONNECTED);
    try exact H1;
    try (eapply frame_trans; [exact H2 | apply tryDisposePeer_frame]).
  apply frame_emitted; [reflexivity|]. apply frame_emitted; [reflexivity | exact H1].
Qed.

Lemma peerStateChanged_keeps c0 depth peer prevState w :
  detached c0 w -> keeps c0 w (peerStateChanged depth peer prevState w).
Proof.
  revert peer prevState w. induction depth as [|d IH]; intros peer prevState w Hd;
    [now apply keeps_refl|].
  cbn [peerStateChanged].
  match goal with |- keeps c0 w (match type (peerState ?a peer) with _ => _ end) =>
    set (w1 := a) end.
  assert (H1 : keeps c0 w w1).
  { subst w1. destruct (identifyHandler (peerHeap w peer)); [|now apply keeps_refl].
    destruct (type (peerState w peer)); try now apply keeps_refl.
    assert (H := updateIdentifiedPeerMap_keeps c0 _ IH peer w Hd).
    eapply keeps_trans; [exact H|].
    apply keeps_updPeer; [apply H | |]; simpl; apply H. }
  assert (Hdis : keeps c0 w1 (snd (tryDisposePeer peer
                   (emit OnConnectedPeersChanged (emit (OnDisconnect peer) w1))))).
  { assert (He : keeps c0 w1 (emit OnConnectedPeersChanged (emit (OnDisconnect peer) w1)))
      by (split; [apply H1 | reflexivity]).
    eapply keeps_trans; [exact He | apply tryDisposePeer_keeps, He]. }
  destruct (type (peerState w1 peer)), (PState.eqb prevState PState.CONNECTED);
    try exact H1; try (eapply keeps_trans; [exact H1 | exact Hdis]).
Qed.

(** * The claims *)

(** ** Dialling an address that does not parse *)

(** C9: [connectToWebSocketAddress] throws when the hostname of the URI
    cannot be parsed, before any state is touched: the world, and so the
    peers list and [identifiedPeers], are exactly as before the call. *)
Theorem connectToWebSocketAddress_unparseable env uri whitelisted w :
  truthy (hostname (parseUrl env uri)) = false ->
  exists message,
    connectToWebSocketAddress env uri whitelisted w = (inl message, w)
    /\ peers (snd (connectToWebSocketAddress env uri whitelisted w)) = peers w
    /\ identifiedPeers (snd (connectToWebSocketAddress env uri whitelisted w))
       = identifiedPeers w.
Proof.
  intros H. unfold connectToWebSocketAddress. rewrite H. simpl.
  eexists. repeat split.
Qed.

Lemma connectToWebSocketAddress_unparseable_witness :
  exists message,
    connectToWebSocketAddress (sampleEnv 10000) EmptyString false emptyWorld
      = (inl message, emptyWorld)
    /\ peers (snd (connectToWebSocketAddress (sampleEnv 10000) EmptyString false emptyWorld))
       = peers emptyWorld
    /\ identifiedPeers
         (snd (connectToWebSocketAddress (sampleEnv 10000) EmptyString false emptyWorld))
       = identifiedPeers emptyWorld.
Proof.
  apply (connectToWebSocketAddress_unparseable (sampleEnv 10000) EmptyString false emptyWorld).
  reflexivity.
Defined.

(** ** Disposal *)

Lemma PState_eqb_eq a b : PState.eqb a b = true <-> a = b.
Proof. destruct a, b; simpl; split; congruence. Qed.

Lemma hasAConnectedPeer_false w peer :
  hasAConnectedPeer w peer = false <->
  forall q, In q (JsMap.values (knownPeers (peerHeap w peer))) ->
            type (peerState w q) <> PState.CONNECTED.
Proof.
  unfold hasAConnectedPeer.
  induction (JsMap.values (knownPeers (peerHeap w peer))) as [|q l IH]; simpl.
  - split; [intros _ q [] | reflexivity].
  - rewrite orb_false_iff, IH. split.
    + intros [Hq Hl] q' [<-|Hin]; [|auto].
      intros E. rewrite E in Hq. discriminate.
    + intros H. split; [|intros q' Hin; apply H; auto].
      destruct (PState.eqb _ _) eqn:E; [|reflexivity].
      apply PState_eqb_eq in E. exfalso. apply (H q); auto.
Qed.

Lemma canDispose_disposable w peer : canDispose w peer = true <-> disposable w peer.
Proof.
  unfold canDispose, disposable. rewrite !andb_true_iff, negb_true_iff.
  rewrite PState_eqb_eq, hasAConnectedPeer_false. split.
  - intros [[A B] C]. repeat split; auto.
    destruct (Peer_getConnectionRetry _ _ _) as [r|]; [eauto | discriminate].
  - intros (A & B & r & C & D). repeat split; auto. now rewrite C.
Qed.

Lemma canDispose_not_disposable w peer : ~ disposable w peer -> canDispose w peer = false.
Proof.
  intros H. destruct (canDispose w peer) eqn:E; [|reflexivity].
  apply canDispose_disposable in E. contradiction.
Qed.

Lemma In_removed q peer l :
  In q l -> ~ In q (filter (fun p => negb (Nat.eqb p peer)) l) -> q = peer.
Proof.
  intros Hin Hout. destruct (Nat.eqb_spec q peer) as [|Hne]; [assumption|].
  exfalso. apply Hout, filter_In. split; [assumption|].
  apply negb_true_iff, Nat.eqb_neq, Hne.
Qed.

Lemma tryDisposePeer_false peer w : canDispose w peer = false -> tryDisposePeer peer w = (false, w).
Proof. intros H. unfold tryDisposePeer. now rewrite H. Qed.

Lemma tryDisposePeer_peers peer w q :
  In q (peers w) -> ~ In q (peers (snd (tryDisposePeer peer w))) ->
  q = peer /\ canDispose w peer = true.
Proof.
  unfold tryDisposePeer. destruct (canDispose w peer) eqn:E; simpl.
  - destruct (forgetIdentity_heaps peer (Peer_dispose peer w)) as (_ & _ & -> & _).
    intros Hin Hout. split; [|reflexivity]. now apply In_removed with (l := peers w).
  - contradiction.
Qed.

Lemma isPeer_true peer o : isPeer peer o = true -> o = Some peer.
Proof. destruct o as [q|]; simpl; [|discriminate]. now intros ->%Nat.eqb_eq. Qed.

Lemma tryDisposePeer_identified peer w i q :
  JsMap.get i (identifiedPeers w) = Some q ->
  JsMap.get i (identifiedPeers (snd (tryDisposePeer peer w))) <> Some q ->
  q = peer /\ canDispose w peer = true.
Proof.
  unfold tryDisposePeer. destruct (canDispose w peer) eqn:E; simpl; [|contradiction].
  unfold forgetIdentity.
  destruct (identity (peerState (Peer_dispose peer w) peer)) as [k|]; [|contradiction].
  destruct (truthy (Some k) && isPeer peer (JsMap.get k (identifiedPeers (Peer_dispose peer w))))
    eqn:Hk; simpl; [|contradiction].
  apply andb_true_iff in Hk. destruct Hk as [_ Hk]. apply isPeer_true in Hk. simpl in Hk.
  intros Hget Hout. destruct (String.eqb_spec k i) as [->|Hne].
  - split; [congruence | reflexivity].
  - rewrite JsMap_get_delete_ne in Hout by assumption. contradiction.
Qed.

Lemma tryDisposePeer_types peer w x :
  type (peerState (snd (tryDisposePeer peer w)) x) = type (peerState w x).
Proof.
  unfold tryDisposePeer. destruct (canDispose w peer); [|reflexivity]. simpl.
  unfold peerState. simpl.
  destruct (forgetIdentity_heaps peer (Peer_dispose peer w)) as (-> & _). simpl.
  destruct (Nat.eqb x peer); reflexivity.
Qed.

Lemma tryDisposePeer_other peer w q :
  q <> peer -> peerHeap (snd (tryDisposePeer peer w)) q = peerHeap w q.
Proof.
  intros Hne. unfold tryDisposePeer. destruct (canDispose w peer); [|reflexivity]. simpl.
  destruct (forgetIdentity_heaps peer (Peer_dispose peer w)) as (-> & _). simpl.
  apply Nat.eqb_neq in Hne. now rewrite Hne.
Qed.

Lemma canDispose_after peer w q :
  canDispose (snd (tryDisposePeer peer w)) q = true -> canDispose w q = true.
Proof.
  destruct (Nat.eqb_spec q peer) as [->|Hne].
  - unfold tryDisposePeer. destruct (canDispose w peer) eqn:E; simpl; [auto | congruence].
  - intros H. rewrite <- H. unfold canDispose, hasAConnectedPeer.
    rewrite tryDisposePeer_types, (tryDisposePeer_other peer w q Hne).
    f_equal. f_equal. f_equal.
    induction (JsMap.values (knownPeers (peerHeap w q))) as [|x l IH]; simpl; [reflexivity|].
    now rewrite tryDisposePeer_types, IH.
Qed.

(** The sweep removes only what was disposable when it started. *)
Lemma sweep_invariant l w0 w :
  (forall q, canDispose w q = true -> canDispose w0 q = true) ->
  (forall q, In q (peers w0) -> ~ In q (peers w) -> canDispose w0 q = true) ->
  (forall i q, JsMap.get i (identifiedPeers w0) = Some q ->
               JsMap.get i (identifiedPeers w) <> Some q -> canDispose w0 q = true) ->
  let w' := fold_left (fun w p => snd (tryDisposePeer p w)) l w in
  (forall q, In q (peers w0) -> ~ In q (peers w') -> canDispose w0 q = true)
  /\ (forall i q, JsMap.get i (identifiedPeers w0) = Some q ->
                  JsMap.get i (identifiedPeers w') <> Some q -> canDispose w0 q = true).
Proof.
  revert w. induction l as [|p l IH]; intros w Hc Hp Hi; simpl; [split; assumption|].
  apply IH.
  - intros q Hq. apply Hc. now apply canDispose_after with (peer := p).
  - intros q Hin Hout.
    destruct (in_dec Nat.eq_dec q (peers w)) as [Hw|Hw]; [|now apply Hp].
    destruct (tryDisposePeer_peers p w q Hw Hout) as [-> Hd]. now apply Hc.
  - intros i q Hget Hout.
    destruct (JsMap.get i (identifiedPeers w)) as [q'|] eqn:Hw.
    + destruct (Nat.eq_dec q' q) as [->|Hne].
      * destruct (tryDisposePeer_identified p w i q Hw Hout) as [-> Hd]. now apply Hc.
      * apply Hi with (i := i); [assumption | congruence].
    + apply Hi with (i := i); [assumption | congruence].
Qed.

(** C6: a peer leaves the peers list or [identifiedPeers], through
    [tryDisposePeer] and through the periodic sweep, only when it is
    DISCONNECTED, knows no CONNECTED peer and its outbound WebSocket retry
    is marked neverRetry; when a condition fails [tryDisposePeer] returns
    false and changes nothing. *)
Theorem dispose_only_when_disposable w peer :
  (~ disposable w peer -> tryDisposePeer peer w = (false, w))
  /\ (forall q, In q (peers w) -> ~ In q (peers (snd (tryDisposePeer peer w))) ->
                q = peer /\ disposable w peer)
  /\ (forall i q, JsMap.get i (identifiedPeers w) = Some q ->
                  JsMap.get i (identifiedPeers (snd (tryDisposePeer peer w))) <> Some q ->
                  q = peer /\ disposable w peer)
  /\ (forall q, In q (peers w) -> ~ In q (peers (disposePeers w)) -> disposable w q)
  /\ (forall i q, JsMap.get i (identifiedPeers w) = Some q ->
                  JsMap.get i (identifiedPeers (disposePeers w)) <> Some q ->
                  disposable w q).
Proof.
  assert (Hsweep := sweep_invariant (peers w) w w (fun q H => H)
                      (fun q Hin Hout => False_ind _ (Hout Hin))
                      (fun i q Hget Hout => False_ind _ (Hout Hget))).
  cbv zeta in Hsweep. destruct Hsweep as [Sp Si].
  split; [|split; [|split; [|split]]].
  - intros H. now apply tryDisposePeer_false, canDispose_not_disposable.
  - intros q Hin Hout. destruct (tryDisposePeer_peers peer w q Hin Hout) as [-> H].
    split; [reflexivity | now apply canDispose_disposable].
  - intros i q Hget Hout. destruct (tryDisposePeer_identified peer w i q Hget Hout) as [-> H].
    split; [reflexivity | now apply canDispose_disposable].
  - intros q Hin Hout. apply canDispose_disposable. now apply Sp.
  - intros i q Hget Hout. apply canDispose_disposable. now apply Si with (i := i).
Qed.

Lemma dispose_only_when_disposable_witness :
  disposable (abandoned (sampleEnv 10000)) O.
Proof.
  apply (proj1 (proj2 (proj2 (proj2
           (dispose_only_when_disposable (abandoned (sampleEnv 10000)) O))))).
  - vm_compute. left. reflexivity.
  - vm_compute. intros [].
Defined.

(** ** The congested node *)

Lemma list_neq_cons {A} (x : A) (l : list A) : l <> x :: l.
Proof.
  intros H. apply (f_equal (@length A)) in H. simpl in H. lia.
Qed.

(** The guard at the head of [handleSignalRequestMessage]: a request whose
    source may initiate towards its destination is dropped. *)
Lemma signalRequest_guard env sender s d w :
  canInitiateWebRTC s d = true -> handleSignalRequestMessage env sender s d w = w.
Proof. intros H. unfold handleSignalRequestMessage. now rewrite H. Qed.

Lemma Z_1000_60_5 : 1000 * 60 * 5 = 300000.
Proof. reflexivity. Qed.

(** C5, as amended: a SignalRequest addressed to us that passes the
    initiator guard (the source may not initiate towards us) and arrives
    while [getPeersWithConnection().length >= maxPeers] from a source that
    is not a CONNECTED peer is answered, through its sender, with a
    Disconnecting frame of reason Congested and [disconnectUntil] 300000;
    no peer record is made and no connection is opened. *)
Theorem congested_request_answered env sender source w :
  canInitiateWebRTC source (publicIdentity (localPeer env)) = false ->
  answersWhenCongested env sender source w.
Proof.
  intros Hguard Hfull Hsource. unfold handleSignalRequestMessage.
  rewrite Hguard, String.eqb_refl, Hfull, Hsource. simpl.
  unfold Peer_send, repliesCongested, congestedReply.
  rewrite Z_1000_60_5. repeat split. eexists. reflexivity.
Qed.

Lemma congested_request_answered_witness :
  repliesCongested (sampleEnv 2) O "zzzz"%string (twoPeers (sampleEnv 2))
    (handleSignalRequestMessage (sampleEnv 2) O "zzzz"%string
       (publicIdentity (localPeer (sampleEnv 2))) (twoPeers (sampleEnv 2))).
Proof.
  apply (congested_request_answered (sampleEnv 2) O "zzzz"%string (twoPeers (sampleEnv 2))).
  - vm_compute. reflexivity.
  - vm_compute. reflexivity.
  - vm_compute. reflexivity.
Defined.

(** C5, as stated, fails: with [maxPeers = 2], two connected peers and a
    request from the unknown [AAAA], which may initiate towards [ZZZZ], the
    request is dropped by the initiator guard and no reply is sent. *)
Lemma congested_request_unanswered :
  ~ answersWhenCongested (sampleEnv 2) O "AAAA"%string (twoPeers (sampleEnv 2)).
Proof.
  intros H.
  assert (Hfull : shouldRejectDisconnectedPeers (sampleEnv 2) (twoPeers (sampleEnv 2)) = true)
    by (vm_compute; reflexivity).
  assert (Hsource : notConnected "AAAA"%string (twoPeers (sampleEnv 2)) = true)
    by (vm_compute; reflexivity).
  assert (Hsame : handleSignalRequestMessage (sampleEnv 2) O "AAAA"%string
                    (publicIdentity (localPeer (sampleEnv 2))) (twoPeers (sampleEnv 2))
                  = twoPeers (sampleEnv 2))
    by (apply signalRequest_guard; vm_compute; reflexivity).
  destruct (H Hfull Hsource) as [[via Hev] _].
  rewrite Hsame in Hev.
  exact (list_neq_cons _ _ Hev).
Qed.

(** ** Relaying *)

Lemma forward_relays m sender s d w : relayRule m sender s d w (forward sender s d m w).
Proof.
  unfold relayRule, relayCondition, forward, getPeer, sendTo, Peer_send.
  destruct (identity (peerState w sender)) as [i|] eqn:Hi; simpl.
  - destruct (String.eqb_spec s i) as [->|Hne]; simpl.
    + destruct (JsMap.get d (identifiedPeers w)) as [p|] eqn:Hd.
      * split; [|intros H; exfalso; apply H; eauto].
        intros _. exists p. eexists. split; [exact Hd | reflexivity].
      * split; [intros [_ [p Hp]]; discriminate | reflexivity].
    + split; [intros [H _]; congruence | reflexivity].
  - split; [intros [H _]; discriminate | reflexivity].
Qed.

Lemma Peer_close_nothingSent env peer err w :
  nothingSent w (Peer_close (peerStateChanged (depth env)) peer err w).
Proof.
  apply frame_observed, Peer_close_frame. intros p prev w0. apply peerStateChanged_frame.
Qed.

(** C2, as amended: a Signal or Disconnecting frame for another identity
    is forwarded, unchanged, to the peer of its destination iff its source
    is the identity of the peer it came from and the destination is in
    [identifiedPeers], and is dropped otherwise; a Disconnecting frame
    without destination is never forwarded; a SignalRequest obeys the same
    rule provided its source may not initiate towards its destination,
    and is dropped, whoever sent it, when it may. *)
Theorem relay_rule env sender m w :
  ((forall s d, m = SignalRequest s d -> canInitiateWebRTC s d = false) ->
   relaysWhenNotForUs env sender m w)
  /\ (forall s d, m = SignalRequest s d -> canInitiateWebRTC s d = true ->
                  handleSignalRequestMessage env sender s d w = w).
Proof.
  split.
  - intros Hguard. destruct m as [| s d | s d nonce signal | | s [d|] reason until |]; simpl; auto.
    + intros Hd. unfold handleSignalRequestMessage.
      rewrite (Hguard s d eq_refl).
      apply String.eqb_neq in Hd. rewrite Hd. simpl. apply forward_relays.
    + intros Hd. unfold handleSignalMessage.
      apply String.eqb_neq in Hd. rewrite Hd. simpl. apply forward_relays.
    + intros Hd. unfold handleDisconnectingMessage.
      apply String.eqb_neq in Hd. rewrite Hd. simpl. apply forward_relays.
    + unfold handleDisconnectingMessage.
      exact (Peer_close_nothingSent env sender None _).
  - intros s d _ Hcan. now apply signalRequest_guard.
Qed.

Lemma relay_rule_witness :
  relayRule (SignalRequest "CCCC"%string "BBBB"%string) 1%nat "CCCC"%string "BBBB"%string
    (twoPeers (sampleEnv 10000))
    (handleSignalRequestMessage (sampleEnv 10000) 1%nat "CCCC"%string "BBBB"%string
       (twoPeers (sampleEnv 10000))).
Proof.
  apply (proj1 (relay_rule (sampleEnv 10000) 1%nat
                  (SignalRequest "CCCC"%string "BBBB"%string)
                  (twoPeers (sampleEnv 10000)))).
  - intros s d H. injection H as <- <-. vm_compute. reflexivity.
  - vm_compute. discriminate.
Defined.

(** C2, as stated, fails: [BBBB] (peer 0) sends a SignalRequest of its own
    for the identified [CCCC]; the relay condition holds, yet the request
    is dropped because [BBBB] may initiate towards [CCCC]. *)
Lemma relay_rule_signalRequest_dropped :
  ~ relaysWhenNotForUs (sampleEnv 10000) O (SignalRequest "BBBB"%string "CCCC"%string)
      (twoPeers (sampleEnv 10000)).
Proof.
  intros H. cbn [relaysWhenNotForUs] in H.
  assert (Hd : "CCCC"%string <> publicIdentity (localPeer (sampleEnv 10000)))
    by (vm_compute; discriminate).
  destruct (H Hd) as [Hfw _].
  assert (Hc : relayCondition (twoPeers (sampleEnv 10000)) O "BBBB"%string "CCCC"%string).
  { split; [vm_compute; reflexivity | exists 1%nat; vm_compute; reflexivity]. }
  destruct (Hfw Hc) as (p & via & _ & Hev).
  assert (Hsame : handleSignalRequestMessage (sampleEnv 10000) O "BBBB"%string "CCCC"%string
                    (twoPeers (sampleEnv 10000)) = twoPeers (sampleEnv 10000))
    by (apply signalRequest_guard; vm_compute; reflexivity).
  rewrite Hsame in Hev.
  exact (list_neq_cons _ _ Hev).
Qed.

(** ** Broadcasting the peer list *)

Lemma In_sentFrames w p m via :
  In (PeerSend p m via) (events w) -> In (p, m) (sentFrames w).
Proof.
  unfold sentFrames. induction (events w) as [|e l IH]; simpl; [auto|].
  intros [->|H]; [left; reflexivity|].
  apply in_or_app. right. auto.
Qed.

Lemma connectedPeersPayload_spec env w :
  PeerList (connectedPeersPayload env w) = peerListOf env (fun _ => true) w.
Proof.
  unfold peerListOf, connectedPeersPayload, getConnectedPeers. f_equal.
  induction (JsMap.values (identifiedPeers w)) as [|p l IH]; simpl; [reflexivity|].
  rewrite IH. destruct (type (peerState w p)); simpl; try reflexivity.
  unfold listable. rewrite andb_true_r.
  destruct (isWorker (peerHeap w p) && negb (broadcastWorkers (localPeer env)));
    reflexivity.
Qed.

(** [broadcast] hands the frame to every connected peer of the list it
    runs over, and forgets nothing that was observed before. *)
Lemma broadcast_sends m l w :
  let w' :=
    fold_left (fun w peer =>
                 match type (peerState w peer) with
                 | PState.CONNECTED => Peer_send peer m w
                 | _ => w
                 end) l w in
  peerHeap w' = peerHeap w
  /\ disposePeersHandle w' = disposePeersHandle w
  /\ (forall e, In e (events w) -> In e (events w'))
  /\ (forall p, In p l -> type (peerState w p) = PState.CONNECTED ->
                exists via, In (PeerSend p m via) (events w')).
Proof.
  revert w. induction l as [|q l IH]; intros w; simpl.
  - repeat split; auto. intros p [].
  - match goal with |- context [fold_left _ l ?x] => set (w1 := x) end.
    assert (Hh : peerHeap w1 = peerHeap w)
      by (subst w1; destruct (type (peerState w q)); reflexivity).
    assert (Hd : disposePeersHandle w1 = disposePeersHandle w)
      by (subst w1; destruct (type (peerState w q)); reflexivity).
    assert (He : forall e, In e (events w) -> In e (events w1)).
    { subst w1. intros e H. destruct (type (peerState w q)); simpl; auto. }
    destruct (IH w1) as (A & B & C & D). repeat split.
    + congruence.
    + congruence.
    + auto.
    + intros p [<-|Hin] Hp.
      * subst w1. rewrite Hp in *. eexists. apply C. simpl. left. reflexivity.
      * apply D; [assumption|]. unfold peerState. now rewrite Hh.
Qed.

Lemma disposePeers_events w : events (disposePeers w) = events w.
Proof.
  unfold disposePeers. generalize (peers w). intros l. revert w.
  induction l as [|p l IH]; intros w; simpl; [reflexivity|].
  rewrite IH. unfold tryDisposePeer. destruct (canDispose w p); [|reflexivity].
  simpl. now destruct (forgetIdentity_heaps p (Peer_dispose p w)) as (_ & _ & _ & -> & _).
Qed.

Lemma In_getConnectedPeers w p :
  In p (getConnectedPeers w) ->
  In p (JsMap.values (identifiedPeers w)) /\ type (peerState w p) = PState.CONNECTED.
Proof.
  unfold getConnectedPeers. rewrite filter_In, PState_eqb_eq. auto.
Qed.

Lemma due_period k : 0 < k -> due (Some 5000) (5000 * k) = true.
Proof.
  intros Hk. unfold due. rewrite Z.mul_comm, Z_mod_mult.
  apply andb_true_iff. split; [apply Z.ltb_lt; lia | reflexivity].
Qed.

(** C3, as amended: [k] periods of five seconds after [start], every
    CONNECTED identified peer has been sent one and the same PeerList,
    which lists every CONNECTED identified peer, the recipient included,
    workers excluded unless [broadcastWorkers] is set. *)
Theorem broadcast_same_list env w k : receivesTheList env w k.
Proof.
  intros Hk p Hp. apply In_getConnectedPeers in Hp. destruct Hp as [Hin Hc].
  unfold timers. cbn [start broadcastPeerListHandle w_handles].
  rewrite (due_period k Hk).
  assert (Hsent : exists via,
            In (PeerSend p (peerListOf env (fun _ => true) w) via)
               (events (broadcastPeerList env (start w)))).
  { unfold broadcastPeerList, broadcast.
    rewrite (connectedPeersPayload_spec env (start w)).
    destruct (broadcast_sends (peerListOf env (fun _ => true) (start w))
                (JsMap.values (identifiedPeers (start w))) (start w))
      as (_ & _ & _ & H).
    apply (H p Hin Hc). }
  destruct Hsent as [via Hvia]. exists via.
  destruct (due _ _); [rewrite disposePeers_events|]; exact Hvia.
Qed.

Lemma broadcast_same_list_witness :
  exists via,
    In (PeerSend O (peerListOf (sampleEnv 10000) (fun _ => true) (twoPeers (sampleEnv 10000))) via)
       (events (timers (sampleEnv 10000) (5000 * 2) (start (twoPeers (sampleEnv 10000))))).
Proof.
  apply (broadcast_same_list (sampleEnv 10000) (twoPeers (sampleEnv 10000)) 2).
  - reflexivity.
  - vm_compute. left. reflexivity.
Defined.

(** C3, as stated, fails: with [BBBB] and [CCCC] connected, the list sent
    to [BBBB] after five seconds names [BBBB] itself, not only [CCCC]. *)
Lemma broadcast_includes_recipient :
  ~ receivesTheOthers (sampleEnv 10000) (twoPeers (sampleEnv 10000)) 1.
Proof.
  intros H.
  assert (Hp : In O (getConnectedPeers (twoPeers (sampleEnv 10000))))
    by (vm_compute; left; reflexivity).
  assert (Hlist : peerListOf (sampleEnv 10000) (fun q => negb (Nat.eqb q O))
                    (twoPeers (sampleEnv 10000))
                  = PeerList [mkEntry "CCCC"%string None None None])
    by (vm_compute; reflexivity).
  assert (Hsent : sentFrames (timers (sampleEnv 10000) (5000 * 1)
                                (start (twoPeers (sampleEnv 10000))))
                  = [(1%nat, PeerList [mkEntry "BBBB"%string None None None;
                                       mkEntry "CCCC"%string None None None]);
                     (O, PeerList [mkEntry "BBBB"%string None None None;
                                   mkEntry "CCCC"%string None None None])])
    by (vm_compute; reflexivity).
  destruct (H eq_refl O Hp) as [via Hin].
  apply In_sentFrames in Hin. rewrite Hsent, Hlist in Hin.
  destruct Hin as [Hin|[Hin|[]]]; discriminate Hin.
Qed.

(** ** Application frames *)

Lemma observed_In w w' e :
  observed w' = observed w -> In e (events w') -> lifecycle e = false -> In e (events w).
Proof.
  intros Ho Hin He.
  assert (H : In e (observed w')) by (apply filter_In; split; [assumption | now rewrite He]).
  rewrite Ho in H. now apply filter_In in H.
Qed.

Lemma isDisconnected_eq s : CState.isDisconnected s = true <-> s = CState.DISCONNECTED.
Proof. destruct s; simpl; split; congruence. Qed.

Lemma Connection_close_closed notify c err w :
  (forall p prev w0, frame w0 (notify p prev w0)) ->
  connState (Connection_close notify c err w) c = CState.DISCONNECTED.
Proof.
  intros Hn. unfold Connection_close.
  destruct (CState.isDisconnected (connState w c)) eqn:E; [now apply isDisconnected_eq|].
  match goal with |- context [updConn c ?f w] => set (w1 := updConn c f w) end.
  assert (H1 : connState w1 c = CState.DISCONNECTED).
  { unfold connState. subst w1. simpl. now rewrite Nat.eqb_refl. }
  destruct (c_boundTo (connections w1 c)); [|exact H1].
  now apply (frame_closed _ _ (Peer_removeConnection_frame notify Hn _ c w1)).
Qed.

Lemma removeAndClose_closed notify p c err w :
  (forall p prev w0, frame w0 (notify p prev w0)) ->
  connState (Connection_close notify c err (Peer_removeConnection notify p c w)) c
  = CState.DISCONNECTED.
Proof. intros Hn. now apply Connection_close_closed. Qed.

(** [peer.close()] closes the WebRTC connection of the peer, and its
    WebSocket connection when that is the only one. *)
Lemma Peer_close_closes notify p err w :
  (forall p prev w0, frame w0 (notify p prev w0)) ->
  (forall c, rtcSlot (peerState w p) = Some c ->
             connState (Peer_close notify p err w) c = CState.DISCONNECTED)
  /\ (rtcSlot (peerState w p) = None ->
      forall c, wsSlot (peerState w p) = Some c ->
                connState (Peer_close notify p err w) c = CState.DISCONNECTED).
Proof.
  intros Hn. unfold Peer_close. split.
  - intros c Hc. rewrite Hc.
    set (w1 := Connection_close notify c err (Peer_removeConnection notify p c w)).
    assert (H1 : connState w1 c = CState.DISCONNECTED) by now apply removeAndClose_closed.
    destruct (wsSlot (peerState w1 p)) as [c2|]; [|exact H1].
    apply (frame_closed w1); [|exact H1].
    eapply frame_trans;
      [now apply Peer_removeConnection_frame | now apply Connection_close_frame].
  - intros Hr c Hc. rewrite Hr, Hc. now apply removeAndClose_closed.
Qed.

(** C8: a frame that is none of Disconnecting, Identify, SignalRequest,
    Signal and PeerList, arriving on a connection that does not wait for
    the identity, is fired on [onMessage] with the identity of the peer
    when the peer has one; when it has none, the peer is closed and
    nothing is fired on [onMessage] (the only events are those of the
    life cycle). *)
Theorem other_frames env peer connection t payload w :
  connState w connection <> CState.WAITING_FOR_IDENTITY ->
  let w' := handleMessage env peer connection (Other t payload) w in
  match identity (peerState w peer) with
  | Some i => w' = emit (OnMessage peer i (Other t payload)) w
  | None =>
      w' = Peer_close (peerStateChanged (depth env)) peer None w
      /\ (forall e, In e (events w') -> lifecycle e = false -> In e (events w))
      /\ (forall q i m, In (OnMessage q i m) (events w') -> In (OnMessage q i m) (events w))
      /\ (forall c, rtcSlot (peerState w peer) = Some c -> connState w' c = CState.DISCONNECTED)
      /\ (rtcSlot (peerState w peer) = None ->
          forall c, wsSlot (peerState w peer) = Some c ->
                    connState w' c = CState.DISCONNECTED)
  end.
Proof.
  intros Hstate. cbv zeta.
  assert (Heq : handleMessage env peer connection (Other t payload) w
                = match identity (peerState w peer) with
                  | Some i => emit (OnMessage peer i (Other t payload)) w
                  | None => Peer_close (peerStateChanged (depth env)) peer None w
                  end).
  { unfold handleMessage. destruct (connState w connection); try reflexivity.
    now contradiction Hstate. }
  rewrite Heq. destruct (identity (peerState w peer)) as [i|]; [reflexivity|].
  assert (Hn : forall p prev w0, frame w0 (peerStateChanged (depth env) p prev w0))
    by (intros; apply peerStateChanged_frame).
  assert (Ho := Peer_close_nothingSent env peer None w).
  destruct (Peer_close_closes (peerStateChanged (depth env)) peer None w Hn) as [Hr Hw].
  repeat split; auto.
  - intros e Hin He. now apply (observed_In w _ e Ho).
  - intros q i m Hin. now apply (observed_In w _ _ Ho).
Qed.

Lemma other_frames_witness :
  handleMessage (sampleEnv 10000) O O (Other "getBlocks"%string "{}"%string) (twoPeers (sampleEnv 10000))
  = emit (OnMessage O "BBBB"%string (Other "getBlocks"%string "{}"%string)) (twoPeers (sampleEnv 10000)).
Proof.
  apply (other_frames (sampleEnv 10000) O O "getBlocks"%string "{}"%string (twoPeers (sampleEnv 10000))).
  vm_compute. discriminate.
Defined.

(** ** Signalling *)

Lemma sameNetwork_refl w : sameNetwork w w.
Proof. constructor; auto. Qed.

Lemma sameNetwork_trans w1 w2 w3 :
  sameNetwork w1 w2 -> sameNetwork w2 w3 -> sameNetwork w1 w3.
Proof.
  intros [A1 B1 C1 D1] [A2 B2 C2 D2]. constructor.
  - congruence.
  - congruence.
  - intros q. rewrite (C2 q). apply C1.
  - intros e H. destruct (D2 e H) as [H'|H']; auto.
Qed.

Lemma addEdge_sameNetwork peer addTo flag w : sameNetwork w (addEdge peer addTo flag w).
Proof.
  unfold addEdge. destruct (identity (peerState w peer)) as [i|]; [|apply sameNetwork_refl].
  destruct (JsMap.has i (knownPeers (peerHeap w addTo))); [apply sameNetwork_refl|].
  unfold Peer_emitKnownPeersChanged.
  match goal with |- context [updPeer addTo ?f w] => set (w1 := updPeer addTo f w) end.
  assert (H1 : sameNetwork w w1).
  { constructor; auto. intros q. simpl. destruct (Nat.eqb q addTo); reflexivity. }
  destruct flag; [|exact H1]. destruct (subscribed (peerHeap w1 addTo)); [|exact H1].
  eapply sameNetwork_trans; [exact H1|]. constructor; auto.
  intros e [<-|H]; auto.
Qed.

Lemma addKnownPeerTo_rec_sameNetwork n peer addTo flag w :
  sameNetwork w (addKnownPeerTo_rec n peer addTo flag w).
Proof.
  revert peer addTo flag w. induction n as [|n IH]; intros peer addTo flag w; simpl;
    [apply sameNetwork_refl|].
  destruct (_ || _); [apply sameNetwork_refl|].
  destruct (String.eqb _ _); [apply sameNetwork_refl|].
  assert (H1 := addEdge_sameNetwork peer addTo flag w).
  destruct (JsMap.has _ _); [exact H1|].
  eapply sameNetwork_trans; [exact H1 | apply IH].
Qed.

Lemma addKnownPeerTo_sameNetwork peer addTo flag w :
  sameNetwork w (addKnownPeerTo peer addTo flag w).
Proof. apply addKnownPeerTo_rec_sameNetwork. Qed.

Lemma getOrCreatePeer_found env (i : Identity) w p :
  JsMap.get i (identifiedPeers w) = Some p -> getOrCreatePeer env (Some i) w = (p, w).
Proof. intros H. unfold getOrCreatePeer. now rewrite H. Qed.

(** A peer created for an identity: a fresh, disconnected record with that
    identity; no connection and no event comes with it. *)
Lemma getOrCreatePeer_new env (i : Identity) w :
  JsMap.get i (identifiedPeers w) = None ->
  let p := fst (getOrCreatePeer env (Some i) w) in
  let w1 := snd (getOrCreatePeer env (Some i) w) in
  p = nextPeer w
  /\ state (peerHeap w1 p) = mkPeerState PState.DISCONNECTED (Some i) None None
  /\ connections w1 = connections w
  /\ nextConnection w1 = nextConnection w
  /\ events w1 = events w.
Proof.
  intros H. unfold getOrCreatePeer. rewrite H.
  unfold updateIdentifiedPeerMap, peerState. cbn. rewrite Nat.eqb_refl. cbn.
  rewrite H. cbn. rewrite Nat.eqb_refl. repeat split.
Qed.

Lemma sameNetwork_signals w w' c data :
  sameNetwork w w' ->
  In (ConnectionSignal c data) (events w') -> In (ConnectionSignal c data) (events w).
Proof.
  intros H Hin. destruct (same_events _ _ H _ Hin) as [Hw|Hk]; [assumption | discriminate].
Qed.

Lemma frame_signals w w' c data :
  frame w w' ->
  In (ConnectionSignal c data) (events w') -> In (ConnectionSignal c data) (events w).
Proof. intros H Hin. now apply (observed_In w w' _ (frame_observed _ _ H)). Qed.

Lemma feedSignal_next env peer connection source nonce signal w :
  nextConnection (feedSignal env peer connection source nonce signal w) = nextConnection w.
Proof.
  assert (Hclose : forall err,
    nextConnection (Connection_close (peerStateChanged (depth env)) connection err w)
    = nextConnection w).
  { intros err. apply frame_next, Connection_close_frame.
    intros p prev w0. apply peerStateChanged_frame. }
  unfold feedSignal. destruct (unboxMessage _ _ _ _); [|apply Hclose].
  destruct (parseJson _ _); [reflexivity | apply Hclose].
Qed.

(** What [initWebRtcConnection] makes: one connection, of the WebRTC
    transport, initiator or not as asked. *)
Lemma initWebRtcConnection_new env broker peer initiator w :
  let c := fst (initWebRtcConnection env broker peer initiator w) in
  let w' := snd (initWebRtcConnection env broker peer initiator w) in
  c = nextConnection w
  /\ nextConnection w' = S (nextConnection w)
  /\ c_type (connections w' c) = WebRtc
  /\ c_initiator (connections w' c) = initiator.
Proof.
  unfold initWebRtcConnection, allocConnection. cbn [fst snd].
  match goal with
  | |- context [Peer_setWebRtcConnection ?n peer ?c ?w0] =>
      assert (F : frame w0 (Peer_setWebRtcConnection n peer c w0))
        by (apply Peer_setWebRtcConnection_frame; intros; apply peerStateChanged_frame)
  end.
  destruct F as [_ _ _ [Fn _] Fk]. destruct (Fk (nextConnection w)) as (Ft & _ & Fi).
  split; [reflexivity|]. rewrite Fn, Ft, Fi.
  unfold initConnectionHandlers, connState. cbn. rewrite Nat.eqb_refl. cbn.
  rewrite Nat.eqb_refl. repeat split.
Qed.

Lemma feedSignal_kind env peer connection source nonce signal w c :
  c_type (connections (feedSignal env peer connection source nonce signal w) c)
  = c_type (connections w c)
  /\ c_initiator (connections (feedSignal env peer connection source nonce signal w) c)
     = c_initiator (connections w c).
Proof.
  assert (Hclose : forall err,
    c_type (connections (Connection_close (peerStateChanged (depth env)) connection err w) c)
    = c_type (connections w c)
    /\ c_initiator
         (connections (Connection_close (peerStateChanged (depth env)) connection err w) c)
       = c_initiator (connections w c)).
  { intros err.
    destruct (frame_kind _ _ (Connection_close_frame (peerStateChanged (depth env))
                                (fun p prev w0 => peerStateChanged_frame _ p prev w0)
                                connection err w) c) as (Ht & _ & Hi).
    split; assumption. }
  unfold feedSignal. destruct (unboxMessage _ _ _ _); [|apply Hclose].
  destruct (parseJson _ _); [split; reflexivity | apply Hclose].
Qed.

(** C10: a Signal addressed to us opens a connection only as the
    non-initiator of a source that may initiate towards us; when we are
    the initiator of the pair and the source has no WebRTC connection, the
    Signal is dropped: no connection is made and no signal data is fed. *)
Theorem signal_opens_only_for_initiator env sender (source : Identity) nonce signal w :
  (forall p, JsMap.get source (identifiedPeers w) = Some p ->
             identity (peerState w p) = Some source) ->
  let me := publicIdentity (localPeer env) in
  let w' := handleSignalMessage env sender source me nonce signal w in
  (nextConnection w' <> nextConnection w ->
   canInitiateWebRTC source me = true
   /\ nextConnection w' = S (nextConnection w)
   /\ c_type (connections w' (nextConnection w)) = WebRtc
   /\ c_initiator (connections w' (nextConnection w)) = false)
  /\ (canInitiateWebRTC me source = true ->
      (forall p, JsMap.get source (identifiedPeers w) = Some p ->
                 rtcSlot (peerState w p) = None) ->
      nextConnection w' = nextConnection w
      /\ forall c data, In (ConnectionSignal c data) (events w') ->
                        In (ConnectionSignal c data) (events w)).
Proof.
  intros Hwf me w'. subst w'. unfold handleSignalMessage. fold me.
  rewrite String.eqb_refl. cbn [negb].
  destruct (shouldRejectDisconnectedPeers env w && notConnected source w).
  { split; [intros H; now contradiction H|].
    intros _ _. split; [reflexivity|].
    intros c data [H|H]; [discriminate | assumption]. }
  (* the peer of the source, found or created *)
  assert (Hpeer :
    let p := fst (getOrCreatePeer env (Some source) w) in
    let w1 := snd (getOrCreatePeer env (Some source) w) in
    identity (peerState w1 p) = Some source
    /\ nextConnection w1 = nextConnection w
    /\ events w1 = events w
    /\ ((forall q, JsMap.get source (identifiedPeers w) = Some q ->
                   rtcSlot (peerState w q) = None) ->
        rtcSlot (peerState w1 p) = None)).
  { destruct (JsMap.get source (identifiedPeers w)) as [q|] eqn:Hq.
    - rewrite (getOrCreatePeer_found env source w q Hq). cbn.
      repeat split; auto.
    - destruct (getOrCreatePeer_new env source w Hq) as (_ & Hs & _ & Hn & He). cbv zeta.
      unfold peerState, rtcSlot. rewrite Hs. repeat split; auto. }
  destruct (getOrCreatePeer env (Some source) w) as [p w1]. cbn [fst snd] in Hpeer.
  destruct Hpeer as (Hid & Hn1 & He1 & Hslot). cbv beta iota zeta.
  set (w2 := addKnownPeerTo p sender true w1).
  assert (H2 : sameNetwork w1 w2) by apply addKnownPeerTo_sameNetwork.
  assert (Hst : peerState w2 p = peerState w1 p) by apply (same_states _ _ H2).
  assert (Hn2 : nextConnection w2 = nextConnection w)
    by (rewrite (same_nextConnection _ _ H2); exact Hn1).
  rewrite Hst, Hid. split.
  - intros Hnew.
    destruct (rtcSlot (peerState w1 p)) as [c|].
    + exfalso. apply Hnew. now rewrite feedSignal_next.
    + destruct (canInitiateWebRTC source me); [|exfalso; apply Hnew; exact Hn2].
      cbn [negb].
      destruct (initWebRtcConnection_new env sender p false w2) as (Hc & Hn3 & Ht & Hi).
      destruct (initWebRtcConnection env sender p false w2) as [c w3].
      cbn [fst snd] in Hc, Hn3, Ht, Hi. subst c. rewrite Hn2 in Hn3, Ht, Hi |- *.
      destruct (feedSignal_kind env p (nextConnection w) source nonce signal w3
                  (nextConnection w)) as [Kt Ki].
      rewrite feedSignal_next, Kt, Ki. repeat split; assumption.
  - intros Hme Hnone. rewrite (Hslot Hnone).
    rewrite (canInitiateWebRTC_asym me source Hme). cbn [negb].
    split; [exact Hn2|]. intros c data Hin.
    rewrite <- He1. now apply (sameNetwork_signals w1 w2).
Qed.

Lemma signal_opens_only_for_initiator_witness :
  nextConnection
    (handleSignalMessage (sampleEnv 10000) O "zzzz"%string
       (publicIdentity (localPeer (sampleEnv 10000))) "nonce"%string "offer"%string
       (twoPeers (sampleEnv 10000)))
  = nextConnection (twoPeers (sampleEnv 10000)).
Proof.
  assert (Hnone : JsMap.get "zzzz"%string (identifiedPeers (twoPeers (sampleEnv 10000))) = None)
    by (vm_compute; reflexivity).
  refine (proj1 (proj2 (signal_opens_only_for_initiator (sampleEnv 10000) O "zzzz"%string
                          "nonce"%string "offer"%string (twoPeers (sampleEnv 10000)) _) _ _)).
  - intros p Hp. rewrite Hnone in Hp. discriminate Hp.
  - vm_compute. reflexivity.
  - intros p Hp. rewrite Hnone in Hp. discriminate Hp.
Defined.

(** And a source that may initiate is answered: [AAAA], relayed by [BBBB],
    gets a WebRTC connection of which we are not the initiator, and its
    signal data is fed to it. *)
Example signal_opens_for_initiator :
  let w' := handleSignalMessage (sampleEnv 10000) O "AAAA"%string "ZZZZ"%string "nonce"%string "offer"%string
              (twoPeers (sampleEnv 10000)) in
  nextConnection w' = 3%nat
  /\ c_type (connections w' 2%nat) = WebRtc
  /\ c_initiator (connections w' 2%nat) = false
  /\ hd_error (events w') = Some (ConnectionSignal 2%nat "offer"%string).
Proof. vm_compute. repeat split. Qed.

(** ** The handshake *)

Lemma tryDisposePeer_connections p w :
  connections (snd (tryDisposePeer p w)) = connections w.
Proof.
  unfold tryDisposePeer. destruct (canDispose w p); [|reflexivity]. simpl.
  now destruct (forgetIdentity_heaps p (Peer_dispose p w)) as (_ & -> & _).
Qed.

Lemma tryDisposePeer_fields p w q :
  state (peerHeap (snd (tryDisposePeer p w)) q) = state (peerHeap w q)
  /\ address (peerHeap (snd (tryDisposePeer p w)) q) = address (peerHeap w q)
  /\ port (peerHeap (snd (tryDisposePeer p w)) q) = port (peerHeap w q)
  /\ connectionRetries (peerHeap (snd (tryDisposePeer p w)) q)
     = connectionRetries (peerHeap w q).
Proof.
  unfold tryDisposePeer. destruct (canDispose w p); [|repeat split]. simpl.
  destruct (forgetIdentity_heaps p (Peer_dispose p w)) as (-> & _). simpl.
  destruct (Nat.eqb q p); repeat split.
Qed.

(** After [tryDisposePeer] the peer is not left in the list while it
    could be disposed of. *)
Lemma tryDisposePeer_attempted p w :
  In p (peers (snd (tryDisposePeer p w))) -> canDispose (snd (tryDisposePeer p w)) p = false.
Proof.
  unfold tryDisposePeer. destruct (canDispose w p) eqn:E; simpl; [|auto].
  intros H. apply filter_In in H. destruct H as [_ H].
  rewrite Nat.eqb_refl in H. discriminate.
Qed.

Lemma retryOf_updateRetry t d f rs :
  retryOf t d (updateRetry t d f rs) = option_map f (retryOf t d rs).
Proof. destruct t, d; reflexivity. Qed.

Lemma eqSlot_false slot c : eqSlot slot c = false -> slot <> Some c.
Proof.
  destruct slot as [x|]; simpl; [|discriminate].
  intros H [= ->]. rewrite Nat.eqb_refl in H. discriminate.
Qed.

Lemma emptied_slot slot c : (if eqSlot slot c then None else slot) <> Some c.
Proof. destruct (eqSlot slot c) eqn:E; [discriminate | now apply eqSlot_false]. Qed.

(** Taking a connection off the only peer that holds it detaches it, and
    leaves it otherwise as it was. *)
Lemma Peer_removeConnection_detaches depth peer c w :
  c_boundTo (connections w c) = Some peer ->
  (forall q, webSocket (peerState w q) = Some c \/ webRtc (peerState w q) = Some c ->
             q = peer) ->
  type (peerState w peer) <> PState.DISCONNECTED ->
  let w1 := Peer_removeConnection (peerStateChanged depth) peer c w in
  detached c w1 /\ connections w1 c = c_with_boundTo None (connections w c).
Proof.
  intros Hb Hs Ht. unfold Peer_removeConnection.
  set (wa := updConn c (unbind peer) w).
  assert (Hca : connections wa c = c_with_boundTo None (connections w c)).
  { subst wa. simpl. rewrite Nat.eqb_refl. unfold unbind. rewrite Hb. simpl.
    now rewrite Nat.eqb_refl. }
  assert (Hsa : peerState wa = peerState w) by reflexivity.
  rewrite Hsa.
  destruct (type (peerState w peer)) eqn:Et; [now contradiction Ht | |];
    unfold Peer_setState;
    match goal with |- context [updPeer peer ?f wa] => set (wb := updPeer peer f wa) end;
    (assert (Hdb : detached c wb);
     [ split;
       [ change (connections wb c) with (connections wa c); now rewrite Hca
       | intros q; unfold peerState; subst wb; simpl;
         destruct (Nat.eqb_spec q peer) as [->|Hne]; simpl;
         [ split; apply emptied_slot
         | split; intros H; apply Hne, Hs; [left | right]; exact H ] ]
     | assert (Hcb : connections wb c = c_with_boundTo None (connections w c)) by exact Hca;
       destruct (subscribed (peerHeap wb peer));
       [ destruct (peerStateChanged_keeps c depth peer (type (peerState wa peer)) wb Hdb)
           as [Hd Hc];
         split; [exact Hd | now rewrite Hc]
       | split; assumption ] ]).
Qed.

Lemma Peer_removeConnection_address depth peer c w q :
  address (peerHeap (Peer_removeConnection (peerStateChanged depth) peer c w) q)
  = address (peerHeap w q)
  /\ port (peerHeap (Peer_removeConnection (peerStateChanged depth) peer c w) q)
     = port (peerHeap w q).
Proof.
  apply frame_address, Peer_removeConnection_frame.
  intros p prev w0. apply peerStateChanged_frame.
Qed.

(** Closing a detached, open connection touches nothing else. *)
Lemma Connection_close_detached notify c err w :
  detached c w -> connState w c <> CState.DISCONNECTED ->
  Connection_close notify c (Some err) w
  = updConn c (fun k => c_with_state CState.DISCONNECTED (c_with_error (Some err) k)) w.
Proof.
  intros [Hb _] Hs. unfold Connection_close.
  destruct (CState.isDisconnected (connState w c)) eqn:E.
  - apply isDisconnected_eq in E. contradiction.
  - simpl. rewrite Nat.eqb_refl. simpl. now rewrite Hb.
Qed.

Lemma Peer_updateRetry_address p t d f w q :
  address (peerHeap (Peer_updateRetry p t d f w) q) = address (peerHeap w q)
  /\ port (peerHeap (Peer_updateRetry p t d f w) q) = port (peerHeap w q).
Proof. simpl. destruct (Nat.eqb q p); split; reflexivity. Qed.

Lemma clearDialled_spec peer (k : Connection) w :
  let w' := match c_type k, c_direction k with
            | WebSocket, Outbound => Peer_setWebSocketAddress peer None None w
            | _, _ => w
            end in
  connections w' = connections w
  /\ (forall q, peerState w' q = peerState w q)
  /\ connectionRetries (peerHeap w' peer) = connectionRetries (peerHeap w peer)
  /\ if isOutboundWebSocket k then addressCleared peer w' else addressKept peer w w'.
Proof.
  unfold isOutboundWebSocket, addressCleared, addressKept.
  destruct (c_type k), (c_direction k); simpl; try (repeat split).
  - intros q. unfold peerState. simpl. destruct (Nat.eqb q peer); reflexivity.
  - now rewrite Nat.eqb_refl.
  - now rewrite Nat.eqb_refl.
  - now rewrite Nat.eqb_refl.
Qed.

Lemma closeOwnIdentity_spec env peer connection w :
  connState w connection = CState.WAITING_FOR_IDENTITY ->
  ownedBy peer connection w ->
  let w' := closeOwnIdentity env peer connection w in
  tornDown peer connection w w'
  /\ if isOutboundWebSocket (connections w connection)
     then addressCleared peer w' else addressKept peer w w'.
Proof.
  intros Hstate (Hb & Hs & Ht). unfold closeOwnIdentity.
  set (k := connections w connection).
  set (w1 := Peer_removeConnection (peerStateChanged (depth env)) peer connection w).
  destruct (Peer_removeConnection_detaches (depth env) peer connection w Hb Hs Ht)
    as [Hd1 Hc1]. fold w1 in Hd1, Hc1. fold k in Hc1.
  destruct (Peer_removeConnection_address (depth env) peer connection w peer) as [Ha1 Hp1].
  fold w1 in Ha1, Hp1.
  set (w2 := Peer_updateRetry peer (c_type k) (c_direction k) neverRetryConnecting w1).
  destruct (Peer_updateRetry_keeps connection peer (c_type k) (c_direction k)
              neverRetryConnecting w1 Hd1) as [Hd2 Hc2]. fold w2 in Hd2, Hc2.
  assert (Hr2 : forall r,
            Peer_getConnectionRetry (peerHeap w2 peer) (c_type k) (c_direction k) = Some r ->
            neverRetry r = true).
  { intros r. unfold Peer_getConnectionRetry. subst w2. simpl. rewrite Nat.eqb_refl. simpl.
    rewrite retryOf_updateRetry.
    destruct (retryOf _ _ _); simpl; [intros [= <-]; reflexivity | discriminate]. }
  (* the address *)
  set (w3 := match c_type k, c_direction k with
             | WebSocket, Outbound => Peer_setWebSocketAddress peer None None w2
             | _, _ => w2
             end).
  destruct (clearDialled_spec peer k w2) as (Hc3 & Hs3 & Hr3 & Haddr3).
  fold w3 in Hc3, Hs3, Hr3, Haddr3.
  assert (Hd3 : detached connection w3).
  { destruct Hd2 as [Hb2 Hsl2]. split; [now rewrite Hc3|].
    intros q. rewrite Hs3. apply Hsl2. }
  assert (Haddr : if isOutboundWebSocket k then addressCleared peer w3
                  else addressKept peer w w3).
  { destruct (isOutboundWebSocket k); [exact Haddr3|].
    destruct Haddr3 as [A B].
    destruct (Peer_updateRetry_address peer (c_type k) (c_direction k)
                neverRetryConnecting w1 peer) as [A2 B2]. fold w2 in A2, B2.
    split; congruence. }
  (* the connection closes without waking anyone *)
  assert (Hopen : connState w3 connection <> CState.DISCONNECTED).
  { unfold connState. rewrite Hc3, Hc2, Hc1. simpl.
    change (c_state k) with (connState w connection). rewrite Hstate. discriminate. }
  rewrite (Connection_close_detached _ connection _ w3 Hd3 Hopen).
  match goal with |- context [updConn connection ?f w3] => set (w4 := updConn connection f w3) end.
  cbv zeta.
  destruct (tryDisposePeer_fields peer w4 peer) as (Fs & Fa & Fp & Fr).
  split.
  - unfold tornDown. fold k. unfold connState, peerState, Peer_getConnectionRetry.
    rewrite tryDisposePeer_connections, Fs, Fr.
    assert (Hk4 : connections w4 connection
                  = c_with_state CState.DISCONNECTED
                      (c_with_error
                         (Some (NetworkError ("Closing "%string ++ renderType (c_type k)
                                              ++ " connection from our own identity"%string)))
                         (connections w3 connection))).
    { subst w4. simpl. now rewrite Nat.eqb_refl. }
    rewrite Hk4. simpl.
    change (state (peerHeap w4 peer)) with (peerState w3 peer).
    change (connectionRetries (peerHeap w4 peer)) with (connectionRetries (peerHeap w3 peer)).
    rewrite Hr3. destruct Hd3 as [_ Hslots]. destruct (Hslots peer) as [Hws Hrtc].
    repeat split; try assumption.
    apply tryDisposePeer_attempted.
  - unfold addressCleared, addressKept in *. rewrite Fa, Fp.
    change (address (peerHeap w4 peer)) with (address (peerHeap w3 peer)).
    change (port (peerHeap w4 peer)) with (port (peerHeap w3 peer)).
    exact Haddr.
Qed.

(** C4, as amended: an Identify frame that claims our own identity, on a
    connection owned by the peer it arrived on, has the connection taken
    off the peer and closed with a NetworkError, marks the retry state of
    the connection's transport and direction, when the peer has one, as
    never to be retried, and leaves the peer to [tryDisposePeer]; the
    address and port of the peer are cleared when the connection is an
    outbound WebSocket and are left as they are otherwise. *)
Theorem own_identity_torn_down env peer connection versionText n nm worker w :
  wellFormedIdentify env (publicIdentity (localPeer env)) versionText nm ->
  connState w connection = CState.WAITING_FOR_IDENTITY ->
  ownedBy peer connection w ->
  ownIdentityClearsDialled env peer connection
    (Identify (publicIdentity (localPeer env)) versionText n nm worker) w.
Proof.
  intros (Hid & Hver & Hname) Hstate Howned.
  unfold ownIdentityClearsDialled, handleWaitingForIdentityMessage.
  rewrite Hid, Hver, Hname, String.eqb_refl. cbn [negb].
  apply (closeOwnIdentity_spec env peer connection w Hstate Howned).
Qed.

Lemma own_identity_torn_down_witness :
  ownIdentityClearsDialled (sampleEnv 10000) 1%nat 1%nat
    (Identify (publicIdentity (localPeer (sampleEnv 10000))) "ironfish/1/cli"%string
       (Some 9033) None None)
    (signalled (sampleEnv 10000)).
Proof.
  apply (own_identity_torn_down (sampleEnv 10000) 1%nat 1%nat "ironfish/1/cli"%string
           (Some 9033) None None (signalled (sampleEnv 10000))).
  - repeat split; vm_compute; reflexivity.
  - vm_compute. reflexivity.
  - split; [vm_compute; reflexivity | split].
    + intros [|[|q]]; [|reflexivity|]; vm_compute; intros [H|H]; discriminate H.
    + vm_compute. discriminate.
Defined.

(** C4, as stated, fails: [CCCC], known at [host3], reaches us over
    WebRTC and then claims our own identity; the connection is torn down
    but the address of the peer is still [host3]. *)
Lemma own_identity_keeps_address :
  ~ ownIdentityClearsAddress (sampleEnv 10000) 1%nat 1%nat (sampleIdentify "ZZZZ"%string)
      (signalled (sampleEnv 10000)).
Proof.
  intros H. destruct H as [_ [Ha _]].
  assert (Hhost : address (peerHeap
                    (handleWaitingForIdentityMessage (sampleEnv 10000) 1%nat 1%nat
                       (sampleIdentify "ZZZZ"%string) (signalled (sampleEnv 10000))) 1%nat)
                  = Some "host3"%string) by (vm_compute; reflexivity).
  rewrite Hhost in Ha. discriminate Ha.
Qed.

(** ** Two WebSocket connections for one identity *)

Ltac settle_directions :=
  repeat match goal with |- _ /\ _ => split end;
  try (intros; discriminate);
  try (intros; congruence);
  try (left; reflexivity);
  try (right; reflexivity);
  try (intros _ _; split; [assumption|];
       first
         [ rewrite Nat.eqb_refl; assumption
         | match goal with
           | |- context [Nat.eqb ?a ?b] =>
               destruct (Nat.eqb_spec a b) as [->|]; [congruence | assumption]
           end ]).

Lemma connectionToClose_cases env i connection existing w :
  let me := publicIdentity (localPeer env) in
  let dir c := c_direction (connections w c) in
  let toClose := connectionToClose env i connection existing w in
  (toClose = connection \/ toClose = existing)
  /\ (canKeepDuplicateConnection i me = true -> dir connection <> dir existing ->
      dir toClose = Outbound
      /\ dir (if Nat.eqb toClose connection then existing else connection) = Inbound)
  /\ (canKeepDuplicateConnection me i = true -> dir connection <> dir existing ->
      dir toClose = Inbound
      /\ dir (if Nat.eqb toClose connection then existing else connection) = Outbound)
  /\ (dir connection = dir existing -> toClose = connection)
  /\ (canKeepDuplicateConnection i me = false ->
      canKeepDuplicateConnection me i = false -> toClose = connection).
Proof.
  cbv zeta. unfold connectionToClose.
  destruct (canKeepDuplicateConnection i (publicIdentity (localPeer env))) eqn:E1.
  - rewrite (canKeepDuplicateConnection_asym _ _ E1).
    destruct (c_direction (connections w connection)) eqn:Dc,
             (c_direction (connections w existing)) eqn:De; settle_directions.
  - destruct (canKeepDuplicateConnection (publicIdentity (localPeer env)) i) eqn:E2.
    + destruct (c_direction (connections w connection)) eqn:Dc,
               (c_direction (connections w existing)) eqn:De; settle_directions.
    + settle_directions.
Qed.

(** The subscribers of a peer that does not become the subject of a merge
    leave every connection as it is. *)
Lemma peerStateChanged_quiet d p prev w :
  identifyHandler (peerHeap w p) = false \/ type (peerState w p) <> PState.CONNECTED ->
  connections (peerStateChanged d p prev w) = connections w.
Proof.
  intros H. destruct d as [|d]; [reflexivity|]. cbn [peerStateChanged].
  assert (H1 : (if identifyHandler (peerHeap w p)
                then match type (peerState w p) with
                     | PState.CONNECTED =>
                         updPeer p (fun r => with_handlers (subscribed r) false r)
                           (updateIdentifiedPeerMap (peerStateChanged d) p w)
                     | _ => w
                     end
                else w) = w).
  { destruct H as [H|H]; [now rewrite H|].
    destruct (identifyHandler (peerHeap w p)); [|reflexivity].
    destruct (type (peerState w p)); try reflexivity. now contradiction H. }
  rewrite H1.
  destruct (type (peerState w p)), (PState.eqb prev PState.CONNECTED);
    try reflexivity; now rewrite tryDisposePeer_connections.
Qed.

Lemma slotConnected_after_close w x f slot :
  (forall k, c_state (f k) = CState.DISCONNECTED) ->
  slotConnected w slot = false ->
  slotConnected (updConn x f w) slot = false.
Proof.
  intros Hf. destruct slot as [c|]; simpl; [|auto]. unfold connState. simpl.
  destruct (Nat.eqb c x); [now rewrite Hf | auto].
Qed.

Lemma slotConnected_after_unbind w x p slot :
  slotConnected (updConn x (unbind p) w) slot = slotConnected w slot.
Proof.
  destruct slot as [c|]; simpl; [|reflexivity]. unfold connState. simpl.
  destruct (Nat.eqb c x) eqn:E; [|reflexivity].
  apply Nat.eqb_eq in E. subst c. unfold unbind. destruct (eqSlot _ p); reflexivity.
Qed.

Lemma Peer_setState_quiet d p ws rtc w :
  identifyHandler (peerHeap w p) = false \/ computeType w ws rtc <> PState.CONNECTED ->
  connections (Peer_setState (peerStateChanged d) p ws rtc w) = connections w.
Proof.
  intros H. unfold Peer_setState.
  match goal with |- context [updPeer p ?f w] => set (wc := updPeer p f w) end.
  destruct (subscribed (peerHeap wc p)); [|reflexivity].
  rewrite peerStateChanged_quiet; [reflexivity|].
  destruct H as [H|H].
  - left. subst wc. simpl. rewrite Nat.eqb_refl. exact H.
  - right. unfold peerState. subst wc. simpl. rewrite Nat.eqb_refl. exact H.
Qed.

Lemma computeType_unconnected w ws rtc :
  slotConnected w ws = false -> slotConnected w rtc = false ->
  computeType w ws rtc <> PState.CONNECTED.
Proof.
  intros Hws Hrtc. unfold computeType. rewrite Hws, Hrtc.
  destruct ws, rtc; discriminate.
Qed.

Lemma Peer_removeConnection_quiet d p x w y :
  identifyHandler (peerHeap w p) = false
  \/ (webSocket (peerState w p) = Some x
      /\ slotConnected w (webRtc (peerState w p)) = false) ->
  y <> x ->
  connections (Peer_removeConnection (peerStateChanged d) p x w) y = connections w y.
Proof.
  intros Hq Hne. unfold Peer_removeConnection.
  set (wb := updConn x (unbind p) w).
  assert (Hb : connections wb y = connections w y).
  { subst wb. simpl. apply Nat.eqb_neq in Hne. now rewrite Hne. }
  change (peerState wb p) with (peerState w p).
  assert (Hset :
    connections
      (Peer_setState (peerStateChanged d) p
         (if eqSlot (webSocket (peerState w p)) x then None else webSocket (peerState w p))
         (if eqSlot (webRtc (peerState w p)) x then None else webRtc (peerState w p)) wb)
    = connections wb).
  { apply Peer_setState_quiet. destruct Hq as [Hh|[Hws Hrtc]]; [left; exact Hh|].
    right. apply computeType_unconnected.
    - rewrite Hws. simpl. now rewrite Nat.eqb_refl.
    - destruct (eqSlot (webRtc (peerState w p)) x); [reflexivity|].
      subst wb. now rewrite slotConnected_after_unbind. }
  destruct (type (peerState w p)); [exact Hb | |]; now rewrite Hset.
Qed.

(** Closing a connection quietly changes no other connection. *)
Lemma Connection_close_only d x err w y :
  closesQuietly w x -> y <> x ->
  connections (Connection_close (peerStateChanged d) x err w) y = connections w y.
Proof.
  intros Hq Hne. unfold Connection_close.
  destruct (CState.isDisconnected (connState w x)); [reflexivity|].
  match goal with |- context [updConn x ?f w] => set (wa := updConn x f w) end.
  assert (Hwa : forall slot, slotConnected w slot = false -> slotConnected wa slot = false).
  { intros slot. subst wa. apply slotConnected_after_close. reflexivity. }
  assert (Ha : connections wa y = connections w y).
  { subst wa. simpl. apply Nat.eqb_neq in Hne. now rewrite Hne. }
  assert (Hba : c_boundTo (connections wa x) = c_boundTo (connections w x)).
  { subst wa. simpl. rewrite Nat.eqb_refl. destruct err; reflexivity. }
  rewrite Hba. destruct (c_boundTo (connections w x)) as [p|] eqn:Hb; [|exact Ha].
  rewrite Peer_removeConnection_quiet; [exact Ha | | exact Hne].
  destruct (Hq p Hb) as [Hh|[Hws Hrtc]]; [left; exact Hh|].
  right. split; [exact Hws | now apply Hwa].
Qed.

(** C1: when the handshake of a WebSocket connection finds a CONNECTED
    peer of the claimed identity with a WebSocket connection in its slot,
    the arbitration closes one connection, [connectionToClose], which is
    the arriving or the existing one; if the remote may keep its outbound
    connection ([canKeepDuplicateConnection(remote, local)]) our Outbound
    one is closed and our Inbound one kept; if we may keep ours, the
    Inbound one is closed and the Outbound one kept; when the directions
    do not tell them apart the arriving connection is closed and the
    incumbent kept; a quiet close leaves every other connection as it
    was; and when the arriving connection is the one closed the handshake
    ends there, the connection DISCONNECTED and never CONNECTED. *)
Theorem duplicate_arbitration env peer connection (i : Identity) versionText n nm worker
    w peer1 w1 e existing :
  wellFormedIdentify env i versionText nm ->
  i <> publicIdentity (localPeer env) ->
  moveConnection env peer connection i w = (peer1, w1) ->
  JsMap.get i (identifiedPeers w1) = Some e ->
  type (peerState w1 e) = PState.CONNECTED ->
  webSocket (peerState w1 e) = Some existing ->
  c_type (connections w1 connection) = WebSocket ->
  let me := publicIdentity (localPeer env) in
  let dir c := c_direction (connections w1 c) in
  let toClose := connectionToClose env i connection existing w1 in
  let kept := if Nat.eqb toClose connection then existing else connection in
  let w' := handleWaitingForIdentityMessage env peer connection
              (Identify i versionText n nm worker) w in
  (toClose = connection \/ toClose = existing)
  /\ (canKeepDuplicateConnection i me = true -> dir connection <> dir existing ->
      dir toClose = Outbound /\ dir kept = Inbound)
  /\ (canKeepDuplicateConnection me i = true -> dir connection <> dir existing ->
      dir toClose = Inbound /\ dir kept = Outbound)
  /\ (dir connection = dir existing -> toClose = connection)
  /\ connState (closeDuplicate env toClose w1) toClose = CState.DISCONNECTED
  /\ (closesQuietly w1 toClose ->
      forall y, y <> toClose -> connections (closeDuplicate env toClose w1) y = connections w1 y)
  /\ (toClose = connection ->
      w' = closeDuplicate env connection w1
      /\ connState w' connection = CState.DISCONNECTED)
  /\ (toClose <> connection ->
      w' = completeIdentify env peer1 connection (Some e) i (parseVersion env versionText)
             n (orNull nm) worker (closeDuplicate env existing w1)).
Proof.
  intros (Hid & Hver & Hname) Hme Hmove Hget Htype Hws Hctype. cbv zeta.
  destruct (connectionToClose_cases env i connection existing w1)
    as (Hone & Hremote & Hlocal & Htie & _).
  set (toClose := connectionToClose env i connection existing w1) in *.
  assert (Hclosed : forall x, connState (closeDuplicate env x w1) x = CState.DISCONNECTED).
  { intros x. unfold closeDuplicate. apply Connection_close_closed.
    intros p prev w0. apply peerStateChanged_frame. }
  assert (Hrun :
    handleWaitingForIdentityMessage env peer connection (Identify i versionText n nm worker) w
    = if Nat.eqb toClose connection then closeDuplicate env toClose w1
      else completeIdentify env peer1 connection (Some e) i (parseVersion env versionText)
             n (orNull nm) worker (closeDuplicate env toClose w1)).
  { unfold handleWaitingForIdentityMessage.
    rewrite Hid, Hver, Hname. apply String.eqb_neq in Hme. rewrite Hme. cbn [negb].
    rewrite Hmove. unfold getPeer, duplicateOf. rewrite Hget, Htype, Hws, Hctype.
    reflexivity. }
  repeat split; try assumption.
  - now apply Hremote.
  - now apply Hremote.
  - now apply Hlocal.
  - now apply Hlocal.
  - apply Hclosed.
  - intros Hq y Hy. unfold closeDuplicate. now apply Connection_close_only.
  - rewrite Hrun, H, Nat.eqb_refl. reflexivity.
  - rewrite Hrun, H, Nat.eqb_refl. apply Hclosed.
  - intros Hne. rewrite Hrun. destruct (Nat.eqb_spec toClose connection) as [E|_];
      [contradiction|].
    destruct Hone as [E|E]; [contradiction | now rewrite E].
Qed.

Lemma moveConnection_unidentified env peer connection i w :
  identity (peerState w peer) = None -> moveConnection env peer connection i w = (peer, w).
Proof. intros H. unfold moveConnection. now rewrite H. Qed.

Lemma duplicate_arbitration_witness :
  c_direction (connections (racing (sampleEnv 10000))
                 (connectionToClose (sampleEnv 10000) "AAAA"%string 1%nat O
                    (racing (sampleEnv 10000)))) = Outbound
  /\ c_direction (connections (racing (sampleEnv 10000))
                    (if Nat.eqb (connectionToClose (sampleEnv 10000) "AAAA"%string 1%nat O
                                   (racing (sampleEnv 10000))) 1%nat
                     then O else 1%nat)) = Inbound.
Proof.
  refine (proj1 (proj2 (duplicate_arbitration (sampleEnv 10000) 1%nat 1%nat "AAAA"%string
                          "ironfish/1/cli"%string (Some 9033) None None
                          (racing (sampleEnv 10000)) 1%nat (racing (sampleEnv 10000))
                          O O _ _ _ _ _ _ _)) _ _).
  - repeat split; vm_compute; reflexivity.
  - vm_compute. discriminate.
  - apply moveConnection_unidentified. vm_compute. reflexivity.
  - vm_compute. reflexivity.
  - vm_compute. reflexivity.
  - vm_compute. reflexivity.
  - vm_compute. reflexivity.
  - vm_compute. reflexivity.
  - vm_compute. discriminate.
Defined.

(** Spec 8, scenario 2, run to its end: [AAAA] may keep its outbound
    connection, so our dialled connection 0 is closed, the inbound
    connection 1 completes the handshake and is merged onto the peer that
    was there first, which keeps the identity [AAAA]; the duplicate record
    is gone. *)
Example duplicate_sessions_scenario :
  let w' := handleMessage (sampleEnv 10000) 1%nat 1%nat (sampleIdentify "AAAA"%string)
              (racing (sampleEnv 10000)) in
  webSocket (peerState w' O) = Some 1%nat
  /\ c_direction (connections w' 1%nat) = Inbound
  /\ connState w' 1%nat = CState.CONNECTED "AAAA"%string
  /\ connState w' O = CState.DISCONNECTED
  /\ identifiedPeers w' = [("AAAA"%string, O)]
  /\ peers w' = [O].
Proof. vm_compute. repeat split. Qed.

(** The scenario nests handlers twice and no deeper: from 2 on, the bound
    on the nesting plays no part in it. *)
Example duplicate_sessions_at_any_depth d :
  let env := atDepth (2 + d) (sampleEnv 10000) in
  let w' := handleMessage env 1%nat 1%nat (sampleIdentify "AAAA"%string) (racing env) in
  webSocket (peerState w' O) = Some 1%nat
  /\ c_direction (connections w' 1%nat) = Inbound
  /\ connState w' 1%nat = CState.CONNECTED "AAAA"%string
  /\ connState w' O = CState.DISCONNECTED
  /\ identifiedPeers w' = [("AAAA"%string, O)]
  /\ peers w' = [O]
  /\ events w'
     = events (handleMessage (sampleEnv 10000) 1%nat 1%nat (sampleIdentify "AAAA"%string)
                 (racing (sampleEnv 10000))).
Proof. vm_compute. repeat split. Qed.

(** ** A peer list received twice *)

(** C7: the code departs from the claim.  [BBBB], connected, sends a list
    that names [BBBB] itself.  Each time the list is handled no edge is
    added ([addKnownPeerTo] refuses the edge of a peer to itself), yet
    [changed] is set, so the second handling, which changes no edge and
    makes no record, fires [onKnownPeersChanged] again. *)
Theorem peerList_twice_fires_again :
  let w1 := handlePeerListMessage (sampleEnv 10000) selfList O (onePeer (sampleEnv 10000)) in
  let w2 := handlePeerListMessage (sampleEnv 10000) selfList O w1 in
  knownPeers (peerHeap w1 O) = []
  /\ knownPeers (peerHeap w2 O) = knownPeers (peerHeap w1 O)
  /\ nextPeer w2 = nextPeer w1
  /\ peers w2 = peers w1
  /\ events w2 = OnKnownPeersChanged O :: events w1.
Proof. vm_compute. repeat split. Qed.

(** Hence a second handling is not always silent. *)
Lemma secondPeerListIsSilent_fails :
  ~ secondPeerListIsSilent (sampleEnv 10000) selfList O (onePeer (sampleEnv 10000)).
Proof.
  intros (_ & _ & _ & He).
  assert (H : events (handlePeerListMessage (sampleEnv 10000) selfList O
                        (handlePeerListMessage (sampleEnv 10000) selfList O
                           (onePeer (sampleEnv 10000))))
              = OnKnownPeersChanged O
                :: events (handlePeerListMessage (sampleEnv 10000) selfList O
                             (onePeer (sampleEnv 10000))))
    by (vm_compute; reflexivity).
  rewrite H in He. symmetry in He. exact (list_neq_cons _ _ He).
Qed.

(** *** The lists for which the second handling is silent

    Apart from the two entries that [addKnownPeerTo] refuses, the sender's
    own identity and the empty one, a list handled once leaves the edges
    of its sender equal to the list, and a second handling finds nothing
    to do. *)

Lemma JsMap_has_delete {V} (k k' : string) (m : JsMap.t V) :
  JsMap.has k' (JsMap.delete k m) = true -> k' <> k /\ JsMap.has k' m = true.
Proof.
  unfold JsMap.has. intros H. destruct (String.eqb_spec k k') as [->|Hne].
  - rewrite JsMap_get_delete_eq in H. discriminate.
  - rewrite (JsMap_get_delete_ne k k' m Hne) in H. split; [congruence | exact H].
Qed.

Lemma JsMap_get_delete_some {V} (k k' : string) (m : JsMap.t V) v :
  JsMap.get k' (JsMap.delete k m) = Some v -> JsMap.get k' m = Some v.
Proof.
  intros H. destruct (String.eqb_spec k k') as [->|Hne].
  - rewrite JsMap_get_delete_eq in H. discriminate.
  - now rewrite (JsMap_get_delete_ne k k' m Hne) in H.
Qed.

Lemma JsMap_has_set_other {V} (k k' : string) (v : V) (m : JsMap.t V) :
  JsMap.has k' (JsMap.set k v m) = true -> k' = k \/ JsMap.has k' m = true.
Proof.
  unfold JsMap.has. intros H. destruct (String.eqb_spec k k') as [->|Hne]; [now left|].
  right. now rewrite (JsMap_get_set_ne k k' v m Hne) in H.
Qed.

Lemma JsMap_has_set_keeps {V} (k k' : string) (v : V) (m : JsMap.t V) :
  JsMap.has k' m = true -> JsMap.has k' (JsMap.set k v m) = true.
Proof.
  unfold JsMap.has. intros H. destruct (String.eqb_spec k k') as [->|Hne].
  - now rewrite JsMap_get_set_eq.
  - now rewrite (JsMap_get_set_ne k k' v m Hne).
Qed.

Lemma JsMap_In_has {V} (k : string) (v : V) (m : JsMap.t V) :
  In (k, v) m -> JsMap.has k m = true.
Proof.
  unfold JsMap.has. induction m as [|[k0 v0] m IH]; simpl; [intros []|].
  intros [H|H].
  - inversion H; subst. now rewrite String.eqb_refl.
  - destruct (String.eqb k k0); [reflexivity | auto].
Qed.

Lemma JsMap_has_In {V} (k : string) (m : JsMap.t V) :
  JsMap.has k m = true -> In k (JsMap.keys m).
Proof.
  unfold JsMap.has. induction m as [|[k0 v0] m IH]; simpl; [discriminate|].
  destruct (String.eqb_spec k k0) as [->|Hne]; [now left | right; auto].
Qed.

Lemma JsMap_In_set {V} (k : string) (v : V) (m : JsMap.t V) k' v' :
  In (k', v') (JsMap.set k v m) -> (k' = k /\ v' = v) \/ In (k', v') m.
Proof.
  induction m as [|[k0 v0] m IH]; simpl.
  - intros [H|[]]. inversion H. now left.
  - destruct (String.eqb_spec k k0) as [->|Hne]; simpl.
    + intros [H|H]; [inversion H; now left | right; now right].
    + intros [H|H]; [right; now left|]. destruct (IH H); [now left | right; now right].
Qed.

Lemma JsMap_In_delete {V} (k : string) (m : JsMap.t V) x :
  In x (JsMap.delete k m) -> In x m.
Proof.
  induction m as [|[k0 v0] m IH]; simpl; [auto|].
  destruct (String.eqb k k0); simpl; [auto|]. intros [H|H]; auto.
Qed.

(** Each entry of the set built from a list is filed under its own
    identity and comes from the list. *)
Lemma newPeerSet_fold list (acc : JsMap.t PeerListEntry) k e :
  In (k, e) (fold_left (fun memo x => JsMap.set (entry_identity x) x memo) list acc) ->
  (entry_identity e = k /\ In e list) \/ In (k, e) acc.
Proof.
  revert acc. induction list as [|x list IH]; intros acc H; simpl in *; [now right|].
  destruct (IH _ H) as [[H1 H2]|H1].
  - left. auto.
  - destruct (JsMap_In_set _ _ _ _ _ H1) as [[-> ->]|H2]; [left; auto | now right].
Qed.

Lemma newPeerSet_entries env list k e :
  In (k, e) (newPeerSet env list) -> entry_identity e = k /\ In e list.
Proof.
  unfold newPeerSet. intros H. apply JsMap_In_delete in H.
  destruct (newPeerSet_fold _ _ _ _ H) as [H1|[]]. exact H1.
Qed.

Lemma newPeerSet_values env list e :
  In e (JsMap.values (newPeerSet env list)) ->
  In e list /\ JsMap.has (entry_identity e) (newPeerSet env list) = true.
Proof.
  unfold JsMap.values. intros H. apply in_map_iff in H. destruct H as [[k e'] [He Hin]].
  simpl in He. subst e'. destruct (newPeerSet_entries _ _ _ _ Hin) as [Hk Hl].
  split; [exact Hl|]. rewrite Hk. now apply JsMap_In_has with (v := e).
Qed.

(** **** The loop that removes edges *)

Lemma shrinks_refl w : shrinks w w.
Proof. constructor; auto. Qed.

Lemma shrinks_trans w1 w2 w3 : shrinks w1 w2 -> shrinks w2 w3 -> shrinks w1 w3.
Proof.
  intros [A1 B1 C1 D1] [A2 B2 C2 D2]. constructor.
  - congruence.
  - intros q. rewrite (B2 q). apply B1.
  - auto.
  - auto.
Qed.

Lemma shrinks_forget p k w :
  shrinks w (updPeer p (fun r => with_knownPeers (JsMap.delete k (knownPeers r)) r) w).
Proof.
  constructor; simpl; auto.
  - intros q. unfold peerState. simpl. destruct (Nat.eqb q p); reflexivity.
  - intros q k'. destruct (Nat.eqb q p); simpl; [|auto].
    intros H. now apply JsMap_has_delete in H.
Qed.

Lemma shrinks_tryDisposePeer p w : shrinks w (snd (tryDisposePeer p w)).
Proof.
  unfold tryDisposePeer. destruct (canDispose w p); [|apply shrinks_refl]. simpl.
  destruct (forgetIdentity_heaps p (Peer_dispose p w)) as (Hh & _ & _ & _ & _ & Hn).
  constructor; simpl.
  - rewrite Hn. reflexivity.
  - intros q. unfold peerState. simpl. rewrite Hh. simpl.
    destruct (Nat.eqb q p); reflexivity.
  - intros q k. rewrite Hh. simpl. destruct (Nat.eqb q p); simpl; [discriminate | auto].
  - intros i q. unfold forgetIdentity.
    destruct (identity (peerState (Peer_dispose p w) p)) as [j|]; [|auto].
    destruct (_ && _); simpl; [apply JsMap_get_delete_some | auto].
Qed.

Lemma removeEdge_shrinks set p acc entry :
  shrinks (snd acc) (snd (removeEdge set p acc entry)).
Proof.
  destruct acc as [c w], entry as [k q]. unfold removeEdge.
  destruct (_ && _); [|apply shrinks_refl]. cbn [snd].
  eapply shrinks_trans; [|apply shrinks_tryDisposePeer].
  eapply shrinks_trans; [|apply shrinks_tryDisposePeer].
  eapply shrinks_trans; [apply shrinks_forget|].
  destruct (identity _); [apply shrinks_forget | apply shrinks_refl].
Qed.

(** An edge still there after its turn is an edge of the list. *)
Lemma removeEdge_removed set p c w (k : Identity) (q : PeerId) :
  JsMap.has k (knownPeers (peerHeap (snd (removeEdge set p (c, w) (k, q))) p)) = true ->
  JsMap.has k set = true.
Proof.
  unfold removeEdge.
  destruct (JsMap.has k (knownPeers (peerHeap w p))) eqn:E1;
    destruct (JsMap.has k set) eqn:E2; cbn [andb negb snd]; auto; [|congruence].
  intros H. exfalso.
  apply shrinks_tryDisposePeer, shrinks_tryDisposePeer in H.
  assert (H1 : JsMap.has k (knownPeers (peerHeap
                 (updPeer p (fun r => with_knownPeers (JsMap.delete k (knownPeers r)) r) w)
                 p)) = true).
  { destruct (identity _); [|exact H]. now apply shrinks_forget in H. }
  simpl in H1. rewrite Nat.eqb_refl in H1. simpl in H1.
  apply JsMap_has_delete in H1. now destruct H1.
Qed.

Lemma removeEdges_spec set p entries c w :
  shrinks w (snd (fold_left (removeEdge set p) entries (c, w)))
  /\ forall k,
       JsMap.has k (knownPeers (peerHeap
                      (snd (fold_left (removeEdge set p) entries (c, w))) p)) = true ->
       In k (JsMap.keys entries) -> JsMap.has k set = true.
Proof.
  revert c w. induction entries as [|[k0 q0] entries IH]; intros c w;
    cbn [fold_left JsMap.keys map fst].
  - split; [apply shrinks_refl | intros k _ []].
  - assert (Hs := removeEdge_shrinks set p (c, w) (k0, q0)).
    assert (Hr := removeEdge_removed set p c w k0 q0).
    destruct (removeEdge set p (c, w) (k0, q0)) as [c1 w1]. cbn [snd] in Hs, Hr.
    destruct (IH c1 w1) as [IH1 IH2]. split.
    + eapply shrinks_trans; eassumption.
    + intros k Hk [<-|Hin]; [|now apply IH2].
      apply Hr. now apply (shrinks_known _ _ IH1).
Qed.

(** **** The loop that adds edges *)

Lemma emitted_heap (flag : bool) b w :
  peerHeap (if flag then Peer_emitKnownPeersChanged b w else w) = peerHeap w.
Proof.
  unfold Peer_emitKnownPeersChanged. destruct flag; [|reflexivity].
  destruct (subscribed _); reflexivity.
Qed.

Lemma addEdge_manager a b flag w :
  nextPeer (addEdge a b flag w) = nextPeer w
  /\ identifiedPeers (addEdge a b flag w) = identifiedPeers w
  /\ forall q, peerState (addEdge a b flag w) q = peerState w q.
Proof.
  unfold addEdge. destruct (identity (peerState w a)) as [i|]; [|repeat split].
  destruct (JsMap.has i _); [repeat split|].
  unfold Peer_emitKnownPeersChanged.
  destruct flag; [destruct (subscribed _)|]; repeat split;
    intros q; unfold peerState; simpl; destruct (Nat.eqb q b); reflexivity.
Qed.

Lemma addEdge_known a b flag w r k :
  JsMap.has k (knownPeers (peerHeap (addEdge a b flag w) r)) = true ->
  JsMap.has k (knownPeers (peerHeap w r)) = true
  \/ (r = b /\ identity (peerState w a) = Some k).
Proof.
  unfold addEdge. destruct (identity (peerState w a)) as [i|]; [|auto].
  destruct (JsMap.has i _); [auto|].
  rewrite emitted_heap. simpl. destruct (Nat.eqb_spec r b) as [->|Hne]; simpl; [|auto].
  intros H. destruct (JsMap_has_set_other _ _ _ _ H) as [->|H']; auto.
Qed.

Lemma addEdge_grows a b flag w r k :
  JsMap.has k (knownPeers (peerHeap w r)) = true ->
  JsMap.has k (knownPeers (peerHeap (addEdge a b flag w) r)) = true.
Proof.
  unfold addEdge. destruct (identity (peerState w a)) as [i|]; [|auto].
  destruct (JsMap.has i _); [auto|].
  rewrite emitted_heap. simpl. destruct (Nat.eqb_spec r b) as [->|Hne]; simpl; [|auto].
  apply JsMap_has_set_keeps.
Qed.

Lemma addEdge_added a b flag w i :
  identity (peerState w a) = Some i ->
  JsMap.has i (knownPeers (peerHeap (addEdge a b flag w) b)) = true.
Proof.
  intros Hi. unfold addEdge. rewrite Hi.
  destruct (JsMap.has i (knownPeers (peerHeap w b))) eqn:E; [exact E|].
  rewrite emitted_heap. simpl. rewrite Nat.eqb_refl. simpl. apply JsMap_has_set.
Qed.

Lemma addKnownPeerTo_rec_manager n a b flag w :
  nextPeer (addKnownPeerTo_rec n a b flag w) = nextPeer w
  /\ identifiedPeers (addKnownPeerTo_rec n a b flag w) = identifiedPeers w
  /\ forall q, peerState (addKnownPeerTo_rec n a b flag w) q = peerState w q.
Proof.
  revert a b flag w. induction n as [|n IH]; intros a b flag w; simpl; [repeat split|].
  destruct (_ || _); [repeat split|]. destruct (String.eqb _ _); [repeat split|].
  destruct (addEdge_manager a b flag w) as (A & B & C).
  destruct (JsMap.has _ _); [repeat split; auto|].
  destruct (IH b a true (addEdge a b flag w)) as (A' & B' & C').
  repeat split; try congruence; intros q; rewrite C'; apply C.
Qed.

Lemma addKnownPeerTo_rec_known n a b flag w r k :
  JsMap.has k (knownPeers (peerHeap (addKnownPeerTo_rec n a b flag w) r)) = true ->
  JsMap.has k (knownPeers (peerHeap w r)) = true
  \/ (r = b /\ identity (peerState w a) = Some k)
  \/ (r = a /\ identity (peerState w b) = Some k).
Proof.
  revert a b flag w. induction n as [|n IH]; intros a b flag w; simpl; [auto|].
  destruct (_ || _); [auto|]. destruct (String.eqb _ _); [auto|].
  destruct (JsMap.has (identityOf _ _) _).
  - intros H. destruct (addEdge_known _ _ _ _ _ _ H) as [H'|H']; auto.
  - intros H. destruct (IH _ _ _ _ H) as [H'|[[-> H']|[-> H']]].
    + destruct (addEdge_known _ _ _ _ _ _ H') as [H''|H'']; auto.
    + right. right. split; [reflexivity|]. rewrite <- H'. symmetry.
      f_equal. apply addEdge_manager.
    + right. left. split; [reflexivity|]. rewrite <- H'. symmetry.
      f_equal. apply addEdge_manager.
Qed.

Lemma addKnownPeerTo_rec_grows n a b flag w r k :
  JsMap.has k (knownPeers (peerHeap w r)) = true ->
  JsMap.has k (knownPeers (peerHeap (addKnownPeerTo_rec n a b flag w) r)) = true.
Proof.
  revert a b flag w. induction n as [|n IH]; intros a b flag w; simpl; [auto|].
  destruct (_ || _); [auto|]. destruct (String.eqb _ _); [auto|].
  intros H. destruct (JsMap.has (identityOf _ _) _); [now apply addEdge_grows|].
  now apply IH, addEdge_grows.
Qed.

(** One call of [addKnownPeerTo]. *)
Lemma addKnownPeerTo_rec_S n a b flag w :
  addKnownPeerTo_rec (S n) a b flag w
  = if negb (truthy (identity (peerState w a)))
       || negb (truthy (identity (peerState w b))) then w
    else if String.eqb (identityOf w a) (identityOf w b) then w
    else if JsMap.has (identityOf (addEdge a b flag w) b)
              (knownPeers (peerHeap (addEdge a b flag w) a))
         then addEdge a b flag w
         else addKnownPeerTo_rec n b a true (addEdge a b flag w).
Proof. reflexivity. Qed.

(** The call made with the peers exchanged finds the first edge in place
    and makes no further call. *)
Lemma addKnownPeerTo_rec_second m a b w :
  JsMap.has (identityOf w a) (knownPeers (peerHeap w b)) = true ->
  addKnownPeerTo_rec (S m) b a true w = addKnownPeerTo_rec 1 b a true w.
Proof.
  intros H. rewrite (addKnownPeerTo_rec_S m), (addKnownPeerTo_rec_S 0).
  destruct (_ || _); [reflexivity|]. destruct (String.eqb _ _); [reflexivity|].
  assert (E : JsMap.has (identityOf (addEdge b a true w) a)
                (knownPeers (peerHeap (addEdge b a true w) b)) = true).
  { unfold identityOf. rewrite (proj2 (proj2 (addEdge_manager b a true w)) a).
    apply addEdge_grows. exact H. }
  rewrite E. reflexivity.
Qed.

(** Hence the bound of [addKnownPeerTo_rec] is never reached: two calls
    are all there are, whatever the bound. *)
Lemma addKnownPeerTo_calls n peer addTo flag w :
  addKnownPeerTo_rec (2 + n) peer addTo flag w = addKnownPeerTo peer addTo flag w.
Proof.
  unfold addKnownPeerTo. change (2 + n)%nat with (S (S n)).
  rewrite (addKnownPeerTo_rec_S (S n) peer addTo), (addKnownPeerTo_rec_S 1 peer addTo).
  destruct (identity (peerState w peer)) as [i|] eqn:Hi; [|reflexivity].
  destruct (_ || _); [reflexivity|]. destruct (String.eqb _ _); [reflexivity|].
  destruct (JsMap.has (identityOf _ addTo) _); [reflexivity|].
  apply addKnownPeerTo_rec_second. unfold identityOf.
  rewrite (proj2 (proj2 (addEdge_manager peer addTo flag w)) peer), Hi.
  now apply addEdge_added.
Qed.

(** Two identified peers of different identities: the edge is there
    afterwards. *)
Lemma addKnownPeerTo_added a b flag w (ia ib : Identity) :
  identity (peerState w a) = Some ia -> identity (peerState w b) = Some ib ->
  ia <> EmptyString -> ib <> EmptyString -> ia <> ib ->
  JsMap.has ia (knownPeers (peerHeap (addKnownPeerTo a b flag w) b)) = true.
Proof.
  intros Ha Hb Na Nb Nab. unfold addKnownPeerTo.
  change (addKnownPeerTo_rec 2 a b flag w)
    with (if negb (truthy (identity (peerState w a)))
             || negb (truthy (identity (peerState w b))) then w
          else if String.eqb (identityOf w a) (identityOf w b) then w
          else if JsMap.has (identityOf (addEdge a b flag w) b)
                    (knownPeers (peerHeap (addEdge a b flag w) a))
               then addEdge a b flag w
               else addKnownPeerTo_rec 1 b a true (addEdge a b flag w)).
  unfold identityOf at 1 2. rewrite Ha, Hb. unfold truthy.
  destruct (String.eqb_spec ia EmptyString); [contradiction|].
  destruct (String.eqb_spec ib EmptyString); [contradiction|].
  destruct (String.eqb_spec ia ib); [contradiction|]. cbn [negb orb].
  destruct (JsMap.has (identityOf _ _) _); [now apply addEdge_added|].
  now apply addKnownPeerTo_rec_grows, addEdge_added.
Qed.

Lemma getOrCreatePeer_listening env p ip (k : Identity) w :
  listening p ip w ->
  let q := fst (getOrCreatePeer env (Some k) w) in
  let w1 := snd (getOrCreatePeer env (Some k) w) in
  listening p ip w1 /\ identity (peerState w1 q) = Some k
  /\ knownPeers (peerHeap w1 p) = knownPeers (peerHeap w p).
Proof.
  intros (Hr & Hp & Hi). destruct (JsMap.get k (identifiedPeers w)) as [q|] eqn:Hq.
  - rewrite (getOrCreatePeer_found env k w q Hq). cbn.
    split; [split; [exact Hr | split; assumption]|].
    split; [apply (Hr k q Hq) | reflexivity].
  - unfold getOrCreatePeer. rewrite Hq.
    unfold updateIdentifiedPeerMap, peerState. cbn. rewrite Nat.eqb_refl. cbn.
    rewrite Hq. cbn. rewrite Nat.eqb_refl.
    assert (Hpn : Nat.eqb p (nextPeer w) = false) by (apply Nat.eqb_neq; lia).
    rewrite Hpn. split; [|split; reflexivity].
    unfold listening, registered, peerState. cbn. rewrite Hpn.
    split; [|split; [lia | exact Hi]].
    intros i q H. destruct (String.eqb_spec k i) as [<-|Hne].
    + rewrite JsMap_get_set_eq in H. inversion H; subst q.
      rewrite Nat.eqb_refl. cbn. split; [lia | reflexivity].
    + rewrite (JsMap_get_set_ne k i _ _ Hne) in H. destruct (Hr i q H) as [Hlt Hid].
      assert (Hqn : Nat.eqb q (nextPeer w) = false) by (apply Nat.eqb_neq; lia).
      rewrite Hqn. split; [lia | exact Hid].
Qed.


Lemma updPeer_listening p ip q f w :
  (forall r, state (f r) = state r) -> listening p ip w -> listening p ip (updPeer q f w).
Proof.
  intros Hf (Hr & Hp & Hi).
  assert (Hs : forall x, peerState (updPeer q f w) x = peerState w x).
  { intros x. unfold peerState. simpl. destruct (Nat.eqb x q); [apply Hf | reflexivity]. }
  split; [|split].
  - intros i x H. rewrite Hs. exact (Hr i x H).
  - exact Hp.
  - rewrite Hs. exact Hi.
Qed.

Lemma updPeer_state q f w x :
  (forall r, state (f r) = state r) -> peerState (updPeer q f w) x = peerState w x.
Proof.
  intros Hf. unfold peerState. simpl. destruct (Nat.eqb x q); [apply Hf | reflexivity].
Qed.

Lemma updPeer_known q f w x :
  (forall r, knownPeers (f r) = knownPeers r) ->
  knownPeers (peerHeap (updPeer q f w) x) = knownPeers (peerHeap w x).
Proof. intros Hf. simpl. destruct (Nat.eqb x q); [apply Hf | reflexivity]. Qed.

(** One turn of the loop over the set: the edge of the entry is there
    afterwards, and no other edge of [p] has changed. *)
Lemma addNewPeer_step env p ip c w e :
  listening p ip w -> ip <> EmptyString ->
  entry_identity e <> ip -> entry_identity e <> EmptyString ->
  listening p ip (snd (addNewPeer env p (c, w) e))
  /\ forall k,
       JsMap.has k (knownPeers (peerHeap (snd (addNewPeer env p (c, w) e)) p)) = true <->
       JsMap.has k (knownPeers (peerHeap w p)) = true \/ k = entry_identity e.
Proof.
  intros Hl Nip Nk Nke. unfold addNewPeer.
  destruct (JsMap.has (entry_identity e) (knownPeers (peerHeap w p))) eqn:Eh; cbn [snd].
  - split; [exact Hl|]. intros k. split; [auto|]. intros [H| ->]; assumption.
  - destruct (getOrCreatePeer_listening env p ip (entry_identity e) w Hl) as (Hl1 & Hq & Hk).
    destruct (getOrCreatePeer env (Some (entry_identity e)) w) as [q w1].
    cbn [fst snd] in Hl1, Hq, Hk. cbv beta iota zeta. cbn [snd].
    set (w3 := updPeer q _ (Peer_setWebSocketAddress q _ _ w1)).
    assert (Hl3 : listening p ip w3).
    { apply updPeer_listening; [intros; reflexivity|].
      apply updPeer_listening; [intros; reflexivity | exact Hl1]. }
    assert (Hq3 : identity (peerState w3 q) = Some (entry_identity e)).
    { unfold w3, Peer_setWebSocketAddress.
      rewrite !updPeer_state by (intros; reflexivity). exact Hq. }
    assert (Hk3 : knownPeers (peerHeap w3 p) = knownPeers (peerHeap w p)).
    { unfold w3, Peer_setWebSocketAddress.
      rewrite !updPeer_known by (intros; reflexivity). exact Hk. }
    destruct Hl3 as (Hr3 & Hp3 & Hi3).
    assert (M := addKnownPeerTo_rec_manager 2 q p false w3).
    change (addKnownPeerTo_rec 2 q p false w3) with (addKnownPeerTo q p false w3) in M.
    destruct M as (A & B & C). split.
    + split; [|split].
      * intros i x H. rewrite B in H. rewrite C, A. exact (Hr3 i x H).
      * rewrite A. exact Hp3.
      * rewrite C. exact Hi3.
    + intros k. split.
      * intros H.
        destruct (addKnownPeerTo_rec_known 2 q p false w3 p k H) as [H'|[[_ H']|[Hpq H']]].
        -- left. now rewrite <- Hk3.
        -- right. congruence.
        -- exfalso. subst q. congruence.
      * intros [H| ->].
        -- apply addKnownPeerTo_rec_grows. now rewrite Hk3.
        -- apply (addKnownPeerTo_added q p false w3 (entry_identity e) ip); assumption.
Qed.

Lemma addNewPeers_spec env p ip entries c w :
  listening p ip w -> ip <> EmptyString -> namesNeither ip entries ->
  listening p ip (snd (fold_left (addNewPeer env p) entries (c, w)))
  /\ forall k,
       JsMap.has k (knownPeers (peerHeap
                      (snd (fold_left (addNewPeer env p) entries (c, w))) p)) = true <->
       JsMap.has k (knownPeers (peerHeap w p)) = true \/ In k (map entry_identity entries).
Proof.
  revert c w. induction entries as [|e entries IH]; intros c w Hl Nip Hn;
    cbn [fold_left map].
  - split; [exact Hl|]. intros k. cbn. tauto.
  - destruct (Hn e (or_introl eq_refl)) as [N1 N2].
    destruct (addNewPeer_step env p ip c w e Hl Nip N1 N2) as [Hl1 Hk1].
    destruct (addNewPeer env p (c, w) e) as [c1 w1]. cbn [snd] in Hl1, Hk1.
    destruct (IH c1 w1 Hl1 Nip (fun x Hx => Hn x (or_intror Hx))) as [Hl2 Hk2].
    split; [exact Hl2|]. intros k. split.
    + intros H. apply Hk2 in H. destruct H as [H|H]; [|right; now right].
      apply Hk1 in H. destruct H as [H| ->]; [now left | right; now left].
    + intros [H|[<-|H]]; apply Hk2;
        [left; apply Hk1; now left | left; apply Hk1; now right | now right].
Qed.

(** **** Nothing to do *)

Lemma removeEdges_settled set p (entries : JsMap.t PeerId) c w :
  (forall k q, In (k, q) entries -> JsMap.has k set = true) ->
  fold_left (removeEdge set p) entries (c, w) = (c, w).
Proof.
  revert c w. induction entries as [|[k q] entries IH]; intros c w H; cbn [fold_left];
    [reflexivity|].
  assert (E : removeEdge set p (c, w) (k, q) = (c, w)).
  { unfold removeEdge. rewrite (H k q (or_introl eq_refl)). cbn [negb].
    rewrite andb_false_r. reflexivity. }
  rewrite E. apply IH. intros k' q' Hin. apply (H k' q'). now right.
Qed.

Lemma addNewPeers_settled env p entries c w :
  (forall e, In e entries ->
             JsMap.has (entry_identity e) (knownPeers (peerHeap w p)) = true) ->
  fold_left (addNewPeer env p) entries (c, w) = (c, w).
Proof.
  revert c. induction entries as [|e entries IH]; intros c H; cbn [fold_left];
    [reflexivity|].
  assert (E : addNewPeer env p (c, w) e = (c, w)).
  { unfold addNewPeer. now rewrite (H e (or_introl eq_refl)). }
  rewrite E. apply IH. intros e' Hin. apply H. now right.
Qed.

Lemma handlePeerListMessage_settled env list peer w :
  settled env list peer w -> handlePeerListMessage env list peer w = w.
Proof.
  intros [H1 H2]. unfold handlePeerListMessage.
  destruct (type (peerState w peer)); try reflexivity.
  destruct (lp_isWorker _); [reflexivity|]. cbv zeta.
  rewrite removeEdges_settled by exact H1.
  rewrite addNewPeers_settled by exact H2. reflexivity.
Qed.

(** Handled once, a list either leaves the world as it is (its sender is
    not CONNECTED, or we are a worker) or leaves the edges of its sender
    equal to the list. *)
Lemma handlePeerListMessage_settles env list peer ip w :
  listening peer ip w -> ip <> EmptyString -> namesNeither ip list ->
  handlePeerListMessage env list peer w = w
  \/ settled env list peer (handlePeerListMessage env list peer w).
Proof.
  intros Hl Nip Hn. unfold handlePeerListMessage.
  destruct (type (peerState w peer)); try (left; reflexivity).
  destruct (lp_isWorker _); [left; reflexivity|]. right. cbv zeta. unfold settled.
  set (S := newPeerSet env list).
  destruct (removeEdges_spec S peer (knownPeers (peerHeap w peer)) false w) as [A1 A2].
  destruct (fold_left (removeEdge S peer) _ (false, w)) as [c1 wA]. cbn [snd] in A1, A2.
  assert (HlA : listening peer ip wA).
  { destruct Hl as (Hr & Hp & Hi). split; [|split].
    - intros i q H. rewrite (shrinks_states _ _ A1), (shrinks_next _ _ A1).
      apply Hr. now apply (shrinks_identified _ _ A1).
    - rewrite (shrinks_next _ _ A1). exact Hp.
    - rewrite (shrinks_states _ _ A1). exact Hi. }
  assert (HnS : namesNeither ip (JsMap.values S)).
  { intros e He. apply Hn. now apply (newPeerSet_values env list e). }
  destruct (addNewPeers_spec env peer ip (JsMap.values S) c1 wA HlA Nip HnS) as [_ B].
  destruct (fold_left (addNewPeer env peer) _ (c1, wA)) as [c2 wB]. cbn [snd] in B.
  rewrite emitted_heap. split.
  - intros k q Hin. apply JsMap_In_has in Hin. apply B in Hin. destruct Hin as [H|H].
    + apply A2; [exact H|]. apply JsMap_has_In. now apply (shrinks_known _ _ A1).
    + apply in_map_iff in H. destruct H as [e [<- He]].
      now apply (newPeerSet_values env list e).
  - intros e He. apply B. right. now apply in_map.
Qed.

(** X5: a list that names neither its sender nor the empty identity is
    handled once and for all: the second handling returns the world of the
    first, with the same edges, the same records and the same events. *)
Theorem peerList_twice_silent env list peer ip w :
  registered w -> (peer < nextPeer w)%nat -> identity (peerState w peer) = Some ip ->
  ip <> EmptyString -> namesNeither ip list ->
  handlePeerListMessage env list peer (handlePeerListMessage env list peer w)
  = handlePeerListMessage env list peer w.
Proof.
  intros Hr Hp Hi Nip Hn.
  destruct (handlePeerListMessage_settles env list peer ip w (conj Hr (conj Hp Hi)) Nip Hn)
    as [H|H].
  - rewrite H. exact H.
  - now apply handlePeerListMessage_settled.
Qed.

(** So it is with [BBBB] and [CCCC] connected, when [BBBB] lists [CCCC]
    and a node [DDDD] not seen before. *)
Lemma peerList_twice_silent_witness :
  let list := [mkEntry "CCCC"%string None (Some "host3"%string) (Some 9033); mkEntry "DDDD"%string None None None] in
  handlePeerListMessage (sampleEnv 10000) list O
    (handlePeerListMessage (sampleEnv 10000) list O (twoPeers (sampleEnv 10000)))
  = handlePeerListMessage (sampleEnv 10000) list O (twoPeers (sampleEnv 10000)).
Proof.
  assert (Hn : nextPeer (twoPeers (sampleEnv 10000)) = 2%nat) by (vm_compute; reflexivity).
  assert (Hm : identifiedPeers (twoPeers (sampleEnv 10000)) = [("BBBB"%string, O); ("CCCC"%string, 1%nat)])
    by (vm_compute; reflexivity).
  apply peerList_twice_silent with (ip := "BBBB"%string).
  - intros i q H. rewrite Hm in H. rewrite Hn. cbn [JsMap.get] in H.
    destruct (String.eqb_spec i "BBBB"%string) as [->|_].
    + inversion H; subst q. split; [lia | vm_compute; reflexivity].
    + destruct (String.eqb_spec i "CCCC"%string) as [->|_]; [|discriminate].
      inversion H; subst q. split; [lia | vm_compute; reflexivity].
  - rewrite Hn. lia.
  - vm_compute. reflexivity.
  - discriminate.
  - intros e [<-|[<-|[]]]; cbn; split; discriminate.
Defined.

(** * Further properties *)

(** ** What every handler respects

    A relation between worlds that is a preorder and holds of each kind of
    update that the methods of peers and connections and the handlers of
    the manager make, holds of all of them, at every nesting. *)
Section Footprint.
Variable R : World -> World -> Prop.
Hypothesis R_refl : forall w, R w w.
Hypothesis R_trans : forall w1 w2 w3, R w1 w2 -> R w2 w3 -> R w1 w3.
Hypothesis R_peer :
  forall p f w, (forall r, profile (f r) = profile r) -> R w (updPeer p f w).
Hypothesis R_conn :
  forall c f w,
    (forall k, wiring (f k) = wiring k
               /\ (c_state (f k) = c_state k \/ c_state (f k) = CState.DISCONNECTED)) ->
    R w (updConn c f w).
Hypothesis R_peers :
  forall l w, (forall q, In q l -> In q (peers w)) -> R w (w_peers l w).
Hypothesis R_identified : forall m w, R w (w_identifiedPeers m w).
Hypothesis R_emit : forall e w, lifecycle e = true -> R w (emit e w).

Lemma Peer_dispose_respects p w : R w (Peer_dispose p w).
Proof. apply R_peer. intros r. reflexivity. Qed.

Lemma neverRetry_counters t d rs :
  retryCounters (updateRetry t d neverRetryConnecting rs) = retryCounters rs.
Proof. destruct rs as [[a|] [b|] [c|] [e|]], t, d; reflexivity. Qed.

Lemma neverRetry_respects p t d w :
  R w (Peer_updateRetry p t d neverRetryConnecting w).
Proof.
  apply R_peer. intros r. unfold profile. cbn.
  now rewrite neverRetry_counters.
Qed.

Lemma forgetIdentity_respects p w : R w (forgetIdentity p w).
Proof.
  unfold forgetIdentity. destruct (identity (peerState w p)); [|apply R_refl].
  destruct (_ && _); [apply R_identified | apply R_refl].
Qed.

Lemma tryDisposePeer_respects p w : R w (snd (tryDisposePeer p w)).
Proof.
  unfold tryDisposePeer. destruct (canDispose w p); [|apply R_refl]. cbn [snd].
  eapply R_trans; [apply Peer_dispose_respects|].
  eapply R_trans; [apply forgetIdentity_respects|].
  apply R_peers. intros q Hq. now apply filter_In in Hq.
Qed.

Section Methods.
Variable notify : PeerId -> PState.t -> World -> World.
Hypothesis notify_respects : forall p prev w, R w (notify p prev w).

Lemma Peer_setState_respects p ws rtc w : R w (Peer_setState notify p ws rtc w).
Proof.
  unfold Peer_setState.
  match goal with |- context [updPeer p ?f w] => set (w1 := updPeer p f w) end.
  assert (H1 : R w w1) by (apply R_peer; intros r; reflexivity).
  destruct (subscribed (peerHeap w1 p)); [|exact H1].
  eapply R_trans; [exact H1 | apply notify_respects].
Qed.

Lemma unbind_respects p c w : R w (updConn c (unbind p) w).
Proof.
  apply R_conn. intros k. unfold unbind. destruct (eqSlot _ p); split; auto.
Qed.

Lemma Peer_removeConnection_respects p c w : R w (Peer_removeConnection notify p c w).
Proof.
  unfold Peer_removeConnection.
  set (w1 := updConn c (unbind p) w).
  assert (H1 : R w w1) by apply unbind_respects.
  destruct (type (peerState w1 p)); [exact H1 | |];
    (eapply R_trans; [exact H1 | apply Peer_setState_respects]).
Qed.

Lemma Connection_close_respects c err w : R w (Connection_close notify c err w).
Proof.
  unfold Connection_close.
  destruct (CState.isDisconnected (connState w c)); [apply R_refl|].
  match goal with |- context [updConn c ?f w] => set (w1 := updConn c f w) end.
  assert (H1 : R w w1).
  { apply R_conn. intros k. destruct err; split; auto. }
  destruct (c_boundTo (connections w1 c)); [|exact H1].
  eapply R_trans; [exact H1 | apply Peer_removeConnection_respects].
Qed.

Lemma bind_respects p c w : R w (updConn c (c_with_boundTo (Some p)) w).
Proof. apply R_conn. intros k. split; auto. Qed.

Lemma Peer_setWebSocketConnection_respects p c w :
  R w (Peer_setWebSocketConnection notify p c w).
Proof.
  unfold Peer_setWebSocketConnection.
  match goal with |- context [updConn c _ ?w1'] => set (w1 := w1') end.
  assert (H1 : R w w1).
  { subst w1. destruct (wsSlot (peerState w p)) as [old|]; [|apply R_refl].
    destruct (Nat.eqb old c); [apply R_refl | apply Connection_close_respects]. }
  eapply R_trans; [exact H1|].
  eapply R_trans; [apply bind_respects | apply Peer_setState_respects].
Qed.

Lemma Peer_setWebRtcConnection_respects p c w :
  R w (Peer_setWebRtcConnection notify p c w).
Proof.
  unfold Peer_setWebRtcConnection.
  match goal with |- context [updConn c _ ?w1'] => set (w1 := w1') end.
  assert (H1 : R w w1).
  { subst w1. destruct (rtcSlot (peerState w p)) as [old|]; [|apply R_refl].
    destruct (Nat.eqb old c); [apply R_refl | apply Connection_close_respects]. }
  eapply R_trans; [exact H1|].
  eapply R_trans; [apply bind_respects | apply Peer_setState_respects].
Qed.

Lemma removeAndClose_respects p c err w :
  R w (Connection_close notify c err (Peer_removeConnection notify p c w)).
Proof.
  eapply R_trans; [apply Peer_removeConnection_respects | apply Connection_close_respects].
Qed.

Lemma Peer_close_respects p err w : R w (Peer_close notify p err w).
Proof.
  unfold Peer_close.
  match goal with |- R w (match wsSlot (peerState ?w1' p) with _ => _ end) =>
    set (w1 := w1') end.
  assert (H1 : R w w1).
  { subst w1. destruct (rtcSlot (peerState w p)); [|apply R_refl].
    apply removeAndClose_respects. }
  destruct (wsSlot (peerState w1 p)); [|exact H1].
  eapply R_trans; [exact H1 | apply removeAndClose_respects].
Qed.

Lemma mergeWebRtc_respects peer existingPeer w :
  R w (mergeWebRtc notify peer existingPeer w).
Proof.
  unfold mergeWebRtc.
  destruct (slotConnected w (rtcSlot (peerState w peer))); [|apply R_refl].
  match goal with |- R w (match rtcSlot (peerState ?a peer) with _ => _ end) =>
    set (w2 := a) end.
  assert (H2 : R w w2).
  { subst w2.
    match goal with |- R w (match rtcSlot (peerState ?a peer) with _ => _ end) =>
      set (w1 := a) end.
    assert (H1 : R w w1).
    { subst w1. destruct (rtcSlot (peerState w existingPeer)); [|apply R_refl].
      apply removeAndClose_respects. }
    destruct (rtcSlot (peerState w1 peer)); [|exact H1].
    eapply R_trans; [exact H1 | apply Peer_setWebRtcConnection_respects]. }
  destruct (rtcSlot (peerState w2 peer)); [|exact H2].
  eapply R_trans; [exact H2 | apply Peer_removeConnection_respects].
Qed.

Lemma mergeWebSocket_respects peer existingPeer w :
  R w (mergeWebSocket notify peer existingPeer w).
Proof.
  unfold mergeWebSocket.
  destruct (slotConnected w (wsSlot (peerState w peer))); [|apply R_refl].
  match goal with |- R w (match wsSlot (peerState ?a peer) with _ => _ end) =>
    set (w2 := a) end.
  assert (H2 : R w w2).
  { subst w2.
    match goal with |- R w (match wsSlot (peerState ?a peer) with _ => _ end) =>
      set (w1 := a) end.
    assert (H1 : R w w1).
    { subst w1. destruct (wsSlot (peerState w existingPeer)); [|apply R_refl].
      apply removeAndClose_respects. }
    destruct (wsSlot (peerState w1 peer)); [|exact H1].
    eapply R_trans; [exact H1 | apply Peer_setWebSocketConnection_respects]. }
  destruct (wsSlot (peerState w2 peer)); [|exact H2].
  eapply R_trans; [exact H2 | apply Peer_removeConnection_respects].
Qed.

Lemma updateIdentifiedPeerMap_respects peer w :
  R w (updateIdentifiedPeerMap notify peer w).
Proof.
  unfold updateIdentifiedPeerMap.
  destruct (identity (peerState w peer)) as [i|]; [|apply R_refl].
  destruct (JsMap.get i (identifiedPeers w)) as [existingPeer|]; [|apply R_identified].
  destruct (Nat.eqb peer existingPeer); [apply R_identified|].
  assert (Hclose : R w (snd (tryDisposePeer peer (Peer_close notify peer None w)))).
  { eapply R_trans; [apply Peer_close_respects | apply tryDisposePeer_respects]. }
  assert (Hmerge :
    R w (snd (tryDisposePeer peer
               (Peer_updateRetry peer WebSocket Outbound neverRetryConnecting
                  (mergeWebSocket notify peer existingPeer
                     (mergeWebRtc notify peer existingPeer w)))))).
  { eapply R_trans; [apply mergeWebRtc_respects|].
    eapply R_trans; [apply mergeWebSocket_respects|].
    eapply R_trans; [apply neverRetry_respects | apply tryDisposePeer_respects]. }
  destruct (type (peerState w peer)); assumption.
Qed.
End Methods.

(** The handlers of [getOrCreatePeer], whatever the bound on their
    nesting. *)
Lemma peerStateChanged_respects depth peer prevState w :
  R w (peerStateChanged depth peer prevState w).
Proof.
  revert peer prevState w. induction depth as [|d IH]; intros peer prevState w;
    [apply R_refl|].
  cbn [peerStateChanged].
  match goal with |- R w (match type (peerState ?a peer) with _ => _ end) =>
    set (w1 := a) end.
  assert (H1 : R w w1).
  { subst w1. destruct (identifyHandler (peerHeap w peer)); [|apply R_refl].
    destruct (type (peerState w peer)); try apply R_refl.
    eapply R_trans; [apply updateIdentifiedPeerMap_respects, IH|].
    apply R_peer. intros r. reflexivity. }
  assert (H2 : forall e1 e2, lifecycle e1 = true -> lifecycle e2 = true ->
                             R w (emit e2 (emit e1 w1))).
  { intros e1 e2 L1 L2. eapply R_trans; [exact H1|].
    eapply R_trans; [apply R_emit, L1 | apply R_emit, L2]. }
  destruct (type (peerState w1 peer)), (PState.eqb prevState PState.CONNECTED);
    try exact H1;
    try (apply H2; reflexivity);
    (eapply R_trans; [|apply tryDisposePeer_respects]); apply H2; reflexivity.
Qed.
End Footprint.

(** ** The calm of the handlers *)

Lemma closing_refl w : closing w w.
Proof. intros c. now left. Qed.

Lemma closing_trans w1 w2 w3 : closing w1 w2 -> closing w2 w3 -> closing w1 w3.
Proof.
  intros H1 H2 c. destruct (H2 c) as [E|E]; [|now right].
  rewrite E. apply H1.
Qed.

Lemma closing_connectsNothing w w' : closing w w' -> connectsNothing w w'.
Proof. intros H c i Hc. destruct (H c) as [E|E]; congruence. Qed.

Lemma connectsNothing_trans w1 w2 w3 :
  connectsNothing w1 w2 -> connectsNothing w2 w3 -> connectsNothing w1 w3.
Proof. intros H1 H2 c i Hc. auto. Qed.

Lemma calm_refl w : calm w w.
Proof. constructor; auto. apply closing_refl. Qed.

Lemma calm_trans w1 w2 w3 : calm w1 w2 -> calm w2 w3 -> calm w1 w3.
Proof.
  intros [A1 B1 C1 [D1 D1'] [E1 E1'] F1] [A2 B2 C2 [D2 D2'] [E2 E2'] F2]. constructor.
  - eapply closing_trans; eassumption.
  - intros c. now rewrite B2.
  - intros p. now rewrite C2.
  - split; congruence.
  - split; congruence.
  - auto.
Qed.

Lemma calm_peer p f w : (forall r, profile (f r) = profile r) -> calm w (updPeer p f w).
Proof.
  intros Hf. constructor; auto; [intros c; now left|].
  intros q. simpl. destruct (Nat.eqb q p); auto.
Qed.

Lemma calm_conn c f w :
  (forall k, wiring (f k) = wiring k
             /\ (c_state (f k) = c_state k \/ c_state (f k) = CState.DISCONNECTED)) ->
  calm w (updConn c f w).
Proof.
  intros Hf. constructor; auto.
  - intros x. unfold connState. simpl. destruct (Nat.eqb x c); [apply Hf | now left].
  - intros x. simpl. destruct (Nat.eqb x c); [apply Hf | reflexivity].
Qed.

Lemma calm_peers_shrink l w : (forall q, In q l -> In q (peers w)) -> calm w (w_peers l w).
Proof. intros H. constructor; auto. intros c; now left. Qed.

Lemma calm_identified m w : calm w (w_identifiedPeers m w).
Proof. constructor; auto. intros c; now left. Qed.

Lemma calm_emit e w : calm w (emit e w).
Proof. constructor; auto. intros c; now left. Qed.

Lemma calm_emit_lifecycle e w : lifecycle e = true -> calm w (emit e w).
Proof. intros _. apply calm_emit. Qed.

Lemma peerStateChanged_calm depth peer prevState w :
  calm w (peerStateChanged depth peer prevState w).
Proof.
  apply (peerStateChanged_respects calm);
    [exact calm_refl | exact calm_trans | exact calm_peer | exact calm_conn
    | exact calm_peers_shrink | exact calm_identified | exact calm_emit_lifecycle].
Qed.

Ltac calm_premise :=
  first [ exact calm_refl | exact calm_trans | exact calm_peer | exact calm_conn
        | exact calm_peers_shrink | exact calm_identified | exact calm_emit_lifecycle
        | exact (peerStateChanged_calm _) ].

Lemma tryDisposePeer_calm p w : calm w (snd (tryDisposePeer p w)).
Proof. apply (tryDisposePeer_respects calm); calm_premise. Qed.

Lemma neverRetry_calm p t d w : calm w (Peer_updateRetry p t d neverRetryConnecting w).
Proof. apply (neverRetry_respects calm); calm_premise. Qed.

Lemma Peer_removeConnection_calm depth p c w :
  calm w (Peer_removeConnection (peerStateChanged depth) p c w).
Proof. apply (Peer_removeConnection_respects calm); calm_premise. Qed.

Lemma Connection_close_calm depth c err w :
  calm w (Connection_close (peerStateChanged depth) c err w).
Proof. apply (Connection_close_respects calm); calm_premise. Qed.

Lemma Peer_setWebSocketConnection_calm depth p c w :
  calm w (Peer_setWebSocketConnection (peerStateChanged depth) p c w).
Proof. apply (Peer_setWebSocketConnection_respects calm); calm_premise. Qed.

Lemma Peer_setWebRtcConnection_calm depth p c w :
  calm w (Peer_setWebRtcConnection (peerStateChanged depth) p c w).
Proof. apply (Peer_setWebRtcConnection_respects calm); calm_premise. Qed.

Lemma Peer_close_calm depth p err w :
  calm w (Peer_close (peerStateChanged depth) p err w).
Proof. apply (Peer_close_respects calm); calm_premise. Qed.

Lemma updateIdentifiedPeerMap_calm depth p w :
  calm w (updateIdentifiedPeerMap (peerStateChanged depth) p w).
Proof. apply (updateIdentifiedPeerMap_respects calm); calm_premise. Qed.

Lemma Peer_setState_calm depth p ws rtc w :
  calm w (Peer_setState (peerStateChanged depth) p ws rtc w).
Proof. apply (Peer_setState_respects calm); calm_premise. Qed.

(** ** Only a handshake connects *)

Lemma connectsNothing_refl w : connectsNothing w w.
Proof. intros c i H. exact H. Qed.

Lemma connectsNothing_states w w' :
  (forall c, connState w' c = connState w c) -> connectsNothing w w'.
Proof. intros H c i Hc. now rewrite <- H. Qed.

Lemma calm_connectsNothing w w' : calm w w' -> connectsNothing w w'.
Proof. intros H. apply closing_connectsNothing, H. Qed.

Ltac same_states := apply connectsNothing_states; intros ?; reflexivity.

Lemma getOrCreatePeer_connections env o w :
  connections (snd (getOrCreatePeer env o w)) = connections w.
Proof.
  destruct o as [i|]; [|reflexivity].
  destruct (JsMap.get i (identifiedPeers w)) as [q|] eqn:H.
  - now rewrite (getOrCreatePeer_found env i w q H).
  - apply (getOrCreatePeer_new env i w H).
Qed.

Lemma allocConnection_connectsNothing k w :
  CState.isConnected (c_state k) = false ->
  connectsNothing w (snd (allocConnection k w)).
Proof.
  intros Hk c i. unfold allocConnection, connState. cbn.
  destruct (Nat.eqb c (nextConnection w)); [|auto].
  intros E. rewrite E in Hk. discriminate.
Qed.

Lemma initConnectionHandlers_states env connection w c :
  connState (initConnectionHandlers env connection w) c = connState w c.
Proof.
  unfold initConnectionHandlers. destruct (connState w connection); try reflexivity;
    unfold connState; simpl; destruct (Nat.eqb c connection); reflexivity.
Qed.

Lemma initWebRtcConnection_connectsNothing env broker peer initiator w :
  connectsNothing w (snd (initWebRtcConnection env broker peer initiator w)).
Proof.
  unfold initWebRtcConnection.
  match goal with |- context [allocConnection ?k w] =>
    assert (H := allocConnection_connectsNothing k w eq_refl);
    destruct (allocConnection k w) as [c w1] end.
  cbn [snd] in *. eapply connectsNothing_trans; [exact H|].
  eapply connectsNothing_trans;
    [|apply calm_connectsNothing, Peer_setWebRtcConnection_calm].
  apply connectsNothing_states, initConnectionHandlers_states.
Qed.

Lemma initWebSocketConnection_connectsNothing env peer direction host n w :
  connectsNothing w (snd (initWebSocketConnection env peer direction host n w)).
Proof.
  unfold initWebSocketConnection.
  match goal with |- context [allocConnection ?k w] =>
    assert (H : connectsNothing w (snd (allocConnection k w)))
      by (apply allocConnection_connectsNothing; destruct direction; reflexivity);
    destruct (allocConnection k w) as [c w1] end.
  cbn [snd] in *. eapply connectsNothing_trans; [exact H|].
  eapply connectsNothing_trans;
    [|apply calm_connectsNothing, Peer_setWebSocketConnection_calm].
  apply connectsNothing_states, initConnectionHandlers_states.
Qed.

Lemma feedSignal_connectsNothing env peer connection source nonce signal w :
  connectsNothing w (feedSignal env peer connection source nonce signal w).
Proof.
  unfold feedSignal. destruct (unboxMessage _ _ _ _);
    [|apply calm_connectsNothing, Connection_close_calm].
  destruct (parseJson _ _);
    [same_states | apply calm_connectsNothing, Connection_close_calm].
Qed.

Lemma addKnownPeerTo_connectsNothing peer addTo flag w :
  connectsNothing w (addKnownPeerTo peer addTo flag w).
Proof.
  apply connectsNothing_states. intros c. unfold connState.
  now rewrite (same_connections _ _ (addKnownPeerTo_sameNetwork peer addTo flag w)).
Qed.

Lemma getOrCreatePeer_connectsNothing env o w :
  connectsNothing w (snd (getOrCreatePeer env o w)).
Proof.
  apply connectsNothing_states. intros c. unfold connState.
  now rewrite getOrCreatePeer_connections.
Qed.

Lemma forward_connectsNothing sender s d m w : connectsNothing w (forward sender s d m w).
Proof.
  unfold forward. destruct (negb _); [same_states|].
  destruct (getPeer d w); same_states.
Qed.

Lemma handleDisconnectingMessage_connectsNothing env sender s d reason until w :
  connectsNothing w (handleDisconnectingMessage env sender s d reason until w).
Proof.
  assert (H : forall f, connectsNothing w
                (Peer_close (peerStateChanged (depth env)) sender None (updPeer sender f w))).
  { intros f. eapply connectsNothing_trans;
      [|apply calm_connectsNothing, Peer_close_calm].
    now apply connectsNothing_states. }
  unfold handleDisconnectingMessage. destruct d as [d|]; [|apply H].
  destruct (negb _); [apply forward_connectsNothing | apply H].
Qed.

Lemma handleSignalRequestMessage_connectsNothing env sender s d w :
  connectsNothing w (handleSignalRequestMessage env sender s d w).
Proof.
  unfold handleSignalRequestMessage.
  destruct (canInitiateWebRTC s d); [same_states|].
  destruct (negb _); [apply forward_connectsNothing|].
  destruct (_ && _); [same_states|].
  assert (H1 := getOrCreatePeer_connectsNothing env (Some s) w).
  destruct (getOrCreatePeer env (Some s) w) as [p w1]. cbn [snd] in H1.
  cbv beta iota zeta.
  assert (H2 : connectsNothing w (addKnownPeerTo p sender true w1))
    by (eapply connectsNothing_trans;
        [exact H1 | apply addKnownPeerTo_connectsNothing]).
  destruct (rtcSlot _); [exact H2|].
  eapply connectsNothing_trans; [exact H2 | apply initWebRtcConnection_connectsNothing].
Qed.

Lemma handleSignalMessage_connectsNothing env sender s d nonce signal w :
  connectsNothing w (handleSignalMessage env sender s d nonce signal w).
Proof.
  unfold handleSignalMessage.
  destruct (negb _); [apply forward_connectsNothing|].
  destruct (_ && _); [same_states|].
  assert (H1 := getOrCreatePeer_connectsNothing env (Some s) w).
  destruct (getOrCreatePeer env (Some s) w) as [p w1]. cbn [snd] in H1.
  cbv beta iota zeta.
  assert (H2 : connectsNothing w (addKnownPeerTo p sender true w1))
    by (eapply connectsNothing_trans;
        [exact H1 | apply addKnownPeerTo_connectsNothing]).
  destruct (rtcSlot _).
  - eapply connectsNothing_trans; [exact H2 | apply feedSignal_connectsNothing].
  - destruct (identity _); [|exact H2]. destruct (negb _); [exact H2|].
    assert (H3 := initWebRtcConnection_connectsNothing env sender p false
                    (addKnownPeerTo p sender true w1)).
    destruct (initWebRtcConnection env sender p false _) as [c w3]. cbn [snd] in H3.
    eapply connectsNothing_trans; [exact H2|].
    eapply connectsNothing_trans; [exact H3 | apply feedSignal_connectsNothing].
Qed.

Lemma fold_connections {A} (f : bool * World -> A -> bool * World) l acc :
  (forall a x, connections (snd (f a x)) = connections (snd a)) ->
  connections (snd (fold_left f l acc)) = connections (snd acc).
Proof.
  intros Hf. revert acc. induction l as [|x l IH]; intros acc; cbn [fold_left];
    [reflexivity|].
  now rewrite IH, Hf.
Qed.

Lemma removeEdge_connections set p acc entry :
  connections (snd (removeEdge set p acc entry)) = connections (snd acc).
Proof.
  destruct acc as [c w], entry as [k q]. unfold removeEdge.
  destruct (_ && _); [|reflexivity]. cbn [snd].
  rewrite !tryDisposePeer_connections. destruct (identity _); reflexivity.
Qed.

Lemma addNewPeer_connections env p acc e :
  connections (snd (addNewPeer env p acc e)) = connections (snd acc).
Proof.
  destruct acc as [c w]. unfold addNewPeer.
  destruct (JsMap.has _ _); [reflexivity|].
  assert (H := getOrCreatePeer_connections env (Some (entry_identity e)) w).
  destruct (getOrCreatePeer env (Some (entry_identity e)) w) as [q w1].
  cbn [snd] in *. cbv beta iota zeta. cbn [snd].
  now rewrite (same_connections _ _ (addKnownPeerTo_sameNetwork q p false _)).
Qed.

(** A peer list changes no connection. *)
Lemma handlePeerListMessage_connections env list peer w :
  connections (handlePeerListMessage env list peer w) = connections w.
Proof.
  unfold handlePeerListMessage. destruct (type (peerState w peer)); try reflexivity.
  destruct (lp_isWorker _); [reflexivity|]. cbv zeta.
  assert (H1 := fold_connections (removeEdge (newPeerSet env list) peer)
                  (knownPeers (peerHeap w peer)) (false, w)
                  (removeEdge_connections _ _)).
  destruct (fold_left (removeEdge _ peer) _ (false, w)) as [c1 w1].
  assert (H2 := fold_connections (addNewPeer env peer)
                  (JsMap.values (newPeerSet env list)) (c1, w1)
                  (addNewPeer_connections env peer)).
  destruct (fold_left (addNewPeer env peer) _ (c1, w1)) as [c2 w2].
  cbn [snd] in *. unfold Peer_emitKnownPeersChanged.
  destruct c2; [destruct (subscribed _)|]; cbn; congruence.
Qed.

Lemma rejectIdentify_connectsNothing env peer connection message w :
  connectsNothing w (rejectIdentify env peer connection message w).
Proof.
  unfold rejectIdentify.
  eapply connectsNothing_trans; [|apply calm_connectsNothing, Peer_close_calm].
  same_states.
Qed.

Lemma closeOwnIdentity_connectsNothing env peer connection w :
  connectsNothing w (closeOwnIdentity env peer connection w).
Proof.
  unfold closeOwnIdentity.
  eapply connectsNothing_trans; [|apply calm_connectsNothing, tryDisposePeer_calm].
  eapply connectsNothing_trans; [|apply calm_connectsNothing, Connection_close_calm].
  assert (H : forall t d,
            connectsNothing w
              (Peer_updateRetry peer t d neverRetryConnecting
                 (Peer_removeConnection (peerStateChanged (depth env)) peer connection w)))
    by (intros t d; apply calm_connectsNothing;
        eapply calm_trans; [apply Peer_removeConnection_calm | apply neverRetry_calm]).
  destruct (c_type (connections w connection)), (c_direction (connections w connection));
    apply H.
Qed.

Lemma moveConnection_connectsNothing env peer connection i w :
  connectsNothing w (snd (moveConnection env peer connection i w)).
Proof.
  unfold moveConnection.
  destruct (identity (peerState w peer)) as [known|]; [|apply connectsNothing_refl].
  destruct (String.eqb known i); [apply connectsNothing_refl|]. cbv zeta.
  match goal with |- context [getOrCreatePeer env (Some i) ?w0] =>
    assert (H0 : connectsNothing w w0)
      by (apply calm_connectsNothing;
          eapply calm_trans; [apply Peer_removeConnection_calm | apply neverRetry_calm]);
    assert (H1 := getOrCreatePeer_connectsNothing env (Some i) w0);
    destruct (getOrCreatePeer env (Some i) w0) as [q w1]
  end.
  cbn [snd] in H1.
  assert (H2 : connectsNothing w w1) by (eapply connectsNothing_trans; eassumption).
  destruct (c_type (connections w connection)); cbn [snd].
  - eapply connectsNothing_trans;
      [|apply calm_connectsNothing, Peer_setWebSocketConnection_calm].
    destruct (c_direction (connections w connection)); [exact H2|].
    destruct (address (peerHeap w1 peer)); exact H2.
  - eapply connectsNothing_trans;
      [exact H2 | apply calm_connectsNothing, Peer_setWebRtcConnection_calm].
Qed.

Lemma closeDuplicate_calm env toClose w : calm w (closeDuplicate env toClose w).
Proof. apply Connection_close_calm. Qed.

Lemma identifyWhenWaiting_states idm c w x :
  connState (identifyWhenWaiting idm c w) x = connState w x.
Proof.
  unfold identifyWhenWaiting. destruct (c_identifyPending _); [|reflexivity].
  destruct (connState w c); try reflexivity.
  unfold connState. simpl. destruct (Nat.eqb x c); reflexivity.
Qed.

(** [setState] changes the state of its connection alone, apart from
    what closes while the handlers run. *)
Lemma Connection_setState_connects depth idm c s w x j :
  connState (Connection_setState (peerStateChanged depth) idm c s w) x = CState.CONNECTED j ->
  connState w x = CState.CONNECTED j \/ (x = c /\ s = CState.CONNECTED j).
Proof.
  unfold Connection_setState.
  destruct (CState.validTransition (connState w c) s); [|now left].
  set (w2 := identifyWhenWaiting idm c (updConn c (c_with_state s) w)).
  assert (H2 : forall y, connState w2 y = if Nat.eqb y c then s else connState w y).
  { intros y. unfold w2. rewrite identifyWhenWaiting_states. unfold connState. simpl.
    destruct (Nat.eqb y c); reflexivity. }
  assert (Hend : connState w2 x = CState.CONNECTED j ->
                 connState w x = CState.CONNECTED j \/ (x = c /\ s = CState.CONNECTED j)).
  { rewrite H2. destruct (Nat.eqb_spec x c); auto. }
  destruct (c_boundTo (connections w2 c)) as [p|]; [|exact Hend].
  destruct s; try exact Hend; intros H; apply Hend.
  - exact (calm_connectsNothing _ _ (Peer_setState_calm depth p _ _ w2) _ _ H).
  - exact (calm_connectsNothing _ _ (Peer_removeConnection_calm depth p c w2) _ _ H).
Qed.

Lemma completeIdentify_connects env peer connection existingPeer i v n nm worker w x j :
  connState (completeIdentify env peer connection existingPeer i v n nm worker w) x
  = CState.CONNECTED j ->
  connState w x = CState.CONNECTED j \/ (x = connection /\ j = i).
Proof.
  unfold completeIdentify. cbv zeta.
  match goal with |- context [updPeer peer ?f ?w0] => set (w1 := updPeer peer f w0) end.
  assert (H1 : forall y, connState w1 y = connState w y).
  { intros y. unfold w1, connState. simpl.
    destruct (c_type _); [destruct (c_direction _)|]; simpl; try reflexivity.
    destruct (Nat.eqb y connection); reflexivity. }
  rewrite <- H1.
  match goal with |- context [match ?s with Some _ => _ | None => _ end] =>
    destruct s as [[e until]|] end.
  - intros H. left.
    exact (calm_connectsNothing _ _ (Connection_close_calm (depth env) connection _ _) _ _ H).
  - intros H. apply Connection_setState_connects in H.
    destruct H as [H|[-> E]]; [now left | right]. split; [reflexivity | congruence].
Qed.

Lemma handshake_connects env peer connection m w c i :
  connState (handleWaitingForIdentityMessage env peer connection m w) c = CState.CONNECTED i ->
  connState w c = CState.CONNECTED i
  \/ (c = connection
      /\ i <> publicIdentity (localPeer env)
      /\ exists versionText port name worker,
           m = Identify i versionText port name worker
           /\ wellFormedIdentify env i versionText name).
Proof.
  destruct m as [i0 v n nm wk| | | | |];
    try (intros H; left;
         exact (calm_connectsNothing _ _ (Peer_close_calm (depth env) peer None w) _ _ H)).
  unfold handleWaitingForIdentityMessage. cbv zeta.
  destruct (isIdentity env i0) eqn:E1; cbn [negb];
    [|intros H; left; exact (rejectIdentify_connectsNothing _ _ _ _ _ _ _ H)].
  destruct (versionsAreCompatible _ _) eqn:E2; cbn [negb];
    [|intros H; left; exact (rejectIdentify_connectsNothing _ _ _ _ _ _ _ H)].
  destruct (match orNull nm with Some s => (32 <? String.length s)%nat | None => false end)
    eqn:E3;
    [intros H; left; exact (rejectIdentify_connectsNothing _ _ _ _ _ _ _ H)|].
  destruct (String.eqb_spec i0 (publicIdentity (localPeer env))) as [|Hme];
    [intros H; left; exact (closeOwnIdentity_connectsNothing _ _ _ _ _ _ H)|].
  assert (H1 := moveConnection_connectsNothing env peer connection i0 w).
  destruct (moveConnection env peer connection i0 w) as [peer1 w1]. cbn [snd] in H1.
  assert (Hend : forall existingPeer w2,
            connectsNothing w w2 ->
            connState (completeIdentify env peer1 connection existingPeer i0
                         (parseVersion env v) n (orNull nm) wk w2) c = CState.CONNECTED i ->
            connState w c = CState.CONNECTED i
            \/ (c = connection
                /\ i <> publicIdentity (localPeer env)
                /\ exists versionText port name worker,
                     Identify i0 v n nm wk = Identify i versionText port name worker
                     /\ wellFormedIdentify env i versionText name)).
  { intros existingPeer w2 H2 H. apply completeIdentify_connects in H.
    destruct H as [H|[-> ->]]; [left; now apply H2 | right].
    split; [reflexivity|]. split; [exact Hme|].
    exists v, n, nm, wk. split; [reflexivity|]. repeat split; assumption. }
  destruct (duplicateOf _ connection w1) as [existing|]; [|now apply Hend].
  assert (H2 : connectsNothing w
                 (closeDuplicate env (connectionToClose env i0 connection existing w1) w1))
    by (eapply connectsNothing_trans;
        [exact H1 | apply calm_connectsNothing, closeDuplicate_calm]).
  destruct (Nat.eqb _ connection); [intros H; left; now apply H2 | now apply Hend].
Qed.

(** X1: a connection comes to be CONNECTED only through the handshake.
    Whatever frame the manager handles, a connection that is CONNECTED
    afterwards either was so before, with the same identity, or is the
    connection the frame arrived on, which waited for the identity and
    received a well-formed Identify frame with that identity, which is not
    our own. *)
Theorem connects_only_by_handshake env peer connection m w c i :
  connState (handleMessage env peer connection m w) c = CState.CONNECTED i ->
  connState w c = CState.CONNECTED i
  \/ (c = connection
      /\ connState w connection = CState.WAITING_FOR_IDENTITY
      /\ i <> publicIdentity (localPeer env)
      /\ exists versionText port name worker,
           m = Identify i versionText port name worker
           /\ wellFormedIdentify env i versionText name).
Proof.
  assert (Hwait : connState w connection = CState.WAITING_FOR_IDENTITY ->
            connState (handleWaitingForIdentityMessage env peer connection m w) c
            = CState.CONNECTED i ->
            connState w c = CState.CONNECTED i
            \/ (c = connection
                /\ connState w connection = CState.WAITING_FOR_IDENTITY
                /\ i <> publicIdentity (localPeer env)
                /\ exists versionText port name worker,
                     m = Identify i versionText port name worker
                     /\ wellFormedIdentify env i versionText name)).
  { intros Hs H. destruct (handshake_connects _ _ _ _ _ _ _ H) as [H'|(Hc & Hme & Hm)];
      [now left | right; repeat split; assumption]. }
  unfold handleMessage.
  destruct m as [i0 v n nm wk|s d|s d nonce signal|list|s d reason until|t payload];
    try (intros H; left;
         exact (handleDisconnectingMessage_connectsNothing _ _ _ _ _ _ _ _ _ H));
    destruct (connState w connection) eqn:Hs; try (apply Hwait; reflexivity);
    try (intros H; left; exact H);
    try (intros H; left;
         exact (handleSignalRequestMessage_connectsNothing _ _ _ _ _ _ _ H));
    try (intros H; left;
         exact (handleSignalMessage_connectsNothing _ _ _ _ _ _ _ _ _ H));
    try (intros H; left; unfold connState in H |- *;
         now rewrite handlePeerListMessage_connections in H);
    (destruct (identity (peerState w peer));
     [intros H; left; exact H
     |intros H; left;
      exact (calm_connectsNothing _ _ (Peer_close_calm (depth env) peer None w) _ _ H)]).
Qed.

Lemma connects_only_by_handshake_witness :
  let env := sampleEnv 10000 in
  let w := snd (createPeerFromInboundWebSocketConnection env None emptyWorld) in
  connState w O = CState.CONNECTED "BBBB"%string
  \/ (O = O
      /\ connState w O = CState.WAITING_FOR_IDENTITY
      /\ "BBBB"%string <> publicIdentity (localPeer env)
      /\ exists versionText port name worker,
           sampleIdentify "BBBB"%string = Identify "BBBB"%string versionText port name worker
           /\ wellFormedIdentify env "BBBB"%string versionText name).
Proof.
  apply (connects_only_by_handshake (sampleEnv 10000) O O (sampleIdentify "BBBB"%string)).
  vm_compute. reflexivity.
Defined.

(** ** A handshake turned down *)

Lemma retryCounters_retryOf rs rs' t d :
  retryCounters rs = retryCounters rs' ->
  option_map counters (retryOf t d rs) = option_map counters (retryOf t d rs').
Proof.
  unfold retryCounters. intros H. injection H as H1 H2 H3 H4.
  destruct t, d; assumption.
Qed.

Lemma profile_counters r r' t d :
  profile r' = profile r ->
  option_map counters (Peer_getConnectionRetry r' t d)
  = option_map counters (Peer_getConnectionRetry r t d).
Proof.
  unfold profile. intros H. apply (f_equal snd) in H. cbn [snd] in H.
  now apply retryCounters_retryOf.
Qed.

(** What [peer.close] does and does not do, the handlers included. *)
Lemma Peer_close_quietly depth peer err w :
  let w' := Peer_close (peerStateChanged depth) peer err w in
  nothingSent w w'
  /\ nextPeer w' = nextPeer w /\ nextConnection w' = nextConnection w
  /\ connectsNothing w w'
  /\ (forall c, rtcSlot (peerState w peer) = Some c -> connState w' c = CState.DISCONNECTED)
  /\ (rtcSlot (peerState w peer) = None ->
      forall c, wsSlot (peerState w peer) = Some c -> connState w' c = CState.DISCONNECTED)
  /\ forall q, profile (peerHeap w' q) = profile (peerHeap w q).
Proof.
  cbv zeta.
  assert (Hn : forall p prev w0, frame w0 (peerStateChanged depth p prev w0))
    by (intros; apply peerStateChanged_frame).
  assert (F := Peer_close_frame (peerStateChanged depth) Hn peer err w).
  assert (C := Peer_close_calm depth peer err w).
  destruct (Peer_close_closes (peerStateChanged depth) peer err w Hn) as [Hr Hw].
  split; [apply (frame_observed _ _ F)|].
  split; [apply (frame_next _ _ F)|]. split; [apply (frame_next _ _ F)|].
  split; [now apply calm_connectsNothing|].
  split; [exact Hr|]. split; [exact Hw | apply (calm_profile _ _ C)].
Qed.

Lemma not_wellFormed env i versionText nm :
  ~ wellFormedIdentify env i versionText nm ->
  isIdentity env i = false
  \/ versionsAreCompatible (lp_version (localPeer env)) (parseVersion env versionText) = false
  \/ match orNull nm with
     | Some s => (32 <? String.length s)%nat
     | None => false
     end = true.
Proof.
  intros H. unfold wellFormedIdentify in H.
  destruct (isIdentity env i); [|now left].
  destruct (versionsAreCompatible _ _); [|right; now left].
  destruct (match orNull nm with Some s => (32 <? String.length s)%nat | None => false end);
    [right; now right|].
  exfalso. apply H. repeat split.
Qed.

(** X2: a frame that the handshake turns down closes the peer and nothing
    else.  On a connection that waits for the identity, a frame that is
    neither Disconnecting nor a well-formed Identify is not relayed and not
    answered, makes no peer and no connection and connects none; the
    WebRTC connection of the peer is closed, and its WebSocket connection
    when that is the only one; a malformed Identify is counted as a failed
    connection on the retry state of the peer for that transport and
    direction, any other frame leaves the count as it was. *)
Theorem handshake_rejected env peer connection m w :
  connState w connection = CState.WAITING_FOR_IDENTITY ->
  rejected env m ->
  let w' := handleMessage env peer connection m w in
  let k := connections w connection in
  nothingSent w w'
  /\ nextPeer w' = nextPeer w /\ nextConnection w' = nextConnection w
  /\ connectsNothing w w'
  /\ (forall c, rtcSlot (peerState w peer) = Some c -> connState w' c = CState.DISCONNECTED)
  /\ (rtcSlot (peerState w peer) = None ->
      forall c, wsSlot (peerState w peer) = Some c -> connState w' c = CState.DISCONNECTED)
  /\ option_map counters (retryFor w' peer k)
     = option_map counters
         match m with
         | Identify _ _ _ _ _ =>
             option_map (failedConnection (backoff env) (now env)
                           (isWhitelisted (peerHeap w peer)))
               (retryFor w peer k)
         | _ => retryFor w peer k
         end.
Proof.
  intros Hs Hm. cbv zeta.
  assert (Hplain : forall err,
    let w' := Peer_close (peerStateChanged (depth env)) peer err w in
    nothingSent w w'
    /\ nextPeer w' = nextPeer w /\ nextConnection w' = nextConnection w
    /\ connectsNothing w w'
    /\ (forall c, rtcSlot (peerState w peer) = Some c -> connState w' c = CState.DISCONNECTED)
    /\ (rtcSlot (peerState w peer) = None ->
        forall c, wsSlot (peerState w peer) = Some c -> connState w' c = CState.DISCONNECTED)
    /\ option_map counters (retryFor w' peer (connections w connection))
       = option_map counters (retryFor w peer (connections w connection))).
  { intros err. destruct (Peer_close_quietly (depth env) peer err w)
      as (A & B & C & D & E & F & G).
    repeat split; auto. unfold retryFor. apply profile_counters, G. }
  assert (Hfailed : forall message,
    let w' := rejectIdentify env peer connection message w in
    nothingSent w w'
    /\ nextPeer w' = nextPeer w /\ nextConnection w' = nextConnection w
    /\ connectsNothing w w'
    /\ (forall c, rtcSlot (peerState w peer) = Some c -> connState w' c = CState.DISCONNECTED)
    /\ (rtcSlot (peerState w peer) = None ->
        forall c, wsSlot (peerState w peer) = Some c -> connState w' c = CState.DISCONNECTED)
    /\ option_map counters (retryFor w' peer (connections w connection))
       = option_map counters
           (option_map (failedConnection (backoff env) (now env)
                          (isWhitelisted (peerHeap w peer)))
              (retryFor w peer (connections w connection)))).
  { intros message. unfold rejectIdentify. cbv zeta.
    match goal with |- context [Peer_close _ peer ?e ?w0'] =>
      set (w0 := w0'); destruct (Peer_close_quietly (depth env) peer e w0)
        as (A & B & C & D & E & F & G) end.
    assert (Hst : peerState w0 peer = peerState w peer)
      by (apply updPeer_state; intros; reflexivity).
    rewrite Hst in E, F.
    split; [exact A|]. split; [exact B|]. split; [exact C|]. split; [exact D|].
    split; [exact E|]. split; [exact F|].
    unfold retryFor. rewrite (profile_counters _ _ _ _ (G peer)).
    unfold w0, Peer_updateRetry, Peer_getConnectionRetry. cbn.
    rewrite Nat.eqb_refl. cbn. now rewrite retryOf_updateRetry. }
  unfold handleMessage.
  destruct m as [i v n nm wk|s d|s d nonce signal|list|s d reason until|t payload];
    try contradiction; rewrite Hs; try apply Hplain.
  unfold handleWaitingForIdentityMessage. cbv zeta.
  destruct (not_wellFormed env i v nm Hm) as [E|[E|E]].
  - rewrite E. cbn [negb]. apply Hfailed.
  - destruct (isIdentity env i); cbn [negb]; [|apply Hfailed].
    rewrite E. cbn [negb]. apply Hfailed.
  - destruct (isIdentity env i); cbn [negb]; [|apply Hfailed].
    destruct (versionsAreCompatible _ _); cbn [negb]; [|apply Hfailed].
    rewrite E. apply Hfailed.
Qed.

Lemma handshake_rejected_witness :
  let env := sampleEnv 10000 in
  let w := snd (createPeerFromInboundWebSocketConnection env None emptyWorld) in
  connState (handleMessage env O O (sampleIdentify "toolong"%string) w) O = CState.DISCONNECTED.
Proof.
  refine (proj1 (proj2 (proj2 (proj2 (proj2 (proj2
            (handshake_rejected (sampleEnv 10000) O O (sampleIdentify "toolong"%string)
               (snd (createPeerFromInboundWebSocketConnection (sampleEnv 10000) None
                       emptyWorld)) _ _)))))) _ O _).
  - vm_compute. reflexivity.
  - vm_compute. intros [H _]. discriminate H.
  - vm_compute. reflexivity.
  - vm_compute. reflexivity.
Defined.

(** ** A peer that was told to stay away *)

Lemma observed_kept w w' e :
  observed w' = observed w -> In e (events w) -> lifecycle e = false -> In e (events w').
Proof.
  intros Ho Hin He.
  assert (H : In e (observed w)) by (apply filter_In; split; [assumption | now rewrite He]).
  rewrite <- Ho in H. now apply filter_In in H.
Qed.



(** ** Disconnecting from a peer *)

Lemma peerState_send c m w p : peerState (Connection_send c m w) p = peerState w p.
Proof. reflexivity. Qed.

Lemma connState_send c m w d : connState (Connection_send c m w) d = connState w d.
Proof. reflexivity. Qed.

Lemma profile_localRequest r r' :
  profile r = profile r' ->
  localRequestedDisconnectUntil r = localRequestedDisconnectUntil r'
  /\ localRequestedDisconnectReason r = localRequestedDisconnectReason r'.
Proof.
  intros H. apply (f_equal (fun t => snd (fst (fst t)))) in H. cbn [profile fst snd] in H.
  now inversion H.
Qed.

(** What [disconnect] does, and what it leaves alone. *)
Lemma disconnect_effects env peer reason until w :
  let w' := disconnect env peer reason until w in
  let notice :=
    Disconnecting (publicIdentity (localPeer env)) (identity (peerState w peer))
      reason until in
  let held c := webRtc (peerState w peer) = Some c \/ webSocket (peerState w peer) = Some c in
  (localRequestedDisconnectUntil (peerHeap w' peer) = Some until
   /\ localRequestedDisconnectReason (peerHeap w' peer) = Some reason
   /\ (type (peerState w peer) = PState.DISCONNECTED ->
       events w' = events w /\ connections w' = connections w)
   /\ (type (peerState w peer) <> PState.DISCONNECTED ->
       (forall c, held c -> canSend (connState w c) = true ->
                  In (ConnectionSend c notice true) (events w'))
       /\ (forall c, webRtc (peerState w peer) = Some c ->
                     connState w' c = CState.DISCONNECTED)
       /\ (webRtc (peerState w peer) = None ->
           forall c, webSocket (peerState w peer) = Some c ->
                     connState w' c = CState.DISCONNECTED))
   /\ (forall q m via, In (PeerSend q m via) (events w') -> In (PeerSend q m via) (events w))
   /\ (forall c m a, In (ConnectionSend c m a) (events w') ->
                     In (ConnectionSend c m a) (events w)
                     \/ (m = notice /\ a = true /\ held c)))
  /\ closing w w'
  /\ (broadcastPeerListHandle w' = broadcastPeerListHandle w
      /\ disposePeersHandle w' = disposePeersHandle w)
  /\ (forall q, q <> peer -> profile (peerHeap w' q) = profile (peerHeap w q))
  /\ (forall q, In q (peers w') -> In q (peers w)).
Proof.
  cbv zeta. unfold disconnect. cbv zeta.
  set (w1 := updPeer peer (with_localRequestedDisconnect (Some until) (Some reason)) w).
  assert (Hst : peerState w1 peer = peerState w peer)
    by (apply updPeer_state; intros; reflexivity).
  assert (Hcs : forall c, connState w1 c = connState w c) by reflexivity.
  assert (Hf1 : localRequestedDisconnectUntil (peerHeap w1 peer) = Some until
                /\ localRequestedDisconnectReason (peerHeap w1 peer) = Some reason)
    by (unfold w1; simpl; rewrite Nat.eqb_refl; split; reflexivity).
  assert (Hother : forall q, q <> peer -> peerHeap w1 q = peerHeap w q).
  { intros q Hq. unfold w1. simpl. apply Nat.eqb_neq in Hq. now rewrite Hq. }
  rewrite Hst.
  destruct (type (peerState w peer)) eqn:Ht.
  1: { split; [|split; [intros c; now left|split; [split; reflexivity|split]]].
       - split; [apply Hf1|]. split; [apply Hf1|].
         split; [intros _; split; reflexivity|].
         split; [intros H; now contradiction H|].
         split; [intros q m via H; exact H | intros c m a H; left; exact H].
       - intros q Hq. now rewrite Hother.
       - intros q Hq. exact Hq. }
  all: set (notice := Disconnecting (publicIdentity (localPeer env))
                        (identity (peerState w peer)) reason until).
  all: match goal with |- context [Peer_close _ _ None ?w3'] => set (w3 := w3') end.
  all: (assert (Hw3 : peerHeap w3 = peerHeap w1
          /\ (forall e, In e (events w3) ->
                In e (events w)
                \/ exists c, e = ConnectionSend c notice true
                             /\ (webRtc (peerState w peer) = Some c
                                 \/ webSocket (peerState w peer) = Some c))
          /\ (forall c, webRtc (peerState w peer) = Some c
                        \/ webSocket (peerState w peer) = Some c ->
                        canSend (connState w c) = true ->
                        In (ConnectionSend c notice true) (events w3))
          /\ connections w3 = connections w
          /\ broadcastPeerListHandle w3 = broadcastPeerListHandle w
          /\ disposePeersHandle w3 = disposePeersHandle w
          /\ peers w3 = peers w);
        [unfold w3;
         destruct (webRtc (peerState w peer)) as [c1|] eqn:Hr;
         [rewrite Hcs; destruct (canSend (connState w c1)) eqn:Hc1|];
         rewrite ?peerState_send, ?connState_send, ?Hst, ?Hcs;
         (destruct (webSocket (peerState w peer)) as [c2|] eqn:Hw;
          [rewrite ?connState_send, ?Hcs; destruct (canSend (connState w c2)) eqn:Hc2|]);
         unfold Connection_send;
         change (connState (emit _ w1)) with (connState w) in *;
         change (connState w1) with (connState w) in *;
         rewrite ?Hc1, ?Hc2; cbn [events emit In peerHeap];
         (split; [reflexivity|]);
         (split; [intros e He; intuition (subst; eauto)|]);
         (split; [intros c [Hc|Hc] Hcan; inversion Hc; subst; auto; congruence
                 | repeat split])|]).
  all: destruct Hw3 as (Hh & Hev & Hsent & Hconn & Hb & Hd & Hpeers).
  all: destruct (Peer_close_quietly (depth env) peer None w3)
         as (A & _ & _ & _ & E & F & G).
  all: assert (C := Peer_close_calm (depth env) peer None w3).
  all: (assert (Hslots : rtcSlot (peerState w3 peer) = webRtc (peerState w peer)
                         /\ wsSlot (peerState w3 peer) = webSocket (peerState w peer));
        [unfold rtcSlot, wsSlot, peerState; rewrite Hh; fold (peerState w1 peer);
         rewrite Hst, Ht; split; reflexivity|]).
  all: destruct Hslots as [Hrtc Hws]; rewrite Hrtc in E, F; rewrite Hws in F.
  all: destruct (profile_localRequest _ _ (G peer)) as [G1 G2]; rewrite Hh in G1, G2.
  all: (split; [|split; [|split; [|split]]]);
       [| intros c; unfold connState; rewrite <- Hconn; apply (calm_closing _ _ C)
        | rewrite <- Hb, <- Hd; apply (calm_handles _ _ C)
        | intros q Hq; rewrite G, Hh; now rewrite Hother
        | intros q Hq; rewrite <- Hpeers; now apply (calm_peers _ _ C)].
  all: split; [rewrite G1; apply Hf1|].
  all: split; [rewrite G2; apply Hf1|].
  all: split; [intros H; discriminate H|].
  all: split; [intros _; split; [|split; [exact E | exact F]]|].
  all: try (intros c Hheld Hcan; apply (observed_kept w3); [exact A | now apply Hsent | reflexivity]).
  all: split.
  all: try (intros q m via H; apply (observed_In w3) in H; [|exact A|reflexivity];
            destruct (Hev _ H) as [H0|(c & H0 & _)]; [exact H0 | discriminate H0]).
  all: intros c m a H; apply (observed_In w3) in H; [|exact A|reflexivity];
       destruct (Hev _ H) as [H0|(c0 & H0 & H1)]; [left; exact H0|];
       inversion H0; subst; right; split; [reflexivity|split; [reflexivity|exact H1]].
Qed.

(** X4: [disconnect] records the request, tells the peer on every
    connection that can still carry a frame, and closes the peer.  The
    time and the reason are on the peer afterwards; a DISCONNECTED peer is
    sent nothing; for any other, each of its two connections that waits
    for the identity or is connected is sent the Disconnecting notice, its
    WebRTC connection is closed, and its WebSocket connection when that is
    the only one; no other frame is sent on any connection and none is
    handed to a peer. *)
Theorem disconnect_tells_and_closes env peer reason until w :
  let w' := disconnect env peer reason until w in
  let notice :=
    Disconnecting (publicIdentity (localPeer env)) (identity (peerState w peer))
      reason until in
  let held c := webRtc (peerState w peer) = Some c \/ webSocket (peerState w peer) = Some c in
  localRequestedDisconnectUntil (peerHeap w' peer) = Some until
  /\ localRequestedDisconnectReason (peerHeap w' peer) = Some reason
  /\ (type (peerState w peer) = PState.DISCONNECTED ->
      events w' = events w /\ connections w' = connections w)
  /\ (type (peerState w peer) <> PState.DISCONNECTED ->
      (forall c, held c -> canSend (connState w c) = true ->
                 In (ConnectionSend c notice true) (events w'))
      /\ (forall c, webRtc (peerState w peer) = Some c ->
                    connState w' c = CState.DISCONNECTED)
      /\ (webRtc (peerState w peer) = None ->
          forall c, webSocket (peerState w peer) = Some c ->
                    connState w' c = CState.DISCONNECTED))
  /\ (forall q m via, In (PeerSend q m via) (events w') -> In (PeerSend q m via) (events w))
  /\ (forall c m a, In (ConnectionSend c m a) (events w') ->
                    In (ConnectionSend c m a) (events w)
                    \/ (m = notice /\ a = true /\ held c)).
Proof.
  cbv zeta.
  destruct (disconnect_effects env peer reason until w) as [H _]. cbv zeta in H.
  destruct H as (Huntil & Hreason & Hidle & Hlive & Hpeer & Hconn).
  split; [exact Huntil|]. split; [exact Hreason|]. split; [exact Hidle|].
  split; [exact Hlive|]. split; [exact Hpeer | exact Hconn].
Qed.

(** ** Shutting down *)

Lemma stop_fold env l w :
  let w' := fold_left (fun w peer => disconnect env peer ShuttingDown 0 w) l w in
  (forall p, In p l ->
             localRequestedDisconnectUntil (peerHeap w' p) = Some 0
             /\ localRequestedDisconnectReason (peerHeap w' p) = Some ShuttingDown)
  /\ (forall p, localRequestedDisconnectUntil (peerHeap w p) = Some 0
                /\ localRequestedDisconnectReason (peerHeap w p) = Some ShuttingDown ->
                localRequestedDisconnectUntil (peerHeap w' p) = Some 0
                /\ localRequestedDisconnectReason (peerHeap w' p) = Some ShuttingDown)
  /\ closing w w'
  /\ (broadcastPeerListHandle w' = broadcastPeerListHandle w
      /\ disposePeersHandle w' = disposePeersHandle w)
  /\ (forall q, In q (peers w') -> In q (peers w))
  /\ (forall q m via, In (PeerSend q m via) (events w') -> In (PeerSend q m via) (events w))
  /\ (forall c m a, In (ConnectionSend c m a) (events w') ->
                    In (ConnectionSend c m a) (events w)
                    \/ exists dest,
                         m = Disconnecting (publicIdentity (localPeer env)) dest ShuttingDown 0
                         /\ a = true).
Proof.
  revert w. induction l as [|x l IH]; intros w; cbn [fold_left].
  - cbv zeta. split; [intros p []|]. split; [auto|]. split; [intros c; now left|].
    split; [split; reflexivity|]. split; [auto|]. split; [auto|]. intros c m a H. now left.
  - set (w1 := disconnect env x ShuttingDown 0 w).
    destruct (disconnect_effects env x ShuttingDown 0 w) as (D & Dc & Dh & Dp & Dl).
    cbv zeta in D. fold w1 in D, Dc, Dh, Dp, Dl.
    destruct D as (Du & Dr & _ & _ & Dps & Dcs).
    assert (Hkeep : forall p,
               localRequestedDisconnectUntil (peerHeap w p) = Some 0
               /\ localRequestedDisconnectReason (peerHeap w p) = Some ShuttingDown ->
               localRequestedDisconnectUntil (peerHeap w1 p) = Some 0
               /\ localRequestedDisconnectReason (peerHeap w1 p) = Some ShuttingDown).
    { intros p Hp. destruct (Nat.eq_dec p x) as [->|Hne]; [split; assumption|].
      destruct (profile_localRequest _ _ (Dp p Hne)) as [-> ->]. exact Hp. }
    destruct (IH w1) as (A & B & C & H & L & P & S). cbv zeta.
    split; [|split; [|split; [|split; [|split; [|split]]]]].
    + intros p [<-|Hin]; [apply B; split; assumption | now apply A].
    + intros p Hp. apply B. now apply Hkeep.
    + now apply closing_trans with (w2 := w1).
    + destruct H as [-> ->]. exact Dh.
    + intros q Hq. apply Dl. now apply L.
    + intros q m via Hq. apply Dps. now apply P.
    + intros c m a Hq. destruct (S c m a Hq) as [Hq1|Hq1]; [|now right].
      destruct (Dcs c m a Hq1) as [Hq2|(-> & -> & _)]; [now left|].
      right. eexists. split; reflexivity.
Qed.

(** X8: [stop] clears both timers, so that nothing is broadcast or swept
    afterwards, and disconnects from every peer of the list: each carries
    the request ShuttingDown with time 0 afterwards; connections only
    close; the only frames sent are Disconnecting notices from the local
    identity with that reason and time, and no frame is handed to a
    peer. *)
Theorem stop_shuts_down env w :
  let w' := stop env w in
  (forall elapsed, timers env elapsed w' = w')
  /\ (forall p, In p (peers w) ->
                localRequestedDisconnectUntil (peerHeap w' p) = Some 0
                /\ localRequestedDisconnectReason (peerHeap w' p) = Some ShuttingDown)
  /\ closing w w'
  /\ (forall q, In q (peers w') -> In q (peers w))
  /\ (forall q m via, In (PeerSend q m via) (events w') -> In (PeerSend q m via) (events w))
  /\ (forall c m a, In (ConnectionSend c m a) (events w') ->
                    In (ConnectionSend c m a) (events w)
                    \/ exists dest,
                         m = Disconnecting (publicIdentity (localPeer env)) dest ShuttingDown 0
                         /\ a = true).
Proof.
  cbv zeta. unfold stop. cbv zeta.
  destruct (stop_fold env (peers (w_handles None None w)) (w_handles None None w))
    as (A & _ & C & H & L & P & S).
  cbv zeta in A, C, H, L, P, S.
  set (w' := fold_left _ _ _) in *.
  split; [|split; [exact A|split; [exact C|split; [exact L|split; [exact P | exact S]]]]].
  intros elapsed. unfold timers. destruct H as [Hb Hd].
  cbn [broadcastPeerListHandle disposePeersHandle w_handles] in Hb, Hd.
  rewrite Hb. cbn [due]. rewrite Hd. reflexivity.
Qed.

(** ** A peer that asks us to stay away *)

Lemma profile_peerRequest r r' :
  profile r = profile r' ->
  peerRequestedDisconnectUntil r = peerRequestedDisconnectUntil r'
  /\ peerRequestedDisconnectReason r = peerRequestedDisconnectReason r'.
Proof.
  intros H. apply (f_equal (fun t => snd (fst t))) in H. cbn [profile fst snd] in H.
  now inversion H.
Qed.

Lemma stayAway_effects env peer reason until w :
  let w' :=
    Peer_close (peerStateChanged (depth env)) peer None
      (updPeer peer (with_peerRequestedDisconnect (Some until) (Some reason)) w) in
  peerRequestedDisconnectUntil (peerHeap w' peer) = Some until
  /\ peerRequestedDisconnectReason (peerHeap w' peer) = Some reason
  /\ nothingSent w w'
  /\ (forall c, rtcSlot (peerState w peer) = Some c -> connState w' c = CState.DISCONNECTED)
  /\ (rtcSlot (peerState w peer) = None ->
      forall c, wsSlot (peerState w peer) = Some c -> connState w' c = CState.DISCONNECTED).
Proof.
  cbv zeta.
  set (w1 := updPeer peer (with_peerRequestedDisconnect (Some until) (Some reason)) w).
  assert (Hst : peerState w1 peer = peerState w peer)
    by (apply updPeer_state; intros; reflexivity).
  destruct (Peer_close_quietly (depth env) peer None w1) as (A & _ & _ & _ & E & F & G).
  rewrite Hst in E, F.
  destruct (profile_peerRequest _ _ (G peer)) as [G1 G2].
  assert (Hf : peerRequestedDisconnectUntil (peerHeap w1 peer) = Some until
               /\ peerRequestedDisconnectReason (peerHeap w1 peer) = Some reason)
    by (unfold w1; simpl; rewrite Nat.eqb_refl; split; reflexivity).
  split; [rewrite G1; apply Hf|]. split; [rewrite G2; apply Hf|].
  split; [exact A|]. split; [exact E | exact F].
Qed.

(** X9: a Disconnecting frame addressed to us, or to no one, is obeyed.
    Whatever the state of the connection it arrives on, the time and the
    reason are recorded on the sender, its WebRTC connection is closed (its
    WebSocket connection when it has no other) and nothing is sent; and as
    long as the clock is before that time, neither [connectToWebSocket]
    nor [connectToWebRTC] dials the peer again: both return false and
    leave everything as it is. *)
Theorem disconnecting_keeps_us_away env later sample peer connection source destination
    reason until w :
  destination = None \/ destination = Some (publicIdentity (localPeer env)) ->
  now later < until ->
  let w' := handleMessage env peer connection
              (Disconnecting source destination reason until) w in
  peerRequestedDisconnectUntil (peerHeap w' peer) = Some until
  /\ peerRequestedDisconnectReason (peerHeap w' peer) = Some reason
  /\ nothingSent w w'
  /\ (forall c, rtcSlot (peerState w peer) = Some c -> connState w' c = CState.DISCONNECTED)
  /\ (rtcSlot (peerState w peer) = None ->
      forall c, wsSlot (peerState w peer) = Some c -> connState w' c = CState.DISCONNECTED)
  /\ connectToWebSocket later peer w' = (false, w')
  /\ connectToWebRTC later sample peer w' = (false, w').
Proof.
  intros Hd Hlater. cbv zeta.
  assert (Heq : handleMessage env peer connection
                  (Disconnecting source destination reason until) w
                = Peer_close (peerStateChanged (depth env)) peer None
                    (updPeer peer (with_peerRequestedDisconnect (Some until) (Some reason)) w)).
  { unfold handleMessage, handleDisconnectingMessage.
    destruct Hd as [->| ->]; [reflexivity|]. now rewrite String.eqb_refl. }
  rewrite Heq.
  destruct (stayAway_effects env peer reason until w) as (A & B & C & D & E).
  cbv zeta in A, B, C, D, E.
  set (w' := Peer_close _ peer None _) in *.
  split; [exact A|]. split; [exact B|]. split; [exact C|]. split; [exact D|].
  split; [exact E|].
  assert (Hno : (until <=? now later) = false) by (apply Z.leb_gt; exact Hlater).
  split.
  - unfold connectToWebSocket, canConnectToWebSocket. cbv zeta.
    rewrite A, Hno, andb_false_r. reflexivity.
  - unfold connectToWebRTC, canConnectToWebRTC. cbv zeta.
    rewrite A, Hno, andb_false_r. reflexivity.
Qed.

Lemma disconnecting_keeps_us_away_witness :
  let env := sampleEnv 10000 in
  let w' := handleMessage env O O (Disconnecting "BBBB"%string (Some "ZZZZ"%string) Congested 5000)
              (onePeer env) in
  peerRequestedDisconnectUntil (peerHeap w' O) = Some 5000
  /\ connState w' O = CState.DISCONNECTED
  /\ connectToWebSocket env O w' = (false, w').
Proof.
  cbv zeta.
  destruct (disconnecting_keeps_us_away (sampleEnv 10000) (sampleEnv 10000) (hd O) O O
              "BBBB"%string (Some "ZZZZ"%string) Congested 5000 (onePeer (sampleEnv 10000)))
    as (A & _ & _ & _ & E & F & _).
  - right. reflexivity.
  - reflexivity.
  - split; [exact A|]. split; [|exact F].
    apply E; vm_compute; reflexivity.
Defined.

(** * The periodic sweep and the broadcast *)

Lemma canDispose_other peer w q :
  q <> peer -> canDispose (snd (tryDisposePeer peer w)) q = canDispose w q.
Proof.
  intros Hne. unfold canDispose, hasAConnectedPeer.
  rewrite tryDisposePeer_types, (tryDisposePeer_other peer w q Hne).
  f_equal. f_equal. f_equal.
  induction (JsMap.values (knownPeers (peerHeap w q))) as [|x l IH]; simpl; [reflexivity|].
  now rewrite tryDisposePeer_types, IH.
Qed.

Lemma tryDisposePeer_removes peer w :
  canDispose w peer = true ->
  peers (snd (tryDisposePeer peer w)) = filter (fun p => negb (Nat.eqb p peer)) (peers w).
Proof.
  intros H. unfold tryDisposePeer. rewrite H. cbn [snd peers w_peers].
  now destruct (forgetIdentity_heaps peer (Peer_dispose peer w)) as (_ & _ & -> & _).
Qed.

Lemma filter_filter {A} (f g : A -> bool) l :
  filter f (filter g l) = filter (fun x => g x && f x) l.
Proof.
  induction l as [|x l IH]; simpl; [reflexivity|].
  destruct (g x); simpl; [destruct (f x)|]; now rewrite IH.
Qed.

(** The peers that a sweep over [l] leaves in the list: those that were
    not disposable at the start, or that the sweep does not visit. *)
Lemma sweep_peers l w :
  peers (fold_left (fun w p => snd (tryDisposePeer p w)) l w)
  = filter (fun q => negb (canDispose w q && existsb (Nat.eqb q) l)) (peers w).
Proof.
  revert w. induction l as [|p l IH]; intros w; simpl.
  - induction (peers w) as [|q t IHt]; simpl; [reflexivity|].
    rewrite andb_false_r. simpl. now rewrite <- IHt.
  - rewrite IH. destruct (canDispose w p) eqn:E.
    + rewrite (tryDisposePeer_removes p w E), filter_filter.
      apply filter_ext. intros q. destruct (Nat.eqb_spec q p) as [->|Hne].
      * rewrite E. reflexivity.
      * rewrite (canDispose_other p w q Hne). reflexivity.
    + rewrite (tryDisposePeer_false p w E). cbn [snd].
      apply filter_ext. intros q. destruct (Nat.eqb_spec q p) as [->|Hne].
      * rewrite E. reflexivity.
      * reflexivity.
Qed.

Lemma sweep_never l w q :
  canDispose w q = false ->
  canDispose (fold_left (fun w p => snd (tryDisposePeer p w)) l w) q = false.
Proof.
  revert w. induction l as [|p l IH]; intros w H; simpl; [exact H|].
  apply IH. destruct (canDispose (snd (tryDisposePeer p w)) q) eqn:E; [|reflexivity].
  apply canDispose_after in E. congruence.
Qed.

Lemma sweep_nothing l w :
  (forall q, In q l -> canDispose w q = false) ->
  fold_left (fun w p => snd (tryDisposePeer p w)) l w = w.
Proof.
  induction l as [|p l IH]; intros H; simpl; [reflexivity|].
  rewrite (tryDisposePeer_false p w) by (apply H; now left).
  apply IH. intros q Hq. apply H. now right.
Qed.

(** X6: one sweep of [disposePeers] is complete and a second one finds
    nothing to do.  The peers left in the list are exactly those that could
    not be disposed of when the sweep started, in their order; none of them
    can be disposed of afterwards; and sweeping again changes nothing. *)
Theorem disposePeers_complete w :
  peers (disposePeers w) = filter (fun q => negb (canDispose w q)) (peers w)
  /\ (forall q, In q (peers (disposePeers w)) -> canDispose (disposePeers w) q = false)
  /\ disposePeers (disposePeers w) = disposePeers w.
Proof.
  assert (Hp : peers (disposePeers w) = filter (fun q => negb (canDispose w q)) (peers w)).
  { unfold disposePeers. rewrite sweep_peers. apply filter_ext_in. intros q Hq.
    assert (E : existsb (Nat.eqb q) (peers w) = true)
      by (apply existsb_exists; exists q; split; [exact Hq | apply Nat.eqb_refl]).
    now rewrite E, andb_true_r. }
  assert (Hn : forall q, In q (peers (disposePeers w)) -> canDispose (disposePeers w) q = false).
  { intros q Hq. rewrite Hp in Hq. apply filter_In in Hq. destruct Hq as [_ Hq].
    apply negb_true_iff in Hq. unfold disposePeers. now apply sweep_never. }
  split; [exact Hp|]. split; [exact Hn|].
  unfold disposePeers at 1. now apply sweep_nothing.
Qed.

Lemma broadcast_fold m l w :
  let w' :=
    fold_left (fun w peer =>
                 match type (peerState w peer) with
                 | PState.CONNECTED => Peer_send peer m w
                 | _ => w
                 end) l w in
  let connected :=
    filter (fun p => PState.eqb (type (peerState w p)) PState.CONNECTED) l in
  sentFrames w' = rev (map (fun p => (p, m)) connected) ++ sentFrames w
  /\ (forall e, In e (events w') ->
                In e (events w) \/ exists p via, e = PeerSend p m via /\ In p connected)
  /\ peerHeap w' = peerHeap w /\ connections w' = connections w
  /\ peers w' = peers w /\ identifiedPeers w' = identifiedPeers w.
Proof.
  revert w. induction l as [|q l IH]; intros w; cbn [fold_left filter].
  - cbn. repeat split; auto.
  - match goal with |- context [fold_left _ l ?x] => set (w1 := x) end.
    assert (Hh : peerHeap w1 = peerHeap w)
      by (subst w1; destruct (type (peerState w q)); reflexivity).
    assert (Hf : filter (fun p => PState.eqb (type (peerState w1 p)) PState.CONNECTED) l
                 = filter (fun p => PState.eqb (type (peerState w p)) PState.CONNECTED) l)
      by (unfold peerState; now rewrite Hh).
    destruct (IH w1) as (A & B & C & D & E & F). cbv zeta in A, B. rewrite Hf in A, B.
    cbv zeta. rewrite A, C, D, E, F. clear A C D E F IH.
    destruct (type (peerState w q)) eqn:Ht; cbn [PState.eqb]; subst w1.
    1, 2: split; [reflexivity|]; split; [exact B | repeat split].
    split; [|split; [|repeat split]].
    + cbn [map rev]. rewrite <- app_assoc. reflexivity.
    + intros e He. destruct (B e He) as [H|(p & via & H1 & H2)].
      * cbn in H. destruct H as [<-|H]; [|now left].
        right. eexists. eexists. split; [reflexivity | now left].
      * right. exists p, via. split; [exact H1 | now right].
Qed.

(** X7: [broadcast] hands the frame once to each CONNECTED peer of
    [identifiedPeers], in the order of the map, and to no one else; it
    changes neither a peer nor a connection nor the two tables of the
    manager. *)
Theorem broadcast_exactly_connected m w :
  let w' := broadcast m w in
  sentFrames w' = rev (map (fun p => (p, m)) (getConnectedPeers w)) ++ sentFrames w
  /\ (forall e, In e (events w') ->
                In e (events w)
                \/ exists p via, e = PeerSend p m via /\ In p (getConnectedPeers w))
  /\ peerHeap w' = peerHeap w /\ connections w' = connections w
  /\ peers w' = peers w /\ identifiedPeers w' = identifiedPeers w.
Proof.
  cbv zeta. unfold broadcast, getConnectedPeers.
  destruct (broadcast_fold m (JsMap.values (identifiedPeers w)) w) as (A & B & C & D & E & F).
  cbv zeta in A, B.
  split; [exact A|]. split; [exact B|]. split; [exact C|]. split; [exact D|].
  split; [exact E | exact F].
Qed.

(** * Dialling and accepting *)

Lemma peerStateChanged_idle depth peer prev w :
  type (peerState w peer) <> PState.CONNECTED -> prev <> PState.CONNECTED ->
  peerStateChanged depth peer prev w = w.
Proof.
  intros Ht Hp. destruct depth as [|d]; [reflexivity|]. cbn [peerStateChanged].
  destruct (type (peerState w peer)) eqn:E; try congruence;
    destruct (identifyHandler (peerHeap w peer)); cbv iota; rewrite ?E;
    destruct prev; try congruence; reflexivity.
Qed.

(** A connection that is not connected, put in the WebSocket slot of a
    DISCONNECTED peer: the peer becomes CONNECTING and no handler acts. *)
Lemma Peer_setWebSocketConnection_idle depth p c w :
  type (peerState w p) = PState.DISCONNECTED ->
  CState.isConnected (connState w c) = false ->
  Peer_setWebSocketConnection (peerStateChanged depth) p c w
  = updPeer p (with_state (mkPeerState PState.CONNECTING (identity (peerState w p))
                            (Some c) None))
      (updConn c (c_with_boundTo (Some p)) w).
Proof.
  intros Ht Hc. unfold Peer_setWebSocketConnection, wsSlot, rtcSlot. rewrite Ht.
  cbv zeta.
  set (w1 := updConn c (c_with_boundTo (Some p)) w).
  change (peerState w1 p) with (peerState w p). rewrite Ht.
  assert (Hc1 : connState w1 c = connState w c).
  { unfold w1, connState, updConn. cbn. now rewrite Nat.eqb_refl. }
  unfold Peer_setState, computeType, computeIdentity, connectedIdentity, slotConnected.
  rewrite Hc1, Hc. cbn [orb].
  change (peerState w1 p) with (peerState w p).
  assert (Hi : match connState w c with CState.CONNECTED i => Some i | _ => None end = None)
    by (destruct (connState w c); try reflexivity; discriminate Hc).
  rewrite Hi.
  match goal with |- (if ?b then _ else ?x) = _ => destruct b; [|reflexivity] end.
  apply peerStateChanged_idle.
  - unfold peerState. cbn. rewrite Nat.eqb_refl. cbn. discriminate.
  - rewrite Ht. discriminate.
Qed.

(** What [initWebSocketConnection] makes for a DISCONNECTED peer. *)
Lemma initWebSocketConnection_idle env peer direction host n w :
  type (peerState w peer) = PState.DISCONNECTED ->
  let c := nextConnection w in
  let w' := snd (initWebSocketConnection env peer direction host n w) in
  fst (initWebSocketConnection env peer direction host n w) = c
  /\ nextConnection w' = S c /\ nextPeer w' = nextPeer w
  /\ connections w' c
     = mkConnection WebSocket direction
         (match direction with
          | Outbound => CState.CONNECTING
          | Inbound => CState.WAITING_FOR_IDENTITY
          end)
         None (orNull host) (orNullZ n) false (Some peer)
         (match direction with Outbound => true | Inbound => false end) None None
  /\ (forall d, d <> c -> connections w' d = connections w d)
  /\ peerHeap w' peer
     = with_state (mkPeerState PState.CONNECTING (identity (peerState w peer)) (Some c) None)
         (peerHeap w peer)
  /\ (forall q, q <> peer -> peerHeap w' q = peerHeap w q)
  /\ events w'
     = match direction with
       | Inbound => ConnectionSend c (getIdentifyMessage (localPeer env)) true :: events w
       | Outbound => events w
       end
  /\ peers w' = peers w /\ identifiedPeers w' = identifiedPeers w.
Proof.
  intros Ht. cbv zeta. unfold initWebSocketConnection, allocConnection.
  cbn [fst snd]. unfold initConnectionHandlers, connState.
  cbn [connections w_connections]. rewrite Nat.eqb_refl.
  destruct direction; cbn [c_state].
  all: match goal with |- context [Peer_setWebSocketConnection _ _ _ ?x] => set (w1 := x) end.
  all: rewrite (Peer_setWebSocketConnection_idle (depth env) peer (nextConnection w) w1 Ht)
         by (unfold w1, connState; cbn; rewrite ?Nat.eqb_refl; reflexivity).
  all: unfold w1; cbn; rewrite ?Nat.eqb_refl; cbn.
  all: repeat (split; [reflexivity|]).
  all: split; [intros d Hd; apply Nat.eqb_neq in Hd; now rewrite Hd|].
  all: split; [reflexivity|].
  all: split; [intros q Hq; apply Nat.eqb_neq in Hq; now rewrite Hq|].
  all: repeat split.
  unfold connState. cbn. now rewrite Nat.eqb_refl.
Qed.

(** X10: an inbound socket gets a peer of its own and is greeted at once.
    [createPeerFromInboundWebSocketConnection] makes one peer, without
    identity, put at the end of the list and not in [identifiedPeers], and
    one inbound WebSocket connection bound to it, which waits for the
    identity and carries the host and port parsed from the address; the
    peer is CONNECTING with that connection in its WebSocket slot; our
    Identify frame is the one frame sent, on that connection; every other
    peer and connection is as it was. *)
Theorem inbound_socket_greeted env addr w :
  let p := nextPeer w in
  let c := nextConnection w in
  let w' := snd (createPeerFromInboundWebSocketConnection env addr w) in
  let url := parseUrl env (match addr with Some a => a | None => EmptyString end) in
  let parsed := truthy addr && truthy (hostname url) in
  fst (createPeerFromInboundWebSocketConnection env addr w) = p
  /\ peers w' = peers w ++ [p]
  /\ identifiedPeers w' = identifiedPeers w
  /\ nextPeer w' = S p /\ nextConnection w' = S c
  /\ state (peerHeap w' p) = mkPeerState PState.CONNECTING None (Some c) None
  /\ connections w' c
     = mkConnection WebSocket Inbound CState.WAITING_FOR_IDENTITY None
         (if parsed then hostname url else None)
         (if parsed then orNullZ (url_port url) else None)
         false (Some p) false None None
  /\ events w' = ConnectionSend c (getIdentifyMessage (localPeer env)) true :: events w
  /\ (forall q, q <> p -> peerHeap w' q = peerHeap w q)
  /\ (forall d, d <> c -> connections w' d = connections w d).
Proof.
  cbv zeta. unfold createPeerFromInboundWebSocketConnection.
  destruct (getOrCreatePeer env None w) as [p w0] eqn:E.
  unfold getOrCreatePeer in E. cbv zeta in E. injection E as <- <-.
  match goal with |- context [initWebSocketConnection env _ Inbound _ _ ?x] => set (w0 := x) end.
  set (url := parseUrl env (match addr with Some a => a | None => EmptyString end)).
  set (hn := if truthy addr then if truthy (hostname url) then (hostname url, url_port url)
                                 else (None, None) else (None, None)).
  assert (Hhn : hn = (if truthy addr && truthy (hostname url) then hostname url else None,
                      if truthy addr && truthy (hostname url) then url_port url else None))
    by (unfold hn; destruct (truthy addr), (truthy (hostname url)); reflexivity).
  destruct hn as [host n]. injection Hhn as -> ->.
  assert (Ht : type (peerState w0 (nextPeer w)) = PState.DISCONNECTED)
    by (unfold w0, peerState; cbn; rewrite Nat.eqb_refl; reflexivity).
  cbn [fst snd].
  match goal with |- context [initWebSocketConnection env _ Inbound ?h ?k w0] =>
    destruct (initWebSocketConnection_idle env (nextPeer w) Inbound h k w0 Ht)
      as (_ & A & B & C & D & F & G & H & I & J) end.
  cbv zeta in A, B, C, D, F, G, H, I, J.
  change (nextConnection w0) with (nextConnection w) in *.
  rewrite A, B, C, F, H, I, J. clear A B C F H I J.
  split; [reflexivity|]. split; [reflexivity|]. split; [reflexivity|].
  split; [reflexivity|]. split; [reflexivity|].
  split; [unfold w0, peerState; cbn; rewrite Nat.eqb_refl; reflexivity|].
  split.
  - destruct (truthy addr && truthy (hostname url)) eqn:P; [|reflexivity].
    apply andb_true_iff in P. destruct P as [_ P]. unfold orNull. now rewrite P.
  - split; [reflexivity|]. split.
    + intros q Hq. rewrite (G q Hq). unfold w0. cbn. apply Nat.eqb_neq in Hq. now rewrite Hq.
    + exact D.
Qed.

(** X11: what a successful [connectToWebSocket] has done.  The peer
    passed [canConnectToWebSocket]; one connection was made, an outbound
    WebSocket to the address and port of the peer, with our Identify frame
    pending until the socket opens; it is CONNECTING unless a handler has
    closed it; nothing was sent; both disconnect requests on the peer are
    cleared.  For a peer that was DISCONNECTED the connection is
    CONNECTING, in the WebSocket slot of the peer, which is CONNECTING, and
    no event was fired. *)
Theorem connectToWebSocket_dials env peer w :
  fst (connectToWebSocket env peer w) = true ->
  let c := nextConnection w in
  let w' := snd (connectToWebSocket env peer w) in
  canConnectToWebSocket env peer w = true
  /\ nextConnection w' = S c
  /\ wiring (connections w' c)
     = (WebSocket, Outbound, false, orNull (address (peerHeap w peer)),
        orNullZ (port (peerHeap w peer)), true, (None, None))
  /\ (connState w' c = CState.CONNECTING \/ connState w' c = CState.DISCONNECTED)
  /\ nothingSent w w'
  /\ localRequestedDisconnectUntil (peerHeap w' peer) = None
  /\ peerRequestedDisconnectUntil (peerHeap w' peer) = None
  /\ (type (peerState w peer) = PState.DISCONNECTED ->
      state (peerHeap w' peer)
      = mkPeerState PState.CONNECTING (identity (peerState w peer)) (Some c) None
      /\ connState w' c = CState.CONNECTING
      /\ events w' = events w).
Proof.
  intros Hok. cbv zeta. unfold connectToWebSocket in *.
  destruct (canConnectToWebSocket env peer w) eqn:Hcan; [|discriminate Hok].
  cbn [negb] in *. cbv zeta in *.
  set (w1 := updPeer peer (fun r => with_peerRequestedDisconnect None None
                                      (with_localRequestedDisconnect None None r)) w) in *.
  destruct (negb (truthy (Peer_getWebSocketAddress (peerHeap w1 peer)))); [discriminate Hok|].
  cbn [snd]. clear Hok.
  assert (Hr : peerHeap w1 peer
               = with_peerRequestedDisconnect None None
                   (with_localRequestedDisconnect None None (peerHeap w peer)))
    by (unfold w1; cbn; now rewrite Nat.eqb_refl).
  rewrite Hr. cbn [address port with_peerRequestedDisconnect with_localRequestedDisconnect].
  set (host := address (peerHeap w peer)). set (n := port (peerHeap w peer)).
  split; [reflexivity|].
  assert (Hgen :
    let w' := snd (initWebSocketConnection env peer Outbound host n w1) in
    nextConnection w' = S (nextConnection w)
    /\ wiring (connections w' (nextConnection w))
       = (WebSocket, Outbound, false, orNull host, orNullZ n, true, (None, None))
    /\ (connState w' (nextConnection w) = CState.CONNECTING
        \/ connState w' (nextConnection w) = CState.DISCONNECTED)
    /\ nothingSent w w'
    /\ profile (peerHeap w' peer) = profile (peerHeap w1 peer)).
  { cbv zeta. unfold initWebSocketConnection, allocConnection. cbn [fst snd].
    unfold initConnectionHandlers, connState.
    cbn [connections w_connections]. rewrite Nat.eqb_refl. cbn [c_state].
    change (nextConnection w1) with (nextConnection w).
    match goal with |- context [Peer_setWebSocketConnection _ _ _ ?x] => set (w3 := x) end.
    assert (C := Peer_setWebSocketConnection_calm (depth env) peer (nextConnection w) w3).
    assert (F := Peer_setWebSocketConnection_frame (peerStateChanged (depth env))
                   (fun p prev w0 => peerStateChanged_frame _ p prev w0)
                   peer (nextConnection w) w3).
    assert (K : connections w3 (nextConnection w)
                = mkConnection WebSocket Outbound CState.CONNECTING None (orNull host)
                    (orNullZ n) false None true None None)
      by (unfold w3; cbn; now rewrite Nat.eqb_refl).
    split; [rewrite (proj1 (calm_next _ _ C)); reflexivity|].
    split; [rewrite (calm_wiring _ _ C), K; reflexivity|].
    split.
    - destruct (calm_closing _ _ C (nextConnection w)) as [H|H]; [left|right; exact H].
      unfold connState in H. rewrite H, K. reflexivity.
    - split; [apply (frame_observed _ _ F) | apply (calm_profile _ _ C)]. }
  cbv zeta in Hgen. destruct Hgen as (A & B & C & D & E).
  split; [exact A|]. split; [exact B|]. split; [exact C|]. split; [exact D|].
  destruct (profile_localRequest _ _ E) as [E1 _].
  destruct (profile_peerRequest _ _ E) as [E2 _]. rewrite Hr in E1, E2.
  split; [exact E1|]. split; [exact E2|].
  intros Ht.
  assert (Ht1 : type (peerState w1 peer) = PState.DISCONNECTED)
    by (unfold peerState; rewrite Hr; exact Ht).
  destruct (initWebSocketConnection_idle env peer Outbound host n w1 Ht1)
    as (_ & _ & _ & K & _ & P & _ & V & _).
  cbv zeta in K, P, V. change (nextConnection w1) with (nextConnection w) in *.
  split; [rewrite P; unfold peerState; rewrite Hr; reflexivity|].
  split; [unfold connState; rewrite K; reflexivity | exact V].
Qed.

Lemma connectToWebSocket_dials_witness :
  let env := sampleEnv 10000 in
  let w := Peer_setWebSocketAddress O (Some "host"%string) (Some 9033)
             (snd (getOrCreatePeer env None emptyWorld)) in
  let w' := snd (connectToWebSocket env O w) in
  wiring (connections w' O)
  = (WebSocket, Outbound, false, Some "host"%string, Some 9033, true, (None, None))
  /\ state (peerHeap w' O) = mkPeerState PState.CONNECTING None (Some O) None
  /\ events w' = [].
Proof.
  cbv zeta.
  destruct (connectToWebSocket_dials (sampleEnv 10000) O
              (Peer_setWebSocketAddress O (Some "host"%string) (Some 9033)
                 (snd (getOrCreatePeer (sampleEnv 10000) None emptyWorld))))
    as (_ & _ & A & _ & _ & _ & _ & B).
  - vm_compute. reflexivity.
  - destruct B as (B1 & _ & B3); [vm_compute; reflexivity|].
    split; [exact A|]. split; [exact B1 | exact B3].
Defined.

(** ** The broker of a WebRTC connection *)

Lemma getBrokeringPeer_cases sample peer w :
  (forall l, l <> [] -> In (sample l) l) ->
  match getBrokeringPeer sample peer w with
  | Some b =>
      type (peerState w b) = PState.CONNECTED
      /\ (b = peer
          \/ exists i, identity (peerState w peer) = Some i
                       /\ In b (JsMap.values (knownPeers (peerHeap w peer)))
                       /\ JsMap.has i (knownPeers (peerHeap w b)) = true)
  | None =>
      type (peerState w peer) <> PState.CONNECTED
      /\ forall i b, identity (peerState w peer) = Some i ->
                     In b (JsMap.values (knownPeers (peerHeap w peer))) ->
                     type (peerState w b) = PState.CONNECTED ->
                     JsMap.has i (knownPeers (peerHeap w b)) = false
  end.
Proof.
  intros Hs. unfold getBrokeringPeer.
  assert (Hcand : forall i b, In b (brokeringCandidates peer i w) <->
                              In b (JsMap.values (knownPeers (peerHeap w peer)))
                              /\ type (peerState w b) = PState.CONNECTED
                              /\ JsMap.has i (knownPeers (peerHeap w b)) = true).
  { intros i b. unfold brokeringCandidates.
    rewrite filter_In, andb_true_iff, PState_eqb_eq. tauto. }
  destruct (type (peerState w peer)) eqn:Ht.
  3: { split; [exact Ht | now left]. }
  all: destruct (identity (peerState w peer)) as [i|] eqn:Hi;
         [|split; [discriminate | intros ? ? H; discriminate H]].
  all: destruct (brokeringCandidates peer i w) as [|x l] eqn:Hc.
  all: try (split; [discriminate|]; intros i0 b H Hin Hb; injection H as <-;
            destruct (JsMap.has i (knownPeers (peerHeap w b))) eqn:Hh; [|reflexivity];
            assert (Hx : In b (brokeringCandidates peer i w)) by (apply Hcand; auto);
            rewrite Hc in Hx; destruct Hx).
  all: assert (Hin : In (sample (x :: l)) (brokeringCandidates peer i w))
         by (rewrite Hc; apply Hs; discriminate).
  all: apply Hcand in Hin; destruct Hin as (H1 & H2 & H3).
  all: split; [exact H2 | right; exists i; auto].
Qed.

(** X12: the broker that [getBrokeringPeer] finds.  When the choice among
    the candidates returns one of them, the broker is CONNECTED and is
    either the peer itself or a neighbour of the peer that knows the
    identity of the peer; and none is found only when the peer is not
    CONNECTED and no CONNECTED neighbour of it knows its identity. *)
Theorem getBrokeringPeer_connected_neighbour sample peer w :
  (forall l, l <> [] -> In (sample l) l) ->
  (forall b, getBrokeringPeer sample peer w = Some b ->
             type (peerState w b) = PState.CONNECTED
             /\ (b = peer
                 \/ exists i, identity (peerState w peer) = Some i
                              /\ In b (JsMap.values (knownPeers (peerHeap w peer)))
                              /\ JsMap.has i (knownPeers (peerHeap w b)) = true))
  /\ (getBrokeringPeer sample peer w = None ->
      type (peerState w peer) <> PState.CONNECTED
      /\ forall i b, identity (peerState w peer) = Some i ->
                     In b (JsMap.values (knownPeers (peerHeap w peer))) ->
                     type (peerState w b) = PState.CONNECTED ->
                     JsMap.has i (knownPeers (peerHeap w b)) = false).
Proof.
  intros Hs. assert (H := getBrokeringPeer_cases sample peer w Hs).
  split.
  - intros b E. rewrite E in H. exact H.
  - intros E. rewrite E in H. exact H.
Qed.

Lemma hd_sample (l : list PeerId) : l <> [] -> In (hd O l) l.
Proof. destruct l as [|x l]; [intros H; now contradiction H | intros _; now left]. Qed.

Lemma getBrokeringPeer_connected_neighbour_witness :
  getBrokeringPeer (hd O) 1%nat (gossiped (sampleEnv 10000)) = Some O
  /\ type (peerState (gossiped (sampleEnv 10000)) O) = PState.CONNECTED
  /\ type (peerState (gossiped (sampleEnv 10000)) 1%nat) = PState.DISCONNECTED.
Proof.
  assert (E : getBrokeringPeer (hd O) 1%nat (gossiped (sampleEnv 10000)) = Some O)
    by (vm_compute; reflexivity).
  split; [exact E|].
  split; [|vm_compute; reflexivity].
  apply (proj1 (getBrokeringPeer_connected_neighbour (hd O) 1%nat
                  (gossiped (sampleEnv 10000)) hd_sample) O E).
Defined.

(** ** Dialling over WebRTC *)

Lemma getBrokeringPeer_ext sample peer w w' :
  (forall q, state (peerHeap w' q) = state (peerHeap w q)
             /\ knownPeers (peerHeap w' q) = knownPeers (peerHeap w q)) ->
  getBrokeringPeer sample peer w' = getBrokeringPeer sample peer w.
Proof.
  intros H. unfold getBrokeringPeer, brokeringCandidates, peerState.
  rewrite (proj1 (H peer)), (proj2 (H peer)).
  destruct (type (state (peerHeap w peer))); try reflexivity.
  all: destruct (identity (state (peerHeap w peer))) as [i|]; [|reflexivity].
  all: rewrite (filter_ext _ (fun candidate =>
                   PState.eqb (type (state (peerHeap w candidate))) PState.CONNECTED
                   && JsMap.has i (knownPeers (peerHeap w candidate))));
       [reflexivity|].
  all: intros q; now rewrite (proj1 (H q)), (proj2 (H q)).
Qed.

(** What [initWebRtcConnection] makes, whatever the handlers do. *)
Lemma initWebRtcConnection_made env broker peer initiator w :
  let c := nextConnection w in
  let w' := snd (initWebRtcConnection env broker peer initiator w) in
  fst (initWebRtcConnection env broker peer initiator w) = c
  /\ nextConnection w' = S c
  /\ wiring (connections w' c)
     = (WebRtc, if initiator then Outbound else Inbound, initiator, None, None, true,
        (Some broker, Some peer))
  /\ (connState w' c = CState.CONNECTING \/ connState w' c = CState.DISCONNECTED)
  /\ nothingSent w w'
  /\ (forall q, profile (peerHeap w' q) = profile (peerHeap w q)).
Proof.
  cbv zeta. unfold initWebRtcConnection, allocConnection. cbn [fst snd].
  unfold initConnectionHandlers, connState.
  cbn [connections w_connections]. rewrite Nat.eqb_refl. cbn [c_state].
  match goal with |- context [Peer_setWebRtcConnection _ _ _ ?x] => set (w3 := x) end.
  assert (C := Peer_setWebRtcConnection_calm (depth env) peer (nextConnection w) w3).
  assert (F := Peer_setWebRtcConnection_frame (peerStateChanged (depth env))
                 (fun p prev w0 => peerStateChanged_frame _ p prev w0)
                 peer (nextConnection w) w3).
  assert (K : connections w3 (nextConnection w)
              = mkConnection WebRtc (if initiator then Outbound else Inbound)
                  CState.CONNECTING None None None initiator None true
                  (Some broker) (Some peer))
    by (unfold w3; cbn; now rewrite Nat.eqb_refl).
  split; [reflexivity|].
  split; [rewrite (proj1 (calm_next _ _ C)); reflexivity|].
  split; [rewrite (calm_wiring _ _ C), K; reflexivity|].
  split.
  - destruct (calm_closing _ _ C (nextConnection w)) as [H|H]; [left|right; exact H].
    unfold connState in H. rewrite H, K. reflexivity.
  - split; [apply (frame_observed _ _ F) | apply (calm_profile _ _ C)].
Qed.

(** Asking for signalling on a connection: the state moves when the
    table allows it, and no handler has anything to do. *)
Lemma Connection_setState_request notify hello c w :
  Connection_setState notify hello c CState.REQUEST_SIGNALING w
  = if CState.validTransition (connState w c) CState.REQUEST_SIGNALING
    then updConn c (c_with_state CState.REQUEST_SIGNALING) w
    else emit (FatalTransition c) w.
Proof.
  unfold Connection_setState. destruct (CState.validTransition _ _); [|reflexivity].
  cbv zeta. unfold identifyWhenWaiting, connState.
  cbn [connections updConn w_connections]. rewrite Nat.eqb_refl.
  cbn [c_state c_with_state c_identifyPending c_boundTo].
  destruct (c_identifyPending (connections w c)); cbn [connections updConn w_connections];
    rewrite ?Nat.eqb_refl; cbn [c_boundTo c_with_state];
    destruct (c_boundTo (connections w c)); reflexivity.
Qed.

(** X13: the roles in a WebRTC dial.  When [connectToWebRTC] returns true,
    the peer passed [canConnectToWebRTC] and has an identity; one WebRTC
    connection was made, on which we are the initiator exactly when
    [canInitiateWebRTC] holds of our identity and the peer's, and whose
    signals go through the broker to the peer; both disconnect requests on
    the peer are cleared; as the initiator we send nothing, otherwise the
    broker is handed one SignalRequest from us to the peer and no other
    frame goes to any peer; no frame is sent on a connection.  When it
    returns false no connection is made and nothing is sent. *)
Theorem connectToWebRTC_roles env sample peer w :
  let r := connectToWebRTC env sample peer w in
  let c := nextConnection w in
  let w' := snd r in
  let me := publicIdentity (localPeer env) in
  (fst r = false ->
   nextConnection w' = c /\ connections w' = connections w /\ nothingSent w w')
  /\ (fst r = true ->
      canConnectToWebRTC env peer w = true
      /\ exists i broker,
           identity (peerState w peer) = Some i
           /\ getBrokeringPeer sample peer w = Some broker
           /\ nextConnection w' = S c
           /\ wiring (connections w' c)
              = (WebRtc, if canInitiateWebRTC me i then Outbound else Inbound,
                 canInitiateWebRTC me i, None, None, true, (Some broker, Some peer))
           /\ localRequestedDisconnectUntil (peerHeap w' peer) = None
           /\ peerRequestedDisconnectUntil (peerHeap w' peer) = None
           /\ (forall d m a, In (ConnectionSend d m a) (events w') ->
                             In (ConnectionSend d m a) (events w))
           /\ (forall q m via, In (PeerSend q m via) (events w') ->
                               In (PeerSend q m via) (events w)
                               \/ (canInitiateWebRTC me i = false
                                   /\ q = broker /\ m = SignalRequest me i))
           /\ (canInitiateWebRTC me i = false ->
               exists via, In (PeerSend broker (SignalRequest me i) via) (events w'))).
Proof.
  cbv zeta. unfold connectToWebRTC.
  destruct (canConnectToWebRTC env peer w) eqn:Hcan; cbn [negb].
  2: { cbn [fst snd]. split; [intros _; repeat split | intros H; discriminate H]. }
  cbv zeta.
  set (w1 := updPeer peer (fun r => with_peerRequestedDisconnect None None
                                      (with_localRequestedDisconnect None None r)) w).
  assert (Hr : peerHeap w1 peer
               = with_peerRequestedDisconnect None None
                   (with_localRequestedDisconnect None None (peerHeap w peer)))
    by (unfold w1; cbn; now rewrite Nat.eqb_refl).
  assert (Hst : peerState w1 peer = peerState w peer)
    by (unfold peerState; now rewrite Hr).
  assert (Hb : getBrokeringPeer sample peer w1 = getBrokeringPeer sample peer w).
  { apply getBrokeringPeer_ext. intros q. unfold w1. cbn.
    destruct (Nat.eqb q peer); split; reflexivity. }
  rewrite Hst, Hb.
  destruct (identity (peerState w peer)) as [i|] eqn:Hi.
  2: { cbn [fst snd]. split; [intros _; repeat split | intros H; discriminate H]. }
  destruct (getBrokeringPeer sample peer w) as [broker|] eqn:Hbroker.
  2: { cbn [fst snd]. split; [|intros H; discriminate H]. intros _.
       match goal with |- context [tryDisposePeer peer ?x] => set (w2 := x) end.
       assert (F := tryDisposePeer_frame peer w2).
       split; [rewrite (proj1 (frame_next _ _ F)); reflexivity|].
       split; [rewrite tryDisposePeer_connections; reflexivity|].
       unfold nothingSent. rewrite (frame_observed _ _ F). reflexivity. }
  destruct (initWebRtcConnection_made env broker peer
              (canInitiateWebRTC (publicIdentity (localPeer env)) i) w1)
    as (A0 & A & B & C & D & E).
  cbv zeta in A0, A, B, C, D, E. change (nextConnection w1) with (nextConnection w) in *.
  destruct (profile_localRequest _ _ (E peer)) as [E1 _].
  destruct (profile_peerRequest _ _ (E peer)) as [E2 _]. rewrite Hr in E1, E2.
  cbn [localRequestedDisconnectUntil peerRequestedDisconnectUntil
       with_peerRequestedDisconnect with_localRequestedDisconnect] in E1, E2.
  destruct (canInitiateWebRTC (publicIdentity (localPeer env)) i) eqn:Hinit.
  - cbn [fst snd]. split; [intros H; discriminate H|]. intros _.
    split; [reflexivity|]. exists i, broker. rewrite Hinit.
    split; [reflexivity|]. split; [reflexivity|]. split; [exact A|]. split; [exact B|].
    split; [exact E1|]. split; [exact E2|].
    split; [|split].
    + intros d m a H. now apply (observed_In w _ _ D H).
    + intros q m via H. left. now apply (observed_In w _ _ D H).
    + intros H. discriminate H.
  - destruct (initWebRtcConnection env broker peer false w1) as [c w2] eqn:Einit.
    cbn [fst snd] in *. subst c.
    rewrite Connection_setState_request.
    set (w3 := if CState.validTransition _ _ then _ else _).
    assert (H3 : nextConnection w3 = nextConnection w2
                 /\ wiring (connections w3 (nextConnection w)) = wiring (connections w2 (nextConnection w))
                 /\ peerHeap w3 = peerHeap w2
                 /\ (forall e, In e (events w3) ->
                               In e (events w2) \/ e = FatalTransition (nextConnection w))).
    { unfold w3. destruct (CState.validTransition _ _).
      - split; [reflexivity|]. split; [|split; [reflexivity | intros e He; now left]].
        cbn. rewrite Nat.eqb_refl. reflexivity.
      - split; [reflexivity|]. split; [reflexivity|]. split; [reflexivity|].
        intros e [<-|He]; [now right | now left]. }
    destruct H3 as (N3 & W3 & P3 & V3).
    split; [intros H; discriminate H|]. intros _.
    split; [reflexivity|]. exists i, broker. rewrite Hinit.
    split; [reflexivity|]. split; [reflexivity|].
    split; [unfold Peer_send; cbn [nextConnection emit]; rewrite N3; exact A|].
    split; [unfold Peer_send; cbn [connections emit]; rewrite W3; exact B|].
    split; [unfold Peer_send; cbn [peerHeap emit]; rewrite P3; exact E1|].
    split; [unfold Peer_send; cbn [peerHeap emit]; rewrite P3; exact E2|].
    split; [|split].
    + intros d m a [H|H]; [discriminate H|].
      destruct (V3 _ H) as [H2|H2]; [|discriminate H2].
      now apply (observed_In w _ _ D H2).
    + intros q m via [H|H].
      * injection H as <- <- _. right. repeat split.
      * destruct (V3 _ H) as [H2|H2]; [|discriminate H2].
        left. now apply (observed_In w _ _ D H2).
    + intros _. eexists. left. reflexivity.
Qed.

Lemma connectToWebRTC_roles_witness :
  let env := sampleEnv 10000 in
  let w' := snd (connectToWebRTC env (hd O) 1%nat (gossiped env)) in
  wiring (connections w' 1%nat)
  = (WebRtc, Inbound, false, None, None, true, (Some O, Some 1%nat))
  /\ exists via, In (PeerSend O (SignalRequest "ZZZZ"%string "CCCC"%string) via) (events w').
Proof.
  cbv zeta.
  assert (Hok : fst (connectToWebRTC (sampleEnv 10000) (hd O) 1%nat
                       (gossiped (sampleEnv 10000))) = true)
    by (vm_compute; reflexivity).
  assert (Hid : identity (peerState (gossiped (sampleEnv 10000)) 1%nat) = Some "CCCC"%string)
    by (vm_compute; reflexivity).
  assert (Hbr : getBrokeringPeer (hd O) 1%nat (gossiped (sampleEnv 10000)) = Some O)
    by (vm_compute; reflexivity).
  assert (Hn : nextConnection (gossiped (sampleEnv 10000)) = 1%nat)
    by (vm_compute; reflexivity).
  destruct (proj2 (connectToWebRTC_roles (sampleEnv 10000) (hd O) 1%nat
                     (gossiped (sampleEnv 10000))) Hok)
    as (_ & i & broker & Hi & Hb & _ & Hw & _ & _ & _ & _ & Hsent).
  rewrite Hid in Hi. injection Hi as <-. rewrite Hbr in Hb. injection Hb as <-.
  rewrite Hn in Hw. split; [exact Hw|]. apply Hsent. reflexivity.
Defined.

(** ** A request to signal *)

Lemma getOrCreatePeer_events env o w : events (snd (getOrCreatePeer env o w)) = events w.
Proof.
  destruct o as [i|]; [|reflexivity].
  destruct (JsMap.get i (identifiedPeers w)) as [q|] eqn:H.
  - now rewrite (getOrCreatePeer_found env i w q H).
  - apply (getOrCreatePeer_new env i w H).
Qed.

Lemma getOrCreatePeer_nextConnection env o w :
  nextConnection (snd (getOrCreatePeer env o w)) = nextConnection w.
Proof.
  destruct o as [i|]; [|reflexivity].
  destruct (JsMap.get i (identifiedPeers w)) as [q|] eqn:H.
  - now rewrite (getOrCreatePeer_found env i w q H).
  - apply (getOrCreatePeer_new env i w H).
Qed.

(** X16: a SignalRequest addressed to us, from a source that may not
    initiate towards us, and not turned down for congestion, makes us the
    initiator.  When the peer of the source has no WebRTC connection, one
    connection is made: WebRTC, with us as initiator, signalling through
    the sender of the request to the peer of the source; when it has one,
    no connection is made or changed.  In both cases no frame is sent on a
    connection and none is handed to a peer. *)
Theorem signalRequest_makes_us_initiator env sender (source : Identity) w :
  let me := publicIdentity (localPeer env) in
  canInitiateWebRTC source me = false ->
  shouldRejectDisconnectedPeers env w && notConnected source w = false ->
  let w' := handleSignalRequestMessage env sender source me w in
  let c := nextConnection w in
  let target := fst (getOrCreatePeer env (Some source) w) in
  let existing :=
    match getPeer source w with
    | Some t => rtcSlot (peerState w t)
    | None => None
    end in
  (forall d m a, In (ConnectionSend d m a) (events w') -> In (ConnectionSend d m a) (events w))
  /\ (forall q m via, In (PeerSend q m via) (events w') -> In (PeerSend q m via) (events w))
  /\ match existing with
     | Some _ => nextConnection w' = c /\ connections w' = connections w
     | None =>
         nextConnection w' = S c
         /\ wiring (connections w' c)
            = (WebRtc, Outbound, true, None, None, true, (Some sender, Some target))
         /\ (connState w' c = CState.CONNECTING \/ connState w' c = CState.DISCONNECTED)
     end.
Proof.
  cbv zeta. intros Hinit Hroom. unfold handleSignalRequestMessage.
  rewrite Hinit, String.eqb_refl, Hroom. cbn [negb].
  assert (Hev := getOrCreatePeer_events env (Some source) w).
  assert (Hnc := getOrCreatePeer_nextConnection env (Some source) w).
  assert (Hcn := getOrCreatePeer_connections env (Some source) w).
  assert (Hslot : rtcSlot (peerState (snd (getOrCreatePeer env (Some source) w))
                             (fst (getOrCreatePeer env (Some source) w)))
                  = match getPeer source w with
                    | Some t => rtcSlot (peerState w t)
                    | None => None
                    end).
  { unfold getPeer. destruct (JsMap.get source (identifiedPeers w)) as [q|] eqn:E.
    - now rewrite (getOrCreatePeer_found env source w q E).
    - destruct (getOrCreatePeer_new env source w E) as (_ & Hs & _). cbv zeta in Hs.
      unfold rtcSlot, peerState. rewrite Hs. reflexivity. }
  destruct (getOrCreatePeer env (Some source) w) as [t w0]. cbn [fst snd] in *.
  set (w1 := addKnownPeerTo t sender true w0).
  assert (S1 := addKnownPeerTo_sameNetwork t sender true w0). fold w1 in S1.
  assert (Hslot1 : rtcSlot (peerState w1 t) = rtcSlot (peerState w0 t))
    by (unfold peerState; now rewrite (same_states _ _ S1)).
  rewrite Hslot1, Hslot.
  assert (Hsent1 : forall e, In e (events w1) -> isKnownPeersChanged e = false ->
                             In e (events w)).
  { intros e He Hk. destruct (same_events _ _ S1 e He) as [H|H]; [|congruence].
    now rewrite <- Hev. }
  destruct (match getPeer source w with Some q => rtcSlot (peerState w q) | None => None end).
  - split; [intros d m a H; now apply Hsent1|].
    split; [intros q m via H; now apply Hsent1|].
    split; [rewrite (same_nextConnection _ _ S1); exact Hnc|].
    rewrite (same_connections _ _ S1). exact Hcn.
  - destruct (initWebRtcConnection_made env sender t true w1) as (_ & A & B & C & D & _).
    cbv zeta in A, B, C, D.
    rewrite (same_nextConnection _ _ S1), Hnc in A, B, C.
    split; [intros d m a H; apply Hsent1; [now apply (observed_In w1 _ _ D H) | reflexivity]|].
    split; [intros q m via H; apply Hsent1; [now apply (observed_In w1 _ _ D H) | reflexivity]|].
    split; [exact A|]. split; [exact B | exact C].
Qed.

Lemma signalRequest_makes_us_initiator_witness :
  let env := sampleEnv 10000 in
  let w' := handleSignalRequestMessage env O "ZZZa"%string "ZZZZ"%string (onePeer env) in
  nextConnection w' = 2%nat
  /\ wiring (connections w' 1%nat)
     = (WebRtc, Outbound, true, None, None, true, (Some O, Some 1%nat)).
Proof.
  cbv zeta.
  assert (Hn : nextConnection (onePeer (sampleEnv 10000)) = 1%nat) by (vm_compute; reflexivity).
  assert (Ht : fst (getOrCreatePeer (sampleEnv 10000) (@Some Identity "ZZZa"%string)
                      (onePeer (sampleEnv 10000)))
               = 1%nat) by (vm_compute; reflexivity).
  assert (Hg : getPeer "ZZZa"%string (onePeer (sampleEnv 10000)) = None) by (vm_compute; reflexivity).
  assert (H := signalRequest_makes_us_initiator (sampleEnv 10000) O "ZZZa"%string
                 (onePeer (sampleEnv 10000))).
  cbv zeta in H. rewrite Hg, Hn, Ht in H.
  destruct H as (_ & _ & A & B & _).
  - vm_compute. reflexivity.
  - vm_compute. reflexivity.
  - split; [exact A | exact B].
Defined.

(** ** A dial that finds no broker *)

(** X19: a WebRTC dial that finds no broker backs off.  When the peer may
    be dialled but no broker is found, [connectToWebRTC] returns false,
    makes no connection and sends nothing, and counts a failed connection
    on the outbound WebRTC retry state of the peer: for a peer that is not
    whitelisted the failures go up by one and the cool-down ends at the
    current time plus the back-off for that number of failures; until
    then [connectToWebRTC] returns false and changes nothing.  For a
    whitelisted peer the count stays and the cool-down ends now. *)
Theorem failed_dial_backs_off env later sample sample' peer r w :
  canConnectToWebRTC env peer w = true ->
  getBrokeringPeer sample peer w = None ->
  Peer_getConnectionRetry (peerHeap w peer) WebRtc Outbound = Some r ->
  let res := connectToWebRTC env sample peer w in
  let w' := snd res in
  fst res = false
  /\ nextConnection w' = nextConnection w /\ connections w' = connections w
  /\ nothingSent w w'
  /\ Peer_getConnectionRetry (peerHeap w' peer) WebRtc Outbound
     = Some (if isWhitelisted (peerHeap w peer)
             then mkRetry (neverRetry r) (now env) (consecutiveFailures r)
             else mkRetry (neverRetry r)
                    (now env + backoff env (S (consecutiveFailures r)))
                    (S (consecutiveFailures r)))
  /\ (isWhitelisted (peerHeap w peer) = false ->
      now later < now env + backoff env (S (consecutiveFailures r)) ->
      connectToWebRTC later sample' peer w' = (false, w')).
Proof.
  intros Hcan Hbroker Hr. cbv zeta.
  assert (Hi : exists i, identity (peerState w peer) = Some i).
  { unfold canConnectToWebRTC in Hcan. cbv zeta in Hcan.
    apply andb_true_iff in Hcan. destruct Hcan as [_ Hcan]. unfold peerState.
    destruct (identity (state (peerHeap w peer))) as [i|]; [now exists i | discriminate]. }
  destruct Hi as [i Hi].
  unfold connectToWebRTC. rewrite Hcan. cbn [negb]. cbv zeta.
  set (w1 := updPeer peer (fun r => with_peerRequestedDisconnect None None
                                      (with_localRequestedDisconnect None None r)) w).
  assert (Hp1 : peerHeap w1 peer
                = with_peerRequestedDisconnect None None
                    (with_localRequestedDisconnect None None (peerHeap w peer)))
    by (unfold w1; cbn; now rewrite Nat.eqb_refl).
  assert (Hst : peerState w1 peer = peerState w peer)
    by (unfold peerState; now rewrite Hp1).
  assert (Hb : getBrokeringPeer sample peer w1 = getBrokeringPeer sample peer w).
  { apply getBrokeringPeer_ext. intros q. unfold w1. cbn.
    destruct (Nat.eqb q peer); split; reflexivity. }
  rewrite Hst, Hi, Hb, Hbroker. cbn [fst snd].
  rewrite Hp1. cbn [isWhitelisted with_peerRequestedDisconnect with_localRequestedDisconnect].
  set (f := failedConnection (backoff env) (now env) (isWhitelisted (peerHeap w peer))).
  set (w2 := Peer_updateRetry peer WebRtc Outbound f w1).
  assert (F := tryDisposePeer_frame peer w2).
  destruct (tryDisposePeer_fields peer w2 peer) as (_ & _ & _ & Hretries).
  assert (Hretry : Peer_getConnectionRetry (peerHeap (snd (tryDisposePeer peer w2)) peer)
                     WebRtc Outbound = Some (f r)).
  { unfold Peer_getConnectionRetry. rewrite Hretries.
    unfold w2, Peer_updateRetry, updPeer at 1. cbn [peerHeap w_peerHeap].
    rewrite Nat.eqb_refl. cbn [connectionRetries with_connectionRetries].
    rewrite retryOf_updateRetry, Hp1.
    cbn [connectionRetries with_peerRequestedDisconnect with_localRequestedDisconnect].
    unfold Peer_getConnectionRetry in Hr. rewrite Hr. reflexivity. }
  split; [reflexivity|].
  split; [rewrite (proj1 (frame_next _ _ F)); reflexivity|].
  split; [rewrite tryDisposePeer_connections; reflexivity|].
  split; [unfold nothingSent; rewrite (frame_observed _ _ F); reflexivity|].
  split.
  - rewrite Hretry. unfold f, failedConnection.
    destruct (isWhitelisted (peerHeap w peer)); reflexivity.
  - intros Hwl Hlater. unfold connectToWebRTC, canConnectToWebRTC. cbv zeta.
    unfold retryCanConnect. rewrite Hretry. unfold f, failedConnection. rewrite Hwl.
    unfold canConnect. cbn [cooldownUntil neverRetry].
    assert (Hno : (now env + backoff env (S (consecutiveFailures r)) <=? now later) = false)
      by (apply Z.leb_gt; exact Hlater).
    rewrite Hno, !andb_false_r. reflexivity.
Qed.

Lemma failed_dial_backs_off_witness :
  let env := sampleEnv 10000 in
  let w := snd (getOrCreatePeer env (Some "CCCC"%string) emptyWorld) in
  let w' := snd (connectToWebRTC env (hd O) O w) in
  Peer_getConnectionRetry (peerHeap w' O) WebRtc Outbound = Some (mkRetry false 2000 1)
  /\ connectToWebRTC env (hd O) O w' = (false, w').
Proof.
  cbv zeta.
  destruct (failed_dial_backs_off (sampleEnv 10000) (sampleEnv 10000) (hd O) (hd O) O newRetry
              (snd (getOrCreatePeer (sampleEnv 10000) (Some "CCCC"%string) emptyWorld)))
    as (_ & _ & _ & _ & A & B).
  - vm_compute. reflexivity.
  - vm_compute. reflexivity.
  - vm_compute. reflexivity.
  - split; [exact A|]. apply B; reflexivity.
Defined.

(** ** When the dialled socket opens *)

(** X20: our Identify frame goes out when a dialled socket opens, and
    not before.  After a successful [connectToWebSocket] to a
    DISCONNECTED peer nothing has been sent; when the connection comes to
    wait for the identity, the Identify frame is sent on it, the
    connection accepts it, and the handler that sent it is gone. *)
Theorem identify_sent_when_socket_opens env peer w :
  type (peerState w peer) = PState.DISCONNECTED ->
  fst (connectToWebSocket env peer w) = true ->
  let c := nextConnection w in
  let hello := getIdentifyMessage (localPeer env) in
  let w1 := snd (connectToWebSocket env peer w) in
  let w2 := Connection_setState (peerStateChanged (depth env)) hello c
              CState.WAITING_FOR_IDENTITY w1 in
  events w1 = events w
  /\ c_identifyPending (connections w1 c) = true
  /\ events w2 = ConnectionSend c hello true :: events w
  /\ connState w2 c = CState.WAITING_FOR_IDENTITY
  /\ c_identifyPending (connections w2 c) = false
  /\ peerHeap w2 = peerHeap w1.
Proof.
  intros Ht Hok. cbv zeta. unfold connectToWebSocket in *.
  destruct (canConnectToWebSocket env peer w); [|discriminate Hok].
  cbn [negb] in *. cbv zeta in *.
  set (w0 := updPeer peer (fun r => with_peerRequestedDisconnect None None
                                      (with_localRequestedDisconnect None None r)) w) in *.
  destruct (negb (truthy (Peer_getWebSocketAddress (peerHeap w0 peer)))); [discriminate Hok|].
  cbn [snd]. clear Hok.
  assert (Ht0 : type (peerState w0 peer) = PState.DISCONNECTED)
    by (unfold w0, peerState; cbn; rewrite Nat.eqb_refl; exact Ht).
  destruct (initWebSocketConnection_idle env peer Outbound (address (peerHeap w0 peer))
              (port (peerHeap w0 peer)) w0 Ht0) as (_ & _ & _ & K & _ & _ & _ & V & _).
  cbv zeta in K, V. change (nextConnection w0) with (nextConnection w) in *.
  set (w1 := snd (initWebSocketConnection env peer Outbound _ _ w0)) in *.
  change (events w0) with (events w) in V.
  split; [exact V|]. split; [rewrite K; reflexivity|].
  unfold Connection_setState, connState. rewrite K.
  cbn [c_state CState.validTransition]. cbv zeta.
  set (w1' := updConn (nextConnection w) (c_with_state CState.WAITING_FOR_IDENTITY) w1).
  assert (K' : connections w1' (nextConnection w)
               = c_with_state CState.WAITING_FOR_IDENTITY (connections w1 (nextConnection w)))
    by (unfold w1'; cbn; now rewrite Nat.eqb_refl).
  unfold identifyWhenWaiting, connState. rewrite K', K.
  cbn [c_identifyPending c_with_state c_state].
  cbn [connections updConn w_connections Connection_send emit]. rewrite Nat.eqb_refl.
  cbn [c_boundTo c_with_identifyPending]. rewrite K', K.
  cbn [c_boundTo c_with_state c_identifyPending c_with_identifyPending c_state
       events updConn w_connections emit peerHeap].
  unfold Connection_send, connState.
  cbn [events emit connections updConn w_connections peerHeap]. rewrite Nat.eqb_refl.
  rewrite K', K. cbn [c_state c_with_state c_with_identifyPending c_identifyPending canSend].
  change (events w1') with (events w1). rewrite V. repeat split.
Qed.

Lemma identify_sent_when_socket_opens_witness :
  let env := sampleEnv 10000 in
  let w := Peer_setWebSocketAddress O (Some "host"%string) (Some 9033)
             (snd (getOrCreatePeer env None emptyWorld)) in
  let w1 := snd (connectToWebSocket env O w) in
  let w2 := Connection_setState (peerStateChanged (depth env))
              (getIdentifyMessage (localPeer env)) O CState.WAITING_FOR_IDENTITY w1 in
  events w1 = []
  /\ events w2 = [ConnectionSend O (getIdentifyMessage (localPeer env)) true].
Proof.
  cbv zeta.
  destruct (identify_sent_when_socket_opens (sampleEnv 10000) O
              (Peer_setWebSocketAddress O (Some "host"%string) (Some 9033)
                 (snd (getOrCreatePeer (sampleEnv 10000) None emptyWorld))))
    as (A & _ & B & _).
  - vm_compute. reflexivity.
  - vm_compute. reflexivity.
  - split; [exact A | exact B].
Defined.

(** * The graph of known peers *)

Lemma JsMap_get_set_keeps {V} (k k' : string) (v q : V) (m : JsMap.t V) :
  JsMap.has k m = false -> JsMap.get k' m = Some q -> JsMap.get k' (JsMap.set k v m) = Some q.
Proof.
  unfold JsMap.has. intros Hk Hq. destruct (String.eqb_spec k k') as [->|Hne].
  - rewrite Hq in Hk. discriminate.
  - now rewrite (JsMap_get_set_ne k k' v m Hne).
Qed.

Lemma addEdge_get a b flag w r k q :
  JsMap.get k (knownPeers (peerHeap w r)) = Some q ->
  JsMap.get k (knownPeers (peerHeap (addEdge a b flag w) r)) = Some q.
Proof.
  unfold addEdge. destruct (identity (peerState w a)) as [i|]; [|auto].
  destruct (JsMap.has i (knownPeers (peerHeap w b))) eqn:E; [auto|].
  rewrite emitted_heap. simpl. destruct (Nat.eqb_spec r b) as [->|Hne]; simpl; [|auto].
  now apply JsMap_get_set_keeps.
Qed.

Lemma addEdge_present a b flag w i :
  identity (peerState w a) = Some i ->
  JsMap.has i (knownPeers (peerHeap w b)) = true ->
  addEdge a b flag w = w.
Proof. intros Hi Hh. unfold addEdge. now rewrite Hi, Hh. Qed.

Lemma truthy_nonempty (i : Identity) : i <> EmptyString -> truthy (Some i) = true.
Proof.
  intros H. unfold truthy. destruct (String.eqb_spec i EmptyString); [contradiction | reflexivity].
Qed.

(** What [addKnownPeerTo] comes to for two identified peers of different
    identities: the edge, then the edge back. *)
Lemma addKnownPeerTo_both a b flag w (ia ib : Identity) :
  identity (peerState w a) = Some ia -> identity (peerState w b) = Some ib ->
  ia <> EmptyString -> ib <> EmptyString -> ia <> ib ->
  addKnownPeerTo a b flag w = addEdge b a true (addEdge a b flag w).
Proof.
  intros Ha Hb Na Nb Nab. unfold addKnownPeerTo.
  rewrite (addKnownPeerTo_rec_S 1 a b). unfold identityOf at 1 2.
  rewrite Ha, Hb, (truthy_nonempty ia Na), (truthy_nonempty ib Nb). cbn [negb orb].
  destruct (String.eqb_spec ia ib) as [E|_]; [contradiction|].
  set (w1 := addEdge a b flag w).
  destruct (addEdge_manager a b flag w) as (_ & _ & Hs). fold w1 in Hs.
  assert (Ha1 : identity (peerState w1 a) = Some ia) by (rewrite Hs; exact Ha).
  assert (Hb1 : identity (peerState w1 b) = Some ib) by (rewrite Hs; exact Hb).
  assert (Hab : JsMap.has ia (knownPeers (peerHeap w1 b)) = true)
    by (apply addEdge_added; exact Ha).
  unfold identityOf at 1. rewrite Hb1.
  destruct (JsMap.has ib (knownPeers (peerHeap w1 a))) eqn:E.
  - symmetry. now apply (addEdge_present b a true w1 ib).
  - rewrite (addKnownPeerTo_rec_S 0 b a). unfold identityOf at 1 2.
    rewrite Ha1, Hb1, (truthy_nonempty ia Na), (truthy_nonempty ib Nb). cbn [negb orb].
    destruct (String.eqb_spec ib ia) as [E'|_]; [symmetry in E'; contradiction|].
    cbn [addKnownPeerTo_rec].
    match goal with |- (if ?c then _ else _) = _ => destruct c end; reflexivity.
Qed.

(** X14: [addKnownPeerTo] links two peers both ways, and only them.  When
    an identity is missing or empty, or both peers have the same identity,
    nothing changes.  Otherwise each peer is a known peer of the other
    afterwards; no entry of any [knownPeers] is removed or replaced; no
    other entry is added; connections and peer states are as they were and
    only [onKnownPeersChanged] can have fired; and calling it again changes
    nothing. *)
Theorem addKnownPeerTo_links_both a b flag w :
  let w' := addKnownPeerTo a b flag w in
  (truthy (identity (peerState w a)) = false \/ truthy (identity (peerState w b)) = false
   \/ identity (peerState w a) = identity (peerState w b) -> w' = w)
  /\ forall ia ib : Identity,
       identity (peerState w a) = Some ia -> identity (peerState w b) = Some ib ->
       ia <> EmptyString -> ib <> EmptyString -> ia <> ib ->
       JsMap.has ia (knownPeers (peerHeap w' b)) = true
       /\ JsMap.has ib (knownPeers (peerHeap w' a)) = true
       /\ (forall r k q, JsMap.get k (knownPeers (peerHeap w r)) = Some q ->
                         JsMap.get k (knownPeers (peerHeap w' r)) = Some q)
       /\ (forall r k, JsMap.has k (knownPeers (peerHeap w' r)) = true ->
                       JsMap.has k (knownPeers (peerHeap w r)) = true
                       \/ (r = b /\ k = ia) \/ (r = a /\ k = ib))
       /\ sameNetwork w w'
       /\ addKnownPeerTo a b flag w' = w'.
Proof.
  cbv zeta. split.
  - intros H. unfold addKnownPeerTo. rewrite (addKnownPeerTo_rec_S 1 a b).
    destruct H as [H|[H|H]].
    + rewrite H. reflexivity.
    + rewrite H. now rewrite orb_true_r.
    + destruct (_ || _); [reflexivity|]. unfold identityOf. rewrite H.
      now rewrite String.eqb_refl.
  - intros ia ib Ha Hb Na Nb Nab.
    rewrite (addKnownPeerTo_both a b flag w ia ib Ha Hb Na Nb Nab).
    set (w1 := addEdge a b flag w). set (w2 := addEdge b a true w1).
    destruct (addEdge_manager a b flag w) as (_ & _ & Hs1). fold w1 in Hs1.
    destruct (addEdge_manager b a true w1) as (_ & _ & Hs2). fold w2 in Hs2.
    assert (Ha1 : identity (peerState w1 a) = Some ia) by (rewrite Hs1; exact Ha).
    assert (Hb1 : identity (peerState w1 b) = Some ib) by (rewrite Hs1; exact Hb).
    assert (Ha2 : identity (peerState w2 a) = Some ia) by (rewrite Hs2; exact Ha1).
    assert (Hb2 : identity (peerState w2 b) = Some ib) by (rewrite Hs2; exact Hb1).
    assert (E1 : JsMap.has ia (knownPeers (peerHeap w2 b)) = true)
      by (apply addEdge_grows, addEdge_added; exact Ha).
    assert (E2 : JsMap.has ib (knownPeers (peerHeap w2 a)) = true)
      by (apply addEdge_added; exact Hb1).
    split; [exact E1|]. split; [exact E2|]. split; [|split; [|split]].
    + intros r k q H. now apply addEdge_get, addEdge_get.
    + intros r k H. destruct (addEdge_known _ _ _ _ _ _ H) as [H1|[-> H1]].
      * destruct (addEdge_known _ _ _ _ _ _ H1) as [H0|[-> H0]]; [now left|].
        right. left. split; [reflexivity | congruence].
      * right. right. split; [reflexivity | congruence].
    + eapply sameNetwork_trans; apply addEdge_sameNetwork.
    + rewrite (addKnownPeerTo_both a b flag w2 ia ib Ha2 Hb2 Na Nb Nab).
      rewrite (addEdge_present a b flag w2 ia Ha2 E1).
      now apply (addEdge_present b a true w2 ib).
Qed.

Lemma addKnownPeerTo_links_both_witness :
  let w := snd (getOrCreatePeer (sampleEnv 10000) (Some "CCCC"%string) (onePeer (sampleEnv 10000))) in
  let w' := addKnownPeerTo 1%nat O true w in
  JsMap.has "CCCC"%string (knownPeers (peerHeap w' O)) = true
  /\ JsMap.has "BBBB"%string (knownPeers (peerHeap w' 1%nat)) = true.
Proof.
  cbv zeta.
  destruct (proj2 (addKnownPeerTo_links_both 1%nat O true
                     (snd (getOrCreatePeer (sampleEnv 10000) (Some "CCCC"%string)
                             (onePeer (sampleEnv 10000)))))
              "CCCC"%string "BBBB"%string) as (A & B & _).
  - vm_compute. reflexivity.
  - vm_compute. reflexivity.
  - discriminate.
  - discriminate.
  - discriminate.
  - split; [exact A | exact B].
Defined.

(** * Looking peers up *)

(** X15: [getOrCreatePeer] and the lookups agree.  After
    [getOrCreatePeer] with an identity, [getPeer] and [getPeerOrThrow]
    return the same peer for that identity and a second call returns it
    without changing anything; the entries of the other identities are as
    they were.  A peer is made only when the identity had none: a new
    record, DISCONNECTED and with that identity, at the end of the list,
    with no connection and no event.  Without an identity a new peer is
    made each time and [identifiedPeers] is left alone.  [getPeerOrThrow]
    throws exactly when [getPeer] returns null. *)
Theorem getOrCreatePeer_round_trip env (i : Identity) w :
  let p := fst (getOrCreatePeer env (Some i) w) in
  let w' := snd (getOrCreatePeer env (Some i) w) in
  getPeer i w' = Some p
  /\ getPeerOrThrow i w' = inr p
  /\ getOrCreatePeer env (Some i) w' = (p, w')
  /\ (forall k, k <> i -> getPeer k w' = getPeer k w)
  /\ (forall q, getPeer i w = Some q -> p = q /\ w' = w)
  /\ (getPeer i w = None ->
      p = nextPeer w /\ nextPeer w' = S p /\ peers w' = peers w ++ [p]
      /\ state (peerHeap w' p) = mkPeerState PState.DISCONNECTED (Some i) None None
      /\ connections w' = connections w /\ events w' = events w)
  /\ (let w0 := snd (getOrCreatePeer env None w) in
      fst (getOrCreatePeer env None w) = nextPeer w
      /\ peers w0 = peers w ++ [nextPeer w]
      /\ identifiedPeers w0 = identifiedPeers w
      /\ identity (peerState w0 (nextPeer w)) = None)
  /\ (getPeer i w = None <->
      getPeerOrThrow i w = inl ("No peer found with identity "%string ++ i)%string).
Proof.
  cbv zeta.
  assert (Hlast : getPeer i w = None <->
                  getPeerOrThrow i w = inl ("No peer found with identity "%string ++ i)%string).
  { unfold getPeer, getPeerOrThrow. destruct (JsMap.get i (identifiedPeers w)).
    - split; intros H; discriminate H.
    - split; reflexivity. }
  assert (Hnone : let w0 := snd (getOrCreatePeer env None w) in
                  fst (getOrCreatePeer env None w) = nextPeer w
                  /\ peers w0 = peers w ++ [nextPeer w]
                  /\ identifiedPeers w0 = identifiedPeers w
                  /\ identity (peerState w0 (nextPeer w)) = None).
  { cbv zeta. unfold getOrCreatePeer, peerState. cbn. rewrite Nat.eqb_refl. repeat split. }
  unfold getPeer, getPeerOrThrow in *.
  destruct (JsMap.get i (identifiedPeers w)) as [q|] eqn:E.
  - rewrite (getOrCreatePeer_found env i w q E). cbn [fst snd]. rewrite E.
    split; [reflexivity|]. split; [reflexivity|].
    split; [apply (getOrCreatePeer_found env i w q E)|].
    split; [reflexivity|].
    split; [intros q' H; injection H as <-; split; reflexivity|].
    split; [intros H; discriminate H|]. split; [exact Hnone | exact Hlast].
  - assert (Hnew : let w' := snd (getOrCreatePeer env (Some i) w) in
                   fst (getOrCreatePeer env (Some i) w) = nextPeer w
                   /\ identifiedPeers w' = JsMap.set i (nextPeer w) (identifiedPeers w)
                   /\ nextPeer w' = S (nextPeer w)
                   /\ peers w' = peers w ++ [nextPeer w]
                   /\ state (peerHeap w' (nextPeer w))
                      = mkPeerState PState.DISCONNECTED (Some i) None None
                   /\ connections w' = connections w /\ events w' = events w).
    { cbv zeta. unfold getOrCreatePeer. rewrite E.
      unfold updateIdentifiedPeerMap, peerState. cbn. rewrite Nat.eqb_refl. cbn.
      rewrite E. cbn. rewrite Nat.eqb_refl. repeat split. }
    cbv zeta in Hnew. destruct Hnew as (Hp & Hm & Hn & Hl & Hs & Hc & He).
    assert (Hget : JsMap.get i (identifiedPeers (snd (getOrCreatePeer env (Some i) w)))
                   = Some (nextPeer w))
      by (rewrite Hm; apply JsMap_get_set_eq).
    rewrite Hp, Hget.
    split; [reflexivity|]. split; [reflexivity|].
    split; [apply (getOrCreatePeer_found env i _ _ Hget)|].
    split; [intros k Hk; rewrite Hm; apply JsMap_get_set_ne; congruence|].
    split; [intros q H; discriminate H|].
    split; [intros _; repeat split; assumption|].
    split; [exact Hnone | exact Hlast].
Qed.

(** * Disposing of a peer *)

(** X21: what disposing of a peer removes and what it leaves.  A peer
    that can be disposed of is taken out of the list; its own known peers
    are cleared and its handlers released; the entry of [identifiedPeers]
    under its identity goes when it points to this peer, and the entries
    that point to other peers stay; every other peer record, every
    connection and the events are as they were. *)
Theorem tryDisposePeer_removes_peer w peer :
  canDispose w peer = true ->
  let w' := snd (tryDisposePeer peer w) in
  fst (tryDisposePeer peer w) = true
  /\ peers w' = filter (fun q => negb (Nat.eqb q peer)) (peers w)
  /\ ~ In peer (peers w')
  /\ knownPeers (peerHeap w' peer) = []
  /\ subscribed (peerHeap w' peer) = false
  /\ (forall i : Identity, identity (peerState w peer) = Some i -> i <> EmptyString ->
                           getPeer i w = Some peer -> getPeer i w' = None)
  /\ (forall i q, getPeer i w = Some q -> q <> peer -> getPeer i w' = Some q)
  /\ (forall q, q <> peer -> peerHeap w' q = peerHeap w q)
  /\ connections w' = connections w /\ events w' = events w.
Proof.
  intros Hc. cbv zeta.
  assert (Hp := tryDisposePeer_removes peer w Hc).
  unfold tryDisposePeer in *. rewrite Hc in *. cbn [fst snd] in *.
  destruct (forgetIdentity_heaps peer (Peer_dispose peer w)) as (Hh & Hcn & _ & He & _).
  cbn [peers w_peers peerHeap connections events] in *.
  split; [reflexivity|]. split; [exact Hp|].
  split.
  { rewrite Hp. intros H. apply filter_In in H. destruct H as [_ H].
    rewrite Nat.eqb_refl in H. discriminate H. }
  rewrite Hh, Hcn, He.
  split; [unfold Peer_dispose; cbn; now rewrite Nat.eqb_refl|].
  split; [unfold Peer_dispose; cbn; now rewrite Nat.eqb_refl|].
  assert (Hid : identity (peerState (Peer_dispose peer w) peer) = identity (peerState w peer))
    by (unfold Peer_dispose, peerState; cbn; now rewrite Nat.eqb_refl).
  split; [|split; [|split; [|split; reflexivity]]].
  - intros i Hi Ni Hg. unfold getPeer in *. cbn [identifiedPeers w_peers].
    unfold forgetIdentity. rewrite Hid, Hi, (truthy_nonempty i Ni).
    change (identifiedPeers (Peer_dispose peer w)) with (identifiedPeers w).
    rewrite Hg. cbn [isPeer andb]. rewrite Nat.eqb_refl.
    cbn [identifiedPeers w_identifiedPeers]. apply JsMap_get_delete_eq.
  - intros i q Hg Hq. unfold getPeer in *. cbn [identifiedPeers w_peers].
    unfold forgetIdentity. rewrite Hid.
    change (identifiedPeers (Peer_dispose peer w)) with (identifiedPeers w).
    destruct (identity (peerState w peer)) as [j|]; [|exact Hg].
    destruct (truthy (Some j) && isPeer peer (JsMap.get j (identifiedPeers w))) eqn:E;
      [|exact Hg].
    cbn [identifiedPeers w_identifiedPeers].
    destruct (String.eqb_spec j i) as [->|Hne].
    + apply andb_true_iff in E. destruct E as [_ E]. apply isPeer_true in E.
      rewrite Hg in E. injection E as E. contradiction.
    + rewrite JsMap_get_delete_ne by exact Hne. exact Hg.
  - intros q Hq. unfold Peer_dispose. cbn. apply Nat.eqb_neq in Hq. now rewrite Hq.
Qed.

Lemma tryDisposePeer_removes_peer_witness :
  let w := abandoned (sampleEnv 10000) in
  peers w = [O] /\ peers (snd (tryDisposePeer O w)) = [].
Proof.
  cbv zeta.
  assert (Hl : peers (abandoned (sampleEnv 10000)) = [O]) by (vm_compute; reflexivity).
  destruct (tryDisposePeer_removes_peer (abandoned (sampleEnv 10000)) O) as (_ & A & _).
  - vm_compute. reflexivity.
  - split; [exact Hl|]. rewrite A, Hl. reflexivity.
Defined.

(** * What a peer list leaves behind *)

Lemma handlePeerListMessage_connected_settles env list peer ip w :
  listening peer ip w -> ip <> EmptyString -> namesNeither ip list ->
  type (peerState w peer) = PState.CONNECTED -> lp_isWorker (localPeer env) = false ->
  settled env list peer (handlePeerListMessage env list peer w).
Proof.
  intros Hl Nip Hn Hc Hw. unfold handlePeerListMessage.
  rewrite Hc, Hw. cbv zeta. unfold settled.
  set (S := newPeerSet env list).
  destruct (removeEdges_spec S peer (knownPeers (peerHeap w peer)) false w) as [A1 A2].
  destruct (fold_left (removeEdge S peer) _ (false, w)) as [c1 wA]. cbn [snd] in A1, A2.
  assert (HlA : listening peer ip wA).
  { destruct Hl as (Hr & Hp & Hi). split; [|split].
    - intros i q H. rewrite (shrinks_states _ _ A1), (shrinks_next _ _ A1).
      apply Hr. now apply (shrinks_identified _ _ A1).
    - rewrite (shrinks_next _ _ A1). exact Hp.
    - rewrite (shrinks_states _ _ A1). exact Hi. }
  assert (HnS : namesNeither ip (JsMap.values S)).
  { intros e He. apply Hn. now apply (newPeerSet_values env list e). }
  destruct (addNewPeers_spec env peer ip (JsMap.values S) c1 wA HlA Nip HnS) as [_ B].
  destruct (fold_left (addNewPeer env peer) _ (c1, wA)) as [c2 wB]. cbn [snd] in B.
  rewrite emitted_heap. split.
  - intros k q Hin. apply JsMap_In_has in Hin. apply B in Hin. destruct Hin as [H|H].
    + apply A2; [exact H|]. apply JsMap_has_In. now apply (shrinks_known _ _ A1).
    + apply in_map_iff in H. destruct H as [e [<- He]].
      now apply (newPeerSet_values env list e).
  - intros e He. apply B. right. now apply in_map.
Qed.

Lemma newPeerSet_fold_has list (acc : JsMap.t PeerListEntry) k :
  JsMap.has k (fold_left (fun memo x => JsMap.set (entry_identity x) x memo) list acc) = true
  <-> In k (map entry_identity list) \/ JsMap.has k acc = true.
Proof.
  revert acc. induction list as [|x list IH]; intros acc; simpl.
  - tauto.
  - rewrite IH. split.
    + intros [H|H]; [auto|].
      destruct (JsMap_has_set_other _ _ _ _ H) as [->|H']; auto.
    + intros [[<-|H]|H]; [right; apply JsMap_has_set | auto |].
      right. now apply JsMap_has_set_keeps.
Qed.

Lemma newPeerSet_has env list k :
  JsMap.has k (newPeerSet env list) = true
  <-> k <> publicIdentity (localPeer env) /\ In k (map entry_identity list).
Proof.
  unfold newPeerSet. split.
  - intros H. apply JsMap_has_delete in H. destruct H as [Hne H].
    apply newPeerSet_fold_has in H. destruct H as [H|H]; [auto | discriminate H].
  - intros [Hne H]. unfold JsMap.has.
    rewrite JsMap_get_delete_ne by congruence.
    apply (newPeerSet_fold_has list [] k). now left.
Qed.

Lemma JsMap_has_entry {V} (k : string) (m : JsMap.t V) :
  JsMap.has k m = true -> exists v, In (k, v) m.
Proof.
  unfold JsMap.has. induction m as [|[k0 v0] m IH]; simpl; [discriminate|].
  destruct (String.eqb_spec k k0) as [->|Hne].
  - intros _. exists v0. now left.
  - intros H. destruct (IH H) as [v Hv]. exists v. now right.
Qed.

(** X17: a peer list replaces the neighbours of its sender.  When a
    CONNECTED peer sends a list that names neither itself nor the empty
    identity, and we are not a worker, the known peers of the sender are
    afterwards exactly the identities of the list, ours left out. *)
Theorem peerList_replaces_neighbours env list peer ip w :
  listening peer ip w -> ip <> EmptyString -> namesNeither ip list ->
  type (peerState w peer) = PState.CONNECTED -> lp_isWorker (localPeer env) = false ->
  forall k,
    JsMap.has k (knownPeers (peerHeap (handlePeerListMessage env list peer w) peer)) = true
    <-> k <> publicIdentity (localPeer env) /\ In k (map entry_identity list).
Proof.
  intros Hl Nip Hn Hc Hw k.
  destruct (handlePeerListMessage_connected_settles env list peer ip w Hl Nip Hn Hc Hw)
    as [H1 H2].
  rewrite <- newPeerSet_has. split.
  - intros H. apply JsMap_has_entry in H. destruct H as [q Hq]. now apply (H1 k q).
  - intros H. apply JsMap_has_entry in H. destruct H as [e He].
    destruct (newPeerSet_entries env list k e He) as [<- _].
    apply H2. unfold JsMap.values. apply in_map_iff. exists (entry_identity e, e). auto.
Qed.

Lemma peerList_replaces_neighbours_witness :
  let list := [mkEntry "CCCC"%string None (Some "host3"%string) (Some 9033); mkEntry "ZZZZ"%string None None None] in
  let w' := handlePeerListMessage (sampleEnv 10000) list O (onePeer (sampleEnv 10000)) in
  JsMap.has "CCCC"%string (knownPeers (peerHeap w' O)) = true
  /\ JsMap.has "ZZZZ"%string (knownPeers (peerHeap w' O)) = false.
Proof.
  cbv zeta.
  assert (Hn : nextPeer (onePeer (sampleEnv 10000)) = 1%nat) by (vm_compute; reflexivity).
  assert (Hm : identifiedPeers (onePeer (sampleEnv 10000)) = [("BBBB"%string, O)])
    by (vm_compute; reflexivity).
  assert (H := peerList_replaces_neighbours (sampleEnv 10000)
                 [mkEntry "CCCC"%string None (Some "host3"%string) (Some 9033); mkEntry "ZZZZ"%string None None None]
                 O "BBBB"%string (onePeer (sampleEnv 10000))).
  assert (Hall : forall k,
            JsMap.has k (knownPeers (peerHeap
              (handlePeerListMessage (sampleEnv 10000)
                 [mkEntry "CCCC"%string None (Some "host3"%string) (Some 9033);
                  mkEntry "ZZZZ"%string None None None]
                 O (onePeer (sampleEnv 10000))) O)) = true
            <-> k <> publicIdentity (localPeer (sampleEnv 10000))
                /\ In k (map entry_identity
                           [mkEntry "CCCC"%string None (Some "host3"%string) (Some 9033);
                            mkEntry "ZZZZ"%string None None None])).
  { apply H.
    - split; [|split].
      + intros i q Hq. rewrite Hm in Hq. rewrite Hn. cbn [JsMap.get] in Hq.
        destruct (String.eqb_spec i "BBBB"%string) as [->|_]; [|discriminate].
        inversion Hq; subst q. split; [lia | vm_compute; reflexivity].
      + rewrite Hn. lia.
      + vm_compute. reflexivity.
    - discriminate.
    - intros e [<-|[<-|[]]]; cbn; split; discriminate.
    - vm_compute. reflexivity.
    - reflexivity. }
  split.
  - apply Hall. split; [discriminate | left; reflexivity].
  - destruct (JsMap.has "ZZZZ"%string _) eqn:E; [|reflexivity].
    apply Hall in E. destruct E as [E _]. now contradiction E.
Defined.

(** * What a peer list teaches about the peers it names *)

Lemma JsMap_keys_set {V} (k : string) (v : V) (m : JsMap.t V) :
  NoDup (JsMap.keys m) -> NoDup (JsMap.keys (JsMap.set k v m))
  /\ forall x, In x (JsMap.keys (JsMap.set k v m)) -> x = k \/ In x (JsMap.keys m).
Proof.
  unfold JsMap.keys. induction m as [|[k0 v0] m IH]; cbn [JsMap.set map fst].
  - intros _. split; [constructor; [intros [] | constructor]|].
    intros x [<-|[]]. now left.
  - intros H. inversion H as [|? ? Hn Hm]; subst.
    destruct (String.eqb_spec k k0) as [->|Hne]; cbn [map fst].
    + split; [exact H|]. intros x Hx. now right.
    + destruct (IH Hm) as [IH1 IH2]. split.
      * constructor; [|exact IH1]. intros Hin. destruct (IH2 _ Hin) as [E|E]; congruence.
      * intros x [<-|Hx]; [right; now left|]. destruct (IH2 _ Hx); [now left | right; now right].
Qed.

Lemma JsMap_keys_delete {V} (k : string) (m : JsMap.t V) :
  NoDup (JsMap.keys m) -> NoDup (JsMap.keys (JsMap.delete k m)).
Proof.
  unfold JsMap.keys. induction m as [|[k0 v0] m IH]; cbn [JsMap.delete map fst]; [auto|].
  intros H. inversion H as [|? ? Hn Hm]; subst.
  destruct (String.eqb k k0); cbn [map fst]; [now apply IH|].
  constructor; [|now apply IH]. intros Hin. apply Hn.
  apply in_map_iff in Hin. destruct Hin as [[k1 v1] [E Hin]]. cbn in E. subst k1.
  apply JsMap_In_delete in Hin. apply in_map_iff. exists (k0, v1). auto.
Qed.

Lemma newPeerSet_NoDup env list : NoDup (map entry_identity (JsMap.values (newPeerSet env list))).
Proof.
  assert (Hk : NoDup (JsMap.keys (newPeerSet env list))).
  { unfold newPeerSet. apply JsMap_keys_delete.
    assert (H : forall acc : JsMap.t PeerListEntry,
               NoDup (JsMap.keys acc) ->
               NoDup (JsMap.keys (fold_left (fun memo e => JsMap.set (entry_identity e) e memo)
                                    list acc))).
    { induction list as [|x l IH]; intros acc Ha; cbn [fold_left]; [exact Ha|].
      apply IH. now apply JsMap_keys_set. }
    apply H. constructor. }
  assert (He : forall k e, In (k, e) (newPeerSet env list) -> entry_identity e = k)
    by (intros k e H; apply (newPeerSet_entries env list k e H)).
  revert Hk He. generalize (newPeerSet env list). intros m.
  unfold JsMap.keys, JsMap.values.
  induction m as [|[k e] m IH]; cbn [map fst snd]; intros Hk He; [constructor|].
  inversion Hk as [|? ? Hn Hm]; subst.
  rewrite (He k e (or_introl eq_refl)).
  assert (Hrest : map entry_identity (map snd m) = map fst m).
  { clear -He. induction m as [|[k1 e1] m IH]; cbn [map fst snd]; [reflexivity|].
    rewrite (He k1 e1 (or_intror (or_introl eq_refl))). f_equal.
    apply IH. intros k0 e0 [H|H]; apply He; [now left | right; now right]. }
  rewrite Hrest. constructor; [exact Hn | exact Hm].
Qed.

Lemma addEdge_profile a b flag w r :
  profile (peerHeap (addEdge a b flag w) r) = profile (peerHeap w r).
Proof.
  unfold addEdge. destruct (identity (peerState w a)) as [i|]; [|reflexivity].
  destruct (JsMap.has i _); [reflexivity|].
  rewrite emitted_heap. cbn. destruct (Nat.eqb r b); reflexivity.
Qed.

Lemma addKnownPeerTo_profile a b flag w r :
  profile (peerHeap (addKnownPeerTo a b flag w) r) = profile (peerHeap w r).
Proof.
  unfold addKnownPeerTo. generalize 2%nat. intros n. revert a b flag w.
  induction n as [|n IH]; intros a b flag w; cbn [addKnownPeerTo_rec]; [reflexivity|].
  destruct (_ || _); [reflexivity|]. destruct (String.eqb _ _); [reflexivity|].
  destruct (JsMap.has _ _); [apply addEdge_profile|].
  rewrite IH. apply addEdge_profile.
Qed.

Lemma profile_contact r r' :
  profile r = profile r' ->
  name r = name r' /\ address r = address r' /\ port r = port r'.
Proof.
  unfold profile. intros H. injection H as H1 H2 H3 _ _ _ _ _ _ _ _.
  repeat split; assumption.
Qed.

Lemma getOrCreatePeer_filed env (k : Identity) w :
  JsMap.get k (identifiedPeers (snd (getOrCreatePeer env (Some k) w)))
  = Some (fst (getOrCreatePeer env (Some k) w))
  /\ (forall k', k' <> k ->
                 JsMap.get k' (identifiedPeers (snd (getOrCreatePeer env (Some k) w)))
                 = JsMap.get k' (identifiedPeers w))
  /\ (forall x, x <> fst (getOrCreatePeer env (Some k) w) ->
                peerHeap (snd (getOrCreatePeer env (Some k) w)) x = peerHeap w x).
Proof.
  destruct (JsMap.get k (identifiedPeers w)) as [q|] eqn:Hq.
  - rewrite (getOrCreatePeer_found env k w q Hq). cbn [fst snd]. repeat split; auto.
  - unfold getOrCreatePeer. rewrite Hq.
    unfold updateIdentifiedPeerMap, peerState. cbn. rewrite Nat.eqb_refl. cbn.
    rewrite Hq. cbn. split; [apply JsMap_get_set_eq|]. split.
    + intros k' Hne. apply JsMap_get_set_ne. congruence.
    + intros x Hx. apply Nat.eqb_neq in Hx. now rewrite Hx.
Qed.

Lemma addNewPeer_teaches env p ip c w e :
  listening p ip w ->
  JsMap.has (entry_identity e) (knownPeers (peerHeap w p)) = false ->
  knownAs (snd (addNewPeer env p (c, w) e)) (entry_identity e) e.
Proof.
  intros Hl Eh. unfold addNewPeer. rewrite Eh.
  destruct (getOrCreatePeer_filed env (entry_identity e) w) as (Hg & _ & _).
  destruct (getOrCreatePeer env (Some (entry_identity e)) w) as [q w1].
  cbn [fst snd] in Hg. cbv beta iota zeta. cbn [snd].
  set (w3 := updPeer q _ (Peer_setWebSocketAddress q _ _ w1)).
  destruct (profile_contact _ _ (addKnownPeerTo_profile q p false w3 q)) as (N & A & P).
  exists q. unfold getPeer.
  destruct (addKnownPeerTo_rec_manager 2 q p false w3) as (_ & B & _).
  change (addKnownPeerTo_rec 2 q p false w3) with (addKnownPeerTo q p false w3) in B.
  rewrite B, N, A, P. split; [exact Hg|].
  unfold w3, Peer_setWebSocketAddress. cbn. rewrite Nat.eqb_refl. cbn. repeat split.
Qed.

Lemma addNewPeer_keeps env p ip c w e k0 e0 :
  listening p ip w -> entry_identity e <> k0 ->
  knownAs w k0 e0 -> knownAs (snd (addNewPeer env p (c, w) e)) k0 e0.
Proof.
  intros Hl Hne (q & Hq & Ha & Hp & Hn). unfold addNewPeer.
  destruct (JsMap.has (entry_identity e) (knownPeers (peerHeap w p)));
    [exists q; repeat split; assumption|].
  destruct (getOrCreatePeer_filed env (entry_identity e) w) as (_ & Hg & Hh).
  destruct (getOrCreatePeer_listening env p ip (entry_identity e) w Hl) as (Hl1 & Hid & _).
  destruct (getOrCreatePeer env (Some (entry_identity e)) w) as [q' w1].
  cbn [fst snd] in Hg, Hh, Hl1, Hid. cbv beta iota zeta. cbn [snd].
  unfold getPeer in Hq.
  assert (Hq1 : JsMap.get k0 (identifiedPeers w1) = Some q)
    by (rewrite Hg by congruence; exact Hq).
  assert (Hqq : q <> q').
  { intros ->. destruct Hl1 as (Hr1 & _). destruct (Hr1 k0 q' Hq1) as [_ Hi]. congruence. }
  set (w3 := updPeer q' _ (Peer_setWebSocketAddress q' _ _ w1)).
  assert (H3 : peerHeap w3 q = peerHeap w q).
  { unfold w3, Peer_setWebSocketAddress. cbn.
    rewrite (proj2 (Nat.eqb_neq q q') Hqq). apply Hh. exact Hqq. }
  destruct (profile_contact _ _ (addKnownPeerTo_profile q' p false w3 q)) as (N & A & P).
  destruct (addKnownPeerTo_rec_manager 2 q' p false w3) as (_ & B & _).
  change (addKnownPeerTo_rec 2 q' p false w3) with (addKnownPeerTo q' p false w3) in B.
  exists q. unfold getPeer. rewrite B, N, A, P, H3.
  split; [exact Hq1 | repeat split; assumption].
Qed.

Lemma addNewPeers_keep env p ip l c w k0 e0 :
  listening p ip w -> ip <> EmptyString -> namesNeither ip l ->
  (forall e, In e l -> entry_identity e <> k0) ->
  knownAs w k0 e0 -> knownAs (snd (fold_left (addNewPeer env p) l (c, w))) k0 e0.
Proof.
  revert c w. induction l as [|e l IH]; intros c w Hl Nip Hn Hne Hk; cbn [fold_left];
    [exact Hk|].
  destruct (Hn e (or_introl eq_refl)) as [N1 N2].
  destruct (addNewPeer_step env p ip c w e Hl Nip N1 N2) as [Hl1 _].
  assert (Hk1 := addNewPeer_keeps env p ip c w e k0 e0 Hl (Hne e (or_introl eq_refl)) Hk).
  destruct (addNewPeer env p (c, w) e) as [c1 w1]. cbn [snd] in Hl1, Hk1.
  apply IH; auto.
  - intros x Hx. apply Hn. now right.
  - intros x Hx. apply Hne. now right.
Qed.

Lemma addNewPeers_teach env p ip l c w :
  listening p ip w -> ip <> EmptyString -> namesNeither ip l ->
  NoDup (map entry_identity l) ->
  forall e, In e l ->
            JsMap.has (entry_identity e) (knownPeers (peerHeap w p)) = false ->
            knownAs (snd (fold_left (addNewPeer env p) l (c, w))) (entry_identity e) e.
Proof.
  revert c w. induction l as [|e0 l IH]; intros c w Hl Nip Hn Hd e Hin Hfalse;
    [destruct Hin|].
  cbn [fold_left]. cbn [map] in Hd. inversion Hd as [|? ? Hnotin Hd']; subst.
  destruct (Hn e0 (or_introl eq_refl)) as [N1 N2].
  destruct (addNewPeer_step env p ip c w e0 Hl Nip N1 N2) as [Hl1 Hk1].
  destruct Hin as [<-|Hin].
  - assert (Ht := addNewPeer_teaches env p ip c w e0 Hl Hfalse).
    destruct (addNewPeer env p (c, w) e0) as [c1 w1]. cbn [snd] in Hl1, Ht.
    apply (addNewPeers_keep env p ip l c1 w1); auto.
    + intros x Hx. apply Hn. now right.
    + intros x Hx E. apply Hnotin. rewrite <- E. now apply in_map.
  - destruct (addNewPeer env p (c, w) e0) as [c1 w1]. cbn [snd] in Hl1, Hk1.
    apply IH; auto.
    + intros x Hx. apply Hn. now right.
    + destruct (JsMap.has (entry_identity e) (knownPeers (peerHeap w1 p))) eqn:E;
        [|reflexivity].
      apply Hk1 in E. destruct E as [E|E]; [congruence|].
      exfalso. apply Hnotin. rewrite <- E. now apply in_map.
Qed.

(** X24: a peer list teaches the address of the peers it adds.  When a
    CONNECTED peer sends a list that names neither itself nor the empty
    identity, and we are not a worker, every entry of the list that was
    not a neighbour of the sender has a peer afterwards, filed under its
    identity, that carries the address, the port and the name of the
    entry, whatever that peer carried before. *)
Theorem peerList_teaches_addresses env list peer ip w :
  listening peer ip w -> ip <> EmptyString -> namesNeither ip list ->
  type (peerState w peer) = PState.CONNECTED -> lp_isWorker (localPeer env) = false ->
  forall e, In e (JsMap.values (newPeerSet env list)) ->
            JsMap.has (entry_identity e) (knownPeers (peerHeap w peer)) = false ->
            knownAs (handlePeerListMessage env list peer w) (entry_identity e) e.
Proof.
  intros Hl Nip Hn Hc Hw e He Hfalse. unfold handlePeerListMessage.
  rewrite Hc, Hw. cbv zeta.
  set (S := newPeerSet env list) in *.
  destruct (removeEdges_spec S peer (knownPeers (peerHeap w peer)) false w) as [A1 _].
  destruct (fold_left (removeEdge S peer) _ (false, w)) as [c1 wA]. cbn [snd] in A1.
  assert (HlA : listening peer ip wA).
  { destruct Hl as (Hr & Hp & Hi). split; [|split].
    - intros i q H. rewrite (shrinks_states _ _ A1), (shrinks_next _ _ A1).
      apply Hr. now apply (shrinks_identified _ _ A1).
    - rewrite (shrinks_next _ _ A1). exact Hp.
    - rewrite (shrinks_states _ _ A1). exact Hi. }
  assert (HnS : namesNeither ip (JsMap.values S)).
  { intros x Hx. apply Hn. now apply (newPeerSet_values env list x). }
  assert (HfA : JsMap.has (entry_identity e) (knownPeers (peerHeap wA peer)) = false).
  { destruct (JsMap.has (entry_identity e) (knownPeers (peerHeap wA peer))) eqn:E;
      [|reflexivity].
    apply (shrinks_known _ _ A1) in E. congruence. }
  assert (T := addNewPeers_teach env peer ip (JsMap.values S) c1 wA HlA Nip HnS
                 (newPeerSet_NoDup env list) e He HfA).
  destruct (fold_left (addNewPeer env peer) _ (c1, wA)) as [c2 wB]. cbn [snd] in T.
  destruct T as (q & Hq & Ha & Hp & Hnm). exists q.
  unfold getPeer in *. destruct c2; [|repeat split; assumption].
  unfold Peer_emitKnownPeersChanged. destruct (subscribed _); repeat split; assumption.
Qed.

Lemma peerList_teaches_addresses_witness :
  let e := mkEntry "CCCC"%string (Some "carol"%string) (Some "host3"%string) (Some 9033) in
  knownAs (handlePeerListMessage (sampleEnv 10000) [e] O (onePeer (sampleEnv 10000)))
    (entry_identity e) e.
Proof.
  cbv zeta.
  assert (Hn : nextPeer (onePeer (sampleEnv 10000)) = 1%nat) by (vm_compute; reflexivity).
  assert (Hm : identifiedPeers (onePeer (sampleEnv 10000)) = [("BBBB"%string, O)])
    by (vm_compute; reflexivity).
  apply (peerList_teaches_addresses (sampleEnv 10000)
           [mkEntry "CCCC"%string (Some "carol"%string) (Some "host3"%string) (Some 9033)] O "BBBB"%string
           (onePeer (sampleEnv 10000))).
  - split; [|split].
    + intros i q Hq. rewrite Hm in Hq. rewrite Hn. cbn [JsMap.get] in Hq.
      destruct (String.eqb_spec i "BBBB"%string) as [->|_]; [|discriminate].
      inversion Hq; subst q. split; [lia | vm_compute; reflexivity].
    + rewrite Hn. lia.
    + vm_compute. reflexivity.
  - discriminate.
  - intros e [<-|[]]; cbn; split; discriminate.
  - vm_compute. reflexivity.
  - reflexivity.
  - vm_compute. left. reflexivity.
  - vm_compute. reflexivity.
Defined.

(** * Signalling data from one node to the other *)

Lemma feedSignal_outcome env peer connection source nonce signal w :
  match unboxMessage (localPeer env) signal nonce source with
  | Some text =>
      match parseJson env text with
      | Some data =>
          feedSignal env peer connection source nonce signal w
          = emit (ConnectionSignal connection data) w
      | None =>
          connState (feedSignal env peer connection source nonce signal w) connection
          = CState.DISCONNECTED
          /\ nothingSent w (feedSignal env peer connection source nonce signal w)
      end
  | None =>
      connState (feedSignal env peer connection source nonce signal w) connection
      = CState.DISCONNECTED
      /\ nothingSent w (feedSignal env peer connection source nonce signal w)
  end.
Proof.
  assert (Hclose : forall err,
            connState (Connection_close (peerStateChanged (depth env)) connection err w)
              connection = CState.DISCONNECTED
            /\ nothingSent w (Connection_close (peerStateChanged (depth env)) connection err w)).
  { intros err. split; [apply Connection_close_closed|].
    - intros p prev w0. apply peerStateChanged_frame.
    - apply frame_observed, Connection_close_frame.
      intros p prev w0. apply peerStateChanged_frame. }
  unfold feedSignal. destruct (unboxMessage _ _ _ _) as [text|]; [|apply Hclose].
  destruct (parseJson env text); [reflexivity | apply Hclose].
Qed.

(** X23: signalling data crosses from one node to the other.  On node A
    the [onSignal] handler of a WebRTC connection boxes the text of the
    signal for the identity of the target peer and hands a Signal frame to
    the broker.  When that frame reaches node B, whose identity it names,
    on a connection past the handshake, and B is not congested, has a peer
    for A with a WebRTC connection and can open what A boxed, the text is
    parsed and fed to that connection; text that does not parse closes the
    connection instead, and nothing is fed.  No connection is made. *)
Theorem signal_crosses envA envB cA text wA broker target sender conn sp cB wB :
  let meA := publicIdentity (localPeer envA) in
  let meB := publicIdentity (localPeer envB) in
  let boxed := boxMessage (localPeer envA) text meB in
  c_broker (connections wA cA) = Some broker ->
  c_target (connections wA cA) = Some target ->
  identity (peerState wA target) = Some meB ->
  connState wB conn <> CState.WAITING_FOR_IDENTITY ->
  shouldRejectDisconnectedPeers envB wB && notConnected meA wB = false ->
  getPeer meA wB = Some sp ->
  rtcSlot (peerState wB sp) = Some cB ->
  unboxMessage (localPeer envB) (snd boxed) (fst boxed) meA = Some text ->
  exists m via,
    events (onSignal envA cA text wA) = PeerSend broker m via :: events wA
    /\ m = Signal meA meB (fst boxed) (snd boxed)
    /\ let wB' := handleMessage envB sender conn m wB in
       nextConnection wB' = nextConnection wB
       /\ match parseJson envB text with
          | Some data => hd_error (events wB') = Some (ConnectionSignal cB data)
          | None =>
              connState wB' cB = CState.DISCONNECTED
              /\ forall c data, In (ConnectionSignal c data) (events wB') ->
                                In (ConnectionSignal c data) (events wB)
          end.
Proof.
  cbv zeta. intros Hbroker Htarget Hid Hconn Hroom Hsp Hslot Hopen.
  set (meA := publicIdentity (localPeer envA)) in *.
  set (meB := publicIdentity (localPeer envB)) in *.
  unfold onSignal. rewrite Hbroker, Htarget, Hid.
  destruct (boxMessage (localPeer envA) text meB) as [nonce boxed] eqn:Ebox.
  cbn [fst snd] in *.
  eexists. eexists. split; [unfold Peer_send; cbn [events emit]; reflexivity|].
  split; [reflexivity|].
  assert (Hdispatch : handleMessage envB sender conn (Signal meA meB nonce boxed) wB
                      = handleSignalMessage envB sender meA meB nonce boxed wB).
  { unfold handleMessage. destruct (connState wB conn); try reflexivity.
    now contradiction Hconn. }
  cbv zeta. fold meA. rewrite Hdispatch. unfold handleSignalMessage. fold meB.
  rewrite String.eqb_refl, Hroom. cbn [negb].
  unfold getPeer in Hsp. rewrite (getOrCreatePeer_found envB meA wB sp Hsp).
  set (w2 := addKnownPeerTo sp sender true wB).
  assert (S2 := addKnownPeerTo_sameNetwork sp sender true wB). fold w2 in S2.
  assert (Hslot2 : rtcSlot (peerState w2 sp) = Some cB)
    by (unfold peerState; rewrite (same_states _ _ S2); exact Hslot).
  rewrite Hslot2.
  assert (Hout := feedSignal_outcome envB sp cB meA nonce boxed w2).
  rewrite Hopen in Hout.
  split; [rewrite feedSignal_next; apply (same_nextConnection _ _ S2)|].
  destruct (parseJson envB text) as [data|].
  - rewrite Hout. reflexivity.
  - destruct Hout as [Hclosed Hquiet]. split; [exact Hclosed|].
    intros c data H. apply (observed_In w2 _ _ Hquiet) in H; [|reflexivity].
    destruct (same_events _ _ S2 _ H) as [H'|H']; [exact H' | discriminate H'].
Qed.

(** [ZZZZ] has dialled [CCCC] over WebRTC through [BBBB]; [CCCC], asked
    to signal, is the initiator, and the offer of its connection reaches
    the connection of [ZZZZ]. *)
Lemma signal_crosses_witness :
  let envC := nodeEnv "CCCC"%string in
  let envZ := sampleEnv 10000 in
  let wC := handleSignalRequestMessage envC O "ZZZZ"%string "CCCC"%string (onePeer envC) in
  let wZ := snd (connectToWebRTC envZ (hd O) 1%nat (gossiped envZ)) in
  events (onSignal envC 1%nat "offer"%string wC)
  = PeerSend O (Signal "CCCC"%string "ZZZZ"%string "nonce"%string "offer"%string) (Some O) :: events wC
  /\ hd_error (events (handleMessage envZ O O (Signal "CCCC"%string "ZZZZ"%string "nonce"%string "offer"%string) wZ))
     = Some (ConnectionSignal 1%nat "offer"%string).
Proof.
  cbv zeta.
  destruct (signal_crosses (nodeEnv "CCCC"%string) (sampleEnv 10000) 1%nat "offer"%string
              (handleSignalRequestMessage (nodeEnv "CCCC"%string) O "ZZZZ"%string "CCCC"%string
                 (onePeer (nodeEnv "CCCC"%string)))
              O 1%nat O O 1%nat 1%nat
              (snd (connectToWebRTC (sampleEnv 10000) (hd O) 1%nat
                      (gossiped (sampleEnv 10000)))))
    as (m & via & _ & Hm & _ & Hfed).
  - vm_compute. reflexivity.
  - vm_compute. reflexivity.
  - vm_compute. reflexivity.
  - vm_compute. discriminate.
  - vm_compute. reflexivity.
  - vm_compute. reflexivity.
  - vm_compute. reflexivity.
  - reflexivity.
  - subst m. split; [vm_compute; reflexivity | exact Hfed].
Defined.

(** * The handshake that succeeds *)

(** The state change that ends a handshake, for an unidentified peer that
    holds the connection and no other, and an identity not yet in
    [identifiedPeers]: the peer takes the identity, is filed under it, and
    [onConnect] fires. *)
Lemma Connection_setState_connected depth hello c (i : Identity) p ws rtc w :
  connState w c = CState.WAITING_FOR_IDENTITY ->
  c_boundTo (connections w c) = Some p ->
  state (peerHeap w p) = mkPeerState PState.CONNECTING None ws rtc ->
  (ws = Some c /\ rtc = None) \/ (ws = None /\ rtc = Some c) ->
  subscribed (peerHeap w p) = true -> identifyHandler (peerHeap w p) = true ->
  JsMap.get i (identifiedPeers w) = None -> depth <> O ->
  Connection_setState (peerStateChanged depth) hello c (CState.CONNECTED i) w
  = emit OnConnectedPeersChanged
      (emit (OnConnect p)
         (updPeer p (fun r => with_handlers (subscribed r) false r)
            (w_identifiedPeers (JsMap.set i p (identifiedPeers w))
               (updPeer p (with_state (mkPeerState PState.CONNECTED (Some i) ws rtc))
                  (updConn c (c_with_state (CState.CONNECTED i)) w))))).
Proof.
  intros Hw Hb Hs Hslot Hsub Hid Hget Hd.
  destruct depth as [|d]; [now contradiction Hd|].
  unfold Connection_setState. rewrite Hw. cbn [CState.validTransition]. cbv zeta.
  set (w1 := updConn c (c_with_state (CState.CONNECTED i)) w).
  assert (Hc1 : connections w1 c = c_with_state (CState.CONNECTED i) (connections w c))
    by (unfold w1; cbn; now rewrite Nat.eqb_refl).
  assert (Hi1 : identifyWhenWaiting hello c w1 = w1).
  { unfold identifyWhenWaiting, connState. rewrite Hc1. cbn [c_state c_with_state].
    destruct (c_identifyPending _); reflexivity. }
  rewrite Hi1, Hc1. cbn [c_boundTo c_with_state]. rewrite Hb.
  change (peerState w1 p) with (state (peerHeap w p)). rewrite Hs.
  cbn [webSocket webRtc].
  unfold Peer_setState.
  change (peerState w1 p) with (state (peerHeap w p)). rewrite Hs. cbn [type identity].
  assert (Hty : computeType w1 ws rtc = PState.CONNECTED
                /\ computeIdentity w1 None ws rtc = Some i).
  { unfold computeType, computeIdentity, connectedIdentity, slotConnected, connState.
    destruct Hslot as [[-> ->]|[-> ->]]; rewrite Hc1; cbn; split; reflexivity. }
  destruct Hty as [-> ->].
  set (w3 := updPeer p _ w1).
  assert (Hp3 : peerHeap w3 p
                = with_state (mkPeerState PState.CONNECTED (Some i) ws rtc) (peerHeap w p))
    by (unfold w3; cbn; now rewrite Nat.eqb_refl).
  rewrite Hp3. cbn [subscribed with_state]. rewrite Hsub.
  assert (Hs3 : peerState w3 p = mkPeerState PState.CONNECTED (Some i) ws rtc)
    by (unfold peerState; rewrite Hp3; reflexivity).
  cbn [peerStateChanged]. rewrite Hp3. cbn [identifyHandler with_state]. rewrite Hid, Hs3.
  cbn [type]. unfold updateIdentifiedPeerMap. rewrite Hs3. cbn [identity].
  change (identifiedPeers w3) with (identifiedPeers w). rewrite Hget.
  match goal with |- context [type (peerState ?x p)] =>
    assert (Ht : type (peerState x p) = PState.CONNECTED)
      by (unfold peerState, updPeer at 1; cbn [peerHeap w_peerHeap];
          rewrite Nat.eqb_refl; cbn [peerHeap w_identifiedPeers with_handlers state];
          rewrite Hp3; reflexivity);
    rewrite Ht end.
  reflexivity.
Qed.

(** X18: the handshake that succeeds.  A well-formed Identify frame with
    an identity that is not ours and has no peer yet, received on a
    connection that waits for the identity and is the only connection of
    an unidentified peer, connects: the connection is CONNECTED with that
    identity, the peer is CONNECTED and has the identity, the peer is filed
    under it in [identifiedPeers], [onConnect] and
    [onConnectedPeersChanged] fire once and nothing else is observed, the
    version, name and worker flag of the frame are on the peer, and the
    announced port is put on an inbound WebSocket connection. *)
Theorem handshake_completes env peer connection (i : Identity) versionText n nm worker
    ws rtc w :
  connState w connection = CState.WAITING_FOR_IDENTITY ->
  wellFormedIdentify env i versionText nm ->
  i <> publicIdentity (localPeer env) ->
  state (peerHeap w peer) = mkPeerState PState.CONNECTING None ws rtc ->
  (ws = Some connection /\ rtc = None) \/ (ws = None /\ rtc = Some connection) ->
  c_boundTo (connections w connection) = Some peer ->
  subscribed (peerHeap w peer) = true -> identifyHandler (peerHeap w peer) = true ->
  getPeer i w = None -> depth env <> O ->
  let w' := handleMessage env peer connection (Identify i versionText n nm worker) w in
  let k := connections w connection in
  connState w' connection = CState.CONNECTED i
  /\ state (peerHeap w' peer) = mkPeerState PState.CONNECTED (Some i) ws rtc
  /\ identifiedPeers w' = JsMap.set i peer (identifiedPeers w)
  /\ events w' = OnConnectedPeersChanged :: OnConnect peer :: events w
  /\ version (peerHeap w' peer) = Some (parseVersion env versionText)
  /\ name (peerHeap w' peer) = orNull nm
  /\ isWorker (peerHeap w' peer) = match worker with Some b => b | None => false end
  /\ c_port (connections w' connection)
     = match c_type k, c_direction k with
       | WebSocket, Inbound => orNullZ n
       | _, _ => c_port k
       end
  /\ peers w' = peers w /\ nextConnection w' = nextConnection w.
Proof.
  intros Hw (V1 & V2 & V3) Hme Hs Hslot Hb Hsub Hid Hget Hd. cbv zeta.
  unfold handleMessage. rewrite Hw. unfold handleWaitingForIdentityMessage. cbv zeta.
  rewrite V1, V2, V3. cbn [negb].
  destruct (String.eqb_spec i (publicIdentity (localPeer env))) as [E|_]; [contradiction|].
  rewrite moveConnection_unidentified by (unfold peerState; rewrite Hs; reflexivity).
  rewrite Hget. cbn [duplicateOf].
  unfold completeIdentify. cbv zeta.
  match goal with |- context [updPeer peer ?f ?x] => set (w2 := updPeer peer f x) end.
  assert (Hk : connections w2 connection
               = match c_type (connections w connection),
                       c_direction (connections w connection) with
                 | WebSocket, Inbound => c_with_port (orNullZ n) (connections w connection)
                 | _, _ => connections w connection
                 end).
  { unfold w2. destruct (c_type _); [destruct (c_direction _)|]; cbn;
      rewrite ?Nat.eqb_refl; reflexivity. }
  assert (Hp : peerHeap w2 peer
               = with_version (Some (parseVersion env versionText))
                   (with_isWorker (match worker with Some b => b | None => false end)
                      (with_name (orNull nm) (peerHeap w peer)))).
  { unfold w2. destruct (c_type _); [destruct (c_direction _)|]; cbn;
      rewrite ?Nat.eqb_refl; reflexivity. }
  assert (Hrest : identifiedPeers w2 = identifiedPeers w /\ events w2 = events w
                  /\ peers w2 = peers w /\ nextConnection w2 = nextConnection w).
  { unfold w2. destruct (c_type _); [destruct (c_direction _)|]; repeat split. }
  destruct Hrest as (R1 & R2 & R3 & R4).
  rewrite (Connection_setState_connected (depth env) _ connection i peer ws rtc w2).
  - cbn [connState connections emit updPeer updConn w_connections w_peerHeap w_identifiedPeers
         peerHeap identifiedPeers events peers nextConnection].
    rewrite !Nat.eqb_refl, Hk, Hp, R1, R2, R3, R4.
    destruct (c_type (connections w connection)); [destruct (c_direction _)|];
      cbn; repeat split.
    all: unfold connState; cbn; rewrite Nat.eqb_refl; reflexivity.
  - unfold connState. rewrite Hk.
    destruct (c_type _); [destruct (c_direction _)|]; exact Hw.
  - rewrite Hk. destruct (c_type _); [destruct (c_direction _)|]; exact Hb.
  - rewrite Hp. exact Hs.
  - exact Hslot.
  - rewrite Hp. exact Hsub.
  - rewrite Hp. exact Hid.
  - rewrite R1. exact Hget.
  - exact Hd.
Qed.

(** An inbound socket that completes the handshake as [BBBB]. *)
Lemma handshake_completes_witness :
  let env := sampleEnv 10000 in
  let w := snd (createPeerFromInboundWebSocketConnection env None emptyWorld) in
  let w' := handleMessage env O O (sampleIdentify "BBBB"%string) w in
  connState w' O = CState.CONNECTED "BBBB"%string
  /\ state (peerHeap w' O) = mkPeerState PState.CONNECTED (Some "BBBB"%string) (Some O) None
  /\ identifiedPeers w' = [("BBBB"%string, O)].
Proof.
  cbv zeta.
  destruct (handshake_completes (sampleEnv 10000) O O "BBBB"%string "ironfish/1/cli"%string (Some 9033)
              None None (Some O) None
              (snd (createPeerFromInboundWebSocketConnection (sampleEnv 10000) None emptyWorld)))
    as (A & B & C & _).
  - vm_compute. reflexivity.
  - vm_compute. repeat split.
  - vm_compute. discriminate.
  - vm_compute. reflexivity.
  - left. split; reflexivity.
  - vm_compute. reflexivity.
  - vm_compute. reflexivity.
  - vm_compute. reflexivity.
  - vm_compute. reflexivity.
  - vm_compute. discriminate.
  - split; [exact A|]. split; [exact B | exact C].
Defined.

(** * A node that comes back *)

(** A connected connection put in the WebSocket slot of a DISCONNECTED
    peer that has its identity handler behind it: the peer is CONNECTED
    and [onConnect] fires. *)
Lemma Peer_setWebSocketConnection_adopts depth e c (i : Identity) w :
  depth <> O ->
  type (peerState w e) = PState.DISCONNECTED ->
  connState w c = CState.CONNECTED i ->
  subscribed (peerHeap w e) = true -> identifyHandler (peerHeap w e) = false ->
  Peer_setWebSocketConnection (peerStateChanged depth) e c w
  = emit OnConnectedPeersChanged
      (emit (OnConnect e)
         (updPeer e (with_state (mkPeerState PState.CONNECTED (Some i) (Some c) None))
            (updConn c (c_with_boundTo (Some e)) w))).
Proof.
  intros Hd Ht Hc Hsub Hid. destruct depth as [|d]; [now contradiction Hd|].
  unfold Peer_setWebSocketConnection, wsSlot, rtcSlot. rewrite Ht. cbv zeta.
  set (w1 := updConn c (c_with_boundTo (Some e)) w).
  change (peerState w1 e) with (peerState w e). rewrite Ht.
  assert (Hc1 : connState w1 c = CState.CONNECTED i).
  { unfold w1, connState, updConn. cbn. rewrite Nat.eqb_refl. exact Hc. }
  unfold Peer_setState, computeType, computeIdentity, connectedIdentity, slotConnected.
  rewrite Hc1. cbn [CState.isConnected orb].
  change (peerState w1 e) with (peerState w e). rewrite Ht.
  set (w2 := updPeer e _ w1).
  assert (Hp2 : peerHeap w2 e
                = with_state (mkPeerState PState.CONNECTED (Some i) (Some c) None)
                    (peerHeap w e))
    by (unfold w2; cbn; now rewrite Nat.eqb_refl).
  rewrite Hp2. cbn [subscribed with_state]. rewrite Hsub.
  cbn [peerStateChanged]. rewrite Hp2. cbn [identifyHandler with_state]. rewrite Hid.
  assert (Hs2 : peerState w2 e = mkPeerState PState.CONNECTED (Some i) (Some c) None)
    by (unfold peerState; rewrite Hp2; reflexivity).
  rewrite Hs2. reflexivity.
Qed.

(** The last connection of a CONNECTED peer is taken from it while the
    peer may still be dialled: the peer is DISCONNECTED, keeps its
    identity, and [onDisconnect] fires. *)
Lemma Peer_removeConnection_last depth p c (i : Identity) r w :
  depth <> O ->
  state (peerHeap w p) = mkPeerState PState.CONNECTED (Some i) (Some c) None ->
  subscribed (peerHeap w p) = true ->
  Peer_getConnectionRetry (peerHeap w p) WebSocket Outbound = Some r ->
  neverRetry r = false ->
  Peer_removeConnection (peerStateChanged depth) p c w
  = emit OnConnectedPeersChanged
      (emit (OnDisconnect p)
         (updPeer p (with_state (mkPeerState PState.DISCONNECTED (Some i) None None))
            (updConn c (unbind p) w))).
Proof.
  intros Hd Hs Hsub Hr Hn. destruct depth as [|d]; [now contradiction Hd|].
  unfold Peer_removeConnection. cbv zeta.
  set (w1 := updConn c (unbind p) w).
  change (peerState w1 p) with (state (peerHeap w p)). rewrite Hs.
  cbn [type webSocket webRtc eqSlot]. rewrite Nat.eqb_refl.
  unfold Peer_setState, computeType, computeIdentity, connectedIdentity.
  change (peerState w1 p) with (state (peerHeap w p)). rewrite Hs. cbn [type identity].
  set (w2 := updPeer p _ w1).
  assert (Hp2 : peerHeap w2 p
                = with_state (mkPeerState PState.DISCONNECTED (Some i) None None)
                    (peerHeap w p))
    by (unfold w2; cbn; now rewrite Nat.eqb_refl).
  rewrite Hp2. cbn [subscribed with_state]. rewrite Hsub.
  assert (Hs2 : peerState w2 p = mkPeerState PState.DISCONNECTED (Some i) None None)
    by (unfold peerState; rewrite Hp2; reflexivity).
  cbn [peerStateChanged]. rewrite Hs2. cbn [type].
  assert (Hsame : (if identifyHandler (peerHeap w2 p) then w2 else w2) = w2)
    by (destruct (identifyHandler _); reflexivity).
  rewrite Hsame, Hs2. cbn [type PState.eqb].
  rewrite tryDisposePeer_false; [reflexivity|].
  unfold canDispose, Peer_getConnectionRetry. cbn [peerHeap emit].
  rewrite Hp2. cbn [connectionRetries with_state].
  unfold Peer_getConnectionRetry in Hr. rewrite Hr. unfold willNeverRetryConnecting.
  rewrite Hn. apply andb_false_r.
Qed.

Lemma peerStateChanged_S d peer prevState w :
  peerStateChanged (S d) peer prevState w
  = let w :=
      if identifyHandler (peerHeap w peer) then
        match type (peerState w peer) with
        | PState.CONNECTED =>
            updPeer peer (fun r => with_handlers (subscribed r) false r)
              (updateIdentifiedPeerMap (peerStateChanged d) peer w)
        | _ => w
        end
      else w in
    match type (peerState w peer) with
    | PState.CONNECTED =>
        if PState.eqb prevState PState.CONNECTED then w
        else emit OnConnectedPeersChanged (emit (OnConnect peer) w)
    | _ =>
        if PState.eqb prevState PState.CONNECTED
        then snd (tryDisposePeer peer
                    (emit OnConnectedPeersChanged (emit (OnDisconnect peer) w)))
        else w
    end.
Proof. reflexivity. Qed.

(** The merge of [updateIdentifiedPeerMap] for the WebSocket transport,
    when the existing peer is DISCONNECTED: the connection goes to the
    existing peer and leaves the new one. *)
Lemma mergeWebSocket_moves depth p e c (i : Identity) r w :
  depth <> O -> p <> e ->
  state (peerHeap w p) = mkPeerState PState.CONNECTED (Some i) (Some c) None ->
  connState w c = CState.CONNECTED i ->
  subscribed (peerHeap w p) = true ->
  Peer_getConnectionRetry (peerHeap w p) WebSocket Outbound = Some r ->
  neverRetry r = false ->
  type (peerState w e) = PState.DISCONNECTED ->
  subscribed (peerHeap w e) = true -> identifyHandler (peerHeap w e) = false ->
  mergeWebSocket (peerStateChanged depth) p e w
  = emit OnConnectedPeersChanged
      (emit (OnDisconnect p)
         (updPeer p (with_state (mkPeerState PState.DISCONNECTED (Some i) None None))
            (updConn c (unbind p)
               (emit OnConnectedPeersChanged
                  (emit (OnConnect e)
                     (updPeer e
                        (with_state (mkPeerState PState.CONNECTED (Some i) (Some c) None))
                        (updConn c (c_with_boundTo (Some e)) w))))))).
Proof.
  intros Hd Hpe Hs Hc Hsub Hr Hnever Hte Hsube Hide.
  assert (Epe : Nat.eqb p e = false) by (apply Nat.eqb_neq; congruence).
  assert (Hsp : peerState w p = mkPeerState PState.CONNECTED (Some i) (Some c) None)
    by exact Hs.
  unfold mergeWebSocket, wsSlot. rewrite Hsp, Hte. cbn [type webSocket slotConnected].
  rewrite Hc. cbn [CState.isConnected]. cbv zeta.
  rewrite Hsp. cbn [type webSocket].
  rewrite (Peer_setWebSocketConnection_adopts depth e c i w Hd Hte Hc Hsube Hide).
  set (W2 := emit OnConnectedPeersChanged (emit (OnConnect e) _)).
  assert (Hp2 : peerHeap W2 p = peerHeap w p)
    by (unfold W2; cbn [peerHeap emit updPeer w_peerHeap updConn w_connections];
        rewrite Epe; reflexivity).
  assert (Hs2 : peerState W2 p = mkPeerState PState.CONNECTED (Some i) (Some c) None)
    by (unfold peerState; rewrite Hp2; exact Hs).
  rewrite Hs2. cbn [type webSocket].
  apply (Peer_removeConnection_last depth p c i r W2 Hd).
  - rewrite Hp2. exact Hs.
  - rewrite Hp2. exact Hsub.
  - rewrite Hp2. exact Hr.
  - exact Hnever.
Qed.

(** The state change that ends the handshake of a node that comes back:
    its identity has a peer already, DISCONNECTED, and the connection is
    the only one of a new, unidentified peer. *)
Lemma Connection_setState_merges d hello c (i : Identity) p e r w :
  connState w c = CState.WAITING_FOR_IDENTITY ->
  c_boundTo (connections w c) = Some p ->
  state (peerHeap w p) = mkPeerState PState.CONNECTING None (Some c) None ->
  subscribed (peerHeap w p) = true -> identifyHandler (peerHeap w p) = true ->
  knownPeers (peerHeap w p) = [] ->
  Peer_getConnectionRetry (peerHeap w p) WebSocket Outbound = Some r ->
  neverRetry r = false ->
  JsMap.get i (identifiedPeers w) = Some e -> e <> p ->
  type (peerState w e) = PState.DISCONNECTED ->
  subscribed (peerHeap w e) = true -> identifyHandler (peerHeap w e) = false ->
  let w' := Connection_setState (peerStateChanged (S (S d))) hello c (CState.CONNECTED i) w in
  connState w' c = CState.CONNECTED i
  /\ c_boundTo (connections w' c) = Some e
  /\ peerHeap w' e
     = with_state (mkPeerState PState.CONNECTED (Some i) (Some c) None) (peerHeap w e)
  /\ type (peerState w' p) = PState.DISCONNECTED
  /\ peers w' = filter (fun q => negb (Nat.eqb q p)) (peers w)
  /\ identifiedPeers w' = identifiedPeers w
  /\ events w'
     = OnConnectedPeersChanged :: OnDisconnect p
       :: OnConnectedPeersChanged :: OnConnect e :: events w
  /\ nextConnection w' = nextConnection w /\ nextPeer w' = nextPeer w.
Proof.
  intros Hw Hb Hs Hsub Hid Hkn Hr Hnever Hget Hep Hte Hsube Hide. cbv zeta.
  assert (Epe : Nat.eqb p e = false) by (apply Nat.eqb_neq; congruence).
  assert (Eep : Nat.eqb e p = false) by (apply Nat.eqb_neq; congruence).
  unfold Connection_setState. rewrite Hw. cbn [CState.validTransition]. cbv zeta.
  set (w1 := updConn c (c_with_state (CState.CONNECTED i)) w).
  assert (Hc1 : connections w1 c = c_with_state (CState.CONNECTED i) (connections w c))
    by (unfold w1; cbn; now rewrite Nat.eqb_refl).
  assert (Hi1 : identifyWhenWaiting hello c w1 = w1).
  { unfold identifyWhenWaiting, connState. rewrite Hc1. cbn [c_state c_with_state].
    destruct (c_identifyPending _); reflexivity. }
  rewrite Hi1, Hc1. cbn [c_boundTo c_with_state]. rewrite Hb.
  change (peerState w1 p) with (state (peerHeap w p)). rewrite Hs.
  cbn [webSocket webRtc].
  unfold Peer_setState.
  change (peerState w1 p) with (state (peerHeap w p)). rewrite Hs. cbn [type identity].
  assert (Hty : computeType w1 (Some c) None = PState.CONNECTED
                /\ computeIdentity w1 None (Some c) None = Some i).
  { unfold computeType, computeIdentity, connectedIdentity, slotConnected, connState.
    rewrite Hc1. cbn. split; reflexivity. }
  destruct Hty as [-> ->].
  set (w3 := updPeer p _ w1).
  assert (Hp3 : peerHeap w3 p
                = with_state (mkPeerState PState.CONNECTED (Some i) (Some c) None)
                    (peerHeap w p))
    by (unfold w3; cbn; now rewrite Nat.eqb_refl).
  assert (He3 : peerHeap w3 e = peerHeap w e)
    by (unfold w3; cbn; now rewrite Eep).
  assert (Hs3 : peerState w3 p = mkPeerState PState.CONNECTED (Some i) (Some c) None)
    by (unfold peerState; rewrite Hp3; reflexivity).
  assert (Hc3 : connState w3 c = CState.CONNECTED i)
    by (unfold connState; change (connections w3 c) with (connections w1 c);
        rewrite Hc1; reflexivity).
  rewrite Hp3. cbn [subscribed with_state]. rewrite Hsub.
  rewrite peerStateChanged_S. cbv zeta.
  rewrite Hp3. cbn [identifyHandler with_state]. rewrite Hid, Hs3.
  cbn [type]. unfold updateIdentifiedPeerMap. rewrite Hs3. cbn [identity type].
  change (identifiedPeers w3) with (identifiedPeers w). rewrite Hget, Epe.
  (* the two merges *)
  assert (Hrtc : mergeWebRtc (peerStateChanged (S d)) p e w3 = w3).
  { unfold mergeWebRtc, rtcSlot. rewrite Hs3. reflexivity. }
  rewrite Hrtc.
  rewrite (mergeWebSocket_moves (S d) p e c i r w3);
    try assumption; try discriminate; try congruence;
    try (rewrite Hp3; assumption); try (rewrite He3; assumption).
  set (W4 := Peer_updateRetry p WebSocket Outbound neverRetryConnecting _).
  assert (Hp4 : peerHeap W4 p
                = with_connectionRetries
                    (updateRetry WebSocket Outbound neverRetryConnecting
                       (connectionRetries (peerHeap w p)))
                    (with_state (mkPeerState PState.DISCONNECTED (Some i) None None)
                       (peerHeap w p))).
  { unfold W4, Peer_updateRetry.
    cbn [peerHeap emit updPeer w_peerHeap updConn w_connections].
    rewrite !Nat.eqb_refl, Epe. cbn [connectionRetries with_state]. rewrite Hp3.
    reflexivity. }
  assert (Hi4 : identifiedPeers W4 = identifiedPeers w) by reflexivity.
  assert (Hcan : canDispose W4 p = true).
  { unfold canDispose, hasAConnectedPeer, peerState, Peer_getConnectionRetry.
    rewrite Hp4. cbn [state with_connectionRetries with_state type knownPeers
                      connectionRetries PState.eqb].
    rewrite Hkn, retryOf_updateRetry. unfold Peer_getConnectionRetry in Hr. rewrite Hr.
    reflexivity. }
  assert (Hdisp : snd (tryDisposePeer p W4)
                  = w_peers (filter (fun q => negb (Nat.eqb q p)) (peers w))
                      (Peer_dispose p W4)).
  { unfold tryDisposePeer. rewrite Hcan. cbn [snd].
    assert (Hf : forgetIdentity p (Peer_dispose p W4) = Peer_dispose p W4).
    { unfold forgetIdentity, peerState, Peer_dispose.
      cbn [peerHeap updPeer w_peerHeap identifiedPeers]. rewrite Nat.eqb_refl, Hp4.
      cbn [state with_handlers with_knownPeers with_connectionRetries with_state identity].
      rewrite Hi4, Hget. cbn [isPeer]. rewrite (proj2 (Nat.eqb_neq e p) Hep).
      now rewrite andb_false_r. }
    rewrite Hf. reflexivity. }
  rewrite Hdisp.
  set (U := updPeer p (fun r0 => with_handlers (subscribed r0) false r0) _).
  assert (HpU : state (peerHeap U p) = mkPeerState PState.DISCONNECTED (Some i) None None).
  { unfold U, Peer_dispose. cbn [peerHeap updPeer w_peerHeap w_peers].
    rewrite !Nat.eqb_refl, Hp4. reflexivity. }
  assert (HtU : type (peerState U p) = PState.DISCONNECTED)
    by (unfold peerState; rewrite HpU; reflexivity).
  rewrite HtU. cbn [PState.eqb].
  assert (HeU : peerHeap U e
                = with_state (mkPeerState PState.CONNECTED (Some i) (Some c) None)
                    (peerHeap w e)).
  { unfold U, Peer_dispose, W4, Peer_updateRetry.
    cbn [peerHeap emit updPeer w_peerHeap w_peers updConn w_connections].
    rewrite !Nat.eqb_refl, !Eep, He3. reflexivity. }
  assert (HcU : connections U c
                = unbind p (c_with_boundTo (Some e)
                              (c_with_state (CState.CONNECTED i) (connections w c)))).
  { unfold U, Peer_dispose, W4, Peer_updateRetry.
    cbn [connections emit updPeer w_peerHeap w_peers updConn w_connections].
    rewrite !Nat.eqb_refl.
    change (connections w3 c) with (connections w1 c). rewrite Hc1. reflexivity. }
  split; [unfold connState; rewrite HcU; unfold unbind; cbn [c_boundTo c_with_boundTo eqSlot];
          rewrite Eep; reflexivity|].
  split; [rewrite HcU; unfold unbind; cbn [c_boundTo c_with_boundTo eqSlot];
          rewrite Eep; reflexivity|].
  split; [exact HeU|].
  split; [exact HtU|].
  repeat split.
  unfold peerState. rewrite He3. exact Hte.
Qed.


(** X22: a node that comes back is merged onto the record we have of it.
    A well-formed Identify frame arrives on the only connection of a new,
    unidentified peer, and its identity already has a peer, which is
    DISCONNECTED and not under a disconnect we requested.  Then the
    connection is CONNECTED and belongs to the existing peer, which is
    CONNECTED with it in its WebSocket slot; the new peer is DISCONNECTED
    and gone from the list; [identifiedPeers] is as it was; [onConnect]
    fires for the existing peer and [onDisconnect] for the new one; and
    the version, name and worker flag of the frame, put on the new peer,
    do not reach the existing one. *)
Theorem returning_node_is_merged env p c e (i : Identity) versionText n nm worker r w :
  connState w c = CState.WAITING_FOR_IDENTITY ->
  wellFormedIdentify env i versionText nm ->
  i <> publicIdentity (localPeer env) ->
  state (peerHeap w p) = mkPeerState PState.CONNECTING None (Some c) None ->
  c_boundTo (connections w c) = Some p ->
  subscribed (peerHeap w p) = true -> identifyHandler (peerHeap w p) = true ->
  knownPeers (peerHeap w p) = [] ->
  Peer_getConnectionRetry (peerHeap w p) WebSocket Outbound = Some r ->
  neverRetry r = false ->
  getPeer i w = Some e -> e <> p ->
  type (peerState w e) = PState.DISCONNECTED ->
  subscribed (peerHeap w e) = true -> identifyHandler (peerHeap w e) = false ->
  (forall until, localRequestedDisconnectUntil (peerHeap w e) = Some until ->
                 until <= now env) ->
  (2 <= depth env)%nat ->
  let w' := handleMessage env p c (Identify i versionText n nm worker) w in
  connState w' c = CState.CONNECTED i
  /\ c_boundTo (connections w' c) = Some e
  /\ state (peerHeap w' e) = mkPeerState PState.CONNECTED (Some i) (Some c) None
  /\ type (peerState w' p) = PState.DISCONNECTED
  /\ peers w' = filter (fun q => negb (Nat.eqb q p)) (peers w)
  /\ identifiedPeers w' = identifiedPeers w
  /\ events w'
     = OnConnectedPeersChanged :: OnDisconnect p
       :: OnConnectedPeersChanged :: OnConnect e :: events w
  /\ version (peerHeap w' e) = version (peerHeap w e)
  /\ name (peerHeap w' e) = name (peerHeap w e)
  /\ isWorker (peerHeap w' e) = isWorker (peerHeap w e).
Proof.
  intros Hw (V1 & V2 & V3) Hme Hs Hb Hsub Hid Hkn Hr Hnever Hget Hep Hte Hsube Hide
         Hstay Hdepth.
  cbv zeta.
  assert (Epe : Nat.eqb p e = false) by (apply Nat.eqb_neq; congruence).
  assert (Eep : Nat.eqb e p = false) by (apply Nat.eqb_neq; congruence).
  destruct (depth env) as [|[|d]] eqn:Ed; [lia | lia |]. clear Hdepth.
  unfold handleMessage. rewrite Hw. unfold handleWaitingForIdentityMessage. cbv zeta.
  rewrite V1, V2, V3. cbn [negb].
  destruct (String.eqb_spec i (publicIdentity (localPeer env))) as [E|_]; [contradiction|].
  rewrite moveConnection_unidentified by (unfold peerState; rewrite Hs; reflexivity).
  rewrite Hget. unfold duplicateOf. rewrite Hte.
  unfold completeIdentify. cbv zeta.
  match goal with |- context [updPeer p ?f ?x] => set (w2 := updPeer p f x) end.
  assert (Hle : peerHeap w2 e = peerHeap w e).
  { unfold w2. destruct (c_type _); [destruct (c_direction _)|]; cbn;
      rewrite Eep; reflexivity. }
  assert (Hnostay :
            match localRequestedDisconnectUntil (peerHeap w2 e) with
            | Some until => if now env <? until then Some (e, until) else None
            | None => None
            end = None).
  { rewrite Hle. destruct (localRequestedDisconnectUntil (peerHeap w e)) as [u|] eqn:Eu;
      [|reflexivity].
    assert (Hu := Hstay u eq_refl). apply Z.ltb_ge in Hu. now rewrite Hu. }
  rewrite Hnostay. rewrite Ed.
  assert (Hk : connections w2 c
               = match c_type (connections w c), c_direction (connections w c) with
                 | WebSocket, Inbound => c_with_port (orNullZ n) (connections w c)
                 | _, _ => connections w c
                 end).
  { unfold w2. destruct (c_type _); [destruct (c_direction _)|]; cbn;
      rewrite ?Nat.eqb_refl; reflexivity. }
  assert (Hp : peerHeap w2 p
               = with_version (Some (parseVersion env versionText))
                   (with_isWorker (match worker with Some b => b | None => false end)
                      (with_name (orNull nm) (peerHeap w p)))).
  { unfold w2. destruct (c_type _); [destruct (c_direction _)|]; cbn;
      rewrite ?Nat.eqb_refl; reflexivity. }
  assert (Hrest : identifiedPeers w2 = identifiedPeers w /\ events w2 = events w
                  /\ peers w2 = peers w).
  { unfold w2. destruct (c_type _); [destruct (c_direction _)|]; repeat split. }
  destruct Hrest as (R1 & R2 & R3).
  destruct (Connection_setState_merges d (getIdentifyMessage (localPeer env)) c i p e r w2)
    as (A & B & C & D & E & F & G & _).
  - unfold connState. rewrite Hk. destruct (c_type _); [destruct (c_direction _)|]; exact Hw.
  - rewrite Hk. destruct (c_type _); [destruct (c_direction _)|]; exact Hb.
  - rewrite Hp. exact Hs.
  - rewrite Hp. exact Hsub.
  - rewrite Hp. exact Hid.
  - rewrite Hp. exact Hkn.
  - rewrite Hp. exact Hr.
  - exact Hnever.
  - rewrite R1. exact Hget.
  - exact Hep.
  - unfold peerState. rewrite Hle. exact Hte.
  - rewrite Hle. exact Hsube.
  - rewrite Hle. exact Hide.
  - cbv zeta in A, B, C, D, E, F, G. rewrite A, B, C, D, E, F, G, R1, R2, R3, Hle.
    repeat split.
Qed.

Lemma returning_node_is_merged_witness :
  let env := sampleEnv 10000 in
  let w' := handleMessage env 1%nat 1%nat (sampleIdentify "BBBB"%string) (returning env) in
  connState w' 1%nat = CState.CONNECTED "BBBB"%string
  /\ state (peerHeap w' O) = mkPeerState PState.CONNECTED (Some "BBBB"%string) (Some 1%nat) None
  /\ peers w' = [O]
  /\ getPeer "BBBB"%string w' = Some O.
Proof.
  cbv zeta. unfold sampleIdentify.
  assert (Hl : peers (returning (sampleEnv 10000)) = [O; 1%nat]) by (vm_compute; reflexivity).
  assert (Hm : identifiedPeers (returning (sampleEnv 10000)) = [("BBBB"%string, O)])
    by (vm_compute; reflexivity).
  destruct (returning_node_is_merged (sampleEnv 10000) 1%nat 1%nat O "BBBB"%string "ironfish/1/cli"%string
              (Some 9033) None None newRetry (returning (sampleEnv 10000)))
    as (A & _ & B & _ & C & D & _).
  - vm_compute. reflexivity.
  - vm_compute. repeat split.
  - vm_compute. discriminate.
  - vm_compute. reflexivity.
  - vm_compute. reflexivity.
  - vm_compute. reflexivity.
  - vm_compute. reflexivity.
  - vm_compute. reflexivity.
  - vm_compute. reflexivity.
  - reflexivity.
  - vm_compute. reflexivity.
  - discriminate.
  - vm_compute. reflexivity.
  - vm_compute. reflexivity.
  - vm_compute. reflexivity.
  - intros until0 H.
    assert (E : localRequestedDisconnectUntil (peerHeap (returning (sampleEnv 10000)) O) = None)
      by (vm_compute; reflexivity).
    rewrite E in H. discriminate H.
  - vm_compute. lia.
  - split; [exact A|]. split; [exact B|]. split; [rewrite C, Hl; reflexivity|].
    unfold getPeer. rewrite D, Hm. reflexivity.
Defined.
